(* ===== verification/_CoqProject ===== *)
-Q . S2P
Prelude.v
Core.v
SandboxModel.v
Paths.v
Admission.v
Placement.v
Vmm.v
Pool.v
Proto.v
Digest.v
Json.v
AuditLog.v
Dns.v
Net.v
Firecracker.v
Store.v
SqlStore.v
Schema.v
Auth.v
Router.v
E2bCloud.v
CloudLaws.v
CloudVolumes.v
Guest.v
Processes.v
E2bModel.v
AppState.v
Lifecycle.v
E2bHandlers.v
CloudHandlers.v
ApiHandlers.v
Sdk.v
Ctl.v
Control.v
Capacity.v
Provisioning.v
Handlers.v
Requests.v
Startup.v
NodeRegistry.v
GuestAgent.v
GuestSessions.v
FrameClient.v
Layers.v
Images.v
Docker.v
Boot.v
NodeAgent.v
NodeStart.v
NodeLaws.v
NodeService.v
