(* ===== verification/Prelude.v ===== *)
(** * Clouisle Sandbox: a verification library

    Clouisle runs untrusted programs in micro virtual machines.  A control plane
    ([crates/clouisle-api]) takes HTTP requests, keeps a row per sandbox in a store,
    reserves capacity, and creates machines through a trait with three back ends:
    Firecracker, Docker (for development) and a remote node.  A node daemon
    ([crates/clouisled]) does the same work for one machine behind gRPC.  Inside a
    sandbox an agent ([crates/clouisle-agent]) serves commands, processes and files
    over length-prefixed frames.  Images come from a registry and become ext4 files
    ([crates/clouisle-images]).

    The library models these programs as Gallina functions and step relations,
    translated from the Rust sources under [src/], and proves what makes them
    correct.  What is outside of [src/] (operating system, database engines, crates,
    the registry, the Docker daemon, the transport of gRPC) is a class over an opaque
    world; its documented behaviour is a second class ([...Ok]) that theorems name as
    a hypothesis, and every such hypothesis has an instance in the library.

    ** Conventions

    - A Rust result is [res E A]: [Ok], [Err] or [Panic]; [stres S E A] threads a
      state.  A trait is a class, an implementation an instance, an enum an inductive
      type, a [HashMap] a [gmap] (where the iteration order shows, it is the class
      [HashOrder]).
    - Integers are [Z] with their wrap-around, saturation or cast written out where
      the code computes with them; the release build wraps.  [f64] is [SpecFloat]
      with 53 bits.  Strings are bytes.
    - The clock, the UUIDs and random secrets are read from the world.
    - A handler runs from its start to its end; a job it spawns becomes a task of the
      state that runs later, in any order.  Where the interleaving inside of an
      operation matters (admission, the warm pool, event streams, the processes of a
      guest, concurrent pulls of an image), the atomic steps are a relation of their
      own.  A time limit ([within]) is a call that may also end in the error of the
      limit.  The Linux configuration is the one modelled.

    ** Files

    Foundations.
    - [Prelude]: results, the state monad, strings, numbers and their text, lists and
      maps; the tactics and hint databases of the library.
    - [Paths]: [std::path]; [Json]: [serde_json::Value], hash order, string slices;
      [Digest]: SHA-256 as a class.
    - [Core] ([clouisle-core]: errors, resources, executions, timing, nodes) and
      [SandboxModel] (specification and its validation, status machine, aggregate).

    Capacity, placement and machines.
    - [Admission] ([clouisle-scheduler/admission.rs]), [Placement] ([placement.rs]).
    - [Vmm] (the trait), [Firecracker], [Docker] (back ends of [clouisle-vmm]),
      [Pool] ([clouisle-pool]: warm machines).
    - [Net] ([clouisle-net]: namespaces, nftables, firewall manager), [Dns] (the DNS
      proxy).
    - [Layers], [Images] ([clouisle-images]: unpacking, cache, build, volumes).

    Guests.
    - [Proto] ([clouisle-proto]: frames, decoder, stream codec).
    - [GuestAgent] ([clouisle-agent/serve.rs], [limits.rs]), [GuestSessions] (its
      processes as a transition system), [Boot] ([init.rs], [main.rs]).
    - [Guest] (the traits of the host's side), [FrameClient]
      ([clouisle-api/agent.rs]: connectors and the frame connection).

    Data.
    - [Store] (trait, promise, memory store), [SqlStore] (SQLite, PostgreSQL), [Schema]
      (opening and upgrading their databases), [AuditLog] ([clouisle-audit]).

    Control plane ([clouisle-api]).
    - [Auth] ([auth.rs], [middleware_auth.rs], [error.rs]), [E2bCloud]
      ([e2b_cloud.rs]) with its laws in [CloudLaws] and [CloudVolumes], [E2bModel]
      ([e2b.rs]), [Processes] (session registry and event streams).
    - [AppState] ([state.rs]), [Lifecycle] ([handlers/sandbox.rs], reconciler, reaper),
      [E2bHandlers], [CloudHandlers], [ApiHandlers] (the other handlers), [Control]
      (the whole as one transition system).
    - [Router] ([router.rs], [middleware.rs]), [Sdk] ([sdk/rust]) and [Ctl]
      ([clouislectl]): paths, dispatch, and the clients that call them.
    - [Startup] ([main.rs], [host_capacity]): what the command line selects, and the
      reservations taken again for the rows of an earlier run.
    - Laws: [Capacity], [Provisioning], [Handlers], [Requests], [NodeRegistry] (what the
      report of a node does to the rows).

    Node daemon ([clouisled]).
    - [NodeAgent] ([agent.rs]), [NodeLaws], [NodeService] ([server.rs],
      [reconciler.rs] and the control plane's [node_client.rs]), [NodeStart] ([main.rs]:
      configuration and heartbeat).

    ** What the theorems show

    - Capacity: concurrent admissions never oversubscribe a dimension; along every run
      of the control plane each permit is in the pool, in the table or with a job that
      has not run ([Capacity]), also when it starts over the rows of an earlier run
      ([Startup]); the tables of a node daemon agree with its pool whatever fails
      ([NodeLaws]).
    - Life of a sandbox: the status machine refines an abstract life cycle; a
      provisioning ends in a running row with its machine or in a failed row without
      one; a creation on a node is all or nothing; deletion is complete; automatic
      recovery is bounded; a paused sandbox is restored by a request for it; a round of
      reconciliation converges and spares every machine a row names; an answered heartbeat
      makes the rows agree with what runs on the node.
    - Machines: Firecracker keeps the promise of the trait and orphans no process; the
      warm pool leases a machine to one client and loses none; a Docker container gets
      exactly the limits and mounts of its specification, below the mount root.
    - Guests: the frame decoder recovers the stream under every chunking; a remote call
      is the guest's own operation (the wire is transparent); files survive the round
      trip; every started process is reported and releases its terminal; the booted
      guest has the address the host dials; a remote command is the node's command.
    - Data: the stores refine a map and are interchangeable; opening a database creates
      and adds what is missing and loses nothing; acknowledged operations
      of the E2B control plane are durable; the audit head commits to the log; values
      in the store stay typed.
    - Separation: a request of one tenant leaves the sandboxes of another alone; teams
      are isolated; the request filter fails closed, and every route is behind it; the
      egress rules decide as the policy says; the DNS proxy opens addresses of
      allowed names only; calls on behalf of a layer name paths below the target directory
      (what links do to that is in [Layers.Disk]).
    - Images: a pulled image stays pulled; one build runs per image at a time.
    - Clients: every call of the SDK and every command of the command line reaches the
      handler it is named after; a stream of events is read back, up to the lines the
      client cuts off.

    Lemmas named after a defect state one that modelling showed (a lost wake-up, a
    registry that is not reconnected, a link that leads out of a layer, ...).

    ** Bounds and fuel

    Recursion that is not structural has a bound that is proved or chosen large
    enough: the frame decoder runs [S (length buffer)] rounds and the service loop
    [S (length input)] (each consumes a byte); a thread of admission has 8 steps, of
    release 6; the tap device is tried 30 times, the API socket 14, the registry 3, as
    in the code; the connectors try [timeout/300 + 2] or [timeout/200 + 2] rounds (each
    takes at least that time); an octal mode has 11 digits (32 bits); channels keep
    their capacities (32 for a body and for the exec stream of a node, 64 for a
    broadcast, 4096 for an exec); [follow] consumes an item per round; a walk along a
    path in [Layers.Disk] makes 100 steps, where the kernel allows 40 links.
    [NodeAgent.patience] bounds the frames a guest sends before an operation counts as
    waiting; theorems hold for every value of it.

    ** Not modelled

    The wiring of loops and listeners in the [main.rs] of the daemons, the warming of
    persisted templates at start (a handler that a time limit can cancel at any await),
    log and metric output ([clouisle-obs], [metrics.rs]), the parsing of command lines
    (clap), SQL text, generated gRPC code, the connections the tests of the control
    plane use in place of a guest, and the SDKs in other languages. *)

From Stdlib Require Export Ascii.
From stdpp Require Export base tactics option list gmap strings.
From Stdlib Require Export ZArith Lia.
From Stdlib Require Import DecimalString DecimalPos DecimalN.

#[global] Open Scope Z_scope.
#[global] Arguments String.append : simpl nomatch.

(** ** Results, with panics

    A Rust function that returns [Result<A, E>] can finish in three ways: with
    a value, with an error value, or by panicking (an overflow check of a
    dependency, an [expect], an out-of-range slice).  The three stay apart in
    every definition of the library. *)

Inductive res (E A : Type) : Type :=
| Ok (a : A)
| Err (e : E)
| Panic.
Arguments Ok {E A} a.
Arguments Err {E A} e.
Arguments Panic {E A}.

#[export] Instance res_ret E : MRet (res E) := λ A a, Ok a.
#[export] Instance res_bind E : MBind (res E) := λ A B f m,
  match m with Ok a => f a | Err e => Err e | Panic => Panic end.
#[export] Instance res_fmap E : FMap (res E) := λ A B f m,
  match m with Ok a => Ok (f a) | Err e => Err e | Panic => Panic end.

Definition is_ok {E A} (m : res E A) : bool :=
  match m with Ok _ => true | _ => false end.

(** [Option::ok_or]. *)
Definition ok_or {E A} (e : E) (o : option A) : res E A :=
  match o with Some a => Ok a | None => Err e end.

(** [Result::map_err] and the [From] conversion of the [?] operator. *)
Definition map_err {E F A} (f : E → F) (m : res E A) : res F A :=
  match m with Ok a => Ok a | Err e => Err (f e) | Panic => Panic end.

Definition res_option {E A} (m : res E A) : option A :=
  match m with Ok a => Some a | _ => None end.

(** [iter().map(f).collect()] where [f] may fail or panic. *)
Fixpoint map_res {E A B} (f : A → res E B) (l : list A) : res E (list B) :=
  match l with
  | [] => Ok []
  | x :: l' => y ← f x; ys ← map_res f l'; Ok (y :: ys)
  end.

(** ** State passing with early return

    [stres S E A] is the type of a handler that reads and writes a shared
    state [S]: an early return keeps every write made before it, as the Rust
    handlers do (there is no rollback). *)

Definition stres (S E A : Type) : Type := S → S * res E A.

#[export] Instance stres_ret S E : MRet (stres S E) := λ A a s, (s, Ok a).
#[export] Instance stres_bind S E : MBind (stres S E) := λ A B f m s,
  match m s with
  | (s', Ok a) => f a s'
  | (s', Err e) => (s', Err e)
  | (s', Panic) => (s', Panic)
  end.

Section stres_ops.
Context {S E : Type}.

Definition gets {A} (f : S → A) : stres S E A := λ s, (s, Ok (f s)).
Definition modify (f : S → S) : stres S E () := λ s, (f s, Ok tt).
Definition lift {A} (m : res E A) : stres S E A := λ s, (s, m).
Definition fail {A} (e : E) : stres S E A := λ s, (s, Err e).
Definition when (b : bool) (m : stres S E ()) : stres S E () :=
  if b then m else mret ().

(** [let _ = e.await;] and [if let Err(e) = ...]: the outcome becomes a value,
    and a panic still unwinds. *)
Definition attempt {F A} (m : stres S F A) : stres S E (res F A) := λ s,
  match m s with
  | (s', Ok a) => (s', Ok (Ok a))
  | (s', Err e) => (s', Ok (Err e))
  | (s', Panic) => (s', Panic)
  end.
End stres_ops.

Lemma bind_ok {S E A B} (m : stres S E A) (f : A → stres S E B) s s' a :
  m s = (s', Ok a) → (m ≫= f) s = f a s'.
Proof. unfold mbind, stres_bind. by intros ->. Qed.

Lemma bind_err {S E A B} (m : stres S E A) (f : A → stres S E B) s s' e :
  m s = (s', Err e) → (m ≫= f) s = (s', Err e).
Proof. unfold mbind, stres_bind. by intros ->. Qed.

Lemma outcome_eta {A B} (x : A * B) o : x.2 = o → x = (x.1, o).
Proof. destruct x. by intros <-. Qed.

(** ** Machine integers

    A [w]-bit unsigned integer is a [Z] in [[0, 2^w)]; conversions and
    arithmetic write out what Rust does at the boundary. *)

Definition u8_max : Z := 255.
Definition u16_max : Z := 65535.
Definition u32_max : Z := 4294967295.
Definition u64_max : Z := 18446744073709551615.
Definition i64_max : Z := 9223372036854775807.

Definition in_u16 (z : Z) : Prop := 0 ≤ z ≤ u16_max.
Definition in_u32 (z : Z) : Prop := 0 ≤ z ≤ u32_max.
Definition in_u64 (z : Z) : Prop := 0 ≤ z ≤ u64_max.

(** [as u16], [as u32]: truncation to the low bits. *)
Definition as_u16 (z : Z) : Z := z mod 65536.
Definition as_u32 (z : Z) : Z := z mod 4294967296.

(** [as i64] of a [u64]: the two's complement reading of the same bits. *)
Definition as_i64 (z : Z) : Z :=
  let m := z mod 18446744073709551616 in
  if m <=? i64_max then m else m - 18446744073709551616.

Definition checked_add (max a b : Z) : option Z :=
  if a + b <=? max then Some (a + b) else None.
Definition saturating_sub (a b : Z) : Z := Z.max 0 (a - b).
Definition saturating_mul (max a b : Z) : Z := Z.min max (a * b).

Lemma as_u16_id z : in_u16 z → as_u16 z = z.
Proof. unfold in_u16, u16_max, as_u16. intros. apply Z.mod_small. lia. Qed.
Lemma as_u32_id z : in_u32 z → as_u32 z = z.
Proof. unfold in_u32, u32_max, as_u32. intros. apply Z.mod_small. lia. Qed.
Lemma as_i64_small z : 0 ≤ z ≤ i64_max → as_i64 z = z.
Proof.
  unfold as_i64, i64_max. intros. rewrite Z.mod_small by lia.
  by rewrite (proj2 (Z.leb_le _ _)) by lia.
Qed.

(** ** Strings

    A Rust [String] is its sequence of UTF-8 bytes, one [ascii] per byte; the
    operations that look at characters decode them first. *)

Abbreviation byte_of := Ascii.N_of_ascii.

(** [str::chars]: the code points of a valid UTF-8 string (the lead byte gives
    the length; [str] guarantees validity). *)
Fixpoint chars (s : string) : list N :=
  match s with
  | EmptyString => []
  | String a s1 =>
    let b := byte_of a in
    if (b <? 128)%N then b :: chars s1
    else match s1 with
    | EmptyString => []
    | String a2 s2 =>
      let b2 := (byte_of a2 mod 64)%N in
      if (b <? 224)%N then ((b mod 32) * 64 + b2)%N :: chars s2
      else match s2 with
      | EmptyString => []
      | String a3 s3 =>
        let b3 := (byte_of a3 mod 64)%N in
        if (b <? 240)%N then ((b mod 16) * 4096 + b2 * 64 + b3)%N :: chars s3
        else match s3 with
        | EmptyString => []
        | String a4 s4 =>
          ((b mod 8) * 262144 + b2 * 4096 + b3 * 64 + byte_of a4 mod 64)%N :: chars s4
        end
      end
    end
  end.

(** [char::is_whitespace]: the Unicode [White_Space] property. *)
Definition is_whitespace (c : N) : bool :=
  ((9 <=? c) && (c <=? 13))%N || (c =? 32)%N || (c =? 133)%N || (c =? 160)%N
  || (c =? 5760)%N || ((8192 <=? c) && (c <=? 8202))%N || (c =? 8232)%N
  || (c =? 8233)%N || (c =? 8239)%N || (c =? 8287)%N || (c =? 12288)%N.

(** [char::encode_utf8]. *)
Definition encode_char (c : N) : string :=
  let byte (n : N) (s : string) := String (Ascii.ascii_of_N n) s in
  if (c <? 128)%N then byte c ""
  else if (c <? 2048)%N then byte (192 + c / 64)%N (byte (128 + c mod 64)%N "")
  else if (c <? 65536)%N then
    byte (224 + c / 4096)%N (byte (128 + c / 64 mod 64)%N (byte (128 + c mod 64)%N ""))
  else byte (240 + c / 262144)%N (byte (128 + c / 4096 mod 64)%N
         (byte (128 + c / 64 mod 64)%N (byte (128 + c mod 64)%N ""))).

Fixpoint drop_while {A} (p : A → bool) (l : list A) : list A :=
  match l with [] => [] | x :: l' => if p x then drop_while p l' else l end.

(** [str::trim]. *)
Definition trim (s : string) : string :=
  foldr (λ c t, String.append (encode_char c) t) ""%string
    (rev (drop_while is_whitespace (rev (drop_while is_whitespace (chars s))))).

(** [String::from_utf8_lossy]: every maximal prefix of a sequence that cannot be
    completed becomes one U+FFFD.  [second] is the range of the second byte after
    a lead byte, and how many continuation bytes follow it. *)
Definition second (b : N) : option (N * N * nat) :=
  (if b <? 194 then None else if b <? 224 then Some (128, 191, O)
   else if b =? 224 then Some (160, 191, 1%nat) else if b =? 237 then Some (128, 159, 1%nat)
   else if b <? 240 then Some (128, 191, 1%nat) else if b =? 240 then Some (144, 191, 2%nat)
   else if b <? 244 then Some (128, 191, 2%nat) else if b =? 244 then Some (128, 143, 2%nat)
   else None)%N.
Definition between (lo hi b : N) : bool := ((lo <=? b) && (b <=? hi))%N.
Definition replacement : list N := [239; 191; 189]%N.

Fixpoint lossy (bs : list N) : list N :=
  match bs with
  | [] => []
  | b :: r =>
    if (b <? 128)%N then b :: lossy r
    else match second b with
    | None => replacement ++ lossy r
    | Some (lo, hi, more) =>
      match r with
      | [] => replacement
      | b2 :: r2 =>
        if negb (between lo hi b2) then replacement ++ lossy r
        else match more, r2 with
        | O, _ => b :: b2 :: lossy r2
        | _, [] => replacement
        | S more', b3 :: r3 =>
          if negb (between 128 191 b3) then replacement ++ lossy r2
          else match more', r3 with
          | O, _ => b :: b2 :: b3 :: lossy r3
          | _, [] => replacement
          | _, b4 :: r4 =>
            if negb (between 128 191 b4) then replacement ++ lossy r3
            else b :: b2 :: b3 :: b4 :: lossy r4
          end
        end
      end
    end
  end.
Definition from_utf8_lossy (bs : list Byte.byte) : string :=
  foldr (λ b t, String (Ascii.ascii_of_N b) t) ""%string (lossy (Byte.to_N <$> bs)).

Example lossy_invalid :
  lossy [104; 226; 130; 105; 240; 159; 152; 128; 255]%N
  = [104; 239; 191; 189; 105; 240; 159; 152; 128; 239; 191; 189]%N.
Proof. reflexivity. Qed.

(** [char::is_control]: the Unicode category [Cc]. *)
Definition is_control (c : N) : bool :=
  (c <? 32)%N || ((127 <=? c) && (c <=? 159))%N.

(** [s.trim().is_empty()]: nothing but white space. *)
Definition trim_is_empty (s : string) : bool := forallb is_whitespace (chars s).

Definition is_empty (s : string) : bool := String.eqb s "".

Fixpoint contains_char (c : ascii) (s : string) : bool :=
  match s with
  | EmptyString => false
  | String a s' => Ascii.eqb a c || contains_char c s'
  end.
Definition contains_any (cs : list ascii) (s : string) : bool :=
  existsb (λ c, contains_char c s) cs.

(** [str::split(c)]: never empty; the empty string splits into one part. *)
Fixpoint split (c : ascii) (s : string) : list string :=
  match s with
  | EmptyString => [""]
  | String a s' =>
    if Ascii.eqb a c then "" :: split c s'
    else match split c s' with
         | [] => [String a ""]
         | p :: ps => String a p :: ps
         end
  end.

(** [str::lines]: a line ends at a line feed, with a carriage return before it or not. *)
Definition strip_cr (l : string) : string :=
  match rev (String.list_ascii_of_string l) with
  | "013"%char :: r => String.string_of_list_ascii (rev r)
  | _ => l
  end.
Definition LF : ascii := "010"%char.
Definition lines (s : string) : list string :=
  let parts := split LF s in
  strip_cr <$> match last parts with Some ""%string => removelast parts | _ => parts end.

(** [str::split_once(c)]. *)
Fixpoint split_once (c : ascii) (s : string) : option (string * string) :=
  match s with
  | EmptyString => None
  | String a s' =>
    if Ascii.eqb a c then Some ("", s')
    else (λ '(x, y), (String a x, y)) <$> split_once c s'
  end.

Fixpoint strip_prefix (p s : string) : option string :=
  match p, s with
  | EmptyString, _ => Some s
  | String a p', String b s' => if Ascii.eqb a b then strip_prefix p' s' else None
  | String _ _, EmptyString => None
  end.
Definition starts_with (p s : string) : bool :=
  match strip_prefix p s with Some _ => true | None => false end.

(** [str::contains] with a text. *)
Fixpoint contains_str (p s : string) : bool :=
  starts_with p s || match s with EmptyString => false | String _ s' => contains_str p s' end.

Fixpoint ends_with (q s : string) : bool :=
  String.eqb s q || match s with EmptyString => false | String _ s' => ends_with q s' end.

Fixpoint trim_end_matches (c : ascii) (s : string) : string :=
  match s with
  | EmptyString => ""
  | String a s' =>
    let t := trim_end_matches c s' in
    if Ascii.eqb a c && is_empty t then "" else String a t
  end.
Fixpoint trim_start_matches (c : ascii) (s : string) : string :=
  match s with
  | EmptyString => ""
  | String a s' => if Ascii.eqb a c then trim_start_matches c s' else s
  end.

Definition to_ascii_lowercase_char (a : ascii) : ascii :=
  let b := byte_of a in
  if ((65 <=? b) && (b <=? 90))%N then Ascii.ascii_of_N (b + 32) else a.
Fixpoint to_ascii_lowercase (s : string) : string :=
  match s with
  | EmptyString => ""
  | String a s' => String (to_ascii_lowercase_char a) (to_ascii_lowercase s')
  end.

(** [slice::join]. *)
Fixpoint join (sep : string) (ps : list string) : string :=
  match ps with
  | [] => ""
  | [p] => p
  | p :: ps' => p +:+ sep +:+ join sep ps'
  end.

(** Splitting and joining are inverse. *)
Lemma split_nonempty c s : split c s ≠ [].
Proof. induction s as [|a s IH]; simpl; [done|]. destruct (Ascii.eqb a c); [done|]. by destruct (split c s). Qed.

Lemma split_app c x y : split c (x +:+ String c y) = split c x ++ split c y.
Proof.
  induction x as [|a x IH]; simpl; [by rewrite Ascii.eqb_refl|].
  destruct (Ascii.eqb a c); simpl; [by rewrite IH|]. rewrite IH.
  pose proof (split_nonempty c x). by destruct (split c x).
Qed.

Lemma join_split c s : join (String c "") (split c s) = s.
Proof.
  induction s as [|a s IH]; simpl; [done|].
  pose proof (split_nonempty c s). destruct (Ascii.eqb_spec a c) as [->|];
    destruct (split c s) as [|x l]; try done.
  - by rewrite <-IH.
  - simpl in *. rewrite <-IH. by destruct l.
Qed.

Lemma contains_char_app c x y :
  contains_char c (x +:+ y) = contains_char c x || contains_char c y.
Proof. induction x as [|a x IH]; simpl; [done|]. by rewrite IH, orb_assoc. Qed.

Lemma split_no_sep c s : Forall (λ p, contains_char c p = false) (split c s).
Proof.
  induction s as [|a s IH]; simpl; [by repeat constructor|].
  destruct (Ascii.eqb a c) eqn:Ha; [by constructor|].
  destruct (split c s) as [|p ps]; [by repeat constructor; simpl; rewrite Ha|].
  inversion IH; subst. constructor; [|done]. simpl. by rewrite Ha.
Qed.

Lemma split_one c p : contains_char c p = false → split c p = [p].
Proof.
  induction p as [|a p IH]; simpl; intros Hp; [done|].
  apply orb_false_iff in Hp as [Ha Hp]. by rewrite Ha, IH.
Qed.

Lemma split_join c ps :
  ps ≠ [] → Forall (λ p, contains_char c p = false) ps → split c (join (String c "") ps) = ps.
Proof.
  intros Hne Hps. induction Hps as [|p ps Hp Hps IH]; [done|].
  destruct ps as [|q ps]; [by apply split_one|].
  change (join (String c "") (p :: q :: ps)) with (p +:+ String c (join (String c "") (q :: ps))).
  rewrite split_app, split_one, IH by done. done.
Qed.

(** *** Decimal numbers: [format!("{n}")] and [str::parse] *)

Definition show (z : Z) : string := NilZero.string_of_uint (N.to_uint (Z.to_N z)).
Definition show_signed (z : Z) : string :=
  if z <? 0 then "-" +:+ show (- z) else show z.

(** [s.parse::<uN>()]: an optional plus sign, at least one digit, and a value
    that fits. *)
Definition parse_unsigned (max : Z) (s : string) : option Z :=
  let digits := match s with String "+"%char s' => s' | _ => s end in
  match NilZero.uint_of_string digits with
  | Some u => let z := Z.of_N (N.of_uint u) in if z <=? max then Some z else None
  | None => None
  end.

Lemma uint_first_not_plus u :
  match NilZero.string_of_uint u with String "+"%char _ => False | _ => True end.
Proof. by destruct u. Qed.

Lemma uint_no_dot u : contains_char "."%char (NilEmpty.string_of_uint u) = false.
Proof. induction u; simpl; auto. Qed.

Lemma show_no_dot z : contains_char "."%char (show z) = false.
Proof.
  unfold show. destruct (N.to_uint _) as [|u|u|u|u|u|u|u|u|u|u]; [done|..];
    apply (uint_no_dot (_ u)).
Qed.

Lemma parse_show max z : 0 ≤ z ≤ max → parse_unsigned max (show z) = Some z.
Proof.
  intros Hz. unfold parse_unsigned, show.
  pose proof (uint_first_not_plus (N.to_uint (Z.to_N z))) as Hp.
  assert (N.to_uint (Z.to_N z) ≠ Decimal.Nil) as Hnil.
  { destruct (Z.to_N z) as [|q]; simpl; [done|]. apply DecimalPos.Unsigned.to_uint_nonnil. }
  pose proof (NilZero.usu _ Hnil) as Hu.
  destruct (NilZero.string_of_uint _) as [|a s] eqn:Es; [done|].
  assert ((match String a s with String "+"%char s' => s' | _ => String a s end) = String a s) as ->.
  { by destruct a as [[] [] [] [] [] [] [] []]. }
  rewrite Hu, DecimalN.Unsigned.of_to, Z2N.id by lia.
  by rewrite (proj2 (Z.leb_le _ _)) by lia.
Qed.

(** *** Lemmas on strings *)

Lemma split_once_app c x y :
  contains_char c x = false → split_once c (x +:+ String c y) = Some (x, y).
Proof.
  induction x as [|a x IH]; simpl; intros Hx.
  - by rewrite Ascii.eqb_refl.
  - apply orb_false_iff in Hx as [-> Hx]. by rewrite IH.
Qed.

Lemma strip_prefix_app p s : strip_prefix p (p +:+ s) = Some s.
Proof. induction p as [|a p IH]; simpl; [done|]. by rewrite Ascii.eqb_refl. Qed.

Lemma strip_prefix_Some p s t : strip_prefix p s = Some t → s = p +:+ t.
Proof.
  revert s; induction p as [|a p IH]; intros s; simpl; [by intros [= ->]|].
  destruct s as [|b s]; [done|]. destruct (Ascii.eqb a b) eqn:E; [|done]. apply Ascii.eqb_eq in E as ->.
  intros ?%IH. by subst.
Qed.

Lemma ends_with_unfold q s :
  ends_with q s =
  String.eqb s q || match s with EmptyString => false | String _ s' => ends_with q s' end.
Proof. by destruct s. Qed.

Lemma ends_with_true q s : ends_with q s = true ↔ ∃ p, s = p +:+ q.
Proof.
  split.
  - induction s as [|a s IH]; rewrite ends_with_unfold; intros [H|H]%orb_true_iff;
      try apply String.eqb_eq in H as <-; try done; try (by exists ""%string).
    destruct (IH H) as [p ->]. by exists (String a p).
  - intros [p ->]. induction p as [|a p IH]; rewrite ends_with_unfold; simpl.
    + by rewrite String.eqb_refl.
    + rewrite IH. apply orb_true_r.
Qed.

Lemma string_app_nil_r s : s +:+ "" = s.
Proof. induction s; simpl; congruence. Qed.
Lemma string_app_assoc x y z : (x +:+ y) +:+ z = x +:+ (y +:+ z).
Proof. induction x; simpl; congruence. Qed.
Lemma string_length_app x y : String.length (x +:+ y) = (String.length x + String.length y)%nat.
Proof. induction x; simpl; congruence. Qed.

Lemma string_app_suffix x x' y y' :
  String.length y = String.length y' → x +:+ y = x' +:+ y' → y = y'.
Proof.
  intros Hl. revert x'. induction x as [|a x IH]; intros [|b x'] H; simpl in *; try done.
  - apply (f_equal String.length) in H. simpl in H. rewrite string_length_app in H. lia.
  - apply (f_equal String.length) in H. simpl in H. rewrite string_length_app in H. lia.
  - injection H as -> H. eauto.
Qed.

Lemma string_app_prefix x x' y y' :
  String.length x = String.length x' → x +:+ y = x' +:+ y' → x = x' ∧ y = y'.
Proof.
  revert x'. induction x as [|a x IH]; intros [|b x']; simpl; intros Hl H; try lia; [done|].
  injection H as -> H. destruct (IH x') as [-> ->]; [lia|done|done].
Qed.

(** ** Lists *)

(** The first position whose element satisfies [p] ([Iterator::position]). *)
Fixpoint position {A} (p : A → bool) (l : list A) : option nat :=
  match l with
  | [] => None
  | x :: l' => if p x then Some 0%nat else S <$> position p l'
  end.

Fixpoint sum_list_Z (l : list Z) : Z :=
  match l with [] => 0 | x :: l' => x + sum_list_Z l' end.

Lemma sum_list_Z_app l1 l2 : sum_list_Z (l1 ++ l2) = sum_list_Z l1 + sum_list_Z l2.
Proof. induction l1; simpl; lia. Qed.

(** A sum over the elements of a list, and how it changes when one element is
    replaced or removed. *)
Definition sum_by {A} (w : A → Z) (l : list A) : Z := sum_list_Z (w <$> l).

(** The sum of a weight over the values of a map. *)
Definition sum_map {A} (w : A → Z) (m : gmap string A) : Z := map_fold (λ _ x n, w x + n) 0 m.

Lemma sum_map_insert {A} (w : A → Z) m k x :
  m !! k = None → sum_map w (<[k := x]> m) = w x + sum_map w m.
Proof. intros Hk. unfold sum_map. rewrite map_fold_insert_L; [done|intros; lia|done]. Qed.

Lemma sum_map_delete {A} (w : A → Z) m k x :
  m !! k = Some x → sum_map w m = w x + sum_map w (delete k m).
Proof. intros Hk. unfold sum_map. rewrite (map_fold_delete_L _ 0 k x m); [done|intros; lia|done]. Qed.

Lemma sum_by_perm {A} (f : A → Z) l l' : l ≡ₚ l' → sum_by f l = sum_by f l'.
Proof. unfold sum_by. induction 1; csimpl; lia. Qed.

#[export] Instance list_filter_perm {B} (f : B → bool) : Proper ((≡ₚ) ==> (≡ₚ)) (List.filter f).
Proof.
  intros l1 l2 Hl. induction Hl; simpl; [done|by case_match; [constructor|]|
    repeat case_match; by econstructor|by etrans].
Qed.

Lemma sum_by_app {A} (w : A → Z) l1 l2 : sum_by w (l1 ++ l2) = sum_by w l1 + sum_by w l2.
Proof. unfold sum_by. by rewrite fmap_app, sum_list_Z_app. Qed.

Lemma sum_by_insert {A} (w : A → Z) l i x y :
  l !! i = Some x → sum_by w (<[i := y]> l) = sum_by w l - w x + w y.
Proof.
  unfold sum_by. revert i. induction l as [|z l IH]; intros [|i] H; simplify_eq/=; [lia|].
  rewrite IH by done. lia.
Qed.

Lemma sum_by_delete {A} (w : A → Z) l i x :
  l !! i = Some x → sum_by w (delete i l) = sum_by w l - w x.
Proof.
  unfold sum_by. revert i. induction l as [|z l IH]; intros [|i] H; simplify_eq/=; [lia|].
  rewrite IH by done. lia.
Qed.

Lemma sum_by_le {A} (v w : A → Z) l :
  Forall (λ x, v x ≤ w x) l → sum_by v l ≤ sum_by w l.
Proof. unfold sum_by. induction 1; csimpl in *; lia. Qed.

Lemma sum_by_nonneg {A} (w : A → Z) l : Forall (λ x, 0 ≤ w x) l → 0 ≤ sum_by w l.
Proof. unfold sum_by. induction 1; csimpl in *; lia. Qed.

Lemma sum_by_ext_Forall {A} (v w : A → Z) l :
  Forall (λ x, v x = w x) l → sum_by v l = sum_by w l.
Proof. unfold sum_by. induction 1; csimpl in *; lia. Qed.

Lemma sum_by_one {A} (w : A → Z) l :
  Forall (λ x, w x = 1) l → sum_by w l = Z.of_nat (length l).
Proof. unfold sum_by. induction 1; csimpl in *; lia. Qed.

Lemma position_Some {A} (p : A → bool) l i :
  position p l = Some i → ∃ x, l !! i = Some x ∧ p x = true.
Proof.
  revert i; induction l as [|x l IH]; intros i; simpl; [done|].
  destruct (p x) eqn:Hp; [intros [= <-]; eauto|].
  destruct (position p l); simpl; [|done]. intros [= <-]. by apply IH.
Qed.

Lemma position_None {A} (p : A → bool) l :
  position p l = None → ∀ x, x ∈ l → p x = false.
Proof.
  induction l as [|y l IH]; simpl; [intros _ x Hx; by apply elem_of_nil in Hx|].
  destruct (p y) eqn:Hp; [done|]. destruct (position p l); [done|].
  intros _ x [->|Hx]%elem_of_cons; auto.
Qed.

Lemma position_first {A} (p : A → bool) l i j x :
  position p l = Some i → (j < i)%nat → l !! j = Some x → p x = false.
Proof.
  revert i j; induction l as [|y l IH]; intros i j; simpl; [done|].
  destruct (p y) eqn:Hp; [intros [= <-]; lia|].
  destruct (position p l) as [k|]; simpl; [|done]. intros [= <-] Hj.
  destruct j as [|j]; simpl; [by intros [= <-]|]. intros. eapply IH; eauto. lia.
Qed.

(** [iter_mut().find(p)] followed by a write: only the first match changes. *)
Fixpoint update_first {A} (p : A → bool) (f : A → A) (l : list A) : list A :=
  match l with
  | [] => []
  | x :: l' => if p x then f x :: l' else x :: update_first p f l'
  end.

Lemma update_first_fmap {A B} (g : A → B) (p : A → bool) f l :
  (∀ x, g (f x) = g x) → g <$> update_first p f l = g <$> l.
Proof. intros Hf. induction l as [|x l IH]; simpl; [done|]. destruct (p x); csimpl; congruence. Qed.

Lemma update_first_none {A} (p : A → bool) f l :
  (∀ x, x ∈ l → p x = false) → update_first p f l = l.
Proof.
  induction l as [|x l IH]; simpl; intros H; [done|]. rewrite (H x) by set_solver.
  f_equal. apply IH. set_solver.
Qed.

(** With distinct keys, the first match is the only one. *)
Lemma lookup_update_first {A} (p : A → bool) f l i x :
  l !! i = Some x → p x = false → update_first p f l !! i = Some x.
Proof.
  revert i. induction l as [|y l IH]; intros [|i] Hi Hp; simplify_eq/=; [by rewrite Hp|].
  destruct (p y); simpl; auto.
Qed.

Lemma elem_of_update_first {A} (key : A → string) i f l y :
  NoDup (key <$> l) →
  y ∈ update_first (λ x, String.eqb (key x) i) f l ↔
  (y ∈ l ∧ key y ≠ i) ∨ (∃ x, x ∈ l ∧ key x = i ∧ y = f x).
Proof.
  induction l as [|x l IH]; simpl; [set_solver|]. intros [Hx Hnd]%NoDup_cons.
  destruct (String.eqb_spec (key x) i) as [<-|Hne].
  - assert (∀ z, z ∈ l → key z ≠ key x) as Hl.
    { intros z Hz Heq. apply Hx. rewrite <-Heq. by apply list_elem_of_fmap_2. }
    setoid_rewrite elem_of_cons. split.
    + intros [->|Hy]; [right; eauto|left; eauto].
    + intros [[[->|Hy] Hk]|(z & [->|Hz] & Hk & ->)]; [done|by right|by left|].
      by destruct (Hl z Hz).
  - setoid_rewrite elem_of_cons. rewrite IH by done. naive_solver.
Qed.

Lemma NoDup_fmap_filter {A B} (g : A → B) (p : A → bool) l :
  NoDup (g <$> l) → NoDup (g <$> List.filter p l).
Proof.
  induction l as [|x l IH]; csimpl; [done|]. intros [Hx Hnd]%NoDup_cons.
  destruct (p x); csimpl; [|auto]. apply NoDup_cons. split; [|auto].
  intros (y & Hy & Hin)%list_elem_of_fmap. apply Hx. rewrite Hy. apply list_elem_of_fmap_2.
  apply list_elem_of_In, filter_In in Hin as [Hin _]. by apply list_elem_of_In.
Qed.

Lemma elem_of_List_filter {A} (p : A → bool) l y :
  y ∈ List.filter p l ↔ y ∈ l ∧ p y = true.
Proof. by rewrite !list_elem_of_In, filter_In. Qed.

Lemma filter_true_id {A} (p : A → bool) l :
  (∀ x, x ∈ l → p x = true) → List.filter p l = l.
Proof.
  induction l as [|x l IH]; simpl; intros H; [done|]. rewrite H by set_solver.
  f_equal. apply IH. set_solver.
Qed.

Lemma find_app_last {A} (p : A → bool) l x :
  (∀ y, y ∈ l → p y = false) → p x = true → List.find p (l ++ [x]) = Some x.
Proof.
  induction l as [|y l IH]; simpl; intros H Hx; [by rewrite Hx|].
  rewrite H by set_solver. apply IH; [set_solver|done].
Qed.

Lemma NoDup_fmap_lookup_eq {A B} (g : A → B) l i x y :
  NoDup (g <$> l) → l !! i = Some x → y ∈ l → g y = g x → y = x.
Proof.
  intros Hnd Hi Hy Hg. apply list_elem_of_lookup in Hy as [j Hj].
  assert (i = j) as <-; [|congruence].
  eapply (NoDup_lookup (g <$> l)); [done|by rewrite list_lookup_fmap, Hi|].
  by rewrite list_lookup_fmap, Hj, <-Hg.
Qed.

(** Replacing an element by one with the same key. *)
Lemma elem_of_insert_same {A B} (g : A → B) l i x x' y :
  NoDup (g <$> l) → l !! i = Some x → g x' = g x →
  y ∈ <[i := x']> l ↔ (y ∈ l ∧ g y ≠ g x) ∨ y = x'.
Proof.
  intros Hnd Hi Hg. pose proof (lookup_lt_Some _ _ _ Hi) as Hlt. rewrite !list_elem_of_lookup. split.
  - intros [j Hj]. destruct (decide (i = j)) as [<-|Hne].
    + rewrite list_lookup_insert_eq in Hj by done. naive_solver.
    + rewrite list_lookup_insert_ne in Hj by done. left. split; [eauto|]. intros Heq.
      destruct Hne. eapply (NoDup_lookup (g <$> l)); [done|by rewrite list_lookup_fmap, Hi|].
      by rewrite list_lookup_fmap, Hj, <-Heq.
  - intros [[[j Hj] Hk]| ->].
    + exists j. rewrite list_lookup_insert_ne; [done|]. intros ->. congruence.
    + exists i. by apply list_lookup_insert_eq.
Qed.

Lemma fmap_insert_same {A B} (g : A → B) (l : list A) i x x' :
  l !! i = Some x → g x' = g x → g <$> <[i := x']> l = g <$> l.
Proof.
  intros Hi Hg. rewrite list_fmap_insert. apply list_insert_id.
  rewrite list_lookup_fmap, Hi. simpl. congruence.
Qed.

(** [enumerate().filter(p).min_by_key(key)]: the first element with the least
    key among those that satisfy [p], and its position. *)
Fixpoint min_by_key {A} (p : A → bool) (key : A → Z) (l : list A) : option (nat * A) :=
  match l with
  | [] => None
  | x :: l' =>
    match min_by_key p key l' with
    | None => if p x then Some (0%nat, x) else None
    | Some (j, y) => if p x && (key x <=? key y) then Some (0%nat, x) else Some (S j, y)
    end
  end.

Lemma min_by_key_None {A} (p : A → bool) key l :
  min_by_key p key l = None → ∀ i x, l !! i = Some x → p x = false.
Proof.
  induction l as [|x l IH]; simpl; [done|].
  destruct (min_by_key p key l) as [[j y]|]; [by destruct (p x && _)|].
  destruct (p x) eqn:Hp; [done|]. intros _ [|i] z Hz; simplify_eq/=; eauto.
Qed.

Lemma min_by_key_Some {A} (p : A → bool) key l i x :
  min_by_key p key l = Some (i, x) →
  l !! i = Some x ∧ p x = true ∧
  (∀ j y, l !! j = Some y → p y = true → key x ≤ key y ∧ ((j < i)%nat → key x < key y)).
Proof.
  revert i x. induction l as [|x l IH]; intros i x'; simpl; [done|].
  destruct (min_by_key p key l) as [[j y]|] eqn:Hm.
  - destruct (IH j y eq_refl) as (Hy & Hp & Hmin).
    destruct (p x && (key x <=? key y)) eqn:Hc; intros [= <- <-].
    + apply andb_true_iff in Hc as [Hpx Hle%Z.leb_le].
      split_and!; [done..|]. intros [|k] z Hz Hpz; simplify_eq/=; [lia|].
      destruct (Hmin k z Hz Hpz). lia.
    + split_and!; [done..|]. intros [|k] z Hz Hpz; simplify_eq/=.
      * rewrite Hpz in Hc. simpl in Hc. apply Z.leb_gt in Hc. lia.
      * destruct (Hmin k z Hz Hpz). split; [lia|]. intros. auto with lia.
  - destruct (p x) eqn:Hp; intros [= <- <-]. split_and!; [done..|].
    intros [|k] z Hz Hpz; simplify_eq/=; [lia|].
    by rewrite (min_by_key_None p key l Hm k z Hz) in Hpz.
Qed.

(** [slice::sort_by], a stable sort: an element goes before the ones it
    compares equal to that came after it. *)
Fixpoint insert_by {A} (cmp : A → A → comparison) (x : A) (l : list A) : list A :=
  match l with
  | [] => [x]
  | y :: l' => match cmp x y with Gt => y :: insert_by cmp x l' | _ => x :: l end
  end.
Fixpoint sort_by {A} (cmp : A → A → comparison) (l : list A) : list A :=
  match l with [] => [] | x :: l' => insert_by cmp x (sort_by cmp l') end.

(** The first element of the sorted list is the first minimum of the input,
    when the comparison is a weak order on its elements. *)
Lemma sort_by_head {A} (cmp : A → A → comparison) (P : A → Prop) l :
  (∀ x y, P x → P y → cmp x y = CompOpp (cmp y x)) →
  (∀ x y z, P x → P y → P z → cmp x y ≠ Gt → cmp y z ≠ Gt → cmp x z ≠ Gt) →
  Forall P l →
  match sort_by cmp l with
  | [] => l = []
  | x :: _ => ∃ l1 l2, l = l1 ++ x :: l2 ∧ Forall (λ y, cmp y x = Gt) l1
                       ∧ Forall (λ y, cmp x y ≠ Gt) l2
  end.
Proof.
  intros Hanti Htrans. induction 1 as [|a l Ha Hl IH]; simpl; [done|].
  destruct (sort_by cmp l) as [|h t]; simpl; [subst l; by exists [], []|].
  destruct IH as (l1 & l2 & -> & H1 & H2). apply Forall_app in Hl as [HP1 [Hh HP2]%Forall_cons].
  destruct (cmp a h) eqn:Hc;
    [exists [], (l1 ++ h :: l2)|exists [], (l1 ++ h :: l2)|
     exists (a :: l1), l2; by split_and!; [|constructor|]].
  all: split_and!; [done..|]; rewrite Forall_app, Forall_cons; split_and!; [|congruence|];
    rewrite Forall_forall in *; intros y Hy; apply (Htrans a h y); auto; try congruence;
    rewrite Hanti, (H1 y Hy) by auto; done.
Qed.

(** ** Finite sequences of steps *)

Section star.
Context {A : Type} (R : A → A → Prop).

Inductive star : A → A → Prop :=
| star_refl a : star a a
| star_step a b c : R a b → star b c → star a c.

Lemma star_trans a b c : star a b → star b c → star a c.
Proof. induction 1; eauto using star. Qed.

Lemma star_one a b : R a b → star a b.
Proof. eauto using star. Qed.

Lemma star_invariant (I : A → Prop) a b :
  (∀ x y, I x → R x y → I y) → star a b → I a → I b.
Proof. intros Hs. induction 1; eauto. Qed.
End star.

(** ** Weakest preconditions

    [wp m s Q]: run from [s], [m] ends with an outcome and a state that [Q]
    accepts.  The rules follow the shape of the code. *)

Definition wp {S E A} (m : stres S E A) (s : S) (Q : res E A → S → Prop) : Prop :=
  Q (m s).2 (m s).1.

Section wp.
Context {S E : Type}.
Implicit Types s : S.

Lemma wp_elim {A} (m : stres S E A) s Q s' r : wp m s Q → m s = (s', r) → Q r s'.
Proof. unfold wp. by intros HQ Hm; rewrite Hm in HQ. Qed.
Lemma wp_mono {A} (m : stres S E A) s (Q Q' : res E A → S → Prop) :
  wp m s Q → (∀ r s', Q r s' → Q' r s') → wp m s Q'.
Proof. unfold wp. auto. Qed.
Lemma wp_bind {A B} (m : stres S E A) (k : A → stres S E B) s Q :
  wp m s (λ r s', match r with
                  | Ok a => wp (k a) s' Q | Err e => Q (Err e) s' | Panic => Q Panic s' end) →
  wp (m ≫= k) s Q.
Proof. unfold wp, mbind, stres_bind. by destruct (m s) as [s1 [a|e|]]. Qed.
Lemma wp_ret {A} (a : A) s (Q : res E A → S → Prop) : Q (Ok a) s → wp (mret a) s Q.
Proof. done. Qed.
Lemma wp_fail {A} (e : E) s (Q : res E A → S → Prop) : Q (Err e) s → wp (fail e) s Q.
Proof. done. Qed.
Lemma wp_lift {A} (r : res E A) s (Q : res E A → S → Prop) : Q r s → wp (lift r) s Q.
Proof. done. Qed.
Lemma wp_gets {A} (f : S → A) s (Q : res E A → S → Prop) : Q (Ok (f s)) s → wp (gets f) s Q.
Proof. done. Qed.
Lemma wp_modify (f : S → S) s (Q : res E () → S → Prop) : Q (Ok ()) (f s) → wp (modify f) s Q.
Proof. done. Qed.
Lemma wp_when b (m : stres S E ()) s Q :
  (b = true → wp m s Q) → (b = false → Q (Ok ()) s) → wp (when b m) s Q.
Proof. destruct b; intros Ht Hf; [by apply Ht|by apply Hf]. Qed.
Lemma wp_attempt {A F} (m : stres S F A) s (Q : res E (res F A) → S → Prop) :
  wp m s (λ r s', match r with Panic => Q Panic s' | _ => Q (Ok r) s' end) →
  wp (attempt m) s Q.
Proof. unfold wp, attempt. by destruct (m s) as [s1 [a|e|]]. Qed.
End wp.

(** ** Tactics *)

(** Split every [match] and [if] of the goal or the hypotheses whose scrutinee
    is not itself a match, keeping the equations. *)
Ltac split_match :=
  match goal with
  | |- context [match ?x with _ => _ end] =>
    lazymatch x with context [match _ with _ => _ end] => fail | _ => destruct x eqn:? end
  | H : context [match ?x with _ => _ end] |- _ =>
    lazymatch x with context [match _ with _ => _ end] => fail | _ => destruct x eqn:? end
  end.

(** Turn boolean tests into the propositions they decide. *)
Ltac bool_to_prop :=
  repeat match goal with
  | H : _ && _ = true |- _ => apply andb_true_iff in H as [? ?]
  | H : _ || _ = false |- _ => apply orb_false_iff in H as [? ?]
  | H : negb _ = true |- _ => apply negb_true_iff in H
  | H : negb _ = false |- _ => apply negb_false_iff in H
  | H : (_ <=? _) = true |- _ => apply Z.leb_le in H
  | H : (_ <=? _) = false |- _ => apply Z.leb_gt in H
  | H : (_ <? _) = true |- _ => apply Z.ltb_lt in H
  | H : (_ <? _) = false |- _ => apply Z.ltb_ge in H
  | H : (_ =? _) = true |- _ => apply Z.eqb_eq in H
  | H : (_ =? _) = false |- _ => apply Z.eqb_neq in H
  | H : String.eqb _ _ = true |- _ => apply String.eqb_eq in H
  | H : String.eqb _ _ = false |- _ => apply String.eqb_neq in H
  end.

Ltac run_res := repeat (unfold mret, mbind, fmap, res_ret, res_bind, res_fmap in *; simpl in *).

Create HintDb clouisle.
#[export] Hint Resolve as_u16_id as_u32_id as_i64_small parse_show show_no_dot star_refl star_one
  : clouisle.
#[export] Hint Rewrite @length_app string_length_app string_app_assoc sum_list_Z_app
  strip_prefix_app : clouisle.
