(* ===== verification/Core.v ===== *)
(** * The domain model ([crates/clouisle-core])

    The pure layer of the system: error kinds, resource requirements and their
    validation, the sandbox specification and its validation, the sandbox
    status machine, the [Sandbox] aggregate, execution records, boot timing and
    the node types.  Each Rust type is a Module whose [t] is the type and whose
    definitions are its methods. *)

From S2P Require Import Prelude.

(** ** Errors ([error.rs]) *)

Module ErrorKind.
Inductive t : Set :=
| Validation | ResourceExhausted | NotFound | InvalidState | Unauthenticated
| Forbidden | QuotaExceeded | Internal | Io | Timeout | Vmm | Store | Network
| Image | Security.

#[global] Instance eq_dec : EqDecision t.
Proof. solve_decision. Defined.

Definition display (k : t) : string :=
  match k with
  | Validation => "VALIDATION"
  | ResourceExhausted => "RESOURCE_EXHAUSTED"
  | NotFound => "NOT_FOUND"
  | InvalidState => "INVALID_STATE"
  | Unauthenticated => "UNAUTHENTICATED"
  | Forbidden => "FORBIDDEN"
  | QuotaExceeded => "QUOTA_EXCEEDED"
  | Internal => "INTERNAL"
  | Io => "IO"
  | Timeout => "TIMEOUT"
  | Vmm => "VMM"
  | Store => "STORE"
  | Network => "NETWORK"
  | Image => "IMAGE"
  | Security => "SECURITY"
  end.
End ErrorKind.

Module ClouisleError.
Record t : Set := mk { kind : ErrorKind.t; message : string }.

Definition validation : string → t := mk ErrorKind.Validation.
Definition not_found : string → t := mk ErrorKind.NotFound.
Definition resource_exhausted : string → t := mk ErrorKind.ResourceExhausted.
Definition invalid_state : string → t := mk ErrorKind.InvalidState.
Definition internal : string → t := mk ErrorKind.Internal.
Definition io : string → t := mk ErrorKind.Io.
Definition timeout : string → t := mk ErrorKind.Timeout.

(** [#[error("[{kind}] {message}")]]. *)
Definition display (e : t) : string :=
  "[" +:+ ErrorKind.display (kind e) +:+ "] " +:+ message e.
End ClouisleError.

Abbreviation result := (res ClouisleError.t).

(** ** Resources ([resources.rs]) *)

Module ValidationError.
Record t : Set := mk { field : string; message : string }.
#[global] Instance eq_dec : EqDecision t.
Proof. solve_decision. Defined.
End ValidationError.

Module Resources.
Record t : Set := mk {
  vcpu : Z;
  memory_mb : Z;
  disk_mb : Z;
  bandwidth_mbps : option Z;
  iops : option Z;
  pids_max : option Z }.

#[global] Instance eq_dec : EqDecision t.
Proof. solve_decision. Defined.

Definition default : t := mk 1 256 512 None None (Some 512).

(** The machine widths of the fields. *)
Definition well_typed (r : t) : Prop :=
  in_u16 (vcpu r) ∧ in_u32 (memory_mb r) ∧ in_u32 (disk_mb r).

Definition zero_error (field msg : string) (o : option Z) : list ValidationError.t :=
  match o with
  | Some n => if n =? 0 then [ValidationError.mk field msg] else []
  | None => []
  end.

Definition validation_errors (r : t) : list ValidationError.t :=
  (if vcpu r =? 0 then [ValidationError.mk "vcpu" "vcpu must be >= 1"]
   else if 4 <? vcpu r then
     [ValidationError.mk "vcpu" ("vcpu must be <= 4, got " +:+ show (vcpu r))]
   else [])
  ++ (if memory_mb r <? 64 then
        [ValidationError.mk "memory_mb" ("memory_mb must be >= 64, got " +:+ show (memory_mb r))]
      else if 8192 <? memory_mb r then
        [ValidationError.mk "memory_mb" ("memory_mb must be <= 8192, got " +:+ show (memory_mb r))]
      else [])
  ++ (if disk_mb r <? 64 then
        [ValidationError.mk "disk_mb" ("disk_mb must be >= 64, got " +:+ show (disk_mb r))]
      else [])
  ++ zero_error "bandwidth_mbps" "bandwidth_mbps must be >= 1 if set" (bandwidth_mbps r)
  ++ zero_error "iops" "iops must be >= 1 if set" (iops r)
  ++ zero_error "pids_max" "pids_max must be >= 1 if set" (pids_max r).

Definition validate (r : t) : res (list ValidationError.t) () :=
  match validation_errors r with [] => Ok () | errors => Err errors end.

Definition max_or (a b : option Z) : option Z :=
  match a, b with
  | Some x, Some y => Some (Z.max x y)
  | Some x, None => Some x
  | None, o => o
  end.

Definition checked_add (a b : t) : option t :=
  v ← Prelude.checked_add u16_max (vcpu a) (vcpu b);
  m ← Prelude.checked_add u32_max (memory_mb a) (memory_mb b);
  d ← Prelude.checked_add u32_max (disk_mb a) (disk_mb b);
  Some (mk v m d
    (max_or (bandwidth_mbps a) (bandwidth_mbps b))
    (max_or (iops a) (iops b))
    (match pids_max a with Some p => Some p | None => pids_max b end)).

(** The limits [validate] documents. *)
Definition within_limits (r : t) : Prop :=
  1 ≤ vcpu r ≤ 4 ∧ 64 ≤ memory_mb r ≤ 8192 ∧ 64 ≤ disk_mb r
  ∧ bandwidth_mbps r ≠ Some 0 ∧ iops r ≠ Some 0 ∧ pids_max r ≠ Some 0.

Lemma zero_error_nil f m o : zero_error f m o = [] ↔ o ≠ Some 0.
Proof.
  unfold zero_error. destruct o as [n|]; [|done].
  destruct (Z.eqb_spec n 0); naive_solver.
Qed.

Lemma validation_errors_nil r :
  well_typed r → validation_errors r = [] ↔ within_limits r.
Proof.
  intros ([? _] & _ & _). unfold validation_errors, within_limits.
  rewrite !app_nil, !zero_error_nil.
  destruct (Z.eqb_spec (vcpu r) 0), (Z.ltb_spec 4 (vcpu r)),
    (Z.ltb_spec (memory_mb r) 64), (Z.ltb_spec 8192 (memory_mb r)),
    (Z.ltb_spec (disk_mb r) 64); split; intros; destruct_and?; try done; repeat split; try done; lia.
Qed.

Lemma validate_ok_iff r : well_typed r → validate r = Ok () ↔ within_limits r.
Proof.
  intros Hw. rewrite <-(validation_errors_nil r Hw). unfold validate.
  by destruct (validation_errors r).
Qed.

(** Every reported error names a field whose value breaks its limit. *)
Lemma validate_err_field r errors e :
  well_typed r → validate r = Err errors → e ∈ errors →
  (ValidationError.field e = "vcpu"%string ∧ ¬ 1 ≤ vcpu r ≤ 4)
  ∨ (ValidationError.field e = "memory_mb"%string ∧ ¬ 64 ≤ memory_mb r ≤ 8192)
  ∨ (ValidationError.field e = "disk_mb"%string ∧ disk_mb r < 64)
  ∨ (ValidationError.field e = "bandwidth_mbps"%string ∧ bandwidth_mbps r = Some 0)
  ∨ (ValidationError.field e = "iops"%string ∧ iops r = Some 0)
  ∨ (ValidationError.field e = "pids_max"%string ∧ pids_max r = Some 0).
Proof.
  intros _ He Hin. unfold validate in He.
  assert (e ∈ validation_errors r) as Hv by (destruct (validation_errors r); naive_solver).
  clear He Hin. unfold validation_errors, zero_error in Hv.
  rewrite !elem_of_app in Hv.
  destruct_or! Hv; repeat (split_match; bool_to_prop);
    repeat match goal with
    | H : _ ∈ [] |- _ => by apply elem_of_nil in H
    | H : _ ∈ [_] |- _ => apply list_elem_of_singleton in H as ->
    end; simpl; naive_solver lia.
Qed.

(** [checked_add] adds the three counted dimensions exactly or reports an
    overflow; it never wraps. *)
Lemma checked_add_spec a b :
  match checked_add a b with
  | Some c =>
      vcpu c = vcpu a + vcpu b ∧ memory_mb c = memory_mb a + memory_mb b
      ∧ disk_mb c = disk_mb a + disk_mb b
      ∧ vcpu c ≤ u16_max ∧ memory_mb c ≤ u32_max ∧ disk_mb c ≤ u32_max
  | None =>
      u16_max < vcpu a + vcpu b ∨ u32_max < memory_mb a + memory_mb b
      ∨ u32_max < disk_mb a + disk_mb b
  end.
Proof.
  unfold checked_add, Prelude.checked_add. simpl.
  destruct (Z.leb_spec (vcpu a + vcpu b) u16_max); simpl; [|naive_solver].
  destruct (Z.leb_spec (memory_mb a + memory_mb b) u32_max); simpl; [|naive_solver].
  destruct (Z.leb_spec (disk_mb a + disk_mb b) u32_max); simpl; naive_solver.
Qed.
End Resources.

(** ** Command execution ([execution.rs]) *)

Abbreviation Bytes := (list Byte.byte).

Module ExecutionSpec.
Record t : Type := mk {
  argv : list string;
  env : gmap string string;
  cwd : option string;
  timeout_ms : Z }.

Definition validate (s : t) : result () :=
  if bool_decide (argv s = []) then Err (ClouisleError.validation "argv must not be empty")
  else if timeout_ms s =? 0 then Err (ClouisleError.validation "timeout_ms must be >= 1")
  else Ok ().
End ExecutionSpec.

Module ExecutionResult.
Record t : Type := mk {
  exit_code : Z;
  stdout : Bytes;
  stderr : Bytes;
  duration_ms : Z }.
End ExecutionResult.

Module ExecutionRecord.
Record t : Type := mk {
  id : string;
  sandbox_id : string;
  spec : ExecutionSpec.t;
  exit_code : Z;
  stdout : Bytes;
  stderr : Bytes;
  started_at : Z;
  finished_at : Z;
  timed_out : bool;
  stdout_truncated : bool;
  stderr_truncated : bool;
  node_id : option string }.
End ExecutionRecord.

Module Execution.
Definition MAX_OUTPUT_BYTES : Z := 1024 * 1024.

Definition truncate_output (data : Bytes) : Bytes * bool :=
  if MAX_OUTPUT_BYTES <? Z.of_nat (length data)
  then (take (Z.to_nat MAX_OUTPUT_BYTES) data, true)
  else (data, false).

(** The stored output is a prefix of the real one, never longer than the
    bound, and the flag says exactly whether something was dropped. *)
Lemma truncate_output_spec data out flag :
  truncate_output data = (out, flag) →
  out `prefix_of` data
  ∧ Z.of_nat (length out) = Z.min (Z.of_nat (length data)) MAX_OUTPUT_BYTES
  ∧ (flag = false ↔ out = data).
Proof.
  assert (0 ≤ MAX_OUTPUT_BYTES) as Hpos by (unfold MAX_OUTPUT_BYTES; lia).
  unfold truncate_output. generalize dependent MAX_OUTPUT_BYTES. intros m Hpos.
  destruct (Z.ltb_spec m (Z.of_nat (length data))); intros [= <- <-].
  - split_and!; [apply prefix_take|rewrite length_take; lia|].
    split; [done|]. intros Heq%(f_equal length). rewrite length_take in Heq. lia.
  - split_and!; [done|lia|done].
Qed.
End Execution.

(** ** Boot timing ([timing.rs]) *)

Module SloKind.
Inductive t : Set := PoolAlloc | WarmStart | ColdStart | ImagePull.

Definition as_str (k : t) : string :=
  match k with
  | PoolAlloc => "pool_alloc"
  | WarmStart => "warm_start"
  | ColdStart => "cold_start"
  | ImagePull => "image_pull"
  end.

Definition targets_p95_ms (k : t) : Z :=
  match k with PoolAlloc => 50 | WarmStart => 100 | ColdStart => 200 | ImagePull => 0 end.
End SloKind.

Module BootTrace.
Record t : Set := mk {
  sandbox_id : string;
  t_request : option Z;
  t_scratch_ready : option Z;
  t_tap_ready : option Z;
  t_proc_spawned : option Z;
  t_api_configured : option Z;
  t_instance_start : option Z;
  t_agent_hello : option Z }.

Definition new (id : string) : t := mk id None None None None None None None.

Definition total_ms (b : t) : option Z :=
  match t_request b, t_agent_hello b with
  | Some a, Some b => Some (saturating_sub b a)
  | _, _ => None
  end.

Definition phases (b : t) : list (string * option Z) :=
  [("request", t_request b); ("scratch", t_scratch_ready b); ("tap", t_tap_ready b);
   ("spawn", t_proc_spawned b); ("configure", t_api_configured b);
   ("start", t_instance_start b); ("hello", t_agent_hello b)]%string.

(** The loop of [breakdown]: [prev] is the previous phase's stamp, also when
    that stamp is missing. *)
Fixpoint breakdown_loop (prev : option Z) (l : list (string * option Z))
  : list (string * option Z) :=
  match l with
  | [] => []
  | (name, cur) :: l' =>
    match prev, cur with
    | Some p, Some c => [(name, Some (saturating_sub c p))]
    | _, _ => []
    end ++ breakdown_loop cur l'
  end.

Definition breakdown (b : t) : list (string * option Z) := breakdown_loop None (phases b).

(** The stamps of the phases, in order, when all were taken. *)
Definition stamps (b : t) : option (list Z) := mapM snd (phases b).

Fixpoint nondecreasing (l : list Z) : bool :=
  match l with
  | x :: ((y :: _) as l') => (x <=? y) && nondecreasing l'
  | _ => true
  end.

Definition durations (l : list (string * option Z)) : list Z := omap snd l.

(** With every stamp taken in order, the phases account for the whole boot:
    the reported durations add up to [total_ms]. *)
Lemma breakdown_total b l :
  stamps b = Some l → nondecreasing l = true →
  total_ms b = Some (sum_list_Z (durations (breakdown b)))
  ∧ Forall (λ d, 0 ≤ d) (durations (breakdown b)).
Proof.
  destruct b as [id [a1|] [a2|] [a3|] [a4|] [a5|] [a6|] [a7|]]; try discriminate.
  intros [= <-] Hm. cbn in Hm. bool_to_prop.
  unfold total_ms, durations, breakdown, phases, omap. simpl. unfold saturating_sub.
  split; [f_equal; lia|]. repeat constructor; lia.
Qed.
End BootTrace.

(** ** Nodes ([types.rs]) *)

Module NodeStatus.
Inductive t : Set := Ready | Unreachable | Down | Draining.
#[global] Instance eq_dec : EqDecision t.
Proof. solve_decision. Defined.
End NodeStatus.

Module NodeInfo.
Record t : Type := mk {
  node_id : string;
  hostname : string;
  total_vcpu : Z;
  total_memory_mb : Z;
  total_disk_mb : Z;
  kvm_available : bool;
  kernel_version : string;
  firecracker_version : string;
  labels : gmap string string }.
End NodeInfo.

Module RegisteredNode.
Record t : Type := mk {
  info : NodeInfo.t;
  endpoint : string;
  status : NodeStatus.t;
  last_heartbeat_ms : Z;
  allocated_vcpu : Z;
  allocated_memory_mb : Z;
  running_sandboxes : Z;
  sandbox_ids : list string }.
End RegisteredNode.

(** ** Properties *)

(** [Resources::validate] accepts exactly the requests inside the documented
    limits (1 to 4 vCPUs, 64 to 8192 MB of memory, at least 64 MB of disk, no
    zero optional limit), and every error it reports names a field whose value
    breaks its limit. *)
Theorem resources_validate_exact r :
  Resources.well_typed r →
  (Resources.validate r = Ok () ↔ Resources.within_limits r) ∧
  (∀ errors e, Resources.validate r = Err errors → e ∈ errors →
     (ValidationError.field e = "vcpu"%string ∧ ¬ 1 ≤ Resources.vcpu r ≤ 4)
     ∨ (ValidationError.field e = "memory_mb"%string ∧ ¬ 64 ≤ Resources.memory_mb r ≤ 8192)
     ∨ (ValidationError.field e = "disk_mb"%string ∧ Resources.disk_mb r < 64)
     ∨ (ValidationError.field e = "bandwidth_mbps"%string ∧ Resources.bandwidth_mbps r = Some 0)
     ∨ (ValidationError.field e = "iops"%string ∧ Resources.iops r = Some 0)
     ∨ (ValidationError.field e = "pids_max"%string ∧ Resources.pids_max r = Some 0)).
Proof.
  intros Hw. split; [by apply Resources.validate_ok_iff|].
  intros errors e. by apply Resources.validate_err_field.
Qed.

Lemma resources_validate_exact_witness :
  Resources.validate (Resources.mk 4 8192 64 None None (Some 1)) = Ok ().
Proof.
  refine (proj2 (proj1 (resources_validate_exact (Resources.mk 4 8192 64 None None (Some 1)) _)) _).
  - unfold Resources.well_typed, in_u16, in_u32, u16_max, u32_max; simpl. lia.
  - unfold Resources.within_limits; simpl. repeat split; try done; lia.
Defined.

(** The stored output of a command is a prefix of the real one, its length
    is the real length capped at [MAX_OUTPUT_BYTES], and the flag is set exactly
    when something was dropped. *)
Theorem stored_output_is_bounded_prefix data :
  let '(out, flag) := Execution.truncate_output data in
  out `prefix_of` data
  ∧ Z.of_nat (length out) = Z.min (Z.of_nat (length data)) Execution.MAX_OUTPUT_BYTES
  ∧ (flag = false ↔ out = data).
Proof.
  destruct (Execution.truncate_output data) as [out flag] eqn:E.
  by apply Execution.truncate_output_spec.
Qed.

(** The boot report accounts for the whole boot: with every stamp taken in
    order, the durations [breakdown] reports are non-negative and add up to
    [total_ms]. *)
Theorem boot_breakdown_adds_up b l :
  BootTrace.stamps b = Some l → BootTrace.nondecreasing l = true →
  BootTrace.total_ms b = Some (sum_list_Z (BootTrace.durations (BootTrace.breakdown b)))
  ∧ Forall (λ d, 0 ≤ d) (BootTrace.durations (BootTrace.breakdown b)).
Proof. apply BootTrace.breakdown_total. Qed.

Lemma boot_breakdown_adds_up_witness :
  let b := BootTrace.mk "s" (Some 5) (Some 9) (Some 9) (Some 20) (Some 31) (Some 40) (Some 120) in
  BootTrace.total_ms b = Some (sum_list_Z (BootTrace.durations (BootTrace.breakdown b))).
Proof.
  exact (proj1 (boot_breakdown_adds_up
    (BootTrace.mk "s" (Some 5) (Some 9) (Some 9) (Some 20) (Some 31) (Some 40) (Some 120))
    [5; 9; 9; 20; 31; 40; 120] eq_refl eq_refl)).
Defined.
