(* ===== verification/SandboxModel.v ===== *)
(** * The sandbox aggregate ([crates/clouisle-core/src/sandbox])

    The creation spec and its validation ([spec.rs]), the status machine
    ([state.rs]) and the [Sandbox] record with its transitions ([model.rs]). *)

From S2P Require Import Prelude Core.

(** ** Parts of the specification ([mod.rs]) *)

Module ImageRef.
Record t : Set := mk { reference : string; digest : option string }.
Definition new (r : string) : t := mk r None.
(** The cache key: the digest when it is known. *)
Definition cache_key (i : t) : string :=
  match digest i with Some d => d | None => reference i end.
End ImageRef.

Module NetworkConfig.
Record t : Set := mk {
  enabled : bool;
  allow_egress : list string;
  deny_egress : list string }.
Definition default : t := mk true [] [].
End NetworkConfig.

Module MountSpec.
Record t : Set := mk { source : string; target : string; readonly : bool }.
End MountSpec.

Module VolumeMountSpec.
Record t : Set := mk { name : string; target : string }.
End VolumeMountSpec.

Module SecretSpec.
Record t : Set := mk { name : string; value : string }.
End SecretSpec.

Module RestartPolicy.
Inductive t : Set := Never | OnFailure | Always.
#[global] Instance eq_dec : EqDecision t.
Proof. solve_decision. Defined.
Definition default : t := Never.
Definition as_str (p : t) : string :=
  match p with Never => "never" | OnFailure => "on_failure" | Always => "always" end.
End RestartPolicy.

(** ** The specification ([spec.rs]) *)

Module SandboxSpec.
Record t : Type := mk {
  image : ImageRef.t;
  resources : Resources.t;
  network : NetworkConfig.t;
  mounts : list MountSpec.t;
  volume_mounts : list VolumeMountSpec.t;
  secrets : list SecretSpec.t;
  ttl_secs : option Z;
  start_timeout_secs : Z;
  env : gmap string string;
  init_command : list string;
  init_env : gmap string string;
  init_cwd : option string;
  init_timeout_ms : Z;
  metadata : gmap string string;
  auto_pause : bool;
  auto_pause_memory : bool;
  auto_resume : bool;
  node_selector : gmap string string;
  restart_policy : RestartPolicy.t;
  tenant_id : option string }.

Definition default_init_timeout_ms : Z := 30000.

Definition default : t :=
  mk (ImageRef.new "docker.io/library/alpine:latest") Resources.default
     NetworkConfig.default [] [] [] None 10 ∅ [] ∅ None default_init_timeout_ms ∅
     false true false ∅ RestartPolicy.default None.

Definition set_image (s : t) (i : ImageRef.t) : t :=
  mk i (resources s) (network s) (mounts s) (volume_mounts s) (secrets s) (ttl_secs s)
     (start_timeout_secs s) (env s) (init_command s) (init_env s) (init_cwd s)
     (init_timeout_ms s) (metadata s) (auto_pause s) (auto_pause_memory s) (auto_resume s)
     (node_selector s) (restart_policy s) (tenant_id s).
Definition set_secrets (s : t) (l : list SecretSpec.t) : t :=
  mk (image s) (resources s) (network s) (mounts s) (volume_mounts s) l (ttl_secs s)
     (start_timeout_secs s) (env s) (init_command s) (init_env s) (init_cwd s)
     (init_timeout_ms s) (metadata s) (auto_pause s) (auto_pause_memory s) (auto_resume s)
     (node_selector s) (restart_policy s) (tenant_id s).
Definition set_ttl (s : t) (ttl : option Z) : t :=
  mk (image s) (resources s) (network s) (mounts s) (volume_mounts s) (secrets s) ttl
     (start_timeout_secs s) (env s) (init_command s) (init_env s) (init_cwd s)
     (init_timeout_ms s) (metadata s) (auto_pause s) (auto_pause_memory s) (auto_resume s)
     (node_selector s) (restart_policy s) (tenant_id s).
Definition set_network (s : t) (v : NetworkConfig.t) : t :=
  mk (image s) (resources s) v (mounts s) (volume_mounts s) (secrets s) (ttl_secs s)
     (start_timeout_secs s) (env s) (init_command s) (init_env s) (init_cwd s)
     (init_timeout_ms s) (metadata s) (auto_pause s) (auto_pause_memory s) (auto_resume s)
     (node_selector s) (restart_policy s) (tenant_id s).
Definition set_env (s : t) (v : gmap string string) : t :=
  mk (image s) (resources s) (network s) (mounts s) (volume_mounts s) (secrets s)
     (ttl_secs s) (start_timeout_secs s) v (init_command s) (init_env s) (init_cwd s)
     (init_timeout_ms s) (metadata s) (auto_pause s) (auto_pause_memory s) (auto_resume s)
     (node_selector s) (restart_policy s) (tenant_id s).
Definition set_tenant (s : t) (tenant : option string) : t :=
  mk (image s) (resources s) (network s) (mounts s) (volume_mounts s) (secrets s) (ttl_secs s)
     (start_timeout_secs s) (env s) (init_command s) (init_env s) (init_cwd s)
     (init_timeout_ms s) (metadata s) (auto_pause s) (auto_pause_memory s) (auto_resume s)
     (node_selector s) (restart_policy s) tenant.

(** [split('/').any(|part| part == "..")]. *)
Definition has_dotdot (path : string) : bool :=
  existsb (λ part, String.eqb part "..") (split "/" path).

Definition NUL : ascii := "000"%char.

Definition bad_cwd (cwd : string) : bool :=
  is_empty cwd || negb (starts_with "/" cwd) || contains_char NUL cwd || has_dotdot cwd.

Definition bad_mount (m : MountSpec.t) : bool :=
  trim_is_empty (MountSpec.source m) || trim_is_empty (MountSpec.target m)
  || negb (starts_with "/" (MountSpec.target m))
  || contains_char NUL (MountSpec.source m) || contains_char NUL (MountSpec.target m)
  || has_dotdot (MountSpec.source m) || has_dotdot (MountSpec.target m).

Definition bad_volume_mount (m : VolumeMountSpec.t) : bool :=
  trim_is_empty (VolumeMountSpec.name m)
  || contains_any ["/"; "\"; NUL]%char (VolumeMountSpec.name m)
  || trim_is_empty (VolumeMountSpec.target m)
  || negb (starts_with "/" (VolumeMountSpec.target m))
  || contains_char NUL (VolumeMountSpec.target m)
  || has_dotdot (VolumeMountSpec.target m).

Definition bad_secret_name (name : string) : bool :=
  is_empty name || String.eqb name "." || String.eqb name ".."
  || contains_any ["/"; "\"; NUL]%char name.

(** The loop over the secrets; [seen] is the [HashSet] of accepted names. *)
Fixpoint secret_errors (seen : gset string) (l : list SecretSpec.t)
  : list ValidationError.t :=
  match l with
  | [] => []
  | s :: l' =>
    let name := SecretSpec.name s in
    if bad_secret_name name then
      ValidationError.mk "secrets"
        "secret names must be non-empty file names without path separators"
      :: secret_errors seen l'
    else if bool_decide (name ∈ seen) then
      ValidationError.mk "secrets" "secret names must be unique" :: secret_errors seen l'
    else secret_errors ({[name]} ∪ seen) l'
  end.

Definition err_if (b : bool) (field msg : string) : list ValidationError.t :=
  if b then [ValidationError.mk field msg] else [].

Definition validation_errors (s : t) : list ValidationError.t :=
  (if trim_is_empty (ImageRef.reference (image s)) then
     [ValidationError.mk "image" "image is required"]
   else err_if (existsb (λ c, (c =? 0)%N || is_control c) (chars (ImageRef.reference (image s))))
     "image" "image reference must not contain control characters")
  ++ match Resources.validate (resources s) with Err es => es | _ => [] end
  ++ err_if ((start_timeout_secs s =? 0) || (300 <? start_timeout_secs s))
       "start_timeout_secs" "start_timeout_secs must be in [1, 300]"
  ++ err_if (existsb trim_is_empty (init_command s))
       "init_command" "init_command entries must not be empty"
  ++ err_if (bool_decide (init_command s = [])
             && (negb (bool_decide (init_env s = ∅)) || bool_decide (is_Some (init_cwd s))))
       "init_command" "init_env and init_cwd require init_command"
  ++ err_if (match init_cwd s with Some cwd => bad_cwd cwd | None => false end)
       "init_cwd" "init_cwd must be an absolute guest path without traversal"
  ++ err_if (bool_decide (init_command s = [])
             && negb (init_timeout_ms s =? default_init_timeout_ms))
       "init_timeout_ms" "init_timeout_ms is only valid with init_command"
  ++ err_if ((init_timeout_ms s =? 0) || (300000 <? init_timeout_ms s))
       "init_timeout_ms" "init_timeout_ms must be in [1, 300000]"
  ++ err_if (auto_resume s && negb (auto_pause s))
       "auto_resume" "auto_resume requires auto_pause"
  ++ concat (map (λ m, err_if (bad_mount m) "mounts"
       "mount source/target must be non-empty and must not escape its root") (mounts s))
  ++ concat (map (λ m, err_if (bad_volume_mount m) "volume_mounts"
       "volume name must be a simple name and target must be an absolute guest path")
       (volume_mounts s))
  ++ secret_errors ∅ (secrets s).

Definition validate (s : t) : res (list ValidationError.t) () :=
  match validation_errors s with [] => Ok () | errors => Err errors end.

(** [resources_hash] feeds the four fields to std's [DefaultHasher]; the hash
    function is a parameter.  [pool_key] is the warm-pool bucket. *)
Definition hashed_fields (s : t) : Z * Z * Z * option Z :=
  (Resources.vcpu (resources s), Resources.memory_mb (resources s),
   Resources.disk_mb (resources s), Resources.pids_max (resources s)).
Definition resources_hash (hash : Z * Z * Z * option Z → Z) (s : t) : Z :=
  hash (hashed_fields s).
Definition pool_key (hash : Z * Z * Z * option Z → Z) (s : t) : string :=
  ImageRef.cache_key (image s) +:+ ":" +:+ show (resources_hash hash s).

(** *** What an accepted specification guarantees *)

Lemma err_if_nil b f m : err_if b f m = [] ↔ b = false.
Proof. by destruct b. Qed.

Lemma secret_errors_nil seen l :
  secret_errors seen l = [] →
  Forall (λ s, bad_secret_name (SecretSpec.name s) = false ∧ SecretSpec.name s ∉ seen) l
  ∧ NoDup (SecretSpec.name <$> l).
Proof.
  revert seen; induction l as [|s l IH]; intros seen; simpl; [by constructor; try apply NoDup_nil|].
  destruct (bad_secret_name _) eqn:Hbad; [done|].
  case_bool_decide as Hseen; [done|]. intros [Hall Hnd]%IH. split.
  - constructor; [done|]. eapply Forall_impl; [done|]. set_solver.
  - apply NoDup_cons. split; [|done]. intros (s' & Heq & Hin)%list_elem_of_fmap.
    rewrite Forall_forall in Hall. specialize (Hall s' Hin). set_solver.
Qed.

Lemma concat_err_nil {A} (bad : A → bool) f m l :
  concat (map (λ x, err_if (bad x) f m) l) = [] → Forall (λ x, bad x = false) l.
Proof.
  induction l as [|x l IH]; simpl; [by constructor|].
  rewrite app_nil, err_if_nil. intros [? ?]. constructor; auto.
Qed.

(** A target that passed validation: absolute, and no component is [..]. *)
Definition safe_guest_path (path : string) : Prop :=
  starts_with "/" path = true ∧ ".."%string ∉ split "/" path.

Lemma has_dotdot_false path : has_dotdot path = false → ".."%string ∉ split "/" path.
Proof.
  intros Hf Hin. assert (has_dotdot path = true); [|congruence].
  apply existsb_exists. exists ".."%string. by rewrite <-list_elem_of_In, String.eqb_refl.
Qed.

Record valid (s : t) : Prop := {
  valid_resources : Resources.within_limits (resources s);
  valid_start : 1 ≤ start_timeout_secs s ≤ 300;
  valid_init_timeout : 1 ≤ init_timeout_ms s ≤ 300000;
  valid_init : init_command s = [] → init_env s = ∅ ∧ init_cwd s = None;
  valid_cwd : ∀ cwd, init_cwd s = Some cwd → safe_guest_path cwd;
  valid_resume : auto_resume s = true → auto_pause s = true;
  valid_mounts : Forall (λ m, safe_guest_path (MountSpec.target m)
                   ∧ ".."%string ∉ split "/" (MountSpec.source m)) (mounts s);
  valid_volumes : Forall (λ m, safe_guest_path (VolumeMountSpec.target m)
                   ∧ contains_char "/" (VolumeMountSpec.name m) = false) (volume_mounts s);
  valid_secrets : Forall (λ x, bad_secret_name (SecretSpec.name x) = false) (secrets s);
  valid_secrets_unique : NoDup (SecretSpec.name <$> secrets s) }.

Definition well_typed (s : t) : Prop :=
  Resources.well_typed (resources s) ∧ in_u64 (start_timeout_secs s)
  ∧ in_u64 (init_timeout_ms s).

Lemma bad_mount_false m :
  bad_mount m = false →
  safe_guest_path (MountSpec.target m) ∧ ".."%string ∉ split "/" (MountSpec.source m).
Proof.
  unfold bad_mount, safe_guest_path. intros. bool_to_prop.
  split_and!; auto using has_dotdot_false.
Qed.

Lemma bad_volume_mount_false m :
  bad_volume_mount m = false →
  safe_guest_path (VolumeMountSpec.target m)
  ∧ contains_char "/" (VolumeMountSpec.name m) = false.
Proof.
  unfold bad_volume_mount, safe_guest_path, contains_any. simpl. intros. bool_to_prop.
  split_and!; auto using has_dotdot_false.
Qed.

Lemma validate_valid s : well_typed s → validate s = Ok () → valid s.
Proof.
  intros (Hr & [Hs _] & [Hi _]) Hv. unfold validate in Hv.
  destruct (validation_errors s) eqn:He; [clear Hv|done].
  unfold validation_errors in He. rewrite !app_nil, !err_if_nil in He.
  destruct He as (_ & Hres & Hst & _ & Hic & Hcwd & _ & Hit & Har & Hm & Hvm & Hsec).
  apply concat_err_nil in Hm, Hvm. apply secret_errors_nil in Hsec as [Hsec Hnd].
  bool_to_prop. constructor; try done; try lia.
  - apply Resources.validate_ok_iff; [done|]. destruct (Resources.validate _) as [[]|es|] eqn:E;
      [done| |].
    + subst es. unfold Resources.validate in E. by destruct (Resources.validation_errors _).
    + unfold Resources.validate in E. by destruct (Resources.validation_errors _).
  - intros Hn. rewrite bool_decide_true in Hic by done. simpl in Hic. bool_to_prop.
    split; [by eapply bool_decide_eq_true_1|].
    destruct (init_cwd s); [|done].
    match goal with H : bool_decide (is_Some _) = false |- _ => by rewrite bool_decide_true in H by eauto end.
  - intros cwd Hc. rewrite Hc in Hcwd. unfold bad_cwd in Hcwd. bool_to_prop.
    split; auto using has_dotdot_false.
  - intros Hn. rewrite Hn in Har. simpl in Har. by bool_to_prop.
  - eapply Forall_impl; [exact Hm|apply bad_mount_false].
  - eapply Forall_impl; [exact Hvm|apply bad_volume_mount_false].
  - eapply Forall_impl; [exact Hsec|naive_solver].
Qed.

Lemma default_well_typed : well_typed default.
Proof. repeat split; vm_compute; discriminate. Qed.

Lemma default_validates : validate default = Ok ().
Proof. reflexivity. Qed.
End SandboxSpec.

(** ** The status machine ([state.rs]) *)

Module SandboxEvent.
Inductive t : Set :=
| Start | AgentHello | Pause | Resume | Stop | VmmExited | Failed | Restart.
#[global] Instance eq_dec : EqDecision t.
Proof. solve_decision. Defined.

Definition debug (e : t) : string :=
  match e with
  | Start => "Start" | AgentHello => "AgentHello" | Pause => "Pause" | Resume => "Resume"
  | Stop => "Stop" | VmmExited => "VmmExited" | Failed => "Failed" | Restart => "Restart"
  end.
End SandboxEvent.

Module SandboxStatus.
Inductive t : Set := Pending | Starting | Running | Paused | Stopping | Stopped | Error.
#[global] Instance eq_dec : EqDecision t.
Proof. solve_decision. Defined.

Definition debug (s : t) : string :=
  match s with
  | Pending => "Pending" | Starting => "Starting" | Running => "Running"
  | Paused => "Paused" | Stopping => "Stopping" | Stopped => "Stopped" | Error => "Error"
  end.

Definition transition (self : t) (event : SandboxEvent.t) : result t :=
  match self, event with
  | Pending, SandboxEvent.Start => Ok Starting
  | Pending, SandboxEvent.Failed => Ok Error
  | Starting, SandboxEvent.AgentHello => Ok Running
  | Starting, SandboxEvent.Failed => Ok Error
  | Starting, SandboxEvent.Stop => Ok Stopping
  | Running, SandboxEvent.Stop => Ok Stopping
  | Running, SandboxEvent.Pause => Ok Paused
  | Running, SandboxEvent.Failed => Ok Error
  | Running, SandboxEvent.Restart => Ok Starting
  | Paused, SandboxEvent.Resume => Ok Starting
  | Paused, SandboxEvent.Stop => Ok Stopping
  | Paused, SandboxEvent.Failed => Ok Error
  | Stopping, SandboxEvent.VmmExited => Ok Stopped
  | Stopping, SandboxEvent.Failed => Ok Error
  | Stopped, SandboxEvent.Start => Ok Starting
  | Stopped, SandboxEvent.Restart => Ok Starting
  | Error, SandboxEvent.Start => Ok Starting
  | Error, SandboxEvent.Restart => Ok Starting
  | Starting, SandboxEvent.Start => Ok Starting
  | Stopping, SandboxEvent.Stop => Ok Stopping
  | Running, SandboxEvent.AgentHello => Ok Running
  | Paused, SandboxEvent.Pause => Ok Paused
  | from, ev =>
    Err (ClouisleError.invalid_state
           ("invalid transition: " +:+ debug from +:+ " --" +:+ SandboxEvent.debug ev
            +:+ "--> ?"))
  end.

Definition is_executable (s : t) : bool := bool_decide (s = Running).
Definition is_active (s : t) : bool :=
  match s with Starting | Running | Paused | Stopping => true | _ => false end.
Definition can_delete (s : t) : bool :=
  match s with Paused | Stopped | Error => true | _ => false end.
Definition is_terminal (s : t) : bool :=
  match s with Stopped | Error => true | _ => false end.

Definition as_str (s : t) : string :=
  match s with
  | Pending => "pending" | Starting => "starting" | Running => "running"
  | Paused => "paused" | Stopping => "stopping" | Stopped => "stopped" | Error => "error"
  end.

(** The parser of the status column, in [row_to_sandbox] of both SQL stores and
    in the list handler. *)
Definition of_str (s : string) : option t :=
  if String.eqb s "pending" then Some Pending
  else if String.eqb s "starting" then Some Starting
  else if String.eqb s "running" then Some Running
  else if String.eqb s "paused" then Some Paused
  else if String.eqb s "stopping" then Some Stopping
  else if String.eqb s "stopped" then Some Stopped
  else if String.eqb s "error" then Some Error
  else None.

Lemma of_as_str s : of_str (as_str s) = Some s.
Proof. by destruct s. Qed.

Lemma as_of_str str s : of_str str = Some s → as_str s = str.
Proof.
  unfold of_str. repeat (split_match; bool_to_prop; [intros [= <-]; by subst|]). done.
Qed.

(** One step of the machine under some accepted event. *)
Definition step (s s' : t) : Prop := ∃ e, transition s e = Ok s'.

Lemma transition_err s e :
  transition s e = Panic → False.
Proof. by destruct s, e. Qed.

(** Running is entered only by a hello in [Starting]. *)
Lemma enter_running s e :
  transition s e = Ok Running → s ≠ Running → s = Starting ∧ e = SandboxEvent.AgentHello.
Proof. by destruct s, e. Qed.
End SandboxStatus.

(** ** Time

    [DateTime<Utc>] is a count of nanoseconds.  [now + Duration::seconds(n)] is
    chrono's: it panics outside chrono's range.  The class holds the operation,
    its laws are what chrono documents. *)

Class Chrono : Type := {
  dt_add_seconds : Z → Z → option Z }.

Definition ns_per_sec : Z := 1000000000.
(** [DateTime::<Utc>::MAX_UTC] in nanoseconds. *)
Definition dt_max : Z := 8210266876799999999999.
(** [Duration::seconds] panics above [i64::MAX / 1000]. *)
Definition duration_max_secs : Z := i64_max / 1000.

(** [DateTime::<Utc>::MIN_UTC] in nanoseconds. *)
Definition dt_min : Z := -8334601228800000000000.

Class ChronoOk (C : Chrono) : Prop := {
  dt_add_in_range t n :
    - duration_max_secs ≤ n ≤ duration_max_secs → dt_min ≤ t + n * ns_per_sec ≤ dt_max →
    dt_add_seconds t n = Some (t + n * ns_per_sec);
  dt_add_duration_overflow t n :
    ¬ - duration_max_secs ≤ n ≤ duration_max_secs → dt_add_seconds t n = None;
  dt_add_date_overflow t n :
    ¬ dt_min ≤ t + n * ns_per_sec ≤ dt_max → dt_add_seconds t n = None }.

(** The documented ranges, as a function. *)
Definition chrono_exact : Chrono :=
  {| dt_add_seconds t n :=
       if (- duration_max_secs <=? n) && (n <=? duration_max_secs)
          && (dt_min <=? t + n * ns_per_sec) && (t + n * ns_per_sec <=? dt_max)
       then Some (t + n * ns_per_sec) else None |}.

#[global] Instance chrono_exact_ok : ChronoOk chrono_exact.
Proof.
  split; unfold chrono_exact, dt_add_seconds; intros t n;
    generalize duration_max_secs, dt_min, dt_max; intros; split_match; bool_to_prop;
    [done| |lia|done|lia|done].
  repeat match goal with H : _ && _ = false |- _ => apply andb_false_iff in H as [H|H] end;
    bool_to_prop; lia.
Qed.

(** [timestamp_millis]: whole milliseconds, rounded down. *)
Definition timestamp_millis (t : Z) : Z := t / 1000000.
(** [DateTime::from_timestamp_millis] inside chrono's range. *)
Definition from_millis (ms : Z) : Z := ms * 1000000.

(** ** The aggregate ([model.rs]) *)

Module VmmMeta.
Record t : Type := mk {
  backend : string;
  owner_id : option string;
  pid : option Z;
  api_socket : option string;
  vsock_socket : option string;
  vsock_cid : option Z;
  vmm_id : option string;
  extra : gmap string string }.

Definition default : t := mk "" None None None None None None ∅.

Definition inherited_subnet (m : t) : option (Z * Z) :=
  value ← extra m !! "subnet"%string;
  '(a, b) ← split_once "." value;
  a' ← parse_unsigned u16_max a;
  b' ← parse_unsigned u16_max b;
  Some (a', b').

Definition set_extra (m : t) (x : gmap string string) : t :=
  mk (backend m) (owner_id m) (pid m) (api_socket m) (vsock_socket m) (vsock_cid m)
     (vmm_id m) x.

(** [format!("{a}.{b}")], the writer of the entry (in [provision_sandbox]). *)
Definition show_subnet (ab : Z * Z) : string := show (ab.1) +:+ "." +:+ show (ab.2).

Lemma inherited_subnet_show m a b :
  in_u16 a → in_u16 b →
  inherited_subnet (set_extra m (<["subnet"%string := show_subnet (a, b)]> (extra m)))
  = Some (a, b).
Proof.
  intros Ha Hb. unfold inherited_subnet, show_subnet, set_extra. simpl.
  rewrite lookup_insert_eq. simpl.
  change ("." +:+ show b)%string with (String "." (show b)).
  rewrite split_once_app by apply show_no_dot. simpl.
  by rewrite !parse_show by done.
Qed.
End VmmMeta.

Module Sandbox.
Record t : Type := mk {
  id : string;
  spec : SandboxSpec.t;
  status : SandboxStatus.t;
  created_at : Z;
  updated_at : Z;
  ready_at : option Z;
  expires_at : option Z;
  vmm_meta : VmmMeta.t;
  terminal_message : option string;
  node_id : option string }.

Definition new (id : string) (spec : SandboxSpec.t) (now : Z) : t :=
  mk id spec SandboxStatus.Pending now now None None VmmMeta.default None None.

Definition set_status (s : t) (st : SandboxStatus.t) (now : Z) : t :=
  mk (id s) (spec s) st (created_at s) now (ready_at s) (expires_at s) (vmm_meta s)
     (terminal_message s) (node_id s).
Definition set_ready (s : t) (r e : option Z) : t :=
  mk (id s) (spec s) (status s) (created_at s) (updated_at s) r e (vmm_meta s)
     (terminal_message s) (node_id s).
Definition set_vmm_meta (s : t) (m : VmmMeta.t) : t :=
  mk (id s) (spec s) (status s) (created_at s) (updated_at s) (ready_at s) (expires_at s) m
     (terminal_message s) (node_id s).
Definition set_spec (s : t) (sp : SandboxSpec.t) : t :=
  mk (id s) sp (status s) (created_at s) (updated_at s) (ready_at s) (expires_at s)
     (vmm_meta s) (terminal_message s) (node_id s).

Definition is_executable (s : t) : bool := SandboxStatus.is_executable (status s).

Section transition.
Context `{Chrono}.

(** [transition]: the deadline is computed from the spec's ttl when the next
    status is [Running], and the date arithmetic may panic. *)
Definition transition (s : t) (event : SandboxEvent.t) (now : Z) : result t :=
  next ← SandboxStatus.transition (status s) event;
  let s1 := set_status s next now in
  if bool_decide (next = SandboxStatus.Running) then
    match SandboxSpec.ttl_secs (spec s) with
    | None => Ok (set_ready s1 (Some now) None)
    | Some ttl =>
      match dt_add_seconds now (as_i64 ttl) with
      | Some e => Ok (set_ready s1 (Some now) (Some e))
      | None => Panic
      end
    end
  else Ok s1.
End transition.

(** *** The timestamps a reachable sandbox carries *)

(** The creation path and every later transition, from a fresh record. *)
Section reachable.
Context `{Chrono}.

Definition step (s s' : t) : Prop := ∃ e now, transition s e now = Ok s'.
Definition reachable (s : t) : Prop := ∃ id sp now, star step (new id sp now) s.

(** A sandbox that is or was running carries its ready time; the deadline is
    set exactly when the spec has a ttl and the sandbox has been ready, and it
    lies [ttl] seconds after that time. *)
Definition deadline_ok (s : t) : Prop :=
  match ready_at s with
  | None => expires_at s = None ∧ status s ≠ SandboxStatus.Running
            ∧ status s ≠ SandboxStatus.Paused
  | Some r =>
    match SandboxSpec.ttl_secs (spec s) with
    | None => expires_at s = None
    | Some ttl => ∃ e, expires_at s = Some e ∧ dt_add_seconds r (as_i64 ttl) = Some e
    end
  end.

Lemma transition_deadline s e now s' :
  deadline_ok s → transition s e now = Ok s' → deadline_ok s'.
Proof.
  unfold transition. intros Hd.
  destruct (SandboxStatus.transition (status s) e) as [next| |] eqn:Ht; run_res; try done.
  case_bool_decide as Hr.
  - destruct (SandboxSpec.ttl_secs (spec s)) eqn:Httl.
    + destruct (dt_add_seconds _ _) eqn:Ha; intros [= <-].
      unfold deadline_ok. simpl. rewrite Httl. eauto.
    + intros [= <-]. unfold deadline_ok. simpl. by rewrite Httl.
  - intros [= <-]. unfold deadline_ok in *. simpl. destruct (ready_at s); [done|].
    destruct Hd as (? & ? & ?). split_and!; [done..|].
    intros ->. by destruct (status s), e.
Qed.

Lemma step_frame s s' : step s s' → id s' = id s ∧ spec s' = spec s
  ∧ created_at s' = created_at s.
Proof.
  intros (e & now & Ht). unfold transition in Ht. run_res.
  repeat split_match; by simplify_eq.
Qed.

Lemma reachable_deadline s : reachable s → deadline_ok s.
Proof.
  intros (i & sp & now & Hs). eapply (star_invariant step deadline_ok); [|exact Hs|].
  - intros x y Hx (e & n & Ht). eauto using transition_deadline.
  - by split_and!.
Qed.
End reachable.

Lemma transition_err_kind `{Chrono} s e now err :
  transition s e now = Err err → ClouisleError.kind err = ErrorKind.InvalidState.
Proof.
  unfold transition. destruct (SandboxStatus.transition (status s) e) as [n|er|] eqn:Ht; run_res.
  - repeat split_match; done.
  - intros [= <-]. destruct (status s), e; by simplify_eq/=.
  - done.
Qed.

(** An accepted transition never panics when the deadline fits chrono's range. *)
Lemma transition_no_panic `{C : Chrono, !ChronoOk C} s e now :
  0 ≤ now →
  (∀ ttl, SandboxSpec.ttl_secs (spec s) = Some ttl →
     0 ≤ ttl ≤ duration_max_secs ∧ now + ttl * ns_per_sec ≤ dt_max) →
  transition s e now ≠ Panic.
Proof.
  intros Hn Httl. unfold transition.
  destruct (SandboxStatus.transition (status s) e) as [next|err|] eqn:Ht; run_res.
  - case_bool_decide; [|done]. destruct (SandboxSpec.ttl_secs (spec s)) as [ttl|]; [|done].
    destruct (Httl ttl eq_refl) as [Hr Hm].
    assert (duration_max_secs ≤ i64_max) by (vm_compute; discriminate).
    rewrite as_i64_small by lia.
    assert (dt_min ≤ 0) by (vm_compute; discriminate).
    rewrite dt_add_in_range; [done|lia|unfold ns_per_sec in *; lia].
  - done.
  - by apply SandboxStatus.transition_err in Ht.
Qed.
End Sandbox.

(** ** Properties *)

(** The deadline of every reachable sandbox is right.  A sandbox that has
    never been ready has no deadline and is neither running nor paused; one that
    has been ready carries a deadline exactly when its spec has a time to live,
    and the deadline is that many seconds after the last ready time. *)
Theorem sandbox_deadline_invariant `{Chrono} s :
  Sandbox.reachable s → Sandbox.deadline_ok s.
Proof. apply Sandbox.reachable_deadline. Qed.

Lemma sandbox_deadline_invariant_witness :
  let sp := SandboxSpec.set_ttl SandboxSpec.default (Some 60) in
  let s := Sandbox.mk "a" sp SandboxStatus.Paused 0 30 (Some 20) (Some (20 + 60 * ns_per_sec))
             VmmMeta.default None None in
  Sandbox.deadline_ok (H := chrono_exact) s.
Proof.
  intros sp s. apply (sandbox_deadline_invariant (H := chrono_exact)). exists "a"%string, sp, 0.
  eapply star_step; [by exists SandboxEvent.Start, 10|].
  eapply star_step; [by exists SandboxEvent.AgentHello, 20|].
  eapply star_step; [by exists SandboxEvent.Pause, 30|].
  constructor.
Defined.

(** A specification that passes [validate] is safe to hand to a node: its
    resources and timeouts are in range, every guest path is absolute and has no
    parent component, volume names have no separator, and the names of its
    secrets are plain, pairwise distinct file names. *)
Theorem accepted_spec_is_safe s :
  SandboxSpec.well_typed s → SandboxSpec.validate s = Ok () → SandboxSpec.valid s.
Proof. apply SandboxSpec.validate_valid. Qed.

Lemma accepted_spec_is_safe_witness : SandboxSpec.valid SandboxSpec.default.
Proof.
  exact (accepted_spec_is_safe _ SandboxSpec.default_well_typed SandboxSpec.default_validates).
Defined.

(** Within chrono's range a transition never panics: with a time to live of
    at most [i64::MAX / 1000] seconds whose deadline is a representable date,
    every event is answered by a new sandbox or by an error. *)
Theorem transition_total `{C : Chrono, !ChronoOk C} s e now :
  0 ≤ now →
  (∀ ttl, SandboxSpec.ttl_secs (Sandbox.spec s) = Some ttl →
     0 ≤ ttl ≤ duration_max_secs ∧ now + ttl * ns_per_sec ≤ dt_max) →
  (∃ s', Sandbox.transition s e now = Ok s') ∨
  (∃ err, Sandbox.transition s e now = Err err ∧
          ClouisleError.kind err = ErrorKind.InvalidState).
Proof.
  intros Hn Ht. pose proof (Sandbox.transition_no_panic s e now Hn Ht).
  destruct (Sandbox.transition s e now) as [s'|err|] eqn:E; [eauto| |done].
  right. exists err. split; [done|]. by eapply Sandbox.transition_err_kind.
Qed.

Lemma transition_total_witness :
  let s := Sandbox.new "a" (SandboxSpec.set_ttl SandboxSpec.default (Some 3600)) 0 in
  (∃ s', Sandbox.transition (H := chrono_exact) s SandboxEvent.Start 7 = Ok s') ∨
  (∃ err, Sandbox.transition (H := chrono_exact) s SandboxEvent.Start 7 = Err err ∧
          ClouisleError.kind err = ErrorKind.InvalidState).
Proof.
  apply (transition_total (C := chrono_exact)); [lia|].
  intros ttl [= <-]. vm_compute. repeat split; discriminate.
Defined.

(** [validate] puts no bound on the time to live.  There is a specification
    it accepts for which the hello of the agent panics in the date arithmetic,
    so the sandbox never becomes [Running]; and with the largest [u64] as time to
    live the cast to [i64] makes the deadline lie one second before the ready
    time. *)
Theorem unbounded_ttl_breaks_start `{C : Chrono, !ChronoOk C} now :
  0 ≤ now ≤ dt_max →
  (∃ sp, SandboxSpec.well_typed sp ∧ SandboxSpec.validate sp = Ok () ∧
     ∀ i s, Sandbox.transition (Sandbox.new i sp now) SandboxEvent.Start now = Ok s →
       Sandbox.transition s SandboxEvent.AgentHello now = Panic) ∧
  (∃ sp, SandboxSpec.well_typed sp ∧ SandboxSpec.validate sp = Ok () ∧
     ∀ i s, Sandbox.transition (Sandbox.new i sp now) SandboxEvent.Start now = Ok s →
       ∃ s', Sandbox.transition s SandboxEvent.AgentHello now = Ok s' ∧
         Sandbox.ready_at s' = Some now ∧ Sandbox.expires_at s' = Some (now - ns_per_sec)).
Proof.
  intros [Hn Hm]. split.
  - exists (SandboxSpec.set_ttl SandboxSpec.default (Some i64_max)).
    split_and!; [apply SandboxSpec.default_well_typed|done|].
    intros i s [= <-]. unfold Sandbox.transition. simpl.
    rewrite dt_add_duration_overflow; [done|]. vm_compute. by intros [_ []].
  - exists (SandboxSpec.set_ttl SandboxSpec.default (Some u64_max)).
    split_and!; [apply SandboxSpec.default_well_typed|done|].
    intros i s [= <-]. unfold Sandbox.transition. simpl.
    change (as_i64 u64_max) with (-1). eexists.
    rewrite dt_add_in_range; [split_and!; try done; simpl; f_equal; lia|done|].
    assert (dt_min ≤ - ns_per_sec) by (vm_compute; discriminate). unfold ns_per_sec in *. lia.
Qed.

Lemma unbounded_ttl_breaks_start_witness :
  ∃ sp, SandboxSpec.well_typed sp ∧ SandboxSpec.validate sp = Ok () ∧
    ∀ i s, Sandbox.transition (H := chrono_exact) (Sandbox.new i sp 5) SandboxEvent.Start 5 = Ok s →
      Sandbox.transition (H := chrono_exact) s SandboxEvent.AgentHello 5 = Panic.
Proof.
  exact (proj1 (unbounded_ttl_breaks_start (C := chrono_exact) 5
    ltac:(vm_compute; split; discriminate))).
Defined.

(** The subnet a node agent records is the one it finds again: the writer of
    the [subnet] entry and [inherited_subnet] are inverse for every pair of
    [u16]. *)
Theorem subnet_survives_restart m a b :
  in_u16 a → in_u16 b →
  VmmMeta.inherited_subnet (VmmMeta.set_extra m
    (<["subnet"%string := VmmMeta.show_subnet (a, b)]> (VmmMeta.extra m))) = Some (a, b).
Proof. apply VmmMeta.inherited_subnet_show. Qed.

Lemma subnet_survives_restart_witness :
  VmmMeta.inherited_subnet (VmmMeta.set_extra VmmMeta.default
    {["subnet"%string := "12.204"%string]}) = Some (12, 204).
Proof.
  exact (subnet_survives_restart VmmMeta.default 12 204
    ltac:(unfold in_u16, u16_max; lia) ltac:(unfold in_u16, u16_max; lia)).
Defined.
