(* ===== verification/Paths.v ===== *)
(** * Paths ([std::path] on Linux)

    What the components use of [Path]: [join], [components], [starts_with],
    [file_name], and when a joined path stays below its base. *)

From S2P Require Import Prelude SandboxModel.

(** [Path::join]. *)
Definition path_join (dir name : string) : string :=
  if starts_with "/" name then name
  else if is_empty dir || ends_with "/" dir then dir +:+ name
  else dir +:+ "/" +:+ name.

(** [Path::components]: repeated and trailing slashes and inner dots do not count. *)
Inductive component : Set := RootDir | CurDir | ParentDir | Normal (part : string).
#[global] Instance component_eq_dec : EqDecision component.
Proof. solve_decision. Defined.

Definition component_of (part : string) : list component :=
  if is_empty part || String.eqb part "." then []
  else if String.eqb part ".." then [ParentDir] else [Normal part].
Definition components (p : string) : list component :=
  (if starts_with "/" p then [RootDir]
   else if String.eqb p "." || starts_with "./" p then [CurDir] else [])
  ++ mjoin (component_of <$> split "/" p).

Example components_of_paths :
  (components <$> ["/a//b/"; "a/./b"; "./a/.."; ""; "."; "//"]%string)
  = [[RootDir; Normal "a"; Normal "b"]; [Normal "a"; Normal "b"]; [CurDir; Normal "a"; ParentDir];
     []; [CurDir]; [RootDir]].
Proof. reflexivity. Qed.

(** [Path::is_absolute], [Path::starts_with] and [Path::file_name]. *)
Definition is_absolute (p : string) : bool := starts_with "/" p.
Definition path_starts_with (base p : string) : bool :=
  bool_decide (components base `prefix_of` components p).
Definition file_name (p : string) : option string :=
  match last (components p) with Some (Normal x) => Some x | _ => None end.

(** [..] is a component where it is a part. *)
Lemma parent_dir_part p : ParentDir ∈ components p ↔ SandboxSpec.has_dotdot p = true.
Proof.
  unfold components, SandboxSpec.has_dotdot. rewrite elem_of_app. split.
  - intros [H|H]; [repeat case_match; set_solver|].
    apply list_elem_of_join in H as (l & Hl & (part & -> & Hp)%list_elem_of_fmap).
    apply existsb_exists. exists part. split; [by apply list_elem_of_In|].
    unfold component_of in Hl. destruct (is_empty part || _); [set_solver|].
    destruct (String.eqb part ".."); [done|set_solver].
  - intros (part & Hp & ->%String.eqb_eq)%existsb_exists. right. apply list_elem_of_join.
    exists [ParentDir]. split; [by left|]. apply list_elem_of_fmap. exists ".."%string.
    split; [done|]. by apply list_elem_of_In.
Qed.

(** A file name is one part of the path: it has no slash. *)
Lemma file_name_part p x : file_name p = Some x → x ∈ split "/" p ∧ x ≠ "" ∧ x ≠ "." ∧ x ≠ "..".
Proof.
  unfold file_name. destruct (last (components p)) as [c|] eqn:Hl; [|done]. destruct c as [| | |y]; try done.
  intros [= ->]. apply last_Some_elem_of in Hl. unfold components in Hl.
  apply elem_of_app in Hl as [Hl|Hl]; [repeat case_match; set_solver|].
  apply list_elem_of_join in Hl as (l & Hl & (part & -> & Hp)%list_elem_of_fmap).
  unfold component_of in Hl. destruct (is_empty part || String.eqb part ".") eqn:He; [set_solver|].
  apply orb_false_iff in He as [H1 H2]. destruct (String.eqb part "..") eqn:H3; [set_solver|].
  apply list_elem_of_singleton in Hl as [= ->]. unfold is_empty in H1.
  apply String.eqb_neq in H1, H2, H3. done.
Qed.
