(* ===== verification/Admission.v ===== *)
(** * Admission control ([crates/clouisle-scheduler/src/admission.rs])

    [ResourcePool] keeps one tokio semaphore per resource dimension and a
    mutex-protected record of what is allocated; [admit] takes a permit in every
    dimension or none, and dropping a [Reservation] gives them back.

    The semaphore is a dependency: it is the class [Semaphore], with the laws
    tokio documents in [SemaphoreOk].  [admit] and [Reservation::drop] are given
    twice: as whole functions, and as the sequence of atomic operations
    ([thread_step]) that concurrent callers interleave. *)

From S2P Require Import Prelude Core SandboxModel.

(** ** The semaphore interface *)

Class Semaphore : Type := {
  sem : Type;
  sem_new : Z → sem;
  try_acquire_many : Z → sem → option sem;
  add_permits : Z → sem → sem;
  available_permits : sem → Z }.

Class SemaphoreOk (S : Semaphore) : Prop := {
  available_new n : 0 ≤ n → available_permits (sem_new n) = n;
  acquire_some n s s' : try_acquire_many n s = Some s' →
    n ≤ available_permits s ∧ available_permits s' = available_permits s - n;
  acquire_none n s : try_acquire_many n s = None → available_permits s < n;
  available_add n s : 0 ≤ n → available_permits (add_permits n s) = available_permits s + n }.

(** A counter satisfies the laws. *)
Definition counter_semaphore : Semaphore :=
  {| sem := Z; sem_new n := n;
     try_acquire_many n s := if n <=? s then Some (s - n) else None;
     add_permits n s := s + n; available_permits s := s |}.

#[global] Instance counter_semaphore_ok : SemaphoreOk counter_semaphore.
Proof.
  split; simpl; intros; repeat split_match; bool_to_prop; simplify_eq; lia.
Qed.

Module Allocated.
Record t : Set := mk { vcpu : Z; memory_mb : Z; disk_mb : Z; count : Z }.
Definition default : t := mk 0 0 0 0.
End Allocated.

(** A [Reservation] holds its permits by owning it; what it must remember is
    the amount. *)
Module Reservation.
Record t : Set := mk { resources : Resources.t }.
End Reservation.

Module ResourcePool.
Section pool.
Context {S : Semaphore}.

Record t : Type := mk {
  vcpu_sem : sem;
  mem_sem : sem;
  disk_sem : sem;
  max_sandboxes : sem;
  tracking : Allocated.t;
  capacity_ : Resources.t }.

Definition new (capacity : Resources.t) (max : Z) : t :=
  mk (sem_new (Resources.vcpu capacity)) (sem_new (Resources.memory_mb capacity))
     (sem_new (Resources.disk_mb capacity)) (sem_new max) Allocated.default capacity.

(** *** The atomic operations on the shared state *)

Definition set_sb (p : t) (s : sem) : t :=
  mk (vcpu_sem p) (mem_sem p) (disk_sem p) s (tracking p) (capacity_ p).
Definition set_vcpu (p : t) (s : sem) : t :=
  mk s (mem_sem p) (disk_sem p) (max_sandboxes p) (tracking p) (capacity_ p).
Definition set_mem (p : t) (s : sem) : t :=
  mk (vcpu_sem p) s (disk_sem p) (max_sandboxes p) (tracking p) (capacity_ p).
Definition set_disk (p : t) (s : sem) : t :=
  mk (vcpu_sem p) (mem_sem p) s (max_sandboxes p) (tracking p) (capacity_ p).

Definition release_sb (p : t) : t := set_sb p (add_permits 1 (max_sandboxes p)).
Definition release_vcpu (r : Resources.t) (p : t) : t :=
  set_vcpu p (add_permits (Resources.vcpu r) (vcpu_sem p)).
Definition release_mem (r : Resources.t) (p : t) : t :=
  set_mem p (add_permits (Resources.memory_mb r) (mem_sem p)).
Definition release_disk (r : Resources.t) (p : t) : t :=
  set_disk p (add_permits (Resources.disk_mb r) (disk_sem p)).

(** The counters of [Allocated] have machine width: [+=] wraps. *)
Definition track (r : Resources.t) (p : t) : t :=
  let a := tracking p in
  mk (vcpu_sem p) (mem_sem p) (disk_sem p) (max_sandboxes p)
     (Allocated.mk (as_u16 (Allocated.vcpu a + Resources.vcpu r))
        (as_u32 (Allocated.memory_mb a + Resources.memory_mb r))
        (as_u32 (Allocated.disk_mb a + Resources.disk_mb r))
        (Allocated.count a + 1))
     (capacity_ p).

Definition untrack (r : Resources.t) (p : t) : t :=
  let a := tracking p in
  mk (vcpu_sem p) (mem_sem p) (disk_sem p) (max_sandboxes p)
     (Allocated.mk (saturating_sub (Allocated.vcpu a) (Resources.vcpu r))
        (saturating_sub (Allocated.memory_mb a) (Resources.memory_mb r))
        (saturating_sub (Allocated.disk_mb a) (Resources.disk_mb r))
        (saturating_sub (Allocated.count a) 1))
     (capacity_ p).

(** *** [ResourcePool::admit] *)

Definition admit_ (p : t) (spec : SandboxSpec.t) : t * result Reservation.t :=
  let r := SandboxSpec.resources spec in
  match try_acquire_many 1 (max_sandboxes p) with
  | None => (p, Err (ClouisleError.resource_exhausted "sandbox count limit reached"))
  | Some sb =>
    let p1 := set_sb p sb in
    match try_acquire_many (Resources.vcpu r) (vcpu_sem p1) with
    | None =>
      (release_sb p1, Err (ClouisleError.resource_exhausted
         ("insufficient vcpu: need " +:+ show (Resources.vcpu r))))
    | Some vc =>
      let p2 := set_vcpu p1 vc in
      match try_acquire_many (Resources.memory_mb r) (mem_sem p2) with
      | None =>
        (release_vcpu r (release_sb p2), Err (ClouisleError.resource_exhausted
           ("insufficient memory: need " +:+ show (Resources.memory_mb r) +:+ " MB")))
      | Some me =>
        let p3 := set_mem p2 me in
        match try_acquire_many (Resources.disk_mb r) (disk_sem p3) with
        | None =>
          (release_mem r (release_vcpu r (release_sb p3)),
           Err (ClouisleError.resource_exhausted
             ("insufficient disk: need " +:+ show (Resources.disk_mb r) +:+ " MB")))
        | Some di => (track r (set_disk p3 di), Ok (Reservation.mk r))
        end
      end
    end
  end.

(** [Drop for Reservation]: the tracking update, then the permits in field
    order. *)
Definition drop (p : t) (r : Reservation.t) : t :=
  let r := Reservation.resources r in
  release_disk r (release_mem r (release_vcpu r (release_sb (untrack r p)))).

Definition available (p : t) : Resources.t :=
  Resources.mk (as_u16 (available_permits (vcpu_sem p)))
    (as_u32 (available_permits (mem_sem p))) (as_u32 (available_permits (disk_sem p)))
    None None None.

Definition reserved (p : t) : Resources.t :=
  let a := tracking p in
  Resources.mk (Allocated.vcpu a) (Allocated.memory_mb a) (Allocated.disk_mb a)
    None None None.

Definition capacity (p : t) : Resources.t := capacity_ p.

(** ** Concurrent callers

    Where a caller of [admit] or of [drop] stands between two atomic
    operations.  [Rel] lists which permits it still has to give back. *)

Inductive pc : Set :=
| AcqVcpu | AcqMem | AcqDisk | Track | Held
| Rel (sb vcpu mem disk : bool).

Definition holds_sb (c : pc) : bool := match c with Rel b _ _ _ => b | _ => true end.
Definition holds_vcpu (c : pc) : bool :=
  match c with AcqVcpu => false | Rel _ b _ _ => b | _ => true end.
Definition holds_mem (c : pc) : bool :=
  match c with AcqVcpu | AcqMem => false | Rel _ _ b _ => b | _ => true end.
Definition holds_disk (c : pc) : bool :=
  match c with Track | Held => true | Rel _ _ _ b => b | _ => false end.
Definition is_tracked (c : pc) : bool := match c with Held => true | _ => false end.

(** The next atomic operation of a caller; [None] as the new position means
    the call has returned (with an error, or the reservation is gone). *)
Definition thread_step (p : t) (r : Resources.t) (c : pc) : t * option pc :=
  match c with
  | AcqVcpu =>
    match try_acquire_many (Resources.vcpu r) (vcpu_sem p) with
    | Some s => (set_vcpu p s, Some AcqMem)
    | None => (p, Some (Rel true false false false))
    end
  | AcqMem =>
    match try_acquire_many (Resources.memory_mb r) (mem_sem p) with
    | Some s => (set_mem p s, Some AcqDisk)
    | None => (p, Some (Rel true true false false))
    end
  | AcqDisk =>
    match try_acquire_many (Resources.disk_mb r) (disk_sem p) with
    | Some s => (set_disk p s, Some Track)
    | None => (p, Some (Rel true true true false))
    end
  | Track => (track r p, Some Held)
  | Held => (untrack r p, Some (Rel true true true true))
  | Rel true v m d => (release_sb p, Some (Rel false v m d))
  | Rel false true m d => (release_vcpu r p, Some (Rel false false m d))
  | Rel false false true d => (release_mem r p, Some (Rel false false false d))
  | Rel false false false true => (release_disk r p, Some (Rel false false false false))
  | Rel false false false false => (p, None)
  end.

Definition thread : Type := Resources.t * pc.
Definition config : Type := t * list thread.

(** A configuration moves when a new caller takes its sandbox permit (a caller
    that finds none returns at once and changes nothing), or when one of the
    callers performs its next operation. *)
Inductive step : config → config → Prop :=
| step_enter p ts r sb :
    Resources.well_typed r →
    try_acquire_many 1 (max_sandboxes p) = Some sb →
    step (p, ts) (set_sb p sb, ts ++ [(r, AcqVcpu)])
| step_thread p p' ts i r c c' :
    ts !! i = Some (r, c) →
    thread_step p r c = (p', Some c') →
    step (p, ts) (p', <[i := (r, c')]> ts)
| step_exit p p' ts i r c :
    ts !! i = Some (r, c) →
    thread_step p r c = (p', None) →
    step (p, ts) (p', delete i ts).

(** ** The invariant of every interleaving

    The four dimensions, and for each one the permits a caller holds at a
    given position, the permits left, and what the tracker says. *)

Inductive dim : Set := Sb | Vcpu | Mem | Disk.

Definition amount (d : dim) (r : Resources.t) : Z :=
  match d with
  | Sb => 1 | Vcpu => Resources.vcpu r
  | Mem => Resources.memory_mb r | Disk => Resources.disk_mb r
  end.
Definition holds (d : dim) (c : pc) : bool :=
  match d with
  | Sb => holds_sb c | Vcpu => holds_vcpu c | Mem => holds_mem c | Disk => holds_disk c
  end.
Definition remaining (d : dim) (p : t) : Z :=
  available_permits
    match d with
    | Sb => max_sandboxes p | Vcpu => vcpu_sem p | Mem => mem_sem p | Disk => disk_sem p
    end.
Definition tracked (d : dim) (p : t) : Z :=
  match d with
  | Sb => Allocated.count (tracking p) | Vcpu => Allocated.vcpu (tracking p)
  | Mem => Allocated.memory_mb (tracking p) | Disk => Allocated.disk_mb (tracking p)
  end.

Definition held_by (d : dim) (th : thread) : Z :=
  if holds d th.2 then amount d th.1 else 0.
Definition tracked_by (d : dim) (th : thread) : Z :=
  if is_tracked th.2 then amount d th.1 else 0.

Definition limit (cap : Resources.t) (max : Z) (d : dim) : Z :=
  match d with Sb => max | _ => amount d cap end.

Record inv (cap : Resources.t) (max : Z) (cfg : config) : Prop := {
  inv_typed : Forall (λ th, Resources.well_typed th.1) cfg.2;
  inv_left d : 0 ≤ remaining d cfg.1;
  inv_held d : remaining d cfg.1 + sum_by (held_by d) cfg.2 = limit cap max d;
  inv_tracked d : tracked d cfg.1 = sum_by (tracked_by d) cfg.2;
  inv_capacity : capacity cfg.1 = cap }.

Definition initial (cap : Resources.t) (max : Z) : config := (new cap max, []).

Definition reachable (cap : Resources.t) (max : Z) (cfg : config) : Prop :=
  star step (initial cap max) cfg.

(** ** Lemmas *)

Context {SO : SemaphoreOk S}.

Lemma amount_nonneg d r : Resources.well_typed r → 0 ≤ amount d r.
Proof. unfold Resources.well_typed, in_u16, in_u32. destruct d; simpl; lia. Qed.

Lemma held_by_nonneg d th : Resources.well_typed th.1 → 0 ≤ held_by d th.
Proof. intros ?%(amount_nonneg d). unfold held_by. by destruct (holds _ _). Qed.

Lemma tracked_by_held_by d th :
  Resources.well_typed th.1 → 0 ≤ tracked_by d th ≤ held_by d th.
Proof.
  intros Hw%(amount_nonneg d). unfold tracked_by, held_by.
  destruct th as [r []], d; simpl in *; try done; repeat case_match; lia.
Qed.

(** A step of a caller moves permits between the pool and the caller. *)
Lemma thread_step_left p r c p' oc d :
  Resources.well_typed r → thread_step p r c = (p', oc) → 0 ≤ remaining d p →
  0 ≤ remaining d p' ∧
  remaining d p' + from_option (λ c', held_by d (r, c')) 0 oc = remaining d p + held_by d (r, c).
Proof.
  intros (Hv & Hm & Hd) Hs Hl. unfold in_u16, in_u32 in *. unfold held_by, remaining in *. simpl.
  destruct d, c as [| | | | |[] [] [] []]; simpl in *; repeat split_match; simplify_eq/=;
    repeat match goal with
    | H : try_acquire_many _ _ = Some _ |- _ => apply acquire_some in H as [? ?]
    end; rewrite ?available_add by lia; lia.
Qed.

Lemma thread_step_capacity p r c p' oc :
  thread_step p r c = (p', oc) → capacity p' = capacity p.
Proof.
  destruct c as [| | | | |[] [] [] []]; simpl; intros; repeat split_match; by simplify_eq.
Qed.

(** What a step does to the tracker, before machine width is considered. *)
Lemma thread_step_tracked p r c p' oc :
  thread_step p r c = (p', oc) →
  match c with
  | Track => p' = track r p ∧ oc = Some Held
  | Held => p' = untrack r p ∧ oc = Some (Rel true true true true)
  | _ => tracking p' = tracking p ∧ from_option is_tracked false oc = false
  end.
Proof.
  destruct c as [| | | | |[] [] [] []]; simpl; intros; repeat split_match; by simplify_eq.
Qed.

Lemma track_exact p r d cap :
  Resources.well_typed r → Resources.well_typed cap →
  (∀ d, 0 ≤ tracked d p) → (∀ d, d ≠ Sb → tracked d p + amount d r ≤ amount d cap) →
  tracked d (track r p) = tracked d p + amount d r.
Proof.
  intros Hr Hc H0 Hle. pose proof (H0 Vcpu); pose proof (H0 Mem); pose proof (H0 Disk).
  pose proof (amount_nonneg d r Hr).
  destruct Hc as (Hv & Hm & Hd). unfold in_u16, in_u32 in *.
  destruct d; simpl in *; [done|..];
    (rewrite as_u16_id || rewrite as_u32_id); unfold in_u16, in_u32; try done;
    [specialize (Hle Vcpu)|specialize (Hle Mem)|specialize (Hle Disk)]; simpl in *;
    specialize (Hle ltac:(done)); lia.
Qed.

Lemma untrack_exact p r d :
  amount d r ≤ tracked d p → tracked d (untrack r p) = tracked d p - amount d r.
Proof. destruct d; simpl; unfold saturating_sub; lia. Qed.

Lemma inv_initial cap max :
  Resources.well_typed cap → 0 ≤ max → inv cap max (initial cap max).
Proof.
  intros (? & ? & ?) ?. unfold in_u16, in_u32 in *.
  split; simpl; [apply Forall_nil_2|intros []..|done];
    unfold remaining, sum_by; simpl; rewrite ?available_new by lia; lia.
Qed.

Lemma inv_step_enter cap max p ts r sb :
  inv cap max (p, ts) → Resources.well_typed r →
  try_acquire_many 1 (max_sandboxes p) = Some sb →
  inv cap max (set_sb p sb, ts ++ [(r, AcqVcpu)]).
Proof.
  intros [Ht Hl Hh Htr Hc] Hr [? Hsb]%acquire_some. split; simpl in *.
  - apply Forall_app; auto using Forall_singleton.
  - intros []; [|apply (Hl Vcpu)|apply (Hl Mem)|apply (Hl Disk)].
    unfold remaining; simpl. lia.
  - intros d. rewrite sum_by_app. pose proof (Hh d) as Hd. unfold remaining in *.
    destruct d; unfold sum_by at 2; simpl in *; unfold held_by at 2; simpl; lia.
  - intros d. rewrite sum_by_app. rewrite <-Htr. unfold sum_by, tracked_by; simpl.
    destruct d; simpl; lia.
  - done.
Qed.

(** The tracked sum stays below the held one, hence below the capacity. *)
Lemma tracked_below cap max p ts d :
  Forall (λ th, Resources.well_typed th.1) ts → 0 ≤ remaining d p →
  remaining d p + sum_by (held_by d) ts = limit cap max d →
  0 ≤ sum_by (tracked_by d) ts ≤ limit cap max d.
Proof.
  intros Ht Hl Hh.
  pose proof (sum_by_nonneg (tracked_by d) ts).
  pose proof (sum_by_le (tracked_by d) (held_by d) ts).
  assert (∀ th, Resources.well_typed th.1 → 0 ≤ tracked_by d th ≤ held_by d th) as Hb
    by auto using tracked_by_held_by.
  assert (Forall (λ x, 0 ≤ tracked_by d x) ts)
    by (eapply Forall_impl; [exact Ht|]; intros ? ?%Hb; simpl; lia).
  assert (Forall (λ x, tracked_by d x ≤ held_by d x) ts)
    by (eapply Forall_impl; [exact Ht|]; intros ? ?%Hb; simpl; lia).
  intuition lia.
Qed.

(** The threads after a caller has moved to [oc]. *)
Definition update_thread (i : nat) (r : Resources.t) (oc : option pc) (ts : list thread)
    : list thread :=
  match oc with Some c' => <[i := (r, c')]> ts | None => delete i ts end.

Lemma update_thread_sum w i r c oc ts :
  ts !! i = Some (r, c) →
  sum_by w (update_thread i r oc ts)
  = sum_by w ts - w (r, c) + from_option (λ c', w (r, c')) 0 oc.
Proof.
  intros Hi. destruct oc as [c'|]; simpl; [by apply sum_by_insert|].
  rewrite (sum_by_delete w _ _ _ Hi). lia.
Qed.

Lemma update_thread_typed i r c oc ts :
  ts !! i = Some (r, c) → Forall (λ th, Resources.well_typed th.1) ts →
  Forall (λ th, Resources.well_typed th.1) (update_thread i r oc ts).
Proof.
  intros Hi Ht. pose proof (Forall_lookup_1 _ _ _ _ Ht Hi).
  destruct oc; simpl; [by apply Forall_insert|by apply Forall_delete].
Qed.

Lemma inv_step_thread cap max p ts i r c p' oc :
  Resources.well_typed cap → inv cap max (p, ts) → ts !! i = Some (r, c) →
  thread_step p r c = (p', oc) → inv cap max (p', update_thread i r oc ts).
Proof.
  intros Hcap [Ht Hl Hh Htr Hc] Hi Hs; simpl in *.
  pose proof (Forall_lookup_1 _ _ _ _ Ht Hi) as Hr. simpl in Hr.
  pose proof (λ d, thread_step_left p r c p' oc d Hr Hs (Hl d)) as Hmv.
  pose proof (update_thread_typed i r c oc ts Hi Ht) as Ht'.
  assert (∀ d, remaining d p' + sum_by (held_by d) (update_thread i r oc ts) = limit cap max d) as Hh'.
  { intros d. rewrite (update_thread_sum _ _ _ _ _ _ Hi). specialize (Hh d).
    destruct (Hmv d). lia. }
  split; simpl; [done|apply Hmv|done| |by rewrite (thread_step_capacity _ _ _ _ _ Hs)]. clear Hc.
  pose proof (λ d, tracked_below cap max p' _ d Ht' (proj1 (Hmv d)) (Hh' d)) as Hb.
  pose proof (λ d, tracked_below cap max p _ d Ht (Hl d) (Hh d)) as Hb0.
  intros d. pose proof (thread_step_tracked _ _ _ _ _ Hs) as Hk.
  assert (∀ d, sum_by (tracked_by d) (update_thread i r oc ts)
    = tracked d p - tracked_by d (r, c) + from_option (λ c', tracked_by d (r, c')) 0 oc) as Hsum
    by (intros; rewrite Htr; by apply update_thread_sum).
  destruct c; destruct_and?; simplify_eq; simpl in *.
  4: { rewrite (track_exact _ _ _ cap), Hsum; try done; [unfold tracked_by; simpl; lia|..].
       - intros d'. rewrite Htr. apply Hb0.
       - intros d' Hd'. pose proof (Hb d') as Hbd. rewrite Hsum in Hbd.
         unfold tracked_by in Hbd; simpl in Hbd. destruct d'; simpl in *; [done|lia..]. }
  4: { rewrite untrack_exact, Hsum; [unfold tracked_by; simpl; lia|].
       pose proof (Hb d) as Hbd. rewrite Hsum in Hbd. unfold tracked_by in Hbd; simpl in Hbd. lia. }
  all: rewrite Hsum; unfold tracked_by at 1; simpl;
    assert (tracked d p' = tracked d p) as -> by (destruct d; simpl; congruence);
    destruct oc; simpl in *; unfold tracked_by; simpl; try lia;
    match goal with H : is_tracked _ = false |- _ => rewrite H; lia end.
Qed.

Lemma inv_step cap max cfg cfg' :
  Resources.well_typed cap → inv cap max cfg → step cfg cfg' → inv cap max cfg'.
Proof.
  intros Hcap Hinv. destruct 1 as [p ts r sb|p p' ts i r c c' Hi Hs|p p' ts i r c Hi Hs].
  - by apply inv_step_enter.
  - exact (inv_step_thread _ _ _ _ _ _ _ _ (Some c') Hcap Hinv Hi Hs).
  - exact (inv_step_thread _ _ _ _ _ _ _ _ None Hcap Hinv Hi Hs).
Qed.

Lemma inv_reachable cap max cfg :
  Resources.well_typed cap → 0 ≤ max → reachable cap max cfg → inv cap max cfg.
Proof.
  intros Hcap Hmax Hr. eapply (star_invariant _ (inv cap max)); [|exact Hr|].
  - intros ????. by eapply inv_step.
  - by apply inv_initial.
Qed.

(** *** Whole calls *)

(** A caller that runs alone from position [c]: the scheduler picks it until
    it holds its reservation or has returned. *)
Fixpoint run_thread (fuel : nat) (p : t) (r : Resources.t) (c : pc) : t * option pc :=
  match fuel with
  | O => (p, Some c)
  | Datatypes.S fuel =>
    match thread_step p r c with
    | (p', Some Held) => (p', Some Held)
    | (p', Some c') => run_thread fuel p' r c'
    | (p', None) => (p', None)
    end
  end.

Lemma run_thread_step fuel p r c p' c' :
  thread_step p r c = (p', Some c') → c' ≠ Held →
  run_thread (Datatypes.S fuel) p r c = run_thread fuel p' r c'.
Proof. simpl. intros ->. by destruct c'. Qed.

Lemma run_thread_star fuel p ts r c p' oc :
  run_thread fuel p r c = (p', oc) →
  star step (p, ts ++ [(r, c)]) (p', ts ++ from_option (λ c', [(r, c')]) [] oc).
Proof.
  revert p c. induction fuel as [|fuel IH]; intros p c; simpl; [by intros [= <- <-]; constructor|].
  assert ((ts ++ [(r, c)]) !! length ts = Some (r, c)) as Hi by by apply list_lookup_middle.
  assert (∀ c', <[length ts := (r, c')]> (ts ++ [(r, c)]) = ts ++ [(r, c')]) as Hins.
  { intros. rewrite <-(Nat.add_0_r (length ts)). by rewrite insert_app_r. }
  destruct (thread_step p r c) as [p1 [c1|]] eqn:Hs.
  - intros Hrun. eapply star_step; [by eapply step_thread|]. rewrite Hins.
    destruct c1; try (by apply IH). simplify_eq. constructor.
  - intros [= <- <-]. eapply star_step; [by eapply step_exit|]. simpl.
    rewrite app_nil_r, delete_middle, app_nil_r. constructor.
Qed.

(** [admit_] is the schedule in which the caller is never interrupted. *)
Lemma admit_run p spec :
  let r := SandboxSpec.resources spec in
  match try_acquire_many 1 (max_sandboxes p) with
  | None => fst (admit_ p spec) = p ∧ is_ok (snd (admit_ p spec)) = false
  | Some sb =>
    run_thread 8 (set_sb p sb) r AcqVcpu
    = (fst (admit_ p spec), if is_ok (snd (admit_ p spec)) then Some Held else None)
  end.
Proof.
  unfold admit_. cbv zeta. destruct (try_acquire_many 1 _) as [sb|]; [|done].
  destruct (try_acquire_many _ (vcpu_sem (set_sb p sb))) as [vc|] eqn:Ev;
    (erewrite run_thread_step; [|unfold thread_step; by rewrite Ev|done]); [|reflexivity].
  destruct (try_acquire_many _ (mem_sem _)) as [me|] eqn:Em;
    (erewrite run_thread_step; [|unfold thread_step; by rewrite Em|done]); [|reflexivity].
  destruct (try_acquire_many _ (disk_sem _)) as [di|] eqn:Ed;
    (erewrite run_thread_step; [|unfold thread_step; by rewrite Ed|done]); reflexivity.
Qed.

Lemma admit_schedule p ts spec :
  Resources.well_typed (SandboxSpec.resources spec) →
  star step (p, ts)
    (fst (admit_ p spec),
     ts ++ if is_ok (snd (admit_ p spec)) then [(SandboxSpec.resources spec, Held)] else []).
Proof.
  intros Hw. pose proof (admit_run p spec) as Hrun. cbv zeta in Hrun.
  destruct (try_acquire_many 1 _) as [sb|] eqn:Hsb.
  - eapply star_step; [by eapply step_enter|]. apply (run_thread_star _ _ ts) in Hrun.
    destruct (is_ok _); done.
  - destruct Hrun as [-> ->]. rewrite app_nil_r. constructor.
Qed.

Lemma drop_schedule p ts r :
  star step (p, ts ++ [(r, Held)]) (drop p (Reservation.mk r), ts).
Proof.
  rewrite <-(app_nil_r ts) at 2. exact (run_thread_star 6 p ts r Held _ None eq_refl).
Qed.

(** The abstract resource pool: the free amount in each dimension. *)
Definition fits (p : t) (r : Resources.t) : Prop := ∀ d, amount d r ≤ remaining d p.

Lemma admit_ok_iff p spec :
  is_ok (snd (admit_ p spec)) = true ↔ fits p (SandboxSpec.resources spec).
Proof.
  unfold admit_, fits. set (r := SandboxSpec.resources spec).
  assert (∀ P : dim → Prop, (∀ d, P d) ↔ P Sb ∧ P Vcpu ∧ P Mem ∧ P Disk) as ->
    by (intros; split; [auto|intros (? & ? & ? & ?) []; auto]).
  unfold remaining; simpl.
  repeat split_match; simpl in *;
    repeat match goal with
    | H : try_acquire_many _ _ = Some _ |- _ => apply acquire_some in H as [? _]
    | H : try_acquire_many _ _ = None |- _ => apply acquire_none in H
    end; split; intros; destruct_and?; try done; lia.
Qed.

Lemma admit_remaining p spec d :
  Resources.well_typed (SandboxSpec.resources spec) →
  remaining d (fst (admit_ p spec))
  = remaining d p - if is_ok (snd (admit_ p spec)) then amount d (SandboxSpec.resources spec) else 0.
Proof.
  intros (? & ? & ?). unfold in_u16, in_u32 in *. unfold admit_, remaining. simpl.
  destruct d; repeat split_match; simpl in *;
    repeat match goal with
    | H : try_acquire_many _ _ = Some _ |- _ => apply acquire_some in H as [_ H]
    end; rewrite ?available_add by lia; simpl in *; lia.
Qed.

Lemma admit_err_kind p spec e :
  snd (admit_ p spec) = Err e → ClouisleError.kind e = ErrorKind.ResourceExhausted.
Proof. unfold admit_. intros. repeat split_match; by simplify_eq/=. Qed.

Lemma admit_result p spec :
  match snd (admit_ p spec) with
  | Ok res => res = Reservation.mk (SandboxSpec.resources spec)
  | Err _ => True
  | Panic => False
  end.
Proof. unfold admit_. by repeat split_match; simplify_eq/=. Qed.

Lemma exceeding_dim p r : (∃ d, remaining d p < amount d r) ∨ fits p r.
Proof.
  destruct (Z_lt_le_dec (remaining Sb p) (amount Sb r)); [eauto|].
  destruct (Z_lt_le_dec (remaining Vcpu p) (amount Vcpu r)); [eauto|].
  destruct (Z_lt_le_dec (remaining Mem p) (amount Mem r)); [eauto|].
  destruct (Z_lt_le_dec (remaining Disk p) (amount Disk r)); [eauto|].
  right. by intros [].
Qed.

Lemma drop_remaining p r d :
  Resources.well_typed r →
  remaining d (drop p (Reservation.mk r)) = remaining d p + amount d r.
Proof.
  intros (? & ? & ?). unfold in_u16, in_u32 in *. unfold remaining.
  destruct d; simpl; rewrite ?available_add by lia; lia.
Qed.
End pool.
Arguments t : clear implicits.
End ResourcePool.

(** ** Properties *)

Section properties.
Context {S : Semaphore} {SO : SemaphoreOk S}.
Import ResourcePool.

(** C4: in every interleaving of callers of [admit] and of dropped reservations,
    the pool never hands out more than its capacity in any of its four
    dimensions, the permits in the semaphores and those held by callers in
    flight add up to the capacity, and [reserved] reports exactly the sum of the
    live reservations (its counters never wrap). *)
Theorem admission_never_oversubscribes cap max p ts :
  Resources.well_typed cap → 0 ≤ max → reachable cap max (p, ts) →
  (∀ d, sum_by (tracked_by d) ts ≤ sum_by (held_by d) ts ≤ limit cap max d) ∧
  (∀ d, remaining d p = limit cap max d - sum_by (held_by d) ts) ∧
  reserved p = Resources.mk (sum_by (tracked_by Vcpu) ts) (sum_by (tracked_by Mem) ts)
    (sum_by (tracked_by Disk) ts) None None None ∧
  capacity p = cap.
Proof.
  intros Hcap Hmax Hr. destruct (inv_reachable _ _ _ Hcap Hmax Hr) as [Ht Hl Hh Htr Hc]; simpl in *.
  split_and!; [|intros d; rewrite <-(Hh d); lia| |done].
  - intros d. specialize (Hl d). specialize (Hh d). split; [|lia].
    apply sum_by_le. eapply Forall_impl; [exact Ht|]. intros th ?. by apply tracked_by_held_by.
  - rewrite <-(Htr Vcpu), <-(Htr Mem), <-(Htr Disk). done.
Qed.

(** When no call is in flight, nothing has leaked: what [available] reports
    is the capacity less what [reserved] reports, in every dimension, and with
    no live reservation the pool is as good as new. *)
Theorem admission_quiescent_no_leak cap max p ts :
  Resources.well_typed cap → 0 ≤ max → reachable cap max (p, ts) →
  Forall (λ th, th.2 = Held) ts →
  Resources.vcpu (available p) = Resources.vcpu cap - Resources.vcpu (reserved p) ∧
  Resources.memory_mb (available p) = Resources.memory_mb cap - Resources.memory_mb (reserved p) ∧
  Resources.disk_mb (available p) = Resources.disk_mb cap - Resources.disk_mb (reserved p) ∧
  remaining Sb p = max - Z.of_nat (length ts).
Proof.
  intros Hcap Hmax Hr Hq.
  destruct (inv_reachable _ _ _ Hcap Hmax Hr) as [Ht Hl Hh Htr _]; simpl in *.
  assert (∀ d, remaining d p = limit cap max d - tracked d p) as Hrem.
  { intros d. rewrite Htr, <-(Hh d). rewrite (sum_by_ext_Forall (held_by d) (tracked_by d)); [lia|].
    eapply Forall_impl; [exact Hq|]. intros [r c] Heq. simpl in Heq. subst c. by destruct d. }
  pose proof (λ d, tracked_below _ _ _ _ d Ht (Hl d) (Hh d)) as Hb.
  setoid_rewrite <-Htr in Hb. destruct Hcap as (Hv & Hm & Hd). unfold in_u16, in_u32 in *.
  pose proof (Hrem Vcpu); pose proof (Hrem Mem); pose proof (Hrem Disk).
  pose proof (Hb Vcpu); pose proof (Hb Mem); pose proof (Hb Disk).
  split_and!; [unfold remaining in *; simpl in *..|].
  - rewrite as_u16_id; unfold in_u16; lia.
  - rewrite as_u32_id; unfold in_u32; lia.
  - rewrite as_u32_id; unfold in_u32; lia.
  - rewrite (Hrem Sb), (Htr Sb). simpl. f_equal. apply sum_by_one. eapply Forall_impl; [exact Hq|]. intros [r c] Heq. simpl in Heq. by subst c.
Qed.

(** [admit] takes a permit in all four dimensions or in none.  It succeeds
    exactly when the request fits what is left in every dimension; then each
    dimension falls by the request, and dropping the reservation restores it; a
    refusal is [RESOURCE_EXHAUSTED] and leaves every dimension as it was. *)
Theorem admit_all_or_nothing p spec :
  Resources.well_typed (SandboxSpec.resources spec) →
  match admit_ p spec with
  | (p', Ok res) =>
    Reservation.resources res = SandboxSpec.resources spec ∧
    (∀ d, amount d (SandboxSpec.resources spec) ≤ remaining d p) ∧
    (∀ d, remaining d p' = remaining d p - amount d (SandboxSpec.resources spec)) ∧
    (∀ d, remaining d (drop p' res) = remaining d p)
  | (p', Err e) =>
    ClouisleError.kind e = ErrorKind.ResourceExhausted ∧
    (∃ d, remaining d p < amount d (SandboxSpec.resources spec)) ∧
    (∀ d, remaining d p' = remaining d p)
  | (_, Panic) => False
  end.
Proof.
  intros Hw. pose proof (λ d, admit_remaining p spec d Hw) as Hrem.
  pose proof (admit_ok_iff p spec) as Hok. pose proof (admit_err_kind p spec) as Hk.
  pose proof (admit_result p spec) as Hres.
  destruct (admit_ p spec) as [p' [res|e|]]; simpl in *; [|split_and!; [by apply Hk| |]|done].
  - subst res. split_and!; [done|by apply Hok|done|].
    intros d. rewrite drop_remaining by done. rewrite Hrem. lia.
  - destruct (exceeding_dim p (SandboxSpec.resources spec)) as [?|Hfit]; [done|].
    by apply Hok in Hfit.
  - intros d. rewrite Hrem. lia.
Qed.

(** The whole-call definitions are schedules of the concurrent system: an
    uninterrupted [admit] and an uninterrupted [drop] are sequences of its
    steps, so what holds in every reachable configuration holds after any
    sequence of whole calls. *)
Theorem admit_refines_steps p ts spec :
  Resources.well_typed (SandboxSpec.resources spec) →
  match admit_ p spec with
  | (p', Ok res) =>
    star step (p, ts) (p', ts ++ [(Reservation.resources res, Held)]) ∧
    star step (p', ts ++ [(Reservation.resources res, Held)]) (drop p' res, ts)
  | (p', _) => star step (p, ts) (p', ts)
  end.
Proof.
  intros Hw. pose proof (admit_schedule p ts spec Hw) as Hsch.
  pose proof (admit_result p spec) as Hres.
  destruct (admit_ p spec) as [p' [res|e|]]; simpl in *; rewrite ?app_nil_r in Hsch; try done.
  subst res. split; [done|apply drop_schedule].
Qed.
End properties.

(** ** Witnesses *)

Module Demo.
Import ResourcePool.
Definition cap : Resources.t := Resources.mk 3 512 1024 None None None.
Definition req : Resources.t := Resources.mk 2 128 256 None None None.

(** Two callers race for three vCPUs: the first gets its two, the second finds
    one left and gives its sandbox permit back. *)
Definition pool : t counter_semaphore :=
  mk (S := counter_semaphore) 1 384 768 1 (Allocated.mk 2 128 256 1) cap.
Definition threads : list thread := [(req, Held); (req, Rel false false false false)].

Lemma cap_typed : Resources.well_typed cap.
Proof. unfold Resources.well_typed, in_u16, in_u32; simpl; unfold u16_max, u32_max. lia. Qed.
Lemma req_typed : Resources.well_typed req.
Proof. unfold Resources.well_typed, in_u16, in_u32; simpl; unfold u16_max, u32_max. lia. Qed.

Lemma race : reachable (S := counter_semaphore) cap 2 (pool, threads).
Proof.
  eapply star_step; [apply (step_enter _ _ req); [apply req_typed|reflexivity]|].
  eapply star_step; [apply (step_enter _ _ req); [apply req_typed|reflexivity]|].
  eapply star_step; [eapply (step_thread _ _ _ 0 req AcqVcpu); reflexivity|].
  eapply star_step; [eapply (step_thread _ _ _ 1 req AcqVcpu); reflexivity|].
  eapply star_step; [eapply (step_thread _ _ _ 0 req AcqMem); reflexivity|].
  eapply star_step; [eapply (step_thread _ _ _ 1 req (Rel true false false false)); reflexivity|].
  eapply star_step; [eapply (step_thread _ _ _ 0 req AcqDisk); reflexivity|].
  eapply star_step; [eapply (step_thread _ _ _ 0 req Track); reflexivity|].
  constructor.
Qed.

Lemma race_over : reachable (S := counter_semaphore) cap 2 (pool, [(req, Held)]).
Proof.
  eapply star_trans; [apply race|]. apply star_one.
  change [(req, Held)] with (delete 1%nat threads).
  eapply (step_exit _ _ _ 1 req (Rel false false false false)); reflexivity.
Qed.

Definition spec : SandboxSpec.t := SandboxSpec.default.

Lemma spec_typed : Resources.well_typed (SandboxSpec.resources spec).
Proof. unfold Resources.well_typed, in_u16, in_u32; simpl; unfold u16_max, u32_max. lia. Qed.
End Demo.

Lemma admission_never_oversubscribes_witness :
  Resources.vcpu (ResourcePool.reserved Demo.pool) = 2 ∧
  ResourcePool.reserved Demo.pool = Resources.mk 2 128 256 None None None.
Proof.
  split; [reflexivity|].
  exact (proj1 (proj2 (proj2 (admission_never_oversubscribes Demo.cap 2 Demo.pool Demo.threads
    Demo.cap_typed ltac:(lia) Demo.race)))).
Defined.

Lemma admission_quiescent_no_leak_witness :
  Resources.vcpu (ResourcePool.available Demo.pool) = 3 - 2.
Proof.
  refine (proj1 (admission_quiescent_no_leak Demo.cap 2 Demo.pool [(Demo.req, ResourcePool.Held)]
    Demo.cap_typed _ Demo.race_over _)); [lia|].
  by apply Forall_singleton.
Defined.

Lemma admit_all_or_nothing_witness :
  is_ok (snd (ResourcePool.admit_ Demo.pool Demo.spec)) = true ∧
  match ResourcePool.admit_ Demo.pool Demo.spec with
  | (p', Ok res) => ResourcePool.remaining ResourcePool.Vcpu (ResourcePool.drop p' res) = 1
  | _ => False
  end.
Proof.
  split; [reflexivity|].
  exact (proj2 (proj2 (proj2 (admit_all_or_nothing Demo.pool Demo.spec Demo.spec_typed)))
    ResourcePool.Vcpu).
Defined.

Lemma admit_refines_steps_witness :
  match ResourcePool.admit_ Demo.pool Demo.spec with
  | (p', Ok res) => star ResourcePool.step (Demo.pool, [])
      (p', [(SandboxSpec.resources Demo.spec, ResourcePool.Held)])
  | _ => False
  end.
Proof. exact (proj1 (admit_refines_steps Demo.pool [] Demo.spec Demo.spec_typed)). Defined.
