(* ===== verification/Placement.v ===== *)
(** * Placement ([crates/clouisle-scheduler/src/placement.rs])

    The filter and score phases that choose a node for a sandbox.  Scores are
    [f64]: IEEE 754 binary64 arithmetic of the Standard Library's [SpecFloat]
    (53 bits of precision, exponents up to 1024). *)

From S2P Require Import Prelude Core SandboxModel.
From Stdlib Require Import SpecFloat.

(** ** [f64] *)

Module F64.
Definition t : Type := spec_float.
Definition prec : Z := 53.
Definition emax : Z := 1024.
Definition add : t → t → t := SFadd prec emax.
Definition sub : t → t → t := SFsub prec emax.
Definition mul : t → t → t := SFmul prec emax.
Definition div : t → t → t := SFdiv prec emax.
(** [n as f64] of an unsigned integer. *)
Definition of_Z (n : Z) : t := binary_normalize prec emax n 0 false.
Definition zero : t := S754_zero false.
Definition one : t := of_Z 1.
Definition two : t := of_Z 2.
(** The literals [0.5] and [0.1] are the correctly rounded quotients. *)
Definition half : t := div one two.
Definition tenth : t := div one (of_Z 10).

(** [a.partial_cmp(&b).unwrap_or(Ordering::Equal)]. *)
Definition cmp (a b : t) : comparison :=
  match SFcompare a b with Some c => c | None => Eq end.

Definition is_nan (a : t) : bool := match a with S754_nan => true | _ => false end.

Lemma cmp_antisym a b : cmp a b = CompOpp (cmp b a).
Proof.
  unfold cmp. destruct a as [|[]| |[] m e], b as [|[]| |[] m' e']; simpl; try done;
    rewrite (Z.compare_antisym e e'); destruct (e ?= e'); simpl; try done;
    change (Pos.compare_cont Eq) with Pos.compare; rewrite (Pos.compare_antisym m m');
    by destruct (m ?= m')%positive.
Qed.

(** Signed values in order of sign, exponent and mantissa. *)
Definition lex (e : Z) (m : positive) (e' : Z) (m' : positive) : Prop :=
  e < e' ∨ e = e' ∧ (m ≤ m')%positive.

Lemma cmp_le_finite (s : bool) m e m' e' :
  cmp (S754_finite s m e) (S754_finite s m' e') ≠ Gt
  ↔ if s then lex e' m' e m else lex e m e' m'.
Proof.
  unfold cmp, lex, Pos.le. simpl. change (Pos.compare_cont Eq) with Pos.compare.
  rewrite (Pos.compare_antisym m m').
  destruct s, (Z.compare_spec e e'), (m ?= m')%positive; simpl; split; intros; try done; try lia;
    try (by right); try (by left); destruct_or?; destruct_and?; try lia; done.
Qed.

Lemma cmp_trans a b c :
  is_nan a = false → is_nan b = false → is_nan c = false →
  cmp a b ≠ Gt → cmp b c ≠ Gt → cmp a c ≠ Gt.
Proof.
  destruct a as [[]|[]| |[] m e], b as [[]|[]| |[] m' e'], c as [[]|[]| |[] m2 e2];
    try done; intros _ _ _; rewrite ?cmp_le_finite; unfold lex; try done; try lia.
Qed.
End F64.

(** ** Data *)

Inductive PlacementStrategy : Set := LeastLoaded | BestFit | Spread.

Module NodeAllocation.
Record t : Set := mk {
  node_id : string;
  allocated_vcpu : Z;
  allocated_memory_mb : Z;
  sandbox_count : Z }.
End NodeAllocation.

(** [allocations.iter().find(|a| a.node_id == n.node_id)]. *)
Definition find_allocation (allocations : list NodeAllocation.t) (n : NodeInfo.t)
  : option NodeAllocation.t :=
  List.find (λ a, String.eqb (NodeAllocation.node_id a) (NodeInfo.node_id n)) allocations.

(** ** Filter *)

Definition matches_selector (node : NodeInfo.t) (selector : gmap string string) : bool :=
  forallb (λ '(k, v), bool_decide (NodeInfo.labels node !! k = Some v)) (map_to_list selector).

Definition node_passes (allocations : list NodeAllocation.t) (spec : SandboxSpec.t)
    (n : NodeInfo.t) : bool :=
  if negb (NodeInfo.kvm_available n) then false
  else if negb (matches_selector n (SandboxSpec.node_selector spec)) then false
  else match find_allocation allocations n with
  | Some a =>
    let avail_vcpu := saturating_sub (NodeInfo.total_vcpu n) (NodeAllocation.allocated_vcpu a) in
    let avail_mem :=
      saturating_sub (NodeInfo.total_memory_mb n) (NodeAllocation.allocated_memory_mb a) in
    if avail_vcpu <? Resources.vcpu (SandboxSpec.resources spec) then false
    else if avail_mem <? Resources.memory_mb (SandboxSpec.resources spec) then false
    else true
  | None => true
  end.

Definition filter_nodes (nodes : list NodeInfo.t) (allocations : list NodeAllocation.t)
    (spec : SandboxSpec.t) : list NodeInfo.t :=
  List.filter (node_passes allocations spec) nodes.

(** ** Score *)

Definition load_fraction (node : NodeInfo.t) (alloc : option NodeAllocation.t) : F64.t :=
  match alloc with
  | None => F64.zero
  | Some a =>
    if (NodeInfo.total_vcpu node =? 0) || (NodeInfo.total_memory_mb node =? 0) then F64.one
    else
      let cpu_load := F64.div (F64.of_Z (NodeAllocation.allocated_vcpu a))
                        (F64.of_Z (NodeInfo.total_vcpu node)) in
      let mem_load := F64.div (F64.of_Z (NodeAllocation.allocated_memory_mb a))
                        (F64.of_Z (NodeInfo.total_memory_mb node)) in
      F64.div (F64.add cpu_load mem_load) F64.two
  end.

Definition score (allocations : list NodeAllocation.t) (strategy : PlacementStrategy)
    (n : NodeInfo.t) : F64.t :=
  let alloc := find_allocation allocations n in
  let load := load_fraction n alloc in
  match strategy with
  | LeastLoaded => load
  | BestFit => F64.add (F64.sub F64.one load) (F64.mul load F64.half)
  | Spread =>
    let count_penalty :=
      match alloc with
      | Some a => F64.mul (F64.of_Z (NodeAllocation.sandbox_count a)) F64.tenth
      | None => F64.zero
      end in
    F64.add load count_penalty
  end.

Definition score_nodes (nodes : list NodeInfo.t) (allocations : list NodeAllocation.t)
    (strategy : PlacementStrategy) : list (NodeInfo.t * F64.t) :=
  map (λ n, (n, score allocations strategy n)) nodes.

(** ** Placement *)

Definition cmp_scored (a b : NodeInfo.t * F64.t) : comparison := F64.cmp a.2 b.2.

Definition place (nodes : list NodeInfo.t) (allocations : list NodeAllocation.t)
    (spec : SandboxSpec.t) (strategy : PlacementStrategy) : option NodeInfo.t :=
  let filtered := filter_nodes nodes allocations spec in
  let scored := score_nodes filtered allocations strategy in
  fst <$> head (sort_by cmp_scored scored).

(** ** Lemmas *)

(** What makes a node eligible, in the terms of the request. *)
Record eligible (allocations : list NodeAllocation.t) (spec : SandboxSpec.t) (n : NodeInfo.t)
  : Prop := {
  elig_kvm : NodeInfo.kvm_available n = true;
  elig_selector : SandboxSpec.node_selector spec ⊆ NodeInfo.labels n;
  elig_resources a : find_allocation allocations n = Some a →
    Resources.vcpu (SandboxSpec.resources spec)
    ≤ saturating_sub (NodeInfo.total_vcpu n) (NodeAllocation.allocated_vcpu a) ∧
    Resources.memory_mb (SandboxSpec.resources spec)
    ≤ saturating_sub (NodeInfo.total_memory_mb n) (NodeAllocation.allocated_memory_mb a) }.

Lemma matches_selector_subseteq n sel :
  matches_selector n sel = true ↔ sel ⊆ NodeInfo.labels n.
Proof.
  unfold matches_selector. rewrite forallb_forall, map_subseteq_spec. split.
  - intros H k v Hk. apply elem_of_map_to_list in Hk. apply list_elem_of_In in Hk.
    apply H in Hk. by apply bool_decide_eq_true in Hk.
  - intros H [k v] Hk. apply list_elem_of_In, elem_of_map_to_list in Hk.
    apply bool_decide_eq_true. auto.
Qed.

Lemma node_passes_eligible al spec n : node_passes al spec n = true ↔ eligible al spec n.
Proof.
  unfold node_passes.
  destruct (NodeInfo.kvm_available n) eqn:Hk; simpl; [|by split; [|intros []; congruence]].
  pose proof (matches_selector_subseteq n (SandboxSpec.node_selector spec)) as Hs.
  destruct (matches_selector _ _); simpl; [|split; [done|]; intros []; by apply Hs].
  destruct (find_allocation al n) as [a|] eqn:Ha.
  - split.
    + intros. repeat split_match; bool_to_prop; try done.
      split; [done|by apply Hs|]. intros a' Ha'. simplify_eq. lia.
    + intros [_ _ Hr]. destruct (Hr a Ha).
      rewrite !(proj2 (Z.ltb_ge _ _)) by lia. done.
  - split; [|done]. split; [done|by apply Hs|]. intros a' Ha'. congruence.
Qed.

Lemma elem_of_filter_nodes nodes al spec n :
  n ∈ filter_nodes nodes al spec ↔ n ∈ nodes ∧ eligible al spec n.
Proof.
  unfold filter_nodes. rewrite <-node_passes_eligible, !list_elem_of_In, filter_In. done.
Qed.

Lemma place_nil nodes al spec strategy :
  place nodes al spec strategy = None ↔ filter_nodes nodes al spec = [].
Proof.
  unfold place. destruct (filter_nodes nodes al spec) as [|n l]; simpl; [done|].
  split; [|done]. destruct (sort_by _ _) as [|y t]; simpl; [done|].
  by destruct (cmp_scored _ _).
Qed.

Lemma insert_by_elem {A} (cmp : A → A → comparison) x y l :
  y ∈ insert_by cmp x l ↔ y = x ∨ y ∈ l.
Proof.
  induction l as [|z l IH]; simpl; [set_solver|]. destruct (cmp x z); set_solver.
Qed.

Lemma sort_by_elem {A} (cmp : A → A → comparison) y l : y ∈ sort_by cmp l ↔ y ∈ l.
Proof. induction l as [|z l IH]; simpl; [done|]. rewrite insert_by_elem. set_solver. Qed.

Lemma place_filtered nodes al spec strategy n :
  place nodes al spec strategy = Some n → n ∈ filter_nodes nodes al spec.
Proof.
  unfold place. destruct (sort_by _ _) as [|[n' sc] t] eqn:Hs; simpl; [done|]. intros [= ->].
  assert ((n, sc) ∈ score_nodes (filter_nodes nodes al spec) al strategy) as Hin.
  { rewrite <-(sort_by_elem cmp_scored), Hs. set_solver. }
  unfold score_nodes in Hin. apply list_elem_of_In, in_map_iff in Hin as (m & [= -> _] & Hm).
  by apply list_elem_of_In.
Qed.

(** No score of a candidate is a NaN. *)
Definition scores_defined (nodes : list NodeInfo.t) (al : list NodeAllocation.t)
    (spec : SandboxSpec.t) (strategy : PlacementStrategy) : bool :=
  forallb (λ n, negb (F64.is_nan (score al strategy n))) (filter_nodes nodes al spec).

Lemma place_first_min nodes al spec strategy n :
  scores_defined nodes al spec strategy = true →
  place nodes al spec strategy = Some n →
  ∃ l1 l2, filter_nodes nodes al spec = l1 ++ n :: l2 ∧
    Forall (λ m, F64.cmp (score al strategy m) (score al strategy n) = Gt) l1 ∧
    Forall (λ m, F64.cmp (score al strategy n) (score al strategy m) ≠ Gt) l2.
Proof.
  unfold place, scores_defined. generalize (filter_nodes nodes al spec) as l. intros l Hdef Hp.
  pose proof (sort_by_head cmp_scored (λ x, F64.is_nan x.2 = false) (score_nodes l al strategy))
    as Hh.
  destruct (sort_by _ _) as [|[n' sc] t]; [done|]. simpl in Hp. simplify_eq.
  destruct Hh as (l1 & l2 & Heq & H1 & H2).
  - intros. apply F64.cmp_antisym.
  - intros x y z. apply F64.cmp_trans.
  - unfold score_nodes. apply Forall_map. apply Forall_forall. intros m Hm.
    rewrite forallb_forall in Hdef. specialize (Hdef m (proj1 (list_elem_of_In _ _) Hm)).
    by bool_to_prop.
  - unfold score_nodes in Heq. apply fmap_app_inv in Heq as (k1 & k2 & -> & Hk & ->).
    symmetry in Hk. apply fmap_cons_inv in Hk as (m & k3 & [= -> ->] & -> & ->).
    exists k1, k3. rewrite Forall_fmap in H1, H2. done.
Qed.

(** ** Properties *)

(** Placement finds a node exactly when one passes the filter, and the
    node it returns is one of the given nodes, has KVM, carries every label of
    the selector, and has room for the requested vCPUs and memory next to what
    its allocation record says is in use. *)
Theorem place_sound_and_complete nodes al spec strategy :
  match place nodes al spec strategy with
  | Some n => n ∈ nodes ∧ eligible al spec n
  | None => ∀ n, n ∈ nodes → ¬ eligible al spec n
  end.
Proof.
  destruct (place nodes al spec strategy) as [n|] eqn:Hp.
  - apply place_filtered in Hp. by apply elem_of_filter_nodes in Hp.
  - apply place_nil in Hp. intros n Hn He.
    assert (n ∈ filter_nodes nodes al spec) as Hin by by apply elem_of_filter_nodes.
    rewrite Hp in Hin. by apply elem_of_nil in Hin.
Qed.

(** The node returned is the first best one.  When no candidate's score is
    a NaN, every candidate listed before it scores strictly worse and every
    candidate after it scores no better, in binary64 arithmetic. *)
Theorem place_is_first_minimum nodes al spec strategy n :
  scores_defined nodes al spec strategy = true →
  place nodes al spec strategy = Some n →
  ∃ l1 l2, filter_nodes nodes al spec = l1 ++ n :: l2 ∧
    Forall (λ m, F64.cmp (score al strategy m) (score al strategy n) = Gt) l1 ∧
    Forall (λ m, F64.cmp (score al strategy n) (score al strategy m) ≠ Gt) l2.
Proof. apply place_first_min. Qed.

(** A node without an allocation record is not checked for room at all: a
    request of any size is placed on it, even when it has no vCPU and no
    memory. *)
Theorem place_unrecorded_node_unchecked spec strategy n :
  NodeInfo.kvm_available n = true → SandboxSpec.node_selector spec = ∅ →
  place [n] [] spec strategy = Some n.
Proof.
  intros Hk Hs.
  assert (filter_nodes [n] [] spec = [n]) as Hf; [|unfold place; by rewrite Hf].
  unfold filter_nodes. simpl. rewrite (proj2 (node_passes_eligible [] spec n)); [done|].
  split; [done|rewrite Hs; apply map_empty_subseteq|done].
Qed.

Module PlacementDemo.
Definition node (id : string) (vcpu mem : Z) : NodeInfo.t :=
  NodeInfo.mk id id vcpu mem 102400 true "6.1" "1.4" ∅.
Definition nodes : list NodeInfo.t := [node "a" 16 32768; node "b" 16 32768; node "c" 16 32768].
Definition al : list NodeAllocation.t :=
  [NodeAllocation.mk "a" 8 8192 4; NodeAllocation.mk "b" 2 2048 1; NodeAllocation.mk "c" 2 2048 1].
End PlacementDemo.

Lemma place_is_first_minimum_witness :
  ∃ l1 l2, filter_nodes PlacementDemo.nodes PlacementDemo.al SandboxSpec.default
           = l1 ++ PlacementDemo.node "b" 16 32768 :: l2 ∧
    Forall (λ m, F64.cmp (score PlacementDemo.al LeastLoaded m)
      (score PlacementDemo.al LeastLoaded (PlacementDemo.node "b" 16 32768)) = Gt) l1 ∧
    Forall (λ m, F64.cmp (score PlacementDemo.al LeastLoaded (PlacementDemo.node "b" 16 32768))
      (score PlacementDemo.al LeastLoaded m) ≠ Gt) l2.
Proof.
  exact (place_is_first_minimum PlacementDemo.nodes PlacementDemo.al SandboxSpec.default
    LeastLoaded (PlacementDemo.node "b" 16 32768) ltac:(vm_compute; reflexivity)
    ltac:(vm_compute; reflexivity)).
Defined.

Lemma place_unrecorded_node_unchecked_witness :
  place [PlacementDemo.node "tiny" 0 0] [] SandboxSpec.default BestFit
  = Some (PlacementDemo.node "tiny" 0 0).
Proof.
  exact (place_unrecorded_node_unchecked SandboxSpec.default BestFit
    (PlacementDemo.node "tiny" 0 0) eq_refl eq_refl).
Defined.
