(* ===== verification/Vmm.v ===== *)
(** * The VMM interface ([crates/clouisle-vmm/src/lib.rs])

    The handle, mode and snapshot types, and the [Vmm] trait as a class over an
    opaque world: the machines of a node.  The backends (Firecracker, Docker,
    the remote node client) talk to processes and sockets; what the clients of
    the trait rely on is the class [VmmOk]. *)

From S2P Require Import Prelude Core SandboxModel.
From Stdlib Require Import SpecFloat.

Module VmHandle.
Record t : Set := mk {
  id : string;
  backend : string;
  owner_id : option string;
  pid : option Z;
  api_socket : option string;
  vsock_socket : option string;
  vsock_cid : option Z;
  subnet : option (Z * Z) }.
#[global] Instance eq_dec : EqDecision t.
Proof. solve_decision. Defined.
Definition default : t := mk "" "" None None None None None None.
End VmHandle.

Module StopMode.
Inductive t : Set := Graceful | Force.
End StopMode.

Module SnapshotKind.
Inductive t : Set := Full | Diff.
End SnapshotKind.

Module SnapshotPaths.
Record t : Set := mk { state_path : string; mem_path : string }.
#[global] Instance eq_dec : EqDecision t.
Proof. solve_decision. Defined.
End SnapshotPaths.

Module VmmCapabilities.
Record t : Set := mk { snapshot : bool; vsock : bool; balloon : bool }.
End VmmCapabilities.

Module VmStats.
Record t : Set := mk {
  boot_time_us : option Z;
  vcpu_usage : option spec_float;
  mem_used_mb : option Z;
  rx_bytes : option Z;
  tx_bytes : option Z }.
End VmStats.

(** The result of a backend call. *)
Abbreviation outcome A := (ClouisleError.t + A)%type.

Class Vmm : Type := {
  world : Type;
  create : string → SandboxSpec.t → world → world * outcome VmHandle.t;
  create_in_subnet : string → SandboxSpec.t → Z * Z → world → world * outcome VmHandle.t;
  image_cache_hit : SandboxSpec.t → world → world * outcome bool;
  prefetch_image : SandboxSpec.t → world → world * outcome ();
  probe : VmHandle.t → world → world * outcome bool;
  supports_detached_warm_pool : bool;
  requires_guest_agent : bool;
  capabilities : VmmCapabilities.t;
  start : VmHandle.t → world → world * outcome ();
  pause : VmHandle.t → world → world * outcome ();
  resume : VmHandle.t → world → world * outcome ();
  snapshot : VmHandle.t → SnapshotKind.t → SnapshotPaths.t → world → world * outcome ();
  restore : string → SandboxSpec.t → SnapshotPaths.t → world → world * outcome VmHandle.t;
  stop : VmHandle.t → StopMode.t → world → world * outcome ();
  stats : VmHandle.t → world → world * outcome VmStats.t;
  (** The ids of the machines that hold resources; an observation used by the
      laws, not an operation of the trait. *)
  live : world → gset string }.

(** What the trait documents: [create], [create_in_subnet] and [restore] make the
    resources of the machine with the id the control plane chose, a [stop] that
    succeeds ends it, the other operations create and destroy nothing.  Any of
    them may fail. *)
Class VmmOk (V : Vmm) : Prop := {
  create_live i sp w w' h : create i sp w = (w', inr h) →
    VmHandle.id h = i ∧ live w' = {[i]} ∪ live w;
  create_err_live i sp w w' e : create i sp w = (w', inl e) → live w' ⊆ live w;
  restore_live i sp sn w w' h : restore i sp sn w = (w', inr h) →
    VmHandle.id h = i ∧ live w' = {[i]} ∪ live w;
  restore_err_live i sp sn w w' e : restore i sp sn w = (w', inl e) → live w' ⊆ live w;
  start_live h w : live (start h w).1 = live w;
  pause_live h w : live (pause h w).1 = live w;
  resume_live h w : live (resume h w).1 = live w;
  probe_live h w : live (probe h w).1 = live w;
  cache_hit_live sp w : live (image_cache_hit sp w).1 = live w;
  prefetch_live sp w : live (prefetch_image sp w).1 = live w;
  create_in_subnet_live i sp sub w w' h : create_in_subnet i sp sub w = (w', inr h) →
    VmHandle.id h = i ∧ live w' = {[i]} ∪ live w;
  create_in_subnet_err_live i sp sub w w' e :
    create_in_subnet i sp sub w = (w', inl e) → live w' ⊆ live w;
  snapshot_live h k p w : live (snapshot h k p w).1 = live w;
  stats_live h w : live (stats h w).1 = live w;
  stop_live h m w w' : stop h m w = (w', inr ()) → live w' = live w ∖ {[VmHandle.id h]};
  stop_live_mono h m w : live (stop h m w).1 ⊆ live w }.

(** A forced stop that always succeeds: so for Firecracker; the Docker and the remote
    backends answer the daemon's and the node's errors.  A theorem that needs it says so. *)
Class StopTotal (V : Vmm) : Prop := {
  force_stop_ok h w : (stop h StopMode.Force w).2 = inr () }.

(** A world in memory: the set of ids, and the ids for which [start]
    or [stats] is to fail when the backend is [faulty]. *)
Module MemoryVmm.
Record t : Type := mk { machines : gset string; broken : gset string }.

Definition handle (i : string) : VmHandle.t :=
  VmHandle.mk i "memory" None None None None None None.

Definition fails {A} (faulty : bool) (w : t) (i : string) (a : A) : outcome A :=
  if faulty && bool_decide (i ∈ broken w) then inl (ClouisleError.internal "injected failure") else inr a.

Definition create_ (i : string) (w : t) : t * outcome VmHandle.t :=
  (mk ({[i]} ∪ machines w) (broken w), inr (handle i)).

Definition vmm (detached faulty : bool) : Vmm := {|
  world := t;
  create i _ := create_ i;
  create_in_subnet i _ _ := create_ i;
  image_cache_hit _ w := (w, inr true);
  prefetch_image _ w := (w, inr ());
  probe h w := (w, inr (bool_decide (VmHandle.id h ∈ machines w)));
  supports_detached_warm_pool := detached;
  requires_guest_agent := true;
  capabilities := VmmCapabilities.mk true true false;
  start h w := (w, fails faulty w (VmHandle.id h) ());
  pause h w := (w, inr ());
  resume h w := (w, inr ());
  snapshot h _ _ w := (w, inr ());
  restore i _ _ := create_ i;
  stop h _ w := (mk (machines w ∖ {[VmHandle.id h]}) (broken w), inr ());
  stats h w := (w, fails faulty w (VmHandle.id h) (VmStats.mk None None None None None));
  live := machines |}.

#[global] Instance vmm_ok d f : VmmOk (vmm d f).
Proof.
  split; simpl; try done; unfold fails, create_; intros; simpl in *; simplify_eq/=; try done;
    first [by case_match | set_solver].
Qed.

#[global] Instance vmm_stop_total d f : StopTotal (vmm d f).
Proof. by split. Qed.
End MemoryVmm.
