(* ===== verification/Pool.v ===== *)
(** * The warm pool ([crates/clouisle-pool/src/pool.rs])

    Slots that carry a started machine, leased by [acquire] and given back by
    [release], with the background task that reaps, checks and replenishes.
    Every operation is given as a whole function; the sections it runs under the
    pool's lock are also the steps of a concurrent system ([step]).

    The wall clock and the UUIDs are arguments; the iteration order of the
    template map is the argument [order]. *)

From S2P Require Import Prelude Core SandboxModel Vmm.

Module PoolError.
Inductive t : Set := SlotNotFound | SlotAlreadyAcquired | InvalidState.
End PoolError.

Module SlotState.
Inductive t : Set := Preparing | Ready | Acquired | Destroyed.
#[global] Instance eq_dec : EqDecision t.
Proof. solve_decision. Defined.
End SlotState.

Module PoolSlot.
Record t : Set := mk {
  id : string;
  pool_key : string;
  vm_handle : VmHandle.t;
  state : SlotState.t;
  created_at : Z;
  last_used_at : Z }.

Definition new (id pool_key : string) (now : Z) : t :=
  mk id pool_key VmHandle.default SlotState.Preparing now now.

Definition set_state (s : t) (st : SlotState.t) (now : Z) : t :=
  mk (id s) (pool_key s) (vm_handle s) st (created_at s) now.
Definition set_handle (s : t) (h : VmHandle.t) : t :=
  mk (id s) (pool_key s) h (state s) (created_at s) (last_used_at s).

Definition is_state (st : SlotState.t) (s : t) : bool := bool_decide (state s = st).
Definition has_id (i : string) (s : t) : bool := String.eqb (id s) i.
End PoolSlot.

(** [str::replace] of two characters by an underscore. *)
Fixpoint replace_separators (s : string) : string :=
  match s with
  | EmptyString => ""
  | String a s' =>
    String (if Ascii.eqb a "/" || Ascii.eqb a ":" then "_"%char else a) (replace_separators s')
  end.

Module Pool.

Record inner : Type := mk {
  slots : list PoolSlot.t;
  templates : gmap string SandboxSpec.t;
  min_idle : Z;
  max_idle_secs : Z;
  bg_started : bool }.

Definition new (min_idle max_idle_secs : Z) : inner := mk [] ∅ min_idle max_idle_secs false.

Definition set_slots (g : inner) (l : list PoolSlot.t) : inner :=
  mk l (templates g) (min_idle g) (max_idle_secs g) (bg_started g).
Definition set_templates (g : inner) (m : gmap string SandboxSpec.t) : inner :=
  mk (slots g) m (min_idle g) (max_idle_secs g) (bg_started g).

Definition count (p : PoolSlot.t → bool) (g : inner) : Z :=
  Z.of_nat (length (List.filter p (slots g))).

(** ** Sections under the lock *)

(** The flag only; the spawned task is [tick], below. *)
Definition ensure_background (g : inner) : inner :=
  mk (slots g) (templates g) (min_idle g) (max_idle_secs g) true.

Definition slot_id (spec : SandboxSpec.t) (uid : string) : string :=
  replace_separators (ImageRef.reference (SandboxSpec.image spec)) +:+ "_" +:+ uid.

Definition begin_slot (i key : string) (now : Z) (g : inner) : inner :=
  set_slots g (slots g ++ [PoolSlot.new i key now]).

Definition make_ready (h : VmHandle.t) (now : Z) (s : PoolSlot.t) : PoolSlot.t :=
  PoolSlot.set_state (PoolSlot.set_handle s h) SlotState.Ready now.

Definition finish_slot (i : string) (h : VmHandle.t) (now : Z) (g : inner) : inner :=
  set_slots g (update_first (PoolSlot.has_id i) (make_ready h now) (slots g)).

Definition remove_slot (i : string) (g : inner) : inner :=
  set_slots g (List.filter (λ s, negb (PoolSlot.has_id i s)) (slots g)).

Definition remove_machine (hid : string) (g : inner) : inner :=
  set_slots g
    (List.filter (λ s, negb (String.eqb (VmHandle.id (PoolSlot.vm_handle s)) hid)) (slots g)).

Definition lru_ready (key : string) (l : list PoolSlot.t) : option (nat * PoolSlot.t) :=
  min_by_key
    (λ s, String.eqb (PoolSlot.pool_key s) key && PoolSlot.is_state SlotState.Ready s)
    PoolSlot.last_used_at l.

Definition acquire_key (key : string) (now : Z) (g : inner) : inner * option PoolSlot.t :=
  match lru_ready key (slots g) with
  | None => (g, None)
  | Some (pos, s) =>
    let s' := PoolSlot.set_state s SlotState.Acquired now in
    (set_slots g (<[pos := s']> (slots g)), Some s')
  end.

Definition release (slot : PoolSlot.t) (now : Z) (g : inner) : inner * res PoolError.t () :=
  let g := ensure_background g in
  match List.find (PoolSlot.has_id (PoolSlot.id slot)) (slots g) with
  | None => (g, Err PoolError.SlotNotFound)
  | Some s =>
    match PoolSlot.state s with
    | SlotState.Acquired =>
      (set_slots g (update_first (PoolSlot.has_id (PoolSlot.id slot))
         (λ s, PoolSlot.set_state s SlotState.Ready now) (slots g)), Ok ())
    | SlotState.Ready => (g, Err PoolError.SlotAlreadyAcquired)
    | _ => (g, Err PoolError.InvalidState)
    end
  end.

(** The part of [discard] under the lock: the slot taken out, if found. *)
Definition take_slot (i : string) (g : inner) : inner * option PoolSlot.t :=
  match position (PoolSlot.has_id i) (slots g) with
  | None => (g, None)
  | Some k => (set_slots g (delete k (slots g)), slots g !! k)
  end.

Definition ready_count (g : inner) : inner * Z :=
  let g := ensure_background g in (g, count (PoolSlot.is_state SlotState.Ready) g).

Definition set_min_idle (n : Z) (g : inner) : inner :=
  mk (slots g) (templates g) n (max_idle_secs g) true.

(** [(now - last).num_seconds()]: whole seconds, truncated. *)
Definition num_seconds (now last : Z) : Z := Z.quot (now - last) ns_per_sec.

Definition is_doomed (max_idle now : Z) (s : PoolSlot.t) : bool :=
  PoolSlot.is_state SlotState.Ready s
  && (as_i64 max_idle <=? num_seconds now (PoolSlot.last_used_at s)).

(** The retain of [reap_idle]: the slots kept, and the handles of the others. *)
Definition reap_slots (now : Z) (g : inner) : inner * list VmHandle.t :=
  let doomed := is_doomed (max_idle_secs g) now in
  (set_slots g (List.filter (λ s, negb (doomed s)) (slots g)),
   PoolSlot.vm_handle <$> List.filter doomed (slots g)).

(** The most starved template of [replenish]: fewest slots, the first in
    iteration order among equals. *)
Fixpoint starved (in_pool : string → Z) (best : option (string * Z)) (keys : list string)
  : option (string * Z) :=
  match keys with
  | [] => best
  | k :: keys' =>
    let better := match best with None => true | Some (_, c) => in_pool k <? c end in
    starved in_pool (if better then Some (k, in_pool k) else best) keys'
  end.

Definition choose_template (order : gmap string SandboxSpec.t → list string) (g : inner)
  : option (string * SandboxSpec.t) :=
  if bool_decide (templates g = ∅) then None
  else if existsb (PoolSlot.is_state SlotState.Preparing) (slots g) then None
  else if min_idle g <=? count (PoolSlot.is_state SlotState.Ready) g then None
  else
    let in_pool key := count (λ s, String.eqb (PoolSlot.pool_key s) key
                               && negb (PoolSlot.is_state SlotState.Destroyed s)) g in
    '(key, _) ← starved in_pool None (order (templates g));
    spec ← templates g !! key;
    Some (key, spec).

(** ** Whole operations *)

Section ops.
Context {V : Vmm}.

Definition state : Type := inner * world.

(** The cold start shared by [create_slot] and [replenish]. *)
Definition create_slot (spec : SandboxSpec.t) (key uid : string) (now now' : Z) (s : state)
  : state * option PoolSlot.t :=
  let '(g, w) := s in
  let i := slot_id spec uid in
  let g1 := begin_slot i key now g in
  match create i spec w with
  | (w1, inl _) => ((remove_slot i g1, w1), None)
  | (w1, inr h) =>
    match start h w1 with
    | (w2, inl _) =>
      let '(w3, _) := stop h StopMode.Force w2 in ((remove_slot i g1, w3), None)
    | (w2, inr _) =>
      let g2 := finish_slot i h now' g1 in
      ((g2, w2), List.find (PoolSlot.has_id i) (slots g2))
    end
  end.

Definition warm (hash : Z * Z * Z * option Z → Z) (spec : SandboxSpec.t) (uid : string)
    (now now' : Z) (s : state) : state * option PoolSlot.t :=
  let '(g, w) := s in
  let g := ensure_background g in
  if negb supports_detached_warm_pool then
    let '(w1, _) := prefetch_image spec w in ((g, w1), None)
  else
    let key := SandboxSpec.pool_key hash spec in
    create_slot spec key uid now now' (set_templates g (<[key := spec]> (templates g)), w).

Definition acquire (hash : Z * Z * Z * option Z → Z) (spec : SandboxSpec.t) (now : Z)
    (g : inner) : inner * option PoolSlot.t :=
  acquire_key (SandboxSpec.pool_key hash spec) now (ensure_background g).

Definition discard (slot : PoolSlot.t) (s : state) : state * res PoolError.t () :=
  let '(g, w) := s in
  match take_slot (PoolSlot.id slot) (ensure_background g) with
  | (g1, None) => ((g1, w), Err PoolError.SlotNotFound)
  | (g1, Some removed) =>
    let '(w1, _) := stop (PoolSlot.vm_handle removed) StopMode.Force w in ((g1, w1), Ok ())
  end.

Fixpoint stop_all (hs : list VmHandle.t) (w : world) : world :=
  match hs with
  | [] => w
  | h :: hs' => let '(w1, _) := stop h StopMode.Force w in stop_all hs' w1
  end.

Definition reap_idle (now : Z) (s : state) : state :=
  let '(g, w) := s in
  if max_idle_secs g =? 0 then (g, w)
  else let '(g1, doomed) := reap_slots now g in (g1, stop_all doomed w).

Fixpoint ping_all (hs : list VmHandle.t) (s : state) : state :=
  match hs with
  | [] => s
  | h :: hs' =>
    let '(g, w) := s in
    match stats h w with
    | (w1, inl _) =>
      let '(w2, _) := stop h StopMode.Force w1 in
      ping_all hs' (remove_machine (VmHandle.id h) g, w2)
    | (w1, inr _) => ping_all hs' (g, w1)
    end
  end.

Definition health_check (s : state) : state :=
  ping_all (PoolSlot.vm_handle
    <$> List.filter (PoolSlot.is_state SlotState.Acquired) (slots s.1)) s.

Definition replenish (order : gmap string SandboxSpec.t → list string) (uid : string)
    (now now' : Z) (s : state) : state :=
  if negb supports_detached_warm_pool then s
  else match choose_template order s.1 with
  | None => s
  | Some (key, spec) => (create_slot spec key uid now now' s).1
  end.

(** One round of [spawn_background]. *)
Definition tick (order : gmap string SandboxSpec.t → list string) (uid : string)
    (now now' now'' : Z) (s : state) : state :=
  replenish order uid now' now'' (health_check (reap_idle now s)).
End ops.

(** ** The pool under concurrency

    The configuration adds to the pool what its clients hold: the ids of the
    slots they have leased, and the ids of the cold starts in flight.  Each step
    is one section under the lock.  Clients give back what they hold, once; the
    background task may drop any slot whose machine it found dead. *)

Record config : Type := conf { pool : inner; leases : gset string; booting : gset string }.

Definition ids (g : inner) : list string := PoolSlot.id <$> slots g.

Inductive step : config → config → Prop :=
| step_begin g L B i key now :
    i ∉ ids g → i ∉ L → i ∉ B →
    step (conf g L B) (conf (begin_slot i key now g) L ({[i]} ∪ B))
| step_finish g L B i h now :
    i ∈ B → VmHandle.id h = i →
    step (conf g L B) (conf (finish_slot i h now g) L (B ∖ {[i]}))
| step_abort g L B i :
    i ∈ B → step (conf g L B) (conf (remove_slot i g) L (B ∖ {[i]}))
| step_acquire g g' L B key now s :
    acquire_key key now g = (g', Some s) →
    step (conf g L B) (conf g' ({[PoolSlot.id s]} ∪ L) B)
| step_release g L B slot now :
    PoolSlot.id slot ∈ L →
    step (conf g L B) (conf (release slot now g).1 (L ∖ {[PoolSlot.id slot]}) B)
| step_discard g L B i :
    i ∈ L → step (conf g L B) (conf (take_slot i g).1 (L ∖ {[i]}) B)
| step_reap g L B now : step (conf g L B) (conf (reap_slots now g).1 L B)
| step_dead g L B hid : step (conf g L B) (conf (remove_machine hid g) L B)
| step_settings g g' L B : slots g' = slots g → step (conf g L B) (conf g' L B).

Definition slot_ok (L B : gset string) (s : PoolSlot.t) : Prop :=
  let i := PoolSlot.id s in
  match PoolSlot.state s with
  | SlotState.Preparing => i ∈ B ∧ i ∉ L
  | SlotState.Ready => i ∉ B ∧ i ∉ L ∧ VmHandle.id (PoolSlot.vm_handle s) = i
  | SlotState.Acquired => i ∉ B ∧ i ∈ L ∧ VmHandle.id (PoolSlot.vm_handle s) = i
  | SlotState.Destroyed => False
  end.

Record inv (c : config) : Prop := {
  inv_ids : NoDup (ids (pool c));
  inv_slots s : s ∈ slots (pool c) → slot_ok (leases c) (booting c) s }.

Definition reachable (c : config) : Prop :=
  ∃ mi ma, star step (conf (new mi ma) ∅ ∅) c.

(** *** Lemmas *)

Lemma acquire_key_spec key now g g' s :
  acquire_key key now g = (g', Some s) →
  ∃ pos s0, slots g !! pos = Some s0 ∧ PoolSlot.pool_key s0 = key ∧
    PoolSlot.state s0 = SlotState.Ready ∧ s = PoolSlot.set_state s0 SlotState.Acquired now ∧
    slots g' = <[pos := s]> (slots g) ∧
    ∀ y, y ∈ slots g → PoolSlot.pool_key y = key → PoolSlot.state y = SlotState.Ready →
      PoolSlot.last_used_at s0 ≤ PoolSlot.last_used_at y.
Proof.
  unfold acquire_key, lru_ready. destruct (min_by_key _ _ _) as [[pos s0]|] eqn:Hm; [|done].
  intros [= <- <-]. apply min_by_key_Some in Hm as (Hpos & Hp & Hmin). bool_to_prop.
  exists pos, s0. split_and!; try done.
  - by eapply bool_decide_eq_true_1.
  - intros y [j Hj]%list_elem_of_lookup Hk Hr. apply (Hmin j y Hj).
    unfold PoolSlot.is_state. by rewrite Hk, String.eqb_refl, bool_decide_true.
Qed.

(** Shrinking a ghost set by an id no slot carries. *)
Lemma slot_ok_diff_lease L B s i :
  PoolSlot.id s ≠ i → slot_ok L B s → slot_ok (L ∖ {[i]}) B s.
Proof. unfold slot_ok. destruct (PoolSlot.state s); set_solver. Qed.
Lemma slot_ok_diff_boot L B s i :
  PoolSlot.id s ≠ i → slot_ok L B s → slot_ok L (B ∖ {[i]}) s.
Proof. unfold slot_ok. destruct (PoolSlot.state s); set_solver. Qed.

Lemma inv_begin g L B i key now :
  i ∉ ids g → i ∉ L → i ∉ B → inv (conf g L B) →
  inv (conf (begin_slot i key now g) L ({[i]} ∪ B)).
Proof.
  intros Hi HL HB [Hnd Hok]; simpl in *. split; simpl.
  - unfold ids, begin_slot. simpl. rewrite fmap_app. apply NoDup_app. split_and!; [done| |].
    + intros x Hx. csimpl. rewrite list_elem_of_singleton. by intros ->.
    + apply NoDup_singleton.
  - intros s [Hs|Hs%list_elem_of_singleton]%elem_of_app.
    + assert (PoolSlot.id s ≠ i).
      { intros <-. apply Hi. by apply list_elem_of_fmap_2. }
      specialize (Hok s Hs). unfold slot_ok in *. destruct (PoolSlot.state s); set_solver.
    + subst s. unfold slot_ok. simpl. clear Hok Hnd. set_solver.
Qed.

Lemma inv_finish g L B i h now :
  i ∈ B → VmHandle.id h = i → inv (conf g L B) →
  inv (conf (finish_slot i h now g) L (B ∖ {[i]})).
Proof.
  intros HB Hh [Hnd Hok]; simpl in *. split; simpl.
  - unfold ids, finish_slot. simpl. by rewrite update_first_fmap.
  - intros s [[Hs Hne]|(x & Hx & Hk & ->)]%elem_of_update_first; [| |done].
    + auto using slot_ok_diff_boot.
    + specialize (Hok x Hx). unfold slot_ok in *. simpl. rewrite Hk in *.
      clear Hnd Hx. destruct (PoolSlot.state x); destruct_and?; split_and?; set_solver.
Qed.

Lemma inv_filter g L B p :
  inv (conf g L B) → inv (conf (set_slots g (List.filter p (slots g))) L B).
Proof.
  intros [Hnd Hok]; simpl in *. split; simpl.
  - by apply NoDup_fmap_filter.
  - intros s [Hs _]%elem_of_List_filter. auto.
Qed.

Lemma pool_inv_remove g L B i :
  inv (conf g L B) → inv (conf (remove_slot i g) L (B ∖ {[i]})).
Proof.
  intros Hinv. pose proof (inv_filter g L B (λ s, negb (PoolSlot.has_id i s)) Hinv) as [Hnd Hok].
  split; [done|]. simpl in *. intros s Hs. apply slot_ok_diff_boot; [|by apply Hok].
  apply elem_of_List_filter in Hs as [_ Hs]. bool_to_prop. by apply String.eqb_neq.
Qed.

Lemma inv_acquire g g' L B key now s :
  acquire_key key now g = (g', Some s) → inv (conf g L B) →
  inv (conf g' ({[PoolSlot.id s]} ∪ L) B).
Proof.
  intros (pos & s0 & Hpos & Hkey & Hst & -> & Hsl & _)%acquire_key_spec [Hnd Hok]; simpl in *.
  pose proof (Hok s0 (list_elem_of_lookup_2 _ _ _ Hpos)) as H0.
  unfold slot_ok in H0. rewrite Hst in H0. split; simpl.
  - unfold ids. rewrite Hsl. by rewrite (fmap_insert_same _ _ _ _ _ Hpos).
  - intros s. rewrite Hsl.
    intros [[Hs Hne]|Hs]%(elem_of_insert_same PoolSlot.id _ _ s0); try done.
    + specialize (Hok s Hs). unfold slot_ok in *. simpl. destruct (PoolSlot.state s); set_solver.
    + subst s. unfold slot_ok. simpl. clear Hok Hnd. set_solver.
Qed.

Lemma inv_release g L B slot now :
  PoolSlot.id slot ∈ L → inv (conf g L B) →
  inv (conf (release slot now g).1 (L ∖ {[PoolSlot.id slot]}) B).
Proof.
  intros HL [Hnd Hok]; simpl in *.
  assert (∀ s, s ∈ slots g → PoolSlot.id s = PoolSlot.id slot →
    PoolSlot.state s = SlotState.Acquired) as Hacq.
  { intros s Hs Heq. specialize (Hok s Hs). unfold slot_ok in Hok. rewrite Heq in Hok.
    clear Hnd. destruct (PoolSlot.state s); set_solver. }
  assert (slots (release slot now g).1 = update_first (PoolSlot.has_id (PoolSlot.id slot))
    (λ s, PoolSlot.set_state s SlotState.Ready now) (slots g)) as Hsl.
  { unfold release. simpl. destruct (List.find _ _) as [s|] eqn:Hf; simpl.
    - apply List.find_some in Hf as [Hin%list_elem_of_In Hid%String.eqb_eq].
      by rewrite (Hacq s Hin Hid).
    - symmetry. apply update_first_none. intros x Hx%list_elem_of_In.
      by apply (List.find_none _ _ Hf). }
  split; simpl.
  - unfold ids. rewrite Hsl. by rewrite update_first_fmap.
  - intros s. rewrite Hsl.
    intros [[Hs Hne]|(x & Hx & Hk & ->)]%elem_of_update_first; [| |done].
    + auto using slot_ok_diff_lease.
    + specialize (Hok x Hx). unfold slot_ok in *. rewrite (Hacq x Hx Hk) in Hok. simpl.
      set_solver.
Qed.

Lemma take_slot_spec i g :
  match take_slot i g with
  | (g', Some s) => ∃ k, slots g !! k = Some s ∧ PoolSlot.id s = i ∧ slots g' = delete k (slots g)
  | (g', None) => g' = g ∧ i ∉ ids g
  end.
Proof.
  unfold take_slot. destruct (position _ _) as [k|] eqn:Hp.
  - apply position_Some in Hp as (s & Hk & Hid%String.eqb_eq). rewrite Hk. eauto.
  - split; [done|]. intros (s & -> & Hs)%list_elem_of_fmap.
    pose proof (position_None _ _ Hp s Hs) as Hf. by apply String.eqb_neq in Hf.
Qed.

(** Taking a slot out leaves the others, none of which carries its id. *)
Lemma take_slot_others i g s :
  NoDup (ids g) → s ∈ slots (take_slot i g).1 → s ∈ slots g ∧ PoolSlot.id s ≠ i.
Proof.
  intros Hnd. pose proof (take_slot_spec i g) as Ht.
  destruct (take_slot i g) as [g' [s0|]]; simpl.
  - destruct Ht as (k & Hk & Hid & ->). intros Hs.
    unfold ids in Hnd.
    rewrite delete_take_drop in Hs. rewrite <-(take_drop_middle _ _ _ Hk) in Hnd |- *.
    rewrite fmap_app, fmap_cons in Hnd.
    apply NoDup_app in Hnd as (_ & Hd1 & [Hd2 _]%NoDup_cons). split; [set_solver|].
    intros Heq. apply elem_of_app in Hs as [Hs|Hs].
    + apply (Hd1 (PoolSlot.id s)); [by apply list_elem_of_fmap_2|]. rewrite Heq, Hid. set_solver.
    + apply Hd2. rewrite Hid, <-Heq. by apply list_elem_of_fmap_2.
  - destruct Ht as [-> Hi]. intros Hs. split; [done|]. intros <-.
    apply Hi. by apply list_elem_of_fmap_2.
Qed.

Lemma take_slot_NoDup i g : NoDup (ids g) → NoDup (ids (take_slot i g).1).
Proof.
  intros Hnd. pose proof (take_slot_spec i g) as Ht.
  destruct (take_slot i g) as [g' [s0|]]; simpl; [|by destruct Ht as [-> _]].
  destruct Ht as (k & Hk & _ & Hsl). unfold ids in *. rewrite Hsl.
  eapply sublist_NoDup; [exact Hnd|]. apply fmap_sublist, sublist_delete.
Qed.

Lemma inv_discard g L B i :
  inv (conf g L B) → inv (conf (take_slot i g).1 (L ∖ {[i]}) B).
Proof.
  intros [Hnd Hok]; simpl in *. split; simpl; [by apply take_slot_NoDup|].
  intros s [Hs Hne]%take_slot_others; [|done]. auto using slot_ok_diff_lease.
Qed.

Lemma pool_inv_step c c' : inv c → step c c' → inv c'.
Proof.
  intros Hinv. destruct 1; eauto using inv_begin, inv_finish, pool_inv_remove, inv_acquire,
    inv_release, inv_discard.
  - by apply inv_filter.
  - by apply inv_filter.
  - match goal with H : slots _ = slots _ |- _ => rename H into Hsl end.
    destruct Hinv as [Hnd Hok]. split; unfold ids in *; simpl in *; rewrite Hsl; auto.
Qed.

Lemma reachable_inv c : reachable c → inv c.
Proof.
  intros (mi & ma & Hs). eapply (star_invariant step inv); [|exact Hs|].
  - intros ????. by eapply pool_inv_step.
  - split; simpl; [apply NoDup_nil_2|]. intros s Hs'. by apply elem_of_nil in Hs'.
Qed.

Lemma count_release slot s now g :
  List.find (PoolSlot.has_id (PoolSlot.id slot)) (slots g) = Some s →
  PoolSlot.state s = SlotState.Acquired →
  count (PoolSlot.is_state SlotState.Ready) (set_slots (ensure_background g)
    (update_first (PoolSlot.has_id (PoolSlot.id slot))
       (λ s, PoolSlot.set_state s SlotState.Ready now) (slots g)))
  = count (PoolSlot.is_state SlotState.Ready) g + 1.
Proof.
  unfold count. simpl. induction (slots g) as [|x l IH]; simpl; [done|].
  destruct (PoolSlot.has_id _ x).
  - intros [= ->] Hs. simpl. unfold PoolSlot.is_state at 2. rewrite Hs. simpl. lia.
  - intros Hf Hs. specialize (IH Hf Hs). simpl.
    destruct (PoolSlot.is_state SlotState.Ready x); simpl in *; lia.
Qed.

(** ** Machines are not leaked

    Between operations every slot is ready or leased and carries its own
    machine; an orphan is a machine that belongs to no slot. *)

Definition slot_settled (s : PoolSlot.t) : Prop :=
  (PoolSlot.state s = SlotState.Ready ∨ PoolSlot.state s = SlotState.Acquired)
  ∧ VmHandle.id (PoolSlot.vm_handle s) = PoolSlot.id s.

Definition wf (g : inner) : Prop :=
  NoDup (ids g) ∧ ∀ s, s ∈ slots g → slot_settled s.

Section machines.
Context {V : Vmm}.

Definition orphans (s : state) : gset string := live s.2 ∖ list_to_set (ids s.1).

(** A UUID no id of the pool was made from. *)
Definition fresh_uid (uid : string) (g : inner) : Prop :=
  ∀ spec, slot_id spec uid ∉ ids g.

Inductive op : Type :=
| OWarm (spec : SandboxSpec.t) (uid : string) (now now' : Z)
| OAcquire (spec : SandboxSpec.t) (now : Z)
| ORelease (slot : PoolSlot.t) (now : Z)
| ODiscard (slot : PoolSlot.t)
| OMinIdle (n : Z)
| OTick (uid : string) (now now' now'' : Z).

Section exec.
Context (hash : Z * Z * Z * option Z → Z) (order : gmap string SandboxSpec.t → list string).

Definition exec (o : op) (s : state) : state :=
  match o with
  | OWarm spec uid now now' => (warm hash spec uid now now' s).1
  | OAcquire spec now => ((acquire hash spec now s.1).1, s.2)
  | ORelease slot now => ((release slot now s.1).1, s.2)
  | ODiscard slot => (discard slot s).1
  | OMinIdle n => (set_min_idle n s.1, s.2)
  | OTick uid now now' now'' => tick order uid now now' now'' s
  end.

Definition op_fresh (o : op) (g : inner) : Prop :=
  match o with OWarm _ uid _ _ | OTick uid _ _ _ => fresh_uid uid g | _ => True end.

Definition op_step (s s' : state) : Prop := ∃ o, op_fresh o s.1 ∧ s' = exec o s.
End exec.

Context {VO : VmmOk V}.

Lemma filter_app_fresh i key now g :
  i ∉ ids g → slots (remove_slot i (begin_slot i key now g)) = slots g.
Proof.
  intros Hi. unfold remove_slot, begin_slot. simpl. rewrite List.filter_app. simpl.
  unfold PoolSlot.has_id at 2. simpl. rewrite String.eqb_refl. simpl. rewrite app_nil_r.
  apply filter_true_id. intros s Hs. apply negb_true_iff, String.eqb_neq. intros <-.
  apply Hi. by apply list_elem_of_fmap_2.
Qed.

Lemma finish_begin i key h now now' g :
  i ∉ ids g →
  slots (finish_slot i h now' (begin_slot i key now g))
  = slots g ++ [make_ready h now' (PoolSlot.new i key now)].
Proof.
  intros Hi. unfold finish_slot, begin_slot. simpl.
  assert (∀ s, s ∈ slots g → PoolSlot.has_id i s = false) as Hn.
  { intros s Hs. apply String.eqb_neq. intros <-. apply Hi. by apply list_elem_of_fmap_2. }
  revert Hn. generalize (slots g) as l. clear. induction l as [|x l IH]; simpl; intros Hn.
  - unfold PoolSlot.has_id. simpl. by rewrite String.eqb_refl.
  - rewrite Hn by set_solver. f_equal. apply IH. set_solver.
Qed.

(** The three ways a cold start ends. *)
Lemma create_slot_cases spec key uid now now' g w :
  slot_id spec uid ∉ ids g →
  let '((g', w'), r) := create_slot spec key uid now now' (g, w) in
  (∃ h, r = Some (make_ready h now' (PoolSlot.new (slot_id spec uid) key now)) ∧
    VmHandle.id h = slot_id spec uid ∧
    slots g' = slots g ++ [make_ready h now' (PoolSlot.new (slot_id spec uid) key now)] ∧
    live w' = {[slot_id spec uid]} ∪ live w) ∨
  (r = None ∧ slots g' = slots g ∧
    (live w' ⊆ live w ∨ ∃ h w1, VmHandle.id h = slot_id spec uid ∧
       live w1 = {[slot_id spec uid]} ∪ live w ∧ w' = (stop h StopMode.Force w1).1)).
Proof.
  intros Hi. unfold create_slot. set (i := slot_id spec uid) in *.
  destruct (create i spec w) as [w1 [e|h]] eqn:Hc.
  - apply create_err_live in Hc. right. split_and!; [done|by apply filter_app_fresh|by left].
  - apply create_live in Hc as [Hid Hl]. pose proof (start_live h w1) as Hs.
    destruct (start h w1) as [w2 [e|[]]]; simpl in Hs.
    + destruct (stop h StopMode.Force w2) as [w3 r] eqn:Hst. right.
      split_and!; [done|by apply filter_app_fresh|]. right. exists h, w2.
      rewrite Hst. by rewrite Hs.
    + left. exists h. pose proof (finish_begin i key h now now' g Hi) as Hf.
      split_and!; [|done|done|by rewrite Hs].
      rewrite Hf. apply find_app_last.
      * intros s Hs'. apply String.eqb_neq. intros <-. apply Hi. by apply list_elem_of_fmap_2.
      * unfold PoolSlot.has_id. simpl. apply String.eqb_refl.
Qed.

Lemma wf_slots_eq g g' : slots g' = slots g → wf g → wf g'.
Proof. unfold wf, ids. by intros ->. Qed.

Lemma wf_snoc g g' s :
  slots g' = slots g ++ [s] → PoolSlot.id s ∉ ids g → slot_settled s → wf g → wf g'.
Proof.
  unfold wf, ids. intros -> Hi Hs [Hnd Hok]. split.
  - rewrite fmap_app. apply NoDup_app. split_and!; [done| |apply NoDup_singleton].
    intros x Hx. csimpl. rewrite list_elem_of_singleton. by intros ->.
  - intros x [Hx|Hx%list_elem_of_singleton]%elem_of_app; [auto|by subst].
Qed.

Lemma create_slot_wf spec key uid now now' g w :
  slot_id spec uid ∉ ids g → wf g → wf (create_slot spec key uid now now' (g, w)).1.1.
Proof.
  intros Hi Hwf. pose proof (create_slot_cases spec key uid now now' g w Hi) as Hc.
  destruct (create_slot _ _ _ _ _ _) as [[g' w'] r]. simpl.
  destruct Hc as [(h & _ & Hid & Hsl & _)|(_ & Hsl & _)].
  - eapply wf_snoc; [exact Hsl|done| |done]. split; [by left|done].
  - by eapply wf_slots_eq.
Qed.

Context {ST : StopTotal V}.

Lemma force_stop_live h w :
  live (stop h StopMode.Force w).1 = live w ∖ {[VmHandle.id h]}.
Proof.
  pose proof (force_stop_ok h w) as Hok.
  destruct (stop h StopMode.Force w) as [w' r] eqn:Hs. simpl in *. subst r.
  by eapply stop_live.
Qed.

Lemma create_slot_orphans spec key uid now now' g w :
  slot_id spec uid ∉ ids g →
  orphans (create_slot spec key uid now now' (g, w)).1 ⊆ orphans (g, w).
Proof.
  intros Hi. pose proof (create_slot_cases spec key uid now now' g w Hi) as Hc.
  destruct (create_slot _ _ _ _ _ _) as [[g' w'] r]. unfold orphans, ids. simpl.
  destruct Hc as [(h & _ & Hid & Hsl & Hl)|(_ & Hsl & [Hl|(h & w1 & Hid & Hl & ->)])].
  - rewrite Hsl, Hl, fmap_app, list_to_set_app. csimpl. set_solver.
  - rewrite Hsl. set_solver.
  - rewrite Hsl, force_stop_live, Hl, Hid. set_solver.
Qed.

Lemma stop_all_live hs w :
  live (stop_all hs w) = live w ∖ list_to_set (VmHandle.id <$> hs).
Proof.
  revert w. induction hs as [|h hs IH]; intros w; csimpl; [set_solver|].
  pose proof (force_stop_live h w) as Hl. destruct (stop h StopMode.Force w) as [w1 r].
  simpl in Hl. rewrite IH, Hl. set_solver.
Qed.

Lemma wf_filter g p : wf g → wf (set_slots g (List.filter p (slots g))).
Proof.
  intros [Hnd Hok]. split; [by apply NoDup_fmap_filter|].
  intros s [Hs _]%elem_of_List_filter. auto.
Qed.

Lemma ids_filter g p i :
  i ∈ ids (set_slots g (List.filter p (slots g))) → i ∈ ids g.
Proof.
  unfold ids. simpl. intros (s & -> & [Hs _]%elem_of_List_filter)%list_elem_of_fmap.
  by apply list_elem_of_fmap_2.
Qed.

(** Dropping slots together with their machines creates no orphan. *)
Lemma drop_orphans g p (dead : gset string) w w' :
  (∀ s, s ∈ slots g → slot_settled s) →
  (∀ s, s ∈ slots g → p s = false → PoolSlot.id s ∈ dead) →
  live w' ⊆ live w ∖ dead →
  orphans (set_slots g (List.filter p (slots g)), w') ⊆ orphans (g, w).
Proof.
  intros Hok Hdead Hl. unfold orphans. simpl. intros i [Hi Hn]%elem_of_difference.
  apply Hl, elem_of_difference in Hi as [Hi Hd]. apply elem_of_difference. split; [done|].
  rewrite elem_of_list_to_set in Hn |- *.
  intros (s & -> & Hs)%list_elem_of_fmap. destruct (p s) eqn:Hp; [|by apply Hd, Hdead].
  apply Hn. unfold ids. simpl. apply list_elem_of_fmap_2. by apply elem_of_List_filter.
Qed.

Lemma reap_idle_ok now s :
  wf s.1 → wf (reap_idle now s).1 ∧ orphans (reap_idle now s) ⊆ orphans s ∧
  (∀ i, i ∈ ids (reap_idle now s).1 → i ∈ ids s.1).
Proof.
  destruct s as [g w]. intros Hwf. unfold reap_idle. simpl.
  destruct (max_idle_secs g =? 0); [done|]. simpl. split_and!.
  - by apply wf_filter.
  - eapply (drop_orphans g _ (list_to_set (VmHandle.id <$> (PoolSlot.vm_handle <$>
      List.filter (is_doomed (max_idle_secs g) now) (slots g))))); [apply Hwf| |by rewrite stop_all_live].
    intros s Hs Hp%negb_false_iff. apply elem_of_list_to_set.
    destruct (proj2 Hwf s Hs) as [_ <-].
    apply list_elem_of_fmap_2, list_elem_of_fmap_2. by apply elem_of_List_filter.
  - intros i. apply ids_filter.
Qed.

Lemma ping_all_ok hs s :
  wf s.1 → wf (ping_all hs s).1 ∧ orphans (ping_all hs s) ⊆ orphans s ∧
  (∀ i, i ∈ ids (ping_all hs s).1 → i ∈ ids s.1).
Proof.
  revert s. induction hs as [|h hs IH]; intros [g w] Hwf; simpl in *; [done|].
  pose proof (stats_live h w) as Hst. destruct (stats h w) as [w1 [e|v]]; simpl in Hst.
  - pose proof (force_stop_live h w1) as Hl. destruct (stop h StopMode.Force w1) as [w2 r].
    simpl in Hl.
    assert (orphans (remove_machine (VmHandle.id h) g, w2) ⊆ orphans (g, w)) as Ho.
    { apply (drop_orphans g _ {[VmHandle.id h]}); [apply Hwf| |by rewrite Hl, Hst].
      intros s Hs Hp%negb_false_iff%String.eqb_eq. destruct (proj2 Hwf s Hs) as [_ <-].
      rewrite Hp. set_solver. }
    destruct (IH (remove_machine (VmHandle.id h) g, w2)) as (H1 & H2 & H3); [by apply wf_filter|].
    split_and!; [done|set_solver|]. intros i Hi. by eapply ids_filter, H3.
  - destruct (IH (g, w1) Hwf) as (H1 & H2 & H3). split_and!; [done| |done].
    unfold orphans in *. simpl in *. by rewrite Hst in H2.
Qed.

Lemma replenish_ok order uid now now' s :
  fresh_uid uid s.1 → wf s.1 →
  wf (replenish order uid now now' s).1 ∧ orphans (replenish order uid now now' s) ⊆ orphans s.
Proof.
  destruct s as [g w]. intros Hf Hwf. unfold replenish.
  destruct (negb _); [done|]. destruct (choose_template _ _) as [[key spec]|]; [|done].
  split; [by apply create_slot_wf|by apply create_slot_orphans].
Qed.

Lemma discard_ok slot s :
  wf s.1 → wf (discard slot s).1.1 ∧ orphans (discard slot s).1 ⊆ orphans s.
Proof.
  destruct s as [g w]. intros Hwf. unfold discard. set (g0 := ensure_background g).
  assert (wf g0) as Hwf0 by exact Hwf. change (orphans (g, w)) with (orphans (g0, w)).
  pose proof (take_slot_spec (PoolSlot.id slot) g0) as Ht.
  pose proof (λ x, take_slot_others (PoolSlot.id slot) g0 x (proj1 Hwf0)) as Hoth.
  pose proof (take_slot_NoDup (PoolSlot.id slot) g0 (proj1 Hwf0)) as Hnd.
  destruct (take_slot _ g0) as [g1 [s|]]; simpl in *; [|by destruct Ht as [-> _]].
  destruct Ht as (k & Hk & Hid & Hsl).
  destruct (proj2 Hwf0 s (list_elem_of_lookup_2 _ _ _ Hk)) as [_ Hh].
  pose proof (force_stop_live (PoolSlot.vm_handle s) w) as Hl.
  destruct (stop _ _ w) as [w1 r]. simpl in *. split.
  - split; [done|]. intros x Hx. apply Hwf0. by apply Hoth.
  - unfold orphans, ids. simpl. rewrite Hl, Hh, Hid. intros i.
    rewrite !elem_of_difference, !elem_of_list_to_set, elem_of_singleton.
    intros [[Hi Hne] Hn]. split; [done|]. intros (x & -> & Hx)%list_elem_of_fmap.
    apply Hn. apply list_elem_of_fmap_2. rewrite Hsl. apply list_elem_of_lookup in Hx as [j Hj].
    rewrite delete_take_drop. rewrite <-(take_drop_middle _ _ _ Hk) in Hj.
    apply list_elem_of_lookup_2 in Hj. set_solver.
Qed.

Lemma acquire_ok key now g w :
  wf g → wf (acquire_key key now g).1 ∧ orphans ((acquire_key key now g).1, w) = orphans (g, w).
Proof.
  intros Hwf. destruct (acquire_key key now g) as [g' [s|]] eqn:Ha; simpl.
  - apply acquire_key_spec in Ha as (pos & s0 & Hpos & _ & Hst & -> & Hsl & _).
    assert (ids g' = ids g) as Hids.
    { unfold ids. rewrite Hsl. by apply (fmap_insert_same _ _ _ s0). }
    split; [|unfold orphans; simpl; by rewrite Hids].
    split; [rewrite Hids; apply Hwf|]. intros s. rewrite Hsl.
    intros [[Hs _]| ->]%(elem_of_insert_same PoolSlot.id _ _ s0); [by apply Hwf| |apply Hwf|done..].
    destruct (proj2 Hwf s0 (list_elem_of_lookup_2 _ _ _ Hpos)) as [_ Hh]. split; [by right|done].
  - unfold acquire_key in Ha. destruct (lru_ready _ _) as [[]|]; by simplify_eq.
Qed.

Lemma release_ok slot now g w :
  wf g → wf (release slot now g).1 ∧ orphans ((release slot now g).1, w) = orphans (g, w).
Proof.
  intros Hwf. unfold release. simpl. destruct (List.find _ _) as [s|]; [|done].
  destruct (PoolSlot.state s); try done. simpl.
  split; [|unfold orphans, ids; simpl; by rewrite update_first_fmap].
  split; [unfold ids; simpl; rewrite update_first_fmap by done; apply Hwf|]. simpl.
  intros x [[Hx _]|(y & Hy & _ & ->)]%elem_of_update_first; [by apply Hwf| |apply Hwf].
  destruct (proj2 Hwf y Hy) as [_ Hh]. split; [by left|done].
Qed.

Lemma op_step_ok hash order s s' :
  op_step hash order s s' → wf s.1 → wf s'.1 ∧ orphans s' ⊆ orphans s.
Proof.
  intros (o & Hf & ->) Hwf. destruct s as [g w], o; simpl in *.
  - unfold warm. destruct (negb _).
    + pose proof (prefetch_live spec w). destruct (prefetch_image spec w); simpl in *.
      split; [done|]. unfold orphans; simpl. set_solver.
    + split; [apply create_slot_wf; [apply Hf|done]|].
      etrans; [apply create_slot_orphans; apply Hf|done].
  - destruct (acquire_ok (SandboxSpec.pool_key hash spec) now (ensure_background g) w Hwf)
      as [? Heq]. split; [done|]. unfold acquire. by rewrite Heq.
  - destruct (release_ok slot now g w Hwf) as [? Heq]. by rewrite Heq.
  - exact (discard_ok slot (g, w) Hwf).
  - done.
  - unfold tick. destruct (reap_idle_ok now (g, w) Hwf) as (Hw1 & Ho1 & Hi1).
    destruct (ping_all_ok (PoolSlot.vm_handle <$> List.filter
      (PoolSlot.is_state SlotState.Acquired) (slots (reap_idle now (g, w)).1))
      (reap_idle now (g, w)) Hw1) as (Hw2 & Ho2 & Hi2).
    destruct (replenish_ok order uid now' now'' (health_check (reap_idle now (g, w))))
      as (Hw3 & Ho3); [|done|split; [done|set_solver]].
    intros sp Hin. apply (Hf sp). by apply Hi1, Hi2.
Qed.
End machines.

(** ** Replenishment reaches its target *)

Section replenish.
Context {V : Vmm} {VO : VmmOk V}.
Context (order : gmap string SandboxSpec.t → list string).
(** [HashMap::keys] visits every key. *)
Hypothesis order_keys : ∀ m k, k ∈ order m ↔ is_Some (m !! k).
Hypothesis detached : supports_detached_warm_pool = true.
(** Cold starts succeed. *)
Hypothesis boots : ∀ i sp w, ∃ w1 h w2, create i sp w = (w1, inr h) ∧ start h w1 = (w2, inr ()).

Abbreviation ready := (count (PoolSlot.is_state SlotState.Ready)).

Lemma starved_some in_pool b keys :
  (b ≠ None ∨ keys ≠ []) →
  ∃ k c, starved in_pool b keys = Some (k, c) ∧ (k ∈ keys ∨ b = Some (k, c)).
Proof.
  revert b. induction keys as [|k keys IH]; intros b Hb; simpl.
  - destruct b as [[k c]|]; [|naive_solver]. eauto.
  - destruct (IH (if match b with None => true | Some (_, c) => in_pool k <? c end
                  then Some (k, in_pool k) else b)) as (k' & c' & -> & Hk).
    + left. by destruct b as [[? ?]|]; repeat case_match.
    + exists k', c'. split; [done|]. rewrite elem_of_cons.
      destruct Hk as [?|Hk]; [tauto|]. destruct (match b with None => _ | _ => _ end);
        simplify_eq; tauto.
Qed.

Lemma wf_no_preparing g : wf g → existsb (PoolSlot.is_state SlotState.Preparing) (slots g) = false.
Proof.
  intros [_ Hok]. apply not_true_is_false. rewrite existsb_exists.
  intros (s & Hs%list_elem_of_In & Hp%bool_decide_eq_true_1).
  destruct (Hok s Hs) as [[?|?] _]; congruence.
Qed.

Lemma choose_template_some g :
  wf g → templates g ≠ ∅ → ready g < min_idle g →
  ∃ key spec, choose_template order g = Some (key, spec).
Proof.
  intros Hwf Ht Hr. unfold choose_template.
  rewrite bool_decide_false by done. rewrite wf_no_preparing by done.
  rewrite (proj2 (Z.leb_gt _ _)) by done.
  destruct (map_choose _ Ht) as (k0 & sp0 & Hk0).
  match goal with |- context [starved ?f None ?l] =>
    destruct (starved_some f None l) as (k & c & -> & Hk) end.
  { right. intros Hnil. assert (k0 ∈ order (templates g)) as Hin by (apply order_keys; eauto).
    rewrite Hnil in Hin. by apply elem_of_nil in Hin. }
  destruct Hk as [[sp Hsp]%order_keys|]; [|done]. simpl. rewrite Hsp. simpl. eauto.
Qed.

Lemma choose_template_none g : min_idle g ≤ ready g → choose_template order g = None.
Proof.
  intros Hr. unfold choose_template. repeat case_match; try done. bool_to_prop. lia.
Qed.

(** One round adds one ready slot while the target is missed. *)
Lemma replenish_round uid now now' g w :
  wf g → fresh_uid uid g → templates g ≠ ∅ →
  let '(g', _) := replenish order uid now now' (g, w) in
  wf g' ∧ templates g' = templates g ∧ min_idle g' = min_idle g ∧
  ready g' = Z.max (ready g) (Z.min (min_idle g) (ready g + 1)) ∧
  (∀ i, i ∈ ids g' → i ∈ ids g ∨ ∃ spec, i = slot_id spec uid).
Proof.
  intros Hwf Hf Ht. unfold replenish. rewrite detached. simpl.
  destruct (Z_lt_le_dec (ready g) (min_idle g)) as [Hlt|Hge].
  2: { rewrite choose_template_none by done. split_and!; try done; [lia|by left]. }
  destruct (choose_template_some g Hwf Ht Hlt) as (key & spec & ->).
  destruct (boots (slot_id spec uid) spec w) as (w1 & h & w2 & Hc & Hs).
  pose proof (create_slot_wf spec key uid now now' g w (Hf spec) Hwf) as Hwf'.
  unfold create_slot in *. rewrite Hc, Hs in *. simpl in *.
  pose proof (finish_begin (slot_id spec uid) key h now now' g (Hf spec)) as Hsl.
  split_and!; try done.
  - unfold count. simpl in Hsl |- *. rewrite Hsl, List.filter_app, length_app. simpl.
    unfold count in Hlt. lia.
  - intros i. unfold ids. simpl in Hsl |- *. rewrite Hsl, fmap_app. csimpl.
    rewrite elem_of_app, list_elem_of_singleton. intros [?| ->]; eauto.
Qed.

(** UUIDs in their simple form all have the same length, so ids made from
    different ones differ. *)
Lemma slot_id_uid sp1 sp2 u1 u2 :
  String.length u1 = String.length u2 → slot_id sp1 u1 = slot_id sp2 u2 → u1 = u2.
Proof.
  unfold slot_id. rewrite <-!string_app_assoc. intros Hl. by apply string_app_suffix.
Qed.

Fixpoint replenish_rounds (uids : list string) (now now' : Z) (s : state) : state :=
  match uids with
  | [] => s
  | u :: uids' => replenish_rounds uids' now now' (replenish order u now now' s)
  end.

Lemma replenish_rounds_ready uids now now' g w :
  wf g → templates g ≠ ∅ → NoDup uids →
  Forall (λ u, String.length u = 32%nat ∧ fresh_uid u g) uids →
  let g' := (replenish_rounds uids now now' (g, w)).1 in
  wf g' ∧ ready g' = Z.max (ready g) (Z.min (min_idle g) (ready g + Z.of_nat (length uids))).
Proof.
  revert g w. induction uids as [|u uids IH]; intros g w Hwf Ht Hnd Hu; simpl.
  { split; [done|lia]. }
  apply NoDup_cons in Hnd as [Hu1 Hnd]. apply Forall_cons in Hu as [[Hlen Hf] Hu].
  pose proof (replenish_round u now now' g w Hwf Hf Ht) as Hr.
  destruct (replenish order u now now' (g, w)) as [g1 w1].
  destruct Hr as (Hwf1 & Ht1 & Hmin & Hready & Hids).
  destruct (IH g1 w1) as [Hwf' Hr']; [done|congruence|done| |].
  - rewrite Forall_forall in Hu |- *. intros v Hv. destruct (Hu v Hv) as [Hlv Hfv].
    split; [done|]. intros sp Hin. destruct (Hids _ Hin) as [?|[sp' Heq]]; [by apply (Hfv sp)|].
    apply slot_id_uid in Heq as ->; [done|congruence].
  - split; [done|]. rewrite Hr', Hready, Hmin. lia.
Qed.
End replenish.
End Pool.

(** ** Properties *)

(** C10: a lease is exclusive.  However cold starts, leases, returns, discards
    and the background task interleave, [acquire] hands out a slot nobody holds,
    whose machine is not the machine of any held slot; the slot is of the right
    bucket and the least recently used ready one there. *)
Theorem pool_lease_exclusive c key now g' s :
  Pool.reachable c → Pool.acquire_key key now (Pool.pool c) = (g', Some s) →
  PoolSlot.id s ∉ Pool.leases c ∧
  (∀ t, t ∈ Pool.slots (Pool.pool c) → PoolSlot.id t ∈ Pool.leases c →
     VmHandle.id (PoolSlot.vm_handle t) ≠ VmHandle.id (PoolSlot.vm_handle s)) ∧
  PoolSlot.pool_key s = key ∧
  (∃ s0, s0 ∈ Pool.slots (Pool.pool c) ∧ s = PoolSlot.set_state s0 SlotState.Acquired now ∧
     ∀ t, t ∈ Pool.slots (Pool.pool c) → PoolSlot.pool_key t = key →
       PoolSlot.state t = SlotState.Ready → PoolSlot.last_used_at s0 ≤ PoolSlot.last_used_at t).
Proof.
  intros [Hnd Hok]%Pool.reachable_inv
    (pos & s0 & Hpos & Hkey & Hst & -> & _ & Hlru)%Pool.acquire_key_spec.
  pose proof (Hok s0 (list_elem_of_lookup_2 _ _ _ Hpos)) as H0.
  unfold Pool.slot_ok in H0. rewrite Hst in H0. destruct H0 as (HB & HL & Hh).
  split_and!; simpl; [done| |done|].
  - intros t Ht HtL. rewrite Hh. specialize (Hok t Ht). unfold Pool.slot_ok in Hok.
    destruct (PoolSlot.state t); destruct_and?; try done; congruence.
  - exists s0. split_and!; [by eapply list_elem_of_lookup_2|done|done].
Qed.

(** C35: the pool leaks no machine.  Over any sequence of [warm], [acquire],
    [release], [discard], [set_min_idle] and background rounds with fresh UUIDs,
    on a backend whose forced stop succeeds, the machines that belong to no slot
    never increase, and slot ids stay distinct with every slot ready or leased
    and carrying its own machine. *)
Theorem pool_leaks_no_machine {V : Vmm} {VO : VmmOk V} {ST : StopTotal V} hash order s s' :
  star (Pool.op_step hash order) s s' → Pool.wf s.1 →
  Pool.wf s'.1 ∧ Pool.orphans s' ⊆ Pool.orphans s.
Proof.
  induction 1 as [s|s1 s2 s3 Hstep _ IH]; [done|]. intros Hwf.
  destruct (Pool.op_step_ok hash order s1 s2 Hstep Hwf) as [Hwf2 Ho].
  destruct (IH Hwf2). split; [done|]. by etrans.
Qed.

(** The background task restores the target.  When cold starts succeed and
    a template is registered, [n] rounds of [replenish] bring the number of
    ready slots from [r] to exactly [max r (min min_idle (r + n))]: the target
    is reached after [min_idle - r] rounds and never exceeded. *)
Theorem pool_replenish_converges {V : Vmm} {VO : VmmOk V} order uids now now' g w :
  (∀ m k, k ∈ order m ↔ is_Some (m !! k)) →
  supports_detached_warm_pool = true →
  (∀ i sp w, ∃ w1 h w2, create i sp w = (w1, inr h) ∧ start h w1 = (w2, inr ())) →
  Pool.wf g → Pool.templates g ≠ ∅ → NoDup uids →
  Forall (λ u, String.length u = 32%nat ∧ Pool.fresh_uid u g) uids →
  let ready := Pool.count (PoolSlot.is_state SlotState.Ready) in
  ready (Pool.replenish_rounds order uids now now' (g, w)).1
  = Z.max (ready g) (Z.min (Pool.min_idle g) (ready g + Z.of_nat (length uids))).
Proof.
  intros Ho Hd Hb Hwf Ht Hnd Hu.
  exact (proj2 (Pool.replenish_rounds_ready order Ho Hd Hb uids now now' g w Hwf Ht Hnd Hu)).
Qed.

(** [release] answers every case and touches nothing else: a leased slot
    becomes ready, an unknown id is [SlotNotFound], a slot that is already ready
    is refused, and on a refusal no slot changes. *)
Theorem pool_release_cases slot now g :
  match Pool.release slot now g with
  | (g', Ok _) =>
    (∃ s, List.find (PoolSlot.has_id (PoolSlot.id slot)) (Pool.slots g) = Some s ∧
       PoolSlot.state s = SlotState.Acquired) ∧
    Pool.count (PoolSlot.is_state SlotState.Ready) g'
    = Pool.count (PoolSlot.is_state SlotState.Ready) g + 1
  | (g', Err e) =>
    Pool.slots g' = Pool.slots g ∧
    match e with
    | PoolError.SlotNotFound => PoolSlot.id slot ∉ Pool.ids g
    | PoolError.SlotAlreadyAcquired =>
      ∃ s, s ∈ Pool.slots g ∧ PoolSlot.id s = PoolSlot.id slot ∧ PoolSlot.state s = SlotState.Ready
    | PoolError.InvalidState =>
      ∃ s, s ∈ Pool.slots g ∧ PoolSlot.id s = PoolSlot.id slot ∧
        (PoolSlot.state s = SlotState.Preparing ∨ PoolSlot.state s = SlotState.Destroyed)
    end
  | (_, Panic) => False
  end.
Proof.
  unfold Pool.release. simpl. destruct (List.find _ _) as [s|] eqn:Hf.
  - pose proof Hf as [Hin%list_elem_of_In Hid%String.eqb_eq]%List.find_some.
    destruct (PoolSlot.state s) eqn:Hst; simpl; try by split; eauto 10.
    split; [eauto|]. by eapply Pool.count_release.
  - split; [done|]. intros (s & Heq & Hs)%list_elem_of_fmap.
    pose proof (List.find_none _ _ Hf s (proj1 (list_elem_of_In _ _) Hs)) as Hn.
    apply String.eqb_neq in Hn. congruence.
Qed.

Module PoolDemo.
Definition hash (_ : Z * Z * Z * option Z) : Z := 7.
Definition key : string := SandboxSpec.pool_key hash SandboxSpec.default.
Definition order (m : gmap string SandboxSpec.t) : list string := (map_to_list m).*1.
Definition uid : string := "0190a1b2c3d47e5f8a9b0c1d2e3f4a5b".
Definition slot_a : PoolSlot.t :=
  PoolSlot.mk "a" key (MemoryVmm.handle "a") SlotState.Ready 0 5.
Definition one_ready : Pool.inner := Pool.mk [slot_a] ∅ 0 300 false.
#[global] Instance vmm : Vmm := MemoryVmm.vmm true false.
Definition empty_world : world := MemoryVmm.mk ∅ ∅.
Definition with_template : Pool.inner := Pool.mk [] {[key := SandboxSpec.default]} 1 300 true.

Lemma one_ready_reachable : Pool.reachable (Pool.conf one_ready ∅ ∅).
Proof.
  exists 0, 300.
  eapply star_step; [by apply (Pool.step_begin _ _ _ "a" key 0); [apply not_elem_of_nil|..]|].
  eapply star_step.
  { apply (Pool.step_finish _ _ _ "a" (MemoryVmm.handle "a") 5); [set_solver|done]. }
  simpl. replace (({[("a" : string)]} ∪ ∅) ∖ {[("a" : string)]} : gset string) with (∅ : gset string)
    by set_solver. constructor.
Qed.

Lemma order_keys m k : k ∈ order m ↔ is_Some (m !! k).
Proof.
  unfold order. rewrite list_elem_of_fmap. split.
  - intros ([k' v] & -> & Hv%elem_of_map_to_list). eauto.
  - intros [v Hv]. exists (k, v). by rewrite elem_of_map_to_list.
Qed.
End PoolDemo.

Lemma pool_lease_exclusive_witness :
  PoolSlot.id (PoolSlot.set_state PoolDemo.slot_a SlotState.Acquired 9) ∉ (∅ : gset string).
Proof.
  refine (proj1 (pool_lease_exclusive (Pool.conf PoolDemo.one_ready ∅ ∅) PoolDemo.key 9
    (Pool.acquire_key PoolDemo.key 9 PoolDemo.one_ready).1 _ PoolDemo.one_ready_reachable _)).
  reflexivity.
Defined.

Lemma pool_leaks_no_machine_witness :
  let s := (Pool.new 1 300, PoolDemo.empty_world) in
  let s' := Pool.exec PoolDemo.hash PoolDemo.order
              (Pool.OWarm SandboxSpec.default PoolDemo.uid 1 2) s in
  Pool.orphans s' ⊆ Pool.orphans s ∧ length (Pool.slots s'.1) = 1%nat.
Proof.
  intros s s'. split; [|reflexivity].
  refine (proj2 (pool_leaks_no_machine PoolDemo.hash PoolDemo.order s s' _ _)).
  - apply star_one. exists (Pool.OWarm SandboxSpec.default PoolDemo.uid 1 2).
    split; [|done]. intros sp. apply not_elem_of_nil.
  - split; [apply NoDup_nil_2|]. intros x Hx. by apply elem_of_nil in Hx.
Defined.

Lemma pool_replenish_converges_witness :
  Pool.count (PoolSlot.is_state SlotState.Ready)
    (Pool.replenish_rounds PoolDemo.order [PoolDemo.uid] 1 2
       (PoolDemo.with_template, PoolDemo.empty_world)).1 = 1.
Proof.
  refine (pool_replenish_converges PoolDemo.order [PoolDemo.uid] 1 2
    PoolDemo.with_template PoolDemo.empty_world PoolDemo.order_keys eq_refl _ _ _ _ _).
  - intros i sp w. eexists _, _, _. split; reflexivity.
  - split; [apply NoDup_nil_2|]. intros x Hx. by apply elem_of_nil in Hx.
  - apply map_non_empty_singleton.
  - apply NoDup_singleton.
  - apply Forall_singleton. split; [reflexivity|]. intros sp. apply not_elem_of_nil.
Defined.
