(* ===== verification/Proto.v ===== *)
(** * The host/guest frame protocol ([crates/clouisle-proto])

    Length-prefixed frames: four bytes of big-endian length, then the postcard
    encoding of a [Frame].  Postcard is a dependency: the class [Postcard], whose
    law is that decoding inverts encoding.  The readers are the incremental
    [FrameDecoder] ([lib.rs]) and the stream functions of [codec.rs]. *)

From S2P Require Import Prelude Core.

(** ** Frames *)

Module ProcessSignal.
Inductive t : Set := Sigterm | Sigkill | Sigint.
Definition as_i32 (s : t) : Z := match s with Sigterm => 15 | Sigkill => 9 | Sigint => 2 end.
Definition try_from (value : Z) : option t :=
  if value =? 15 then Some Sigterm else if value =? 9 then Some Sigkill
  else if value =? 2 then Some Sigint else None.

Lemma try_from_as_i32 s : try_from (as_i32 s) = Some s.
Proof. by destruct s. Qed.
End ProcessSignal.

Module PtyConfig.
Record t : Set := mk { cols : Z; rows : Z }.
End PtyConfig.

Module DirEntry.
Record t : Set := mk { name : string; size : Z; mode : Z; mtime : Z; is_dir : bool }.
End DirEntry.

Module Frame.
Inductive t : Type :=
| Hello (agent_version : string)
| ExecReq (id : string) (argv : list string) (env : gmap string string) (cwd : option string)
    (timeout_ms : Z)
| ProcessStart (id : string) (argv : list string) (env : gmap string string)
    (cwd : option string) (timeout_ms : Z) (stdin : bool) (pty : option PtyConfig.t)
| ProcessStarted (id : string) (pid : Z)
| Stdin (id : string) (chunk : Bytes)
| StdinEof (id : string)
| Signal (id : string) (signal : ProcessSignal.t)
| Resize (id : string) (cols rows : Z)
| ControlOk
| Stdout (id : string) (chunk : Bytes)
| Stderr (id : string) (chunk : Bytes)
| Exited (id : string) (code : Z)
| Ping
| Pong
| SyncTime (unix_nanos : Z)
| WriteFile (path : string) (mode : Z) (content : Bytes)
| WriteFileResult (path : string)
| ReadFile (path : string) (offset length : Z)
| ReadFileResult (path : string) (content : Bytes)
| ListDir (path : string)
| ListDirResult (entries : list DirEntry.t)
| Error (message : string) (code : Z)
| SetSecret (name : string) (value : Bytes)
| ApplyLimits (pids_max bandwidth_mbps : option Z).
End Frame.

Module CodecError.
Inductive t : Set :=
| FrameTruncated (expected got : Z)
| Decode (message : string)
| Io (message : string).
End CodecError.

(** ** Postcard *)

Class Postcard : Type := {
  to_allocvec : Frame.t → res string Bytes;
  from_bytes : Bytes → res string Frame.t }.

Class PostcardOk (P : Postcard) : Prop := {
  from_to f p : to_allocvec f = Ok p → from_bytes p = Ok f }.

(** ** Bytes of a length *)

Definition byte_of_Z (z : Z) : Byte.byte :=
  match Byte.of_N (Z.to_N (z mod 256)) with Some b => b | None => Byte.x00 end.
Definition Z_of_byte (b : Byte.byte) : Z := Z.of_N (Byte.to_N b).

Definition to_be_bytes (n : Z) : Bytes :=
  [byte_of_Z (n / 16777216); byte_of_Z (n / 65536); byte_of_Z (n / 256); byte_of_Z n].
Definition from_be_bytes (b0 b1 b2 b3 : Byte.byte) : Z :=
  Z_of_byte b0 * 16777216 + Z_of_byte b1 * 65536 + Z_of_byte b2 * 256 + Z_of_byte b3.

#[global] Arguments from_be_bytes : simpl never.

Lemma Z_of_byte_of_Z z : Z_of_byte (byte_of_Z z) = z mod 256.
Proof.
  unfold Z_of_byte, byte_of_Z. pose proof (Z.mod_pos_bound z 256).
  destruct (Byte.of_N _) as [b|] eqn:Hb.
  - apply Byte.to_of_N in Hb. lia.
  - apply Byte.of_N_None_iff in Hb. lia.
Qed.

Definition FRAME_HEADER_LEN : nat := 4.

(** ** Encoding and decoding *)

Section codec.
Context {P : Postcard}.

Definition encode_frame (frame : Frame.t) : res CodecError.t Bytes :=
  payload ← map_err CodecError.Decode (to_allocvec frame);
  Ok (to_be_bytes (as_u32 (Z.of_nat (length payload))) ++ payload).

(** The length of the frame at the head of the buffer, header included. *)
Definition frame_total (buf : Bytes) : option Z :=
  match buf with
  | b0 :: b1 :: b2 :: b3 :: _ =>
    Some (Z.of_nat FRAME_HEADER_LEN + from_be_bytes b0 b1 b2 b3)
  | _ => None
  end.

Definition decode_frame_once (buf : Bytes) : res CodecError.t (option (Frame.t * nat)) :=
  match frame_total buf with
  | None => Ok None
  | Some total =>
    if Z.of_nat (length buf) <? total then Ok None
    else
      let n := Z.to_nat total in
      frame ← map_err CodecError.Decode
                (from_bytes (drop FRAME_HEADER_LEN (take n buf)));
      Ok (Some (frame, n))
  end.

(** *** [FrameDecoder] *)

Record FrameDecoder : Type := decoder { buf : Bytes }.
Definition decoder_new : FrameDecoder := decoder [].

(** The [while let] loop of [push].  A frame takes at least its header out of
    the buffer, so the length of the buffer bounds the iterations; an error
    leaves the buffer as the last successful iteration left it and drops the
    frames decoded so far. *)
Fixpoint push_loop (fuel : nat) (b : Bytes) (frames : list Frame.t)
  : FrameDecoder * res CodecError.t (list Frame.t) :=
  match fuel with
  | O => (decoder b, Panic)
  | S fuel =>
    match decode_frame_once b with
    | Ok (Some (frame, consumed)) => push_loop fuel (drop consumed b) (frames ++ [frame])
    | Ok None => (decoder b, Ok frames)
    | Err e => (decoder b, Err e)
    | Panic => (decoder b, Panic)
    end
  end.

Definition push (d : FrameDecoder) (data : Bytes)
  : FrameDecoder * res CodecError.t (list Frame.t) :=
  let b := buf d ++ data in push_loop (S (length b)) b [].

Definition finish (d : FrameDecoder) : res CodecError.t () :=
  if bool_decide (buf d = []) then Ok ()
  else Err (CodecError.FrameTruncated (Z.of_nat FRAME_HEADER_LEN) (Z.of_nat (length (buf d)))).

(** *** [codec.rs]

    A reader is the bytes it still has to deliver before end of file. *)

Definition read_exact (n : nat) (r : Bytes) : Bytes * res CodecError.t Bytes :=
  if (n <=? length r)%nat then (drop n r, Ok (take n r))
  else ([], Err (CodecError.Io "early eof")).

Definition read_frame (r : Bytes) : Bytes * res CodecError.t Frame.t :=
  match read_exact FRAME_HEADER_LEN r with
  | (r1, Ok (([b0; b1; b2; b3]) as header)) =>
    let len := from_be_bytes b0 b1 b2 b3 in
    match read_exact (Z.to_nat len) r1 with
    | (r2, Ok payload) =>
      let b := header ++ payload in
      match decode_frame_once b with
      | Ok (Some (frame, _)) => (r2, Ok frame)
      | Ok None => (r2, Err (CodecError.FrameTruncated (Z.of_nat (length b))
                               (Z.of_nat FRAME_HEADER_LEN + len)))
      | Err e => (r2, Err e)
      | Panic => (r2, Panic)
      end
    | (r2, Err e) => (r2, Err e)
    | (r2, Panic) => (r2, Panic)
    end
  | (r1, Ok _) => (r1, Panic)
  | (r1, Err e) => (r1, Err e)
  | (r1, Panic) => (r1, Panic)
  end.

(** The bytes written so far, with the frame appended. *)
Definition write_frame (w : Bytes) (frame : Frame.t) : Bytes * res CodecError.t () :=
  match encode_frame frame with
  | Ok b => (w ++ b, Ok ())
  | Err e => (w, Err e)
  | Panic => (w, Panic)
  end.

(** Several chunks in a row, stopping at the first error. *)
Fixpoint push_all (d : FrameDecoder) (chunks : list Bytes)
  : FrameDecoder * res CodecError.t (list Frame.t) :=
  match chunks with
  | [] => (d, Ok [])
  | c :: chunks' =>
    match push d c with
    | (d1, Ok fs) =>
      match push_all d1 chunks' with
      | (d2, Ok fs') => (d2, Ok (fs ++ fs'))
      | (d2, r) => (d2, r)
      end
    | (d1, r) => (d1, r)
    end
  end.

(** ** Lemmas *)

Lemma decode_consumed b f n :
  decode_frame_once b = Ok (Some (f, n)) → (4 ≤ n ≤ length b)%nat.
Proof.
  unfold decode_frame_once. destruct (frame_total b) as [total|] eqn:Ht; [|done].
  destruct b as [|b0 [|b1 [|b2 [|b3 b]]]]; simplify_eq/=.
  assert (0 ≤ from_be_bytes b0 b1 b2 b3) by (unfold from_be_bytes, Z_of_byte; lia).
  unfold FRAME_HEADER_LEN in *.
  destruct (Z.ltb_spec (Z.of_nat (length (b0 :: b1 :: b2 :: b3 :: b)))
    (4 + from_be_bytes b0 b1 b2 b3)) as [Hlt|Hge]; simpl in *; [by rewrite (proj2 (Z.ltb_lt _ _)) by lia|].
  rewrite (proj2 (Z.ltb_ge _ _)) by lia. run_res.
  destruct (from_bytes _); simpl; intros; simplify_eq. lia.
Qed.

Lemma frame_total_app b m total : frame_total b = Some total → frame_total (b ++ m) = Some total.
Proof. by destruct b as [|? [|? [|? [|? b]]]]. Qed.

(** What was decided on a buffer stays decided when more bytes arrive. *)
Lemma decode_app b m :
  decode_frame_once b ≠ Ok None → decode_frame_once (b ++ m) = decode_frame_once b.
Proof.
  unfold decode_frame_once. destruct (frame_total b) as [total|] eqn:Ht; [|done].
  rewrite (frame_total_app _ _ _ Ht), length_app.
  destruct (Z.ltb_spec (Z.of_nat (length b)) total); [done|]. intros _.
  rewrite (proj2 (Z.ltb_ge _ _)) by lia. rewrite take_app_le by lia. done.
Qed.

Lemma push_loop_acc fuel b fs :
  push_loop fuel b fs
  = let '(d, r) := push_loop fuel b [] in (d, (λ l, fs ++ l) <$> r).
Proof.
  revert b fs. induction fuel as [|fuel IH]; intros b fs; simpl; [done|].
  destruct (decode_frame_once b) as [[[f n]|]|e|]; simpl; try done.
  - rewrite (IH _ (fs ++ [f])), (IH _ [f]).
    destruct (push_loop fuel (drop n b) []) as [d [l|e|]]; simpl; try done.
    by rewrite <-app_assoc.
  - by rewrite app_nil_r.
Qed.

(** The fuel is enough: more of it changes nothing, and the loop never runs
    out. *)
Lemma push_loop_fuel f1 f2 b fs :
  (length b < f1)%nat → (length b < f2)%nat → push_loop f1 b fs = push_loop f2 b fs.
Proof.
  revert f2 b fs. induction f1 as [|f1 IH]; intros [|f2] b fs H1 H2; try lia. simpl.
  destruct (decode_frame_once b) as [[[f n]|]|e|] eqn:Hd; try done.
  apply decode_consumed in Hd. apply IH; rewrite length_drop; lia.
Qed.

Lemma decode_no_panic b : (∀ p, from_bytes p ≠ Panic) → decode_frame_once b ≠ Panic.
Proof.
  intros Hp. unfold decode_frame_once. destruct (frame_total b); [|done].
  destruct (_ <? _); [done|]. run_res. specialize (Hp (drop FRAME_HEADER_LEN (take (Z.to_nat z) b))).
  by destruct (from_bytes _).
Qed.

Lemma push_loop_no_panic fuel b fs :
  (∀ p, from_bytes p ≠ Panic) → (length b < fuel)%nat → snd (push_loop fuel b fs) ≠ Panic.
Proof.
  intros Hp. revert b fs. induction fuel as [|fuel IH]; intros b fs Hf; [lia|]. simpl.
  pose proof (decode_no_panic b Hp) as Hdp.
  destruct (decode_frame_once b) as [[[f n]|]|e|] eqn:Hd; try done.
  apply decode_consumed in Hd. apply IH. rewrite length_drop. lia.
Qed.

(** Decoding [b ++ m] at once is decoding [b], then the rest with [m]. *)
Lemma push_loop_app f1 f2 f3 b m fs d1 l :
  (length b < f1)%nat → (length (b ++ m) < f2)%nat → (length (buf d1 ++ m) < f3)%nat →
  push_loop f1 b fs = (d1, Ok l) → push_loop f2 (b ++ m) fs = push_loop f3 (buf d1 ++ m) l.
Proof.
  revert f2 b fs. induction f1 as [|f1 IH]; intros f2 b fs H1 H2 H3 Hp; [lia|].
  destruct f2 as [|f2]; [lia|]. simpl in Hp.
  destruct (decode_frame_once b) as [[[f n]|]|e|] eqn:Hd; simplify_eq/=.
  - rewrite decode_app, Hd by (rewrite Hd; done). pose proof (decode_consumed _ _ _ Hd).
    rewrite drop_app_le by lia. rewrite length_app in H2.
    apply IH; [rewrite length_drop; lia|rewrite length_app, length_drop; lia|done|done].
  - exact (push_loop_fuel (S f2) f3 (b ++ m) l H2 H3).
Qed.

Lemma push_app d c1 c2 d1 l :
  push d c1 = (d1, Ok l) →
  push d (c1 ++ c2) = let '(d2, r) := push d1 c2 in (d2, (λ l', l ++ l') <$> r).
Proof.
  unfold push. intros Hp. rewrite <-push_loop_acc, app_assoc.
  eapply push_loop_app; [..|exact Hp]; lia.
Qed.

Lemma push_loop_stops fuel b fs d l :
  push_loop fuel b fs = (d, Ok l) → decode_frame_once (buf d) = Ok None.
Proof.
  revert b fs. induction fuel as [|fuel IH]; intros b fs; simpl; [done|].
  destruct (decode_frame_once b) as [[[f n]|]|e'|] eqn:Hd; try done; [apply IH|].
  by intros [= <- <-].
Qed.

(** An error is sticky: the decoder gives the same one again, whatever comes. *)
Lemma push_loop_err fuel b fs d e :
  push_loop fuel b fs = (d, Err e) → decode_frame_once (buf d) = Err e.
Proof.
  revert b fs. induction fuel as [|fuel IH]; intros b fs; simpl; [done|].
  destruct (decode_frame_once b) as [[[f n]|]|e'|] eqn:Hd; try done; [apply IH|].
  by intros [= <- <-].
Qed.

Lemma push_loop_err_app f1 b fs d e m :
  push_loop f1 b fs = (d, Err e) →
  ∀ f2 fs', (length b < f1)%nat → (length (b ++ m) < f2)%nat →
  snd (push_loop f2 (b ++ m) fs') = Err e.
Proof.
  revert b fs. induction f1 as [|f1 IH]; intros b fs; simpl; [done|].
  intros Hp [|f2] fs' H1 H2; [lia|]. simpl.
  destruct (decode_frame_once b) as [[[f n]|]|e'|] eqn:Hd; simplify_eq.
  - rewrite decode_app, Hd by (rewrite Hd; done). pose proof (decode_consumed _ _ _ Hd).
    rewrite drop_app_le by lia. rewrite length_app in H2.
    eapply IH; [exact Hp|rewrite length_drop; lia|rewrite length_app, length_drop; lia].
  - rewrite decode_app, Hd by (rewrite Hd; done). done.
Qed.

Lemma push_err_sticky d c d1 e c' : push d c = (d1, Err e) → snd (push d1 c') = Err e.
Proof.
  unfold push. intros Hd%push_loop_err. simpl.
  rewrite decode_app, Hd by (rewrite Hd; done). done.
Qed.

Lemma push_all_no_panic d chunks :
  (∀ p, from_bytes p ≠ Panic) → snd (push_all d chunks) ≠ Panic.
Proof.
  intros Hp. revert d. induction chunks as [|c chunks IH]; intros d; simpl; [done|].
  assert (snd (push d c) ≠ Panic) as Hd.
  { apply push_loop_no_panic; [done|lia]. }
  destruct (push d c) as [d1 [l|e|]]; try done. specialize (IH d1).
  by destruct (push_all d1 chunks) as [d2 [l'|e|]].
Qed.

(** *** Round trips *)

Lemma from_to_be_bytes n :
  0 ≤ n ≤ u32_max →
  ∃ b0 b1 b2 b3, to_be_bytes n = [b0; b1; b2; b3] ∧ from_be_bytes b0 b1 b2 b3 = n.
Proof.
  intros Hn. eexists _, _, _, _. split; [reflexivity|]. unfold from_be_bytes.
  rewrite !Z_of_byte_of_Z. unfold u32_max in Hn.
  rewrite (Z.mod_small (n / 16777216)) by (split; [apply Z.div_pos|apply Z.div_lt_upper_bound]; lia).
  assert (n / 65536 = n / 256 / 256) as -> by by rewrite Z.div_div.
  assert (n / 16777216 = n / 256 / 256 / 256) as -> by by rewrite !Z.div_div.
  pose proof (Z.div_mod n 256 ltac:(lia)). pose proof (Z.div_mod (n / 256) 256 ltac:(lia)).
  pose proof (Z.div_mod (n / 256 / 256) 256 ltac:(lia)). lia.
Qed.

Lemma encode_frame_ok f b :
  encode_frame f = Ok b →
  ∃ p, to_allocvec f = Ok p ∧ b = to_be_bytes (as_u32 (Z.of_nat (length p))) ++ p.
Proof. unfold encode_frame. destruct (to_allocvec f); [|done..]. intros [= <-]. eauto. Qed.

Lemma encoded_header (p : Bytes) :
  Z.of_nat (length (to_be_bytes (as_u32 (Z.of_nat (length p))) ++ p)) ≤ 4 + u32_max →
  ∃ b0 b1 b2 b3, to_be_bytes (as_u32 (Z.of_nat (length p))) = [b0; b1; b2; b3] ∧
    from_be_bytes b0 b1 b2 b3 = Z.of_nat (length p).
Proof.
  rewrite length_app. change (length (to_be_bytes _)) with 4%nat. intros Hl.
  rewrite as_u32_id by (unfold in_u32; lia). apply from_to_be_bytes. lia.
Qed.

Lemma encode_decode `{!PostcardOk P} f b rest :
  encode_frame f = Ok b → Z.of_nat (length b) ≤ 4 + u32_max →
  decode_frame_once (b ++ rest) = Ok (Some (f, length b)).
Proof.
  intros (p & Hp & ->)%encode_frame_ok Hl.
  destruct (encoded_header p Hl) as (b0 & b1 & b2 & b3 & Hb & Hlen). rewrite Hb in *. unfold decode_frame_once. simpl. rewrite Hlen.
  rewrite (proj2 (Z.ltb_ge _ _)) by (rewrite length_app; unfold FRAME_HEADER_LEN; lia).
  replace (Z.to_nat (Z.of_nat FRAME_HEADER_LEN + Z.of_nat (length p))) with (4 + length p)%nat
    by (unfold FRAME_HEADER_LEN; lia).
  unfold FRAME_HEADER_LEN. simpl. rewrite take_app_length, drop_0, (from_to _ _ Hp). done.
Qed.

Lemma read_encoded `{!PostcardOk P} f b rest :
  encode_frame f = Ok b → Z.of_nat (length b) ≤ 4 + u32_max →
  read_frame (b ++ rest) = (rest, Ok f).
Proof.
  intros He Hl. pose proof (encode_decode f b [] He Hl) as Hd. rewrite app_nil_r in Hd.
  apply encode_frame_ok in He as (p & Hp & ->).
  destruct (encoded_header p Hl) as (b0 & b1 & b2 & b3 & Hb & Hlen). rewrite Hb in *. unfold read_frame, read_exact, FRAME_HEADER_LEN. simpl.
  rewrite drop_0, Hlen, Nat2Z.id, length_app.
  rewrite (proj2 (Nat.leb_le _ _)) by lia.
  rewrite take_app_length, drop_app_length. simpl in Hd. by rewrite Hd.
Qed.
End codec.

Section streams.
Context {P : Postcard} {PO : PostcardOk P}.

(** A stream written frame by frame. *)
Fixpoint write_frames (w : Bytes) (fs : list Frame.t) : Bytes * res CodecError.t () :=
  match fs with
  | [] => (w, Ok ())
  | f :: fs' =>
    match write_frame w f with
    | (w1, Ok _) => write_frames w1 fs'
    | (w1, r) => (w1, r)
    end
  end.

(** Every frame fits the length field. *)
Definition fits_header (f : Frame.t) : Prop :=
  ∀ b, encode_frame f = Ok b → Z.of_nat (length b) ≤ 4 + u32_max.

Lemma write_frames_stream w fs w' :
  write_frames w fs = (w', Ok ()) → ∃ s, w' = w ++ s ∧ write_frames [] fs = (s, Ok ()).
Proof.
  assert (∀ fs v w w', write_frames (v ++ w) fs = (w', Ok ()) →
    ∃ s, w' = v ++ s ∧ write_frames w fs = (s, Ok ())) as Hgen.
  { clear. intros fs v. induction fs as [|f fs IH]; intros w w'; simpl.
    - intros [= <-]. eauto.
    - unfold write_frame. destruct (encode_frame f) as [b| |]; [|done..].
      rewrite <-app_assoc. apply IH. }
  intros H. rewrite <-(app_nil_r w) in H. by apply Hgen.
Qed.

Lemma push_loop_stream fs s fuel :
  Forall fits_header fs → write_frames [] fs = (s, Ok ()) → (length s < fuel)%nat →
  push_loop fuel s [] = (decoder [], Ok fs).
Proof.
  intros Hfit. revert s fuel. induction Hfit as [|f fs Hf Hfs IH]; intros s fuel; simpl.
  - intros [= <-] Hl. by destruct fuel; [lia|].
  - unfold write_frame. destruct (encode_frame f) as [b| |] eqn:He; [|done..]. simpl.
    intros (s' & -> & Hs')%write_frames_stream Hl. destruct fuel as [|fuel]; [lia|].
    pose proof (encode_decode f b s' He (Hf b He)) as Hd. simpl. rewrite Hd.
    pose proof (decode_consumed _ _ _ Hd). rewrite drop_app_length, push_loop_acc.
    rewrite length_app in *. rewrite (IH s' fuel Hs') by lia. done.
Qed.

Lemma push_all_concat d chunks d' r :
  push_all d chunks = (d', r) → r ≠ Panic → chunks ≠ [] →
  (∃ l, r = Ok l ∧ push d (concat chunks) = (d', Ok l)) ∨
  (∃ e, r = Err e ∧ snd (push d (concat chunks)) = Err e).
Proof.
  revert d d' r. induction chunks as [|c chunks IH]; intros d d' r; [done|]. simpl.
  destruct (push d c) as [d1 [l|e|]] eqn:Hp.
  - intros Hr Hnp _. rewrite (push_app _ _ (concat chunks) _ _ Hp).
    destruct chunks as [|c2 chunks].
    + simpl in *. simplify_eq. left. exists l. rewrite app_nil_r. split; [done|].
      pose proof (push_loop_stops _ _ _ _ _ Hp) as Hs. unfold push. rewrite app_nil_r. simpl.
      rewrite Hs. simpl. rewrite app_nil_r. by destruct d'.
    + destruct (push_all d1 (c2 :: chunks)) as [d2 r2] eqn:Hr2.
      destruct (IH d1 d2 r2 Hr2) as [(l' & -> & Hl')|(e & -> & He)]; [by intros ->; simplify_eq|done|..].
      * simplify_eq. left. exists (l ++ l'). by rewrite Hl'.
      * simplify_eq. right. exists e. destruct (push d1 _) as [d3 r3]. simpl in *. by subst r3.
  - intros [= <- <-] _ _. right. exists e. split; [done|].
    unfold push in *. rewrite app_assoc. pose proof (push_loop_err_app _ _ _ _ _ (concat chunks) Hp) as Happ.
    apply Happ; lia.
  - intros [= <- <-]. done.
Qed.
End streams.

#[export] Hint Resolve decode_app push_app push_err_sticky : clouisle.

(** ** Properties *)

(** A frame survives the wire.  The encoding of a frame whose payload fits
    the 32-bit length field, followed by anything, decodes to that frame and is
    consumed exactly, by the buffer decoder and by the stream reader alike, which
    leaves the rest of the stream untouched. *)
Theorem frame_round_trip {P : Postcard} {PO : PostcardOk P} f b rest :
  encode_frame f = Ok b → Z.of_nat (length b) ≤ 4 + u32_max →
  decode_frame_once (b ++ rest) = Ok (Some (f, length b)) ∧
  read_frame (b ++ rest) = (rest, Ok f).
Proof. intros. split; [by apply encode_decode|by apply read_encoded]. Qed.

(** The decoder does not depend on how the bytes arrive.  Feeding any bytes
    in pieces gives the same frames, the same error and the same buffer as
    feeding them at once (after an error the pieces that were not fed do not
    matter). *)
Theorem decoder_chunking_irrelevant {P : Postcard} d chunks d' r :
  (∀ p, from_bytes p ≠ Panic) → chunks ≠ [] → push_all d chunks = (d', r) →
  match r with
  | Ok frames => push d (concat chunks) = (d', Ok frames)
  | Err e => snd (push d (concat chunks)) = Err e
  | Panic => False
  end.
Proof.
  intros Hp Hc Hr. pose proof (push_all_no_panic d chunks Hp) as Hnp. rewrite Hr in Hnp.
  destruct (push_all_concat d chunks d' r Hr Hnp Hc) as [(l & -> & ?)|(e & -> & ?)]; done.
Qed.

(** C33: a whole stream is recovered.  Frames written one after the other and
    cut into chunks at any positions come out of the decoder in order, with
    nothing left over, so [finish] reports no truncation. *)
Theorem decoder_recovers_stream {P : Postcard} {PO : PostcardOk P} fs s chunks :
  (∀ p, from_bytes p ≠ Panic) → Forall fits_header fs →
  write_frames [] fs = (s, Ok ()) → concat chunks = s → chunks ≠ [] →
  push_all decoder_new chunks = (decoder_new, Ok fs) ∧ finish decoder_new = Ok ().
Proof.
  intros Hp Hf Hs Hc Hne. split; [|done].
  destruct (push_all decoder_new chunks) as [d r] eqn:Hr.
  pose proof (push_all_no_panic decoder_new chunks Hp) as Hnp. rewrite Hr in Hnp.
  assert (push decoder_new (concat chunks) = (decoder [], Ok fs)) as Hall.
  { rewrite Hc. change (push decoder_new s) with (push_loop (S (length s)) s []).
    apply push_loop_stream; [done|done|lia]. }
  destruct (push_all_concat _ _ _ _ Hr Hnp Hne) as [(l & -> & Hl)|(e & -> & He)];
    rewrite Hall in *; by simplify_eq/=.
Qed.

(** A malformed frame ends the stream.  Once [push] has failed, every later
    call fails with the same error whatever it is fed; the frames decoded before
    the malformed one in the same call are not returned. *)
Theorem decoder_error_is_final {P : Postcard} {PO : PostcardOk P} d c d1 e c' f b bad :
  (push d c = (d1, Err e) → snd (push d1 c') = Err e) ∧
  (encode_frame f = Ok b → Z.of_nat (length b) ≤ 4 + u32_max →
   decode_frame_once bad = Err e → snd (push decoder_new (b ++ bad)) = Err e).
Proof.
  split; [apply push_err_sticky|]. intros He Hl Hbad.
  pose proof (encode_decode f b bad He Hl) as Hd. unfold push. simpl. rewrite Hd.
  rewrite drop_app_length. pose proof (decode_consumed _ _ _ Hd).
  destruct (length (b ++ bad)) as [|n] eqn:Hn; [rewrite length_app in *; lia|].
  simpl. by rewrite Hbad.
Qed.

(** *** A codec for the witnesses: it knows [Ping] and [Pong] *)

Module ProtoDemo.
#[global] Instance codec : Postcard := {|
  to_allocvec f := match f with
    | Frame.Ping => Ok [Byte.x0c]
    | Frame.Pong => Ok [Byte.x0d]
    | _ => Err "unsupported"%string
    end;
  from_bytes b := match b with
    | [Byte.x0c] => Ok Frame.Ping
    | [Byte.x0d] => Ok Frame.Pong
    | _ => Err "malformed"%string
    end |}.
#[global] Instance codec_ok : PostcardOk codec.
Proof. split. intros [] p; simpl; intros; by simplify_eq. Qed.

Lemma no_panic p : from_bytes p ≠ Panic.
Proof. simpl. by repeat case_match. Qed.

Definition wire : Bytes :=
  [Byte.x00; Byte.x00; Byte.x00; Byte.x01; Byte.x0c;
   Byte.x00; Byte.x00; Byte.x00; Byte.x01; Byte.x0d].
Definition chunks : list Bytes := [take 3 wire; drop 3 wire].

Lemma fits f : f = Frame.Ping ∨ f = Frame.Pong → fits_header f.
Proof. intros [-> | ->] b [= <-]; vm_compute; discriminate. Qed.
End ProtoDemo.

Lemma frame_round_trip_witness :
  read_frame ([Byte.x00; Byte.x00; Byte.x00; Byte.x01; Byte.x0c] ++ [Byte.x41])
  = ([Byte.x41], Ok Frame.Ping).
Proof.
  refine (proj2 (frame_round_trip Frame.Ping
    [Byte.x00; Byte.x00; Byte.x00; Byte.x01; Byte.x0c] [Byte.x41] eq_refl _)).
  vm_compute. discriminate.
Defined.

Lemma decoder_chunking_irrelevant_witness :
  push decoder_new ProtoDemo.wire = (decoder_new, Ok [Frame.Ping; Frame.Pong]).
Proof.
  exact (decoder_chunking_irrelevant decoder_new ProtoDemo.chunks decoder_new
    (Ok [Frame.Ping; Frame.Pong]) ProtoDemo.no_panic ltac:(discriminate) eq_refl).
Defined.

Lemma decoder_recovers_stream_witness :
  push_all decoder_new ProtoDemo.chunks = (decoder_new, Ok [Frame.Ping; Frame.Pong]).
Proof.
  refine (proj1 (decoder_recovers_stream [Frame.Ping; Frame.Pong] ProtoDemo.wire ProtoDemo.chunks
    ProtoDemo.no_panic _ eq_refl eq_refl _)); [|discriminate].
  repeat constructor; apply ProtoDemo.fits; auto.
Defined.

Lemma decoder_error_is_final_witness :
  snd (push decoder_new (take 5 ProtoDemo.wire ++ [Byte.x00; Byte.x00; Byte.x00; Byte.x00]))
  = Err (CodecError.Decode "malformed").
Proof.
  refine (proj2 (decoder_error_is_final decoder_new [] decoder_new
    (CodecError.Decode "malformed") [] Frame.Ping (take 5 ProtoDemo.wire)
    [Byte.x00; Byte.x00; Byte.x00; Byte.x00]) eq_refl _ eq_refl).
  vm_compute. discriminate.
Defined.
