(* ===== verification/Digest.v ===== *)
(** * SHA-256 digests

    The [sha2] crate is a dependency: a function to 32 bytes.  [hex::encode] is
    written out. *)

From S2P Require Import Prelude.

Class Sha256 : Type := { sha256 : string → list Z }.

Class Sha256Ok (H : Sha256) : Prop := {
  sha256_length x : length (sha256 x) = 32%nat;
  sha256_bytes x : Forall (λ b, 0 ≤ b < 256) (sha256 x) }.

Definition hex_digit (d : Z) : ascii :=
  Ascii.ascii_of_N (Z.to_N (if d <? 10 then 48 + d else 87 + d)).

Fixpoint hex_encode (l : list Z) : string :=
  match l with
  | [] => ""
  | b :: l' => String (hex_digit (b / 16)) (String (hex_digit (b mod 16)) (hex_encode l'))
  end.

Definition sha256_hex {H : Sha256} (x : string) : string := hex_encode (sha256 x).

Lemma hex_encode_length l : String.length (hex_encode l) = (2 * length l)%nat.
Proof. induction l; simpl; lia. Qed.

Lemma sha256_hex_length {H : Sha256} {HO : Sha256Ok H} x :
  String.length (sha256_hex x) = 64%nat.
Proof. unfold sha256_hex. by rewrite hex_encode_length, sha256_length. Qed.

(** A function with the shape of a digest, for the witnesses: the first two
    bytes depend on the length and the first character. *)
Module ToyDigest.
Definition first_byte (x : string) : Z :=
  match x with EmptyString => 0 | String a _ => Z.of_N (byte_of a) mod 256 end.
#[global] Instance digest : Sha256 :=
  {| sha256 x := (Z.of_nat (String.length x) mod 256) :: first_byte x :: repeat 0 30 |}.
#[global] Instance digest_ok : Sha256Ok digest.
Proof.
  split; intros x; simpl; [done|].
  assert (∀ z, 0 ≤ z mod 256 < 256) by (intros; apply Z.mod_pos_bound; lia).
  repeat constructor; try lia; try apply H. all: unfold first_byte; destruct x; try lia; apply H.
Qed.
End ToyDigest.
