(* ===== verification/Json.v ===== *)
(** * JSON values, hash maps and file names

    What the E2B surface uses of [serde_json::Value] (request bodies are looked up
    by key, answers are built with [json!]), of the iteration order of a
    [HashMap], of string slices and of [Path]. *)

From S2P Require Import Prelude.
From Stdlib Require Import SpecFloat.

(** ** [serde_json::Value] *)

Inductive Json : Type :=
| JNull
| JBool (b : bool)
| JNum (z : Z)
| JFloat (f : spec_float)
| JStr (s : string)
| JArr (l : list Json)
| JObj (fields : list (string * Json)).

(** [Value::get] with a key, and the accessors [as_str], [as_bool], [as_u64] and
    [as_array]. *)
Fixpoint lookup_field (key : string) (l : list (string * Json)) : option Json :=
  match l with
  | [] => None
  | (k, v) :: l' => if String.eqb k key then Some v else lookup_field key l'
  end.

Definition jget (key : string) (v : Json) : option Json :=
  match v with JObj l => lookup_field key l | _ => None end.
Definition as_str (v : Json) : option string := match v with JStr s => Some s | _ => None end.
Definition as_bool (v : Json) : option bool := match v with JBool b => Some b | _ => None end.
Definition as_u64 (v : Json) : option Z :=
  match v with JNum z => if (0 <=? z) && (z <=? u64_max) then Some z else None | _ => None end.
Definition as_array (v : Json) : option (list Json) := match v with JArr l => Some l | _ => None end.

Definition get_str (key : string) (v : Json) : option string := jget key v ≫= as_str.
Definition jopt {A} (f : A → Json) (o : option A) : Json :=
  match o with Some a => f a | None => JNull end.
Definition jstrs (l : list string) : Json := JArr (JStr <$> l).
Definition jmap (m : list (string * string)) : Json := JObj ((λ '(k, v), (k, JStr v)) <$> m).

(** What [serde_json] reads back as it was written: its parser enters at most 127 nested
    arrays and objects (its documented recursion limit is 128) and, without the feature
    [float_roundtrip], may be off in the last digit of a float; an integer outside of
    [i64] and [u64] would come back as a float; a map's keys ascend and do not repeat.
    [reads_back n v]: so for the value [v] below [n] others. *)
Fixpoint nesting (v : Json) : nat :=
  match v with
  | JArr l => S (List.fold_right (λ x n, Nat.max (nesting x) n) 0 l)
  | JObj l => S (List.fold_right (λ '(_, x) n, Nat.max (nesting x) n) 0 l)
  | _ => 0
  end%nat.

Fixpoint ascending (l : list string) : bool :=
  match l with
  | k :: (k' :: _) as l' => String.ltb k k' && ascending l'
  | _ => true
  end.

Fixpoint exact (v : Json) : bool :=
  match v with
  | JNull | JBool _ | JStr _ => true
  | JNum z => (- 2 ^ 63 <=? z) && (z <=? u64_max)
  | JFloat _ => false
  | JArr l => forallb exact l
  | JObj l => ascending l.*1 && forallb (λ '(_, x), exact x) l
  end.

Definition reads_back (n : nat) (v : Json) : bool := (n + nesting v <=? 127)%nat && exact v.

(** ** Iteration over a [HashMap]

    The order is whatever the hasher makes of the keys; every entry comes once. *)
Class HashOrder : Type := { entries {A : Type} : gmap string A → list (string * A) }.

Class HashOrderOk (HO : HashOrder) : Prop := {
  entries_perm {A} (m : gmap string A) : entries m ≡ₚ map_to_list m }.

Definition values {HO : HashOrder} {A} (m : gmap string A) : list A := (entries m).*2.

Definition key_order : HashOrder := {| entries A m := map_to_list m |}.
#[global] Instance key_order_ok : HashOrderOk key_order.
Proof. by split. Qed.

Section order.
Context {HO : HashOrder} {HOO : HashOrderOk HO}.

Lemma elem_of_entries {A} (m : gmap string A) k v : (k, v) ∈ entries m ↔ m !! k = Some v.
Proof. by rewrite entries_perm, elem_of_map_to_list. Qed.

Lemma elem_of_values {A} (m : gmap string A) v : v ∈ values m ↔ ∃ k, m !! k = Some v.
Proof.
  unfold values. rewrite list_elem_of_fmap. split.
  - intros ([k v'] & -> & Hin). exists k. by apply elem_of_entries.
  - intros (k & Hk). exists (k, v). by rewrite elem_of_entries.
Qed.

(** A search that stops at the first match finds one iff there is one. *)
Lemma find_values {A} (p : A → bool) (m : gmap string A) :
  match List.find p (values m) with
  | Some v => ∃ k, m !! k = Some v ∧ p v = true
  | None => ∀ k v, m !! k = Some v → p v = false
  end.
Proof.
  destruct (List.find p (values m)) as [v|] eqn:Hf.
  - apply List.find_some in Hf as [Hin Hp]. apply list_elem_of_In, elem_of_values in Hin as [k Hk]. eauto.
  - intros k v Hk. eapply List.find_none in Hf; [done|]. apply list_elem_of_In, elem_of_values. eauto.
Qed.

Lemma existsb_values {A} (p : A → bool) (m : gmap string A) :
  existsb p (values m) = true ↔ ∃ k v, m !! k = Some v ∧ p v = true.
Proof.
  rewrite existsb_exists. split.
  - intros (v & Hin & Hp). apply list_elem_of_In, elem_of_values in Hin as [k Hk]. eauto.
  - intros (k & v & Hk & Hp). exists v. split; [|done]. apply list_elem_of_In, elem_of_values. eauto.
Qed.
End order.

(** ** Slices

    [&s[..n]] and [&s[n..]] panic unless [n] is on a character boundary. *)
Definition is_char_boundary (n : nat) (s : string) : bool :=
  match String.get n s with
  | None => Nat.eqb n (String.length s)
  | Some a => negb ((128 <=? byte_of a) && (byte_of a <? 192))%N
  end.
Definition slice_to {E} (n : nat) (s : string) : res E string :=
  if is_char_boundary n s then Ok (String.substring 0 n s) else Panic.
Definition slice_from {E} (n : nat) (s : string) : res E string :=
  if is_char_boundary n s then Ok (String.substring n (String.length s - n) s) else Panic.

(** ** File names: [Path::with_extension] and [Path::parent] of a path whose last
    component is a plain name *)

Definition rsplit_once (c : ascii) (s : string) : option (string * string) :=
  match rev (split c s) with
  | last :: x :: rest => Some (join (String c "") (rev (x :: rest)), last)
  | _ => None
  end.

Definition file_stem (name : string) : string :=
  match rsplit_once "." name with
  | Some (stem, _) => if is_empty stem then name else stem
  | None => name
  end.

Definition with_extension (path ext : string) : string :=
  match rsplit_once "/" path with
  | Some (dir, name) => dir +:+ "/" +:+ file_stem name +:+ "." +:+ ext
  | None => file_stem path +:+ "." +:+ ext
  end.

Definition parent (path : string) : option string :=
  match rsplit_once "/" path with
  | Some (dir, _) => Some (if is_empty dir then "/" else dir)
  | None => if is_empty path then None else Some ""
  end.

(** [path.rsplit('/').next().unwrap_or_default()]. *)
Definition last_component (path : string) : string := default "" (last (split "/" path)).

Example with_extension_ex : with_extension "/data/e2b/state.json" "tmp-7" = "/data/e2b/state.tmp-7".
Proof. reflexivity. Qed.
Example parent_ex : parent "/data/state.json" = Some "/data" ∧ parent "x.json" = Some ""
  ∧ parent "/x" = Some "/".
Proof. by split_and!. Qed.
