(* ===== verification/AuditLog.v ===== *)
(** * The audit log ([crates/clouisle-audit])

    The hash chain ([chain.rs]) and the sink that signs its head ([sink.rs]).
    SHA-256 is the class of [Digest]; the RFC 3339 rendering of a time stamp,
    the JSON payload with its rendering, and the Ed25519 signature are the fields
    of the class [AuditEnv]. *)

From S2P Require Import Prelude Core Digest.

Class AuditEnv : Type := {
  to_rfc3339 : Z → string;
  json : Type;
  json_to_string : json → string;
  signing_key : Type;
  ed25519_sign : signing_key → string → string }.

(** [u64::to_le_bytes]. *)
Fixpoint le_bytes (n : nat) (z : Z) : string :=
  match n with
  | O => ""
  | S n' => String (Ascii.ascii_of_N (Z.to_N (z mod 256))) (le_bytes n' (z / 256))
  end.

Section audit.
Context {H : Sha256} {A : AuditEnv}.

Record AuditEvent : Type := audit_event {
  seq : Z;
  timestamp : Z;
  node_id : string;
  sandbox_id : option string;
  source : string;
  event_type : string;
  payload : json;
  trust_level : string }.

Record ChainEntry : Type := chain_entry {
  event : AuditEvent;
  hash : string;
  prev_hash : string }.

(** What the event contributes to the hash, field after field. *)
Definition event_bytes (e : AuditEvent) : string :=
  le_bytes 8 (seq e) +:+ to_rfc3339 (timestamp e) +:+ node_id e
  +:+ match sandbox_id e with Some sid => sid | None => "" end
  +:+ source e +:+ event_type e +:+ json_to_string (payload e) +:+ trust_level e.

Definition compute_hash (e : AuditEvent) (prev : string) : string :=
  sha256_hex (prev +:+ event_bytes e).

(** The hash of the last entry, empty for an empty chain. *)
Definition last_hash (l : list ChainEntry) : string :=
  match last l with Some e => hash e | None => "" end.

Definition next_entry (l : list ChainEntry) (e : AuditEvent) : ChainEntry :=
  chain_entry e (compute_hash e (last_hash l)) (last_hash l).

(** ** [HashChain] *)

Definition HashChain : Type := list ChainEntry.
Definition chain_new : HashChain := [].

Definition append (c : HashChain) (e : AuditEvent) : HashChain * string :=
  let entry := next_entry c e in (c ++ [entry], hash entry).

(** The loop of [verify]: the expected previous hash is that of the entry
    before; an entry can be reported twice. *)
Fixpoint broken_entries (expected_prev : string) (l : list ChainEntry) : list ChainEntry :=
  match l with
  | [] => []
  | e :: l' =>
    (if String.eqb (prev_hash e) expected_prev then [] else [e])
    ++ (if String.eqb (hash e) (compute_hash (event e) (prev_hash e)) then [] else [e])
    ++ broken_entries (hash e) l'
  end.

Definition chain_verify (c : HashChain) : res (list ChainEntry) () :=
  match broken_entries "" c with [] => Ok () | broken => Err broken end.

(** ** [AuditSink] *)

Inductive AuditError : Type :=
| Db (message : string) | Crypto (message : string) | ChainBroken (seq : Z) | Io (message : string).

Record AuditSink : Type := sink { events : list ChainEntry; signer : option signing_key }.

Definition sink_new : AuditSink := sink [] None.
Definition with_signer (k : signing_key) : AuditSink := sink [] (Some k).

Definition emit (s : AuditSink) (e : AuditEvent) : AuditSink * res AuditError string :=
  let entry := next_entry (events s) e in
  (sink (events s ++ [entry]) (signer s), Ok (hash entry)).

Definition head_hash (s : AuditSink) : option string := hash <$> last (events s).

Definition sign_head (s : AuditSink) : res AuditError string :=
  match signer s, last (events s) with
  | Some k, Some entry => Ok (ed25519_sign k (hash entry))
  | Some _, None => Err (Crypto "no events to sign")
  | None, _ => Err (Crypto "no signer configured")
  end.

Fixpoint verify_from (expected_prev : string) (l : list ChainEntry) : res AuditError () :=
  match l with
  | [] => Ok ()
  | e :: l' =>
    if negb (String.eqb (prev_hash e) expected_prev) then Err (ChainBroken (seq (event e)))
    else if negb (String.eqb (hash e) (compute_hash (event e) (prev_hash e)))
    then Err (ChainBroken (seq (event e)))
    else verify_from (hash e) l'
  end.

Definition sink_verify (s : AuditSink) : res AuditError () := verify_from "" (events s).
Definition count (s : AuditSink) : Z := Z.of_nat (length (events s)).
Definition reset (s : AuditSink) : AuditSink := sink [] (signer s).

(** ** Lemmas *)

(** An intact chain: each entry carries the hash of the one before and its own
    hash is right. *)
Fixpoint intact (prev : string) (l : list ChainEntry) : Prop :=
  match l with
  | [] => True
  | e :: l' => prev_hash e = prev ∧ hash e = compute_hash (event e) prev ∧ intact (hash e) l'
  end.

Lemma broken_entries_nil prev l : broken_entries prev l = [] ↔ intact prev l.
Proof.
  revert prev. induction l as [|e l IH]; intros prev; simpl; [done|].
  rewrite !app_nil, IH.
  destruct (String.eqb_spec (prev_hash e) prev) as [Hp|Hp];
    destruct (String.eqb_spec (hash e) (compute_hash (event e) (prev_hash e))) as [Hh|Hh];
    split; intros; destruct_and?; split_and?; try done; congruence.
Qed.

Lemma verify_from_ok prev l : verify_from prev l = Ok () ↔ intact prev l.
Proof.
  revert prev. induction l as [|e l IH]; intros prev; simpl; [done|].
  destruct (String.eqb_spec (prev_hash e) prev) as [Hp|Hp];
    destruct (String.eqb_spec (hash e) (compute_hash (event e) (prev_hash e))) as [Hh|Hh]; simpl;
    rewrite ?IH; split; intros; destruct_and?; split_and?; try done; congruence.
Qed.

Lemma verify_from_first_broken prev l q :
  verify_from prev l = Err (ChainBroken q) →
  ∃ e l', broken_entries prev l = e :: l' ∧ seq (event e) = q.
Proof.
  revert prev. induction l as [|e l IH]; intros prev; simpl; [done|].
  destruct (String.eqb_spec (prev_hash e) prev); simpl; [|intros [= <-]; eauto].
  destruct (String.eqb_spec (hash e) (compute_hash (event e) (prev_hash e))); simpl; [|intros [= <-]; eauto]. apply IH.
Qed.

Lemma verify_from_result prev l :
  verify_from prev l = Ok () ∨ ∃ q, verify_from prev l = Err (ChainBroken q).
Proof.
  revert prev. induction l as [|e l IH]; intros prev; simpl; [by left|].
  destruct (negb _); [eauto|]. destruct (negb _); eauto.
Qed.

Lemma intact_snoc prev l e :
  intact prev (l ++ [e]) ↔
  intact prev l ∧ prev_hash e = default prev (hash <$> last l) ∧
  hash e = compute_hash (event e) (prev_hash e).
Proof.
  revert prev. induction l as [|x l IH]; intros prev; simpl.
  - split.
    + intros (Hp & Hh & _). by rewrite Hp.
    + intros (_ & Hp & Hh). simpl in Hp. rewrite Hp in Hh. done.
  - rewrite IH. assert (default prev (hash <$> last (x :: l)) = default (hash x) (hash <$> last l))
      as -> by (rewrite last_cons; by destruct (last l)).
    tauto.
Qed.

Lemma last_hash_default l : last_hash l = default "" (hash <$> last l).
Proof. unfold last_hash. by destruct (last l). Qed.

Lemma next_entry_intact l e : intact "" l → intact "" (l ++ [next_entry l e]).
Proof.
  intros Hl. apply intact_snoc. split_and!; [done| |done]. simpl. apply last_hash_default.
Qed.

Lemma emit_intact es s :
  intact "" (events s) → intact "" (events (fold_left (λ s e, (emit s e).1) es s)).
Proof.
  revert s. induction es as [|e es IH]; intros s Hs; simpl; [done|].
  apply IH. simpl. by apply next_entry_intact.
Qed.

(** The log that emitting makes of events. *)
Definition logged (k : option signing_key) (es : list AuditEvent) : AuditSink :=
  fold_left (λ s e, (emit s e).1) es (sink [] k).

Lemma logged_snoc k es e :
  events (logged k (es ++ [e])) = events (logged k es) ++ [next_entry (events (logged k es)) e].
Proof. unfold logged. by rewrite fold_left_app. Qed.
Lemma intact_logged k l : intact "" l ↔ l = events (logged k (event <$> l)).
Proof.
  split.
  - induction l as [|e l IH] using rev_ind; [done|]. intros (Hl & Hp & Hh)%intact_snoc.
    rewrite fmap_app. cbn [fmap list_fmap]. rewrite logged_snoc, <-IH by done. f_equal. f_equal.
    unfold next_entry. rewrite last_hash_default, <-Hp, <-Hh. by destruct e.
  - intros ->. by apply emit_intact.
Qed.
End audit.

(** ** Properties *)

Section properties.
Context {H : Sha256} {A : AuditEnv}.

(** Emitting never breaks the chain.  From a sink whose log verifies, any
    number of events can be emitted and the log still verifies; each call
    returns the hash that is then the head, which [sign_head] signs when there
    is a signer. *)
Theorem audit_emit_keeps_chain s es e :
  sink_verify s = Ok () →
  sink_verify (fold_left (λ s e, (emit s e).1) es s) = Ok () ∧
  (∀ h, snd (emit s e) = Ok h →
     head_hash (emit s e).1 = Some h ∧
     ∀ k, signer s = Some k → sign_head (emit s e).1 = Ok (ed25519_sign k h)) ∧
  count (emit s e).1 = count s + 1.
Proof.
  unfold sink_verify. intros Hs%verify_from_ok. split_and!.
  - apply verify_from_ok. by apply emit_intact.
  - intros h [= <-]. unfold head_hash, sign_head. simpl. rewrite last_snoc. split; [done|].
    by intros k ->.
  - unfold count. simpl. rewrite length_app. simpl. lia.
Qed.

(** C38: Verification accepts exactly the logs that emitting makes, and the two verifiers
    agree.  [AuditSink::verify] accepts a log if and only if it is, entry by entry and
    hash by hash, the one that emitting its events in their order would make: so an entry
    with an edited hash, and one that was dropped or moved before the last, is found
    unless the hashes fit again.  [HashChain::verify] accepts the same logs, and the
    sequence number the sink reports is that of the first entry the chain reports.
    (Verification says nothing of entries cut off at the end, nor of an event that was
    replaced by another one with the same hashed bytes: [audit_tampering_undetected].) *)
Theorem audit_verification_is_exact (l : list ChainEntry) k :
  (sink_verify (sink l k) = Ok () ↔ l = events (logged k (event <$> l))) ∧
  match sink_verify (sink l k), chain_verify l with
  | Ok _, Ok _ => True
  | Err (ChainBroken q), Err (e :: _) => seq (event e) = q
  | _, _ => False
  end.
Proof.
  unfold sink_verify, chain_verify. simpl. split; [by rewrite verify_from_ok, intact_logged|].
  destruct (verify_from_result "" l) as [Hv|[q Hv]]; rewrite Hv.
  - apply verify_from_ok, broken_entries_nil in Hv. by rewrite Hv.
  - by apply verify_from_first_broken in Hv as (e & l' & -> & ?).
Qed.

(** The bytes hashed for an event do not determine it.  The fields are
    concatenated without separators and a missing sandbox id adds nothing, so,
    whatever the hash function, an entry can be replaced by one that blames
    another node and another sandbox and the log still verifies. *)
Theorem audit_tampering_undetected e0 sq ts src ty pl tr :
  ∃ e1 e2, e1 ≠ e2 ∧ node_id e1 = "node-1"%string ∧ sandbox_id e1 = Some "2"%string ∧
    node_id e2 = "node-12"%string ∧ sandbox_id e2 = None ∧
    let s1 := (emit (emit (emit sink_new e0).1 e1).1 e0).1 in
    let forged := fst (emit (fst (emit (fst (emit sink_new e0)) e2)) e0) in
    sink_verify s1 = Ok () ∧ sink_verify forged = Ok () ∧ head_hash s1 = head_hash forged ∧
    hash <$> events s1 = hash <$> events forged ∧
    event <$> events s1 = [e0; e1; e0] ∧ event <$> events forged = [e0; e2; e0] ∧
    seq e1 = sq ∧ timestamp e1 = ts ∧ source e1 = src ∧ event_type e1 = ty ∧
    payload e1 = pl ∧ trust_level e1 = tr.
Proof.
  set (e1 := audit_event sq ts "node-1" (Some "2"%string) src ty pl tr).
  set (e2 := audit_event sq ts "node-12" None src ty pl tr).
  exists e1, e2.
  split_and!; try done. cbv zeta. split_and!; try done.
  - apply verify_from_ok. apply (emit_intact [e0; e1; e0] sink_new). done.
  - apply verify_from_ok. apply (emit_intact [e0; e2; e0] sink_new). done.
Qed.
End properties.

(** *** An environment for the witnesses *)

Module AuditDemo.
#[global] Instance env : AuditEnv := {|
  to_rfc3339 := show; json := string; json_to_string := id;
  signing_key := string; ed25519_sign k m := k +:+ m |}.
Definition ev : AuditEvent := audit_event 1 0 "n" None "host" "created" ("{}"%string : json) "trusted".
End AuditDemo.

Lemma audit_emit_keeps_chain_witness :
  sink_verify (fold_left (λ s e, (emit s e).1) [AuditDemo.ev; AuditDemo.ev] sink_new) = Ok ().
Proof. exact (proj1 (audit_emit_keeps_chain sink_new _ AuditDemo.ev eq_refl)). Defined.
