(* ===== verification/Dns.v ===== *)
(** * The DNS allow-list proxy ([crates/clouisle-net/src/dns_proxy.rs])

    [DnsProxy]: the allow list, the name check, the handling of one query, and the
    loop that serves many at a time.
    Message parsing and the upstream resolver (the hickory crates) are
    arguments: a query comes parsed, and [lookup_ip] is what the resolver
    answers.  The addresses a query opens in the firewall are its output. *)

From S2P Require Import Prelude Core.

Inductive DnsError : Set := Io (message : string) | Proto (message : string).

Inductive RecordType : Set := A | AAAA | OtherType.
Inductive IpAddr : Set := V4 (text : string) | V6 (text : string).
Inductive ResponseCode : Set := NoError | NXDomain.

Record DnsQuery : Set := query {
  is_query : bool;
  questions : list (string * RecordType) }.

Record DnsResponse : Set := response {
  code : ResponseCode;
  answers : list IpAddr;
  echoed : list (string * RecordType) }.

Record DnsProxy : Type := proxy {
  allowed : gset string;
  sandbox_id : option string }.

Definition with_sandbox (domains : list string) (sid : option string) : DnsProxy :=
  proxy (list_to_set domains) sid.
Definition new (domains : list string) : DnsProxy := with_sandbox domains None.

Definition replace_allowed (p : DnsProxy) (domains : list string) : DnsProxy :=
  proxy (list_to_set domains) (sandbox_id p).

(** The body of the closure of [is_allowed]. *)
Definition entry_matches (domain entry : string) : bool :=
  let entry := trim_end_matches "." entry in
  let entry := match strip_prefix "*." entry with Some e => e | None => entry end in
  String.eqb domain entry || ends_with ("." +:+ entry) domain.

Definition is_allowed (p : DnsProxy) (domain : string) : bool :=
  let domain := to_ascii_lowercase (trim_end_matches "." domain) in
  existsb (entry_matches domain) (elements (allowed p)).

(** [allow_ip]: a proxy bound to no sandbox opens nothing. *)
Definition allow_ip (p : DnsProxy) (ip : string) : list string :=
  match sandbox_id p with Some _ => [ip] | None => [] end.

Definition ip_text (a : IpAddr) : string := match a with V4 t | V6 t => t end.
Definition is_v4 (a : IpAddr) : bool := match a with V4 _ => true | V6 _ => false end.

Definition make_response (q : DnsQuery) (c : ResponseCode) : DnsResponse :=
  response c [] (questions q).

Section forward.
(** The upstream resolver. *)
Context (lookup_ip : string → option (list IpAddr)).

(** [forward]: the answer, and the addresses opened on the way. *)
Definition forward (p : DnsProxy) (q : DnsQuery) (domain : string) (qtype : RecordType)
  : list string * DnsResponse :=
  let answer keep :=
    match lookup_ip domain with
    | Some addrs =>
      let addrs := List.filter keep addrs in
      (addrs ≫= λ a, allow_ip p (ip_text a), response NoError addrs (questions q))
    | None => ([], make_response q NXDomain)
    end in
  match qtype with
  | A => answer is_v4
  | AAAA => answer (λ a, negb (is_v4 a))
  | OtherType => ([], make_response q NoError)
  end.

(** [handle_query] on a parsed message; [None] is a message that is dropped. *)
Definition handle_query (p : DnsProxy) (q : DnsQuery) : list string * option DnsResponse :=
  if negb (is_query q) then ([], None)
  else match head (questions q) with
  | None => ([], None)
  | Some (name, qtype) =>
    let domain := to_ascii_lowercase name in
    if negb (is_allowed p domain) then ([], Some (make_response q NXDomain))
    else let '(ips, r) := forward p q domain qtype in (ips, Some r)
  end.
End forward.

(** ** The socket loop ([serve])

    Every datagram becomes a task of its own: it reads the allow list, and then, for a
    name on it, asks the resolver, opens the addresses and answers.  The list can be
    replaced at any time, also between the two.  [past] remembers the lists that have
    been in force. *)

Module DnsServer.
Inductive task : Set :=
| Received (src : string) (message : option DnsQuery)
| Forwarding (src : string) (q : DnsQuery) (domain : string) (qtype : RecordType).

Record t : Type := server {
  srv : DnsProxy;
  tasks : list task;
  opened : list string;
  sent : list (string * DnsResponse);
  past : list (gset string) }.

Definition serve (p : DnsProxy) : t := server p [] [] [] [allowed p].

(** The first half of [handle_query]: what is answered at once, and what goes on. *)
Definition check_query (p : DnsProxy) (src : string) (message : option DnsQuery)
  : list (string * DnsResponse) * list task :=
  match message with
  | None => ([], [])
  | Some q =>
    if negb (is_query q) then ([], [])
    else match head (questions q) with
    | None => ([], [])
    | Some (name, qtype) =>
      let domain := to_ascii_lowercase name in
      if negb (is_allowed p domain) then ([(src, make_response q NXDomain)], [])
      else ([], [Forwarding src q domain qtype])
    end
  end.

Section steps.
Context (lookup_ip : string → option (list IpAddr)).

Definition run (x : task) (s : t) : t :=
  match x with
  | Received src message =>
    let '(out, next) := check_query (srv s) src message in
    server (srv s) (tasks s ++ next) (opened s) (sent s ++ out) (past s)
  | Forwarding src q domain qtype =>
    let '(ips, r) := forward lookup_ip (srv s) q domain qtype in
    server (srv s) (tasks s) (opened s ++ ips) (sent s ++ [(src, r)]) (past s)
  end.

Inductive step (s : t) : t → Prop :=
| step_recv src message :
  step s (server (srv s) (tasks s ++ [Received src message]) (opened s) (sent s) (past s))
| step_run pre x post : tasks s = pre ++ x :: post →
  step s (run x (server (srv s) (pre ++ post) (opened s) (sent s) (past s)))
| step_replace domains :
  let p := replace_allowed (srv s) domains in
  step s (server p (tasks s) (opened s) (sent s) (past s ++ [allowed p])).
End steps.
End DnsServer.

(** ** Names by labels *)

(** An entry of the list, as the check reads it. *)
Definition entry_domain (entry : string) : string :=
  let e := trim_end_matches "." entry in
  match strip_prefix "*." e with Some e' => e' | None => e end.

Definition labels (d : string) : list string := split "." d.

Lemma split_inj c x y : split c x = split c y → x = y.
Proof.
  revert y. induction x as [|a x IH]; intros [|b y]; simpl; try done.
  - pose proof (split_nonempty c y). destruct (Ascii.eqb b c); [|by destruct (split c y)].
    destruct (split c y); [done|]. intros [= ].
  - pose proof (split_nonempty c x). destruct (Ascii.eqb a c); [|by destruct (split c x)].
    destruct (split c x); [done|]. intros [= ].
  - pose proof (split_nonempty c x). pose proof (split_nonempty c y).
    destruct (Ascii.eqb_spec a c) as [->|Ha], (Ascii.eqb_spec b c) as [->|Hb].
    + intros [= Heq]. f_equal. auto.
    + by destruct (split c y).
    + by destruct (split c x).
    + specialize (IH y). destruct (split c x), (split c y); try done.
      intros [= -> -> ->]. f_equal. auto.
Qed.

(** Cutting a name before one of its labels. *)
Lemma split_suffix c pre d e :
  pre ≠ [] → split c d = pre ++ split c e → ∃ p, d = p +:+ String c e.
Proof.
  revert pre. induction d as [|a d IH]; intros pre Hpre; simpl.
  - destruct pre as [|x pre]; [done|]. intros [= -> Heq]. symmetry in Heq.
    apply app_eq_nil in Heq as [_ Heq]. by apply split_nonempty in Heq.
  - destruct (Ascii.eqb_spec a c) as [->|Ha].
    + destruct pre as [|x pre]; [done|]. intros [= <- Heq].
      destruct pre as [|y pre].
      * apply split_inj in Heq as ->. by exists "".
      * destruct (IH (y :: pre)) as [p ->]; [done..|]. by exists (String c p).
    + pose proof (split_nonempty c d). destruct (split c d) as [|z l] eqn:Hd; [done|].
      destruct pre as [|x pre]; [done|]. intros [= <- Heq].
      destruct (IH (z :: pre)) as [p ->]; [done|by rewrite Heq|]. by exists (String a p).
Qed.

Lemma entry_matches_labels d entry :
  entry_matches d entry = true ↔ labels (entry_domain entry) `suffix_of` labels d.
Proof.
  unfold entry_matches. fold (entry_domain entry). generalize (entry_domain entry) as e. intros e.
  rewrite orb_true_iff, String.eqb_eq, ends_with_true. unfold labels. split.
  - intros [->|[p ->]]; [done|]. exists (split "." p).
    change ("." +:+ e)%string with (String "." e). apply split_app.
  - intros [pre Heq]. destruct pre as [|x pre].
    + left. by apply split_inj in Heq.
    + right. destruct (split_suffix "." (x :: pre) d e) as [p ->]; [done..|]. by exists p.
Qed.

Lemma is_allowed_spec p d :
  is_allowed p d = true ↔
  ∃ entry, entry ∈ allowed p ∧
    labels (entry_domain entry) `suffix_of` labels (to_ascii_lowercase (trim_end_matches "." d)).
Proof.
  unfold is_allowed. rewrite existsb_exists.
  setoid_rewrite entry_matches_labels. setoid_rewrite <-list_elem_of_In.
  by setoid_rewrite elem_of_elements.
Qed.

(** Lower-casing leaves no capital letter. *)
Definition is_upper (a : ascii) : bool := ((65 <=? byte_of a) && (byte_of a <=? 90))%N.

Fixpoint has_upper (s : string) : bool :=
  match s with EmptyString => false | String a s' => is_upper a || has_upper s' end.

Lemma lowercase_char_not_upper a : is_upper (to_ascii_lowercase_char a) = false.
Proof. by destruct a as [[] [] [] [] [] [] [] []]. Qed.

Lemma lowercase_no_upper s : has_upper (to_ascii_lowercase s) = false.
Proof. induction s; simpl; [done|]. by rewrite lowercase_char_not_upper. Qed.

Lemma has_upper_app x y : has_upper (x +:+ y) = has_upper x || has_upper y.
Proof. induction x as [|a x IH]; simpl; [done|]. by rewrite IH, orb_assoc. Qed.

Lemma upper_never_matches d entry :
  has_upper (entry_domain entry) = true → has_upper d = false → entry_matches d entry = false.
Proof.
  intros He Hd. apply not_true_is_false. unfold entry_matches. fold (entry_domain entry).
  rewrite orb_true_iff, String.eqb_eq, ends_with_true. intros [->|[p ->]]; [congruence|].
  rewrite has_upper_app in Hd. apply orb_false_iff in Hd as [_ Hd]. simpl in Hd. congruence.
Qed.

Lemma forward_opens lookup_ip p q d ty ip :
  ip ∈ (forward lookup_ip p q d ty).1 → ∃ addrs a, lookup_ip d = Some addrs ∧ a ∈ addrs ∧ ip = ip_text a.
Proof.
  unfold forward. intros Hip. destruct (lookup_ip d) as [addrs|], ty; simpl in Hip;
    try (by apply elem_of_nil in Hip);
    apply list_elem_of_bind in Hip as (a & Hin & [Ha _]%elem_of_List_filter);
    exists addrs, a; (split_and!; [done..|]); unfold allow_ip in Hin; destruct (sandbox_id p); set_solver.
Qed.

(** ** Properties *)

(** The allow list works by whole labels.  A name is allowed exactly when
    the labels of some entry (without trailing dots and a leading wildcard) are
    a suffix of its lower-cased labels, so an entry covers its domain and all
    subdomains and never a name that merely ends in the same letters. *)
Theorem dns_allow_list_by_labels p d :
  is_allowed p d = true ↔
  ∃ entry, entry ∈ allowed p ∧
    labels (entry_domain entry) `suffix_of` labels (to_ascii_lowercase (trim_end_matches "." d)).
Proof. apply is_allowed_spec. Qed.

(** A blocked name opens nothing.  The firewall is touched only for a query
    whose name is allowed, only with addresses the resolver returned for that
    very name; a query for any other name is answered [NXDOMAIN] without an
    address. *)
Theorem dns_blocked_query_opens_nothing lookup_ip p q name qtype rest :
  is_query q = true → questions q = (name, qtype) :: rest →
  let '(ips, r) := handle_query lookup_ip p q in
  (is_allowed p (to_ascii_lowercase name) = false →
     ips = [] ∧ r = Some (make_response q NXDomain)) ∧
  (∀ ip, ip ∈ ips → is_allowed p (to_ascii_lowercase name) = true ∧
     ∃ addrs a, lookup_ip (to_ascii_lowercase name) = Some addrs ∧ a ∈ addrs ∧ ip = ip_text a).
Proof.
  intros Hq Hqs. unfold handle_query. rewrite Hq, Hqs. simpl.
  destruct (is_allowed p (to_ascii_lowercase name)) eqn:Hal; simpl.
  2: { split; [done|]. intros ip Hip. by apply elem_of_nil in Hip. }
  destruct (forward _ _ _ _ _) as [ips r] eqn:Hf. split; [done|]. intros ip Hip. split; [done|].
  apply (forward_opens lookup_ip p q _ qtype). by rewrite Hf.
Qed.

(** An entry with a capital letter matches no name at all, since the queried
    name is lower-cased and the entry is not. *)
Theorem dns_uppercase_entry_is_dead p d entry :
  has_upper (entry_domain entry) = true →
  is_allowed (proxy ({[entry]} ∪ allowed p) (sandbox_id p)) d = is_allowed p d.
Proof.
  intros Hu. apply eq_true_iff_eq. rewrite !is_allowed_spec. simpl. split.
  - intros (e & [->%elem_of_singleton|He]%elem_of_union & Hs); [|eauto].
    apply entry_matches_labels in Hs. rewrite upper_never_matches in Hs; [done|done|].
    apply lowercase_no_upper.
  - intros (e & He & Hs). exists e. split; [set_solver|done].
Qed.

(** Two halves that nothing comes between are [handle_query]. *)
Lemma halves_are_handle_query lookup_ip p src q :
  handle_query lookup_ip p q =
  match DnsServer.check_query p src (Some q) with
  | (out, [DnsServer.Forwarding _ q' d ty]) => let '(ips, r) := forward lookup_ip p q' d ty in (ips, Some r)
  | (out, _) => ([], snd <$> head out)
  end.
Proof.
  unfold handle_query, DnsServer.check_query. destruct (negb (is_query q)); [done|].
  destruct (head (questions q)) as [[name ty]|]; [|done]. by destruct (negb _).
Qed.

(** A name some list that has been in force allowed. *)
Definition was_allowed (s : DnsServer.t) (domain : string) : Prop :=
  ∃ l, l ∈ DnsServer.past s ∧ is_allowed (proxy l (sandbox_id (DnsServer.srv s))) domain = true.

Record served_inv (lookup_ip : string → option (list IpAddr)) (s : DnsServer.t) : Prop := {
  si_list : allowed (DnsServer.srv s) ∈ DnsServer.past s;
  si_tasks : Forall (λ x, match x with DnsServer.Forwarding _ _ d _ => was_allowed s d | _ => True end)
    (DnsServer.tasks s);
  si_opened ip : ip ∈ DnsServer.opened s →
    ∃ d addrs a, was_allowed s d ∧ lookup_ip d = Some addrs ∧ a ∈ addrs ∧ ip = ip_text a }.

Lemma served_inv_step lookup_ip s s' :
  served_inv lookup_ip s → DnsServer.step lookup_ip s s' → served_inv lookup_ip s'.
Proof.
  intros [Hl Ht Ho] Hs. destruct Hs as [src message|pre x post Hx|domains].
  - split; [done| |exact Ho]. simpl. apply Forall_app. split; [exact Ht|by repeat constructor].
  - rewrite Hx in Ht. apply Forall_app in Ht as [Hpre [Hxt Hpost]%Forall_cons].
    assert (Forall (λ x, match x with DnsServer.Forwarding _ _ d _ => was_allowed s d | _ => True end)
      (pre ++ post)) as Hrest by (by apply Forall_app).
    destruct x as [src [q|]|src q d ty]; simpl.
    + destruct (negb (is_query q)); [split; [done|by rewrite app_nil_r|exact Ho]|].
      destruct (head (questions q)) as [[name ty]|]; [|split; [done|by rewrite app_nil_r|exact Ho]].
      destruct (is_allowed (DnsServer.srv s) (to_ascii_lowercase name)) eqn:Ha; simpl;
        (split; [done| |exact Ho]); simpl; apply Forall_app; (split; [exact Hrest|]); repeat constructor.
      exists (allowed (DnsServer.srv s)). split; [exact Hl|]. by destruct (DnsServer.srv s).
    + split; [done|by rewrite app_nil_r|exact Ho].
    + destruct (forward lookup_ip (DnsServer.srv s) q d ty) as [ips r] eqn:Hf.
      split; [done|exact Hrest|]. simpl. intros ip [Hip|Hip]%elem_of_app; [by apply Ho|].
      exists d. destruct (forward_opens lookup_ip (DnsServer.srv s) q d ty ip) as (addrs & a & ? & ? & ?);
        [by rewrite Hf|]. exists addrs, a. by split_and!.
  - assert (∀ d, was_allowed s d → was_allowed (DnsServer.server (replace_allowed (DnsServer.srv s) domains)
      (DnsServer.tasks s) (DnsServer.opened s) (DnsServer.sent s)
      (DnsServer.past s ++ [allowed (replace_allowed (DnsServer.srv s) domains)])) d) as Hmono.
    { intros d (l & Hin & Ha). exists l. split; [|done]. apply elem_of_app. by left. }
    split; [apply elem_of_app; right; set_solver| |].
    + eapply Forall_impl; [exact Ht|]. intros [] Hw; [done|by apply Hmono].
    + intros ip Hip. destruct (Ho ip Hip) as (d & addrs & a & Hw & Hr). exists d, addrs, a.
      split; [by apply Hmono|done].
Qed.

(** However queries, their tasks and replacements of the list interleave, the proxy opens an
    address only if the resolver gave it for a name that a list in force had allowed. *)
Theorem dns_server_opens_allowed_only lookup_ip p s ip :
  star (DnsServer.step lookup_ip) (DnsServer.serve p) s → ip ∈ DnsServer.opened s →
  ∃ d addrs a, was_allowed s d ∧ lookup_ip d = Some addrs ∧ a ∈ addrs ∧ ip = ip_text a.
Proof.
  intros Hs. apply (star_invariant (DnsServer.step lookup_ip) (served_inv lookup_ip)) in Hs as [_ _ Ho].
  - apply Ho.
  - intros. by eapply served_inv_step.
  - split; [by apply list_elem_of_singleton|constructor|]. intros i Hi. by apply elem_of_nil in Hi.
Qed.

Lemma dns_blocked_query_opens_nothing_witness :
  let p := with_sandbox ["example.com"] (Some "s"%string) in
  let q := query true [("api.example.com."%string, A)] in
  (handle_query (λ _, Some [V4 "93.184.216.34"]) p q).1 = ["93.184.216.34"%string] ∧
  is_allowed p "api.example.com." = true.
Proof.
  intros p q. split; [reflexivity|].
  refine (proj1 (proj2 (dns_blocked_query_opens_nothing (λ _, Some [V4 "93.184.216.34"]) p q
    "api.example.com." A [] eq_refl eq_refl) "93.184.216.34"%string _)).
  simpl. set_solver.
Defined.

Lemma dns_uppercase_entry_is_dead_witness :
  is_allowed (proxy ({["Example.com"%string]} ∪ ∅) None) "Example.com" = false.
Proof.
  exact (dns_uppercase_entry_is_dead (proxy ∅ None) "Example.com" "Example.com" eq_refl).
Defined.
