(* ===== verification/Net.v ===== *)
(** * Sandbox networks ([crates/clouisle-net/src/{netns,nftables,firewall}.rs])

    Names and subnets derived from a sandbox id, the commands that build and
    tear down its network namespace, the nftables policy of its host interface,
    and the [FirewallManager] that keeps the DNS proxies.

    Running a program is the class [Os].  What the kernel makes of the rule set is not
    modelled: the theorems are about the text that is handed to [nft]. *)

From S2P Require Import Prelude Core Digest Dns.
From Stdlib Require Import DecimalString.

(** ** Programs *)

(** How a child process ends: it could not be spawned, or it exited. *)
Inductive exit : Set :=
| SpawnFailed (message : string)
| Exited (success : bool) (stdout stderr : string).

Class Os : Type := {
  os_world : Type;
  (** program, arguments, standard input *)
  exec : string → list string → string → os_world → os_world * exit }.

Section net.
Context {OS : Os} {H : Sha256}.

Definition cmd (A : Type) : Type := stres os_world ClouisleError.t A.

Definition run (c : string) (args : list string) : cmd string := λ w,
  match exec c args "" w with
  | (w', SpawnFailed e) => (w', Err (ClouisleError.io ("run " +:+ c +:+ ": " +:+ e)))
  | (w', Exited true out _) => (w', Ok out)
  | (w', Exited false _ err) =>
    (w', Err (ClouisleError.mk ErrorKind.Network
       (c +:+ " " +:+ join " " args +:+ " failed: " +:+ err)))
  end.

Definition run_in_ns (ns : string) (args : list string) : cmd string :=
  run "ip" (["netns"; "exec"; ns; "ip"]%string ++ args).
Definition run_sysctl_in_ns (ns : string) (args : list string) : cmd string :=
  run "ip" (["netns"; "exec"; ns; "sysctl"]%string ++ args).
Definition run_nft_in_ns (ns : string) (args : list string) : cmd string :=
  run "ip" (["netns"; "exec"; ns; "nft"]%string ++ args).
Definition run_tc_in_ns (ns : string) (args : list string) : cmd string :=
  run "ip" (["netns"; "exec"; ns; "tc"]%string ++ args).

(** ** [netns.rs] *)

Definition short_name (sandbox_id prefix : string) : string :=
  prefix +:+ String.substring 0 8 (sha256_hex sandbox_id).
Definition ns_name (sandbox_id : string) : string := "clo-" +:+ short_name sandbox_id "".

(** [digest[i]]: the digest has 32 bytes. *)
Definition digest_byte (sandbox_id : string) (i : nat) : Z := nth i (sha256 sandbox_id) 0.

Definition sandbox_subnet (sandbox_id : string) : Z * Z :=
  (10 + digest_byte sandbox_id 0 mod 200, 10 + digest_byte sandbox_id 1 mod 200).

Record NetInfo : Set := net_info {
  info_ns_name : string;
  veth_host : string;
  veth_ns : string;
  info_subnet : string;
  gateway : string;
  info_guest_ip : string }.

Definition dotted (ab : Z * Z) (tail : string) : string :=
  "10." +:+ show ab.1 +:+ "." +:+ show ab.2 +:+ tail.

Definition subnet_of (sandbox_id : string) (explicit : option (Z * Z)) : Z * Z :=
  match explicit with Some ab => ab | None => sandbox_subnet sandbox_id end.

Definition make_info (sandbox_id : string) (explicit : option (Z * Z)) : NetInfo :=
  let ab := subnet_of sandbox_id explicit in
  net_info (ns_name sandbox_id) (short_name sandbox_id "vh") (short_name sandbox_id "vn")
    (dotted ab ".0/30") (dotted ab ".1") (dotted ab ".2").

Definition create_netns_in_subnet (sandbox_id : string) (explicit : option (Z * Z))
  : cmd NetInfo :=
  let info := make_info sandbox_id explicit in
  let ns := info_ns_name info in
  _ ← run "ip" ["netns"; "add"; ns]%string;
  _ ← run "ip" ["link"; "add"; veth_host info; "type"; "veth"; "peer"; "name"; veth_ns info]%string;
  _ ← run "ip" ["link"; "set"; veth_ns info; "netns"; ns]%string;
  _ ← run_in_ns ns ["link"; "add"; "br0"; "type"; "bridge"]%string;
  _ ← run_in_ns ns ["link"; "set"; veth_ns info; "master"; "br0"]%string;
  _ ← run_in_ns ns ["link"; "set"; veth_ns info; "up"]%string;
  _ ← run_in_ns ns ["addr"; "add"; gateway info +:+ "/30"; "dev"; "br0"]%string;
  _ ← run_in_ns ns ["link"; "set"; "br0"; "up"]%string;
  _ ← run_sysctl_in_ns ns ["-w"; "net.ipv4.ip_forward=1"]%string;
  _ ← run "ip" ["addr"; "add"; gateway info +:+ "/30"; "dev"; veth_host info]%string;
  _ ← run "ip" ["link"; "set"; veth_host info; "up"]%string;
  _ ← run "ip" ["route"; "replace"; info_subnet info; "dev"; veth_host info]%string;
  mret info.

Definition create_netns (sandbox_id : string) : cmd NetInfo :=
  create_netns_in_subnet sandbox_id None.

(** The polling loop of [attach_tap]: thirty attempts. *)
Fixpoint attach_tap_loop (n : nat) (ns : string) : cmd () :=
  match n with
  | O => fail (ClouisleError.io
      ("tap0 did not appear in netns " +:+ ns +:+ " after Firecracker start"))
  | S n' =>
    r ← attempt (run_in_ns ns ["link"; "show"; "tap0"]%string);
    match r with
    | Ok _ =>
      _ ← run_in_ns ns ["link"; "set"; "tap0"; "master"; "br0"]%string;
      _ ← run_in_ns ns ["link"; "set"; "tap0"; "up"]%string;
      mret ()
    | _ => attach_tap_loop n' ns
    end
  end.
Definition attach_tap (sandbox_id : string) : cmd () := attach_tap_loop 30 (ns_name sandbox_id).

(** [let _ = run(..)]. *)
Definition ignore {A} (c : cmd A) : cmd () := _ ← attempt (F := ClouisleError.t) c; mret ().

Definition delete_netns (sandbox_id : string) (explicit : option (Z * Z)) : cmd () :=
  let info := make_info sandbox_id explicit in
  _ ← ignore (run "ip" ["route"; "del"; info_subnet info; "dev"; veth_host info]%string);
  _ ← ignore (run "ip" ["netns"; "del"; info_ns_name info]%string);
  _ ← ignore (run "ip" ["link"; "del"; veth_host info]%string);
  mret ().

Definition apply_bandwidth_limit (sandbox_id : string) (mbps : option Z) : cmd () :=
  match mbps with
  | None => mret ()
  | Some rate =>
    if rate <=? 0 then mret ()
    else
      let ns := ns_name sandbox_id in
      let vn := short_name sandbox_id "vn" in
      _ ← ignore (run_tc_in_ns ns ["qdisc"; "del"; "dev"; vn; "root"]%string);
      let burst_kbit := Z.max 32 (saturating_mul u32_max rate 8) in
      _ ← run_tc_in_ns ns ["qdisc"; "add"; "dev"; vn; "root"; "handle"; "1:"; "tbf"; "rate";
            show rate +:+ "mbit"; "burst"; show burst_kbit +:+ "kbit"; "latency"; "50ms"]%string;
      mret ()
  end.

Definition guest_ip (sandbox_id : string) : string := dotted (sandbox_subnet sandbox_id) ".2".
Definition gateway_ip (sandbox_id : string) : string := dotted (sandbox_subnet sandbox_id) ".1".
Definition subnet (sandbox_id : string) : string := dotted (sandbox_subnet sandbox_id) ".0/30".

(** *** [SubnetAllocator] *)

Definition allocator_new : Z * Z := (10, 10).
Definition allocate (next : Z * Z) : (Z * Z) * (Z * Z) :=
  let '(a, b) := next in
  let b := b + 1 in
  let '(a, b) := if 200 <? b then (a + 1, 10) else (a, b) in
  let a := if 200 <? a then 10 else a in
  ((a, b), next).

(** ** [nftables.rs] *)

(** [str::parse::<Ipv4Addr>]: four decimal octets without leading zeros. *)
Definition digit (a : ascii) : option Z :=
  let b := Z.of_N (byte_of a) in
  if (48 <=? b) && (b <=? 57) then Some (b - 48) else None.

Definition parse_octet (s : string) : option Z :=
  match s with
  | String a "" => digit a
  | String a (String b "") =>
    x ← digit a; y ← digit b; if x =? 0 then None else Some (10 * x + y)
  | String a (String b (String c "")) =>
    x ← digit a; y ← digit b; z ← digit c;
    let n := 100 * x + 10 * y + z in
    if (x =? 0) || (255 <? n) then None else Some n
  | _ => None
  end.

Definition parse_ipv4 (s : string) : option Z :=
  match split "." s with
  | [a; b; c; d] =>
    w ← parse_octet a; x ← parse_octet b; y ← parse_octet c; z ← parse_octet d;
    Some (w * 16777216 + x * 65536 + y * 256 + z)
  | _ => None
  end.

(** [is_valid_ipv4_cidr], with the network it denotes. *)
Definition parse_cidr (rule : string) : option (Z * Z) :=
  let '(address, prefix) :=
    match split_once "/" rule with Some (a, p) => (a, Some p) | None => (rule, None) end in
  ip ← parse_ipv4 address;
  match prefix with
  | None => Some (ip, 32)
  | Some value =>
    bits ← parse_unsigned u8_max value;
    if bits <=? 32 then Some (ip, bits) else None
  end.
Definition is_valid_ipv4_cidr (rule : string) : bool := bool_decide (is_Some (parse_cidr rule)).

Definition host_table_name (sandbox_id : string) : string := "clo_" +:+ short_name sandbox_id "".

Definition NL : string := String "010" "".
Definition Q : string := String "034" "".

Definition rule_line (veth cond verdict : string) : string :=
  "        iifname " +:+ Q +:+ veth +:+ Q +:+ cond +:+ " " +:+ verdict +:+ NL.

(** The deny loop of [setup_host_egress_with_policy]: the first bad rule ends
    it. *)
Fixpoint deny_lines (veth : string) (deny : list string) : result string :=
  match deny with
  | [] => Ok ""
  | rule :: deny' =>
    if negb (is_valid_ipv4_cidr rule) then
      Err (ClouisleError.validation
        ("deny egress rule is not a valid IPv4 address or CIDR: " +:+ rule))
    else
      rest ← deny_lines veth deny';
      Ok (rule_line veth (" ip daddr " +:+ rule) "drop" +:+ rest)
  end.

Fixpoint allow_lines (veth : string) (allow : list string) : string :=
  match allow with
  | [] => ""
  | rule :: allow' =>
    if is_valid_ipv4_cidr rule
    then rule_line veth (" ip daddr " +:+ rule) "accept" +:+ allow_lines veth allow'
    else allow_lines veth allow'
  end.

Definition host_ruleset (table veth deny_rules allow_rules : string) : string :=
  NL +:+ "table ip " +:+ table +:+ " {" +:+ NL
  +:+ "    chain egress {" +:+ NL
  +:+ "        type filter hook forward priority -1; policy accept;" +:+ NL
  +:+ rule_line veth " ip daddr 10.0.0.0/8" "accept"
  +:+ rule_line veth " ip daddr 127.0.0.0/8" "accept"
  +:+ rule_line veth " ct state established,related" "accept"
  +:+ deny_rules +:+ allow_rules
  +:+ rule_line veth "" "drop"
  +:+ "    }" +:+ NL +:+ "}" +:+ NL.

Definition load_host_ruleset (ruleset : string) : cmd () := λ w,
  match exec "nft" ["-f"; "-"]%string ruleset w with
  | (w', SpawnFailed e) => (w', Err (ClouisleError.io ("spawn host nft: " +:+ e)))
  | (w', Exited true _ _) => (w', Ok ())
  | (w', Exited false _ err) =>
    (w', Err (ClouisleError.mk ErrorKind.Network ("host nft ruleset apply failed: " +:+ err)))
  end.

Definition setup_host_egress_with_policy (sandbox_id : string) (allow deny : list string)
  : cmd () :=
  let table := host_table_name sandbox_id in
  let veth := short_name sandbox_id "vh" in
  let allow_rules := allow_lines veth allow in
  deny_rules ← lift (deny_lines veth deny);
  load_host_ruleset (host_ruleset table veth deny_rules allow_rules).

Definition allow_ip_host (sandbox_id ip : string) : cmd () := λ w,
  let table := host_table_name sandbox_id in
  let veth := short_name sandbox_id "vh" in
  match exec "nft" ["insert"; "rule"; "ip"; table; "egress"; "iifname"; veth; "ip"; "daddr"; ip;
                    "accept"]%string "" w with
  | (w', SpawnFailed e) =>
    (w', Err (ClouisleError.io ("spawn host nft allow " +:+ ip +:+ ": " +:+ e)))
  | (w', Exited true _ _) => (w', Ok ())
  | (w', Exited false _ _) =>
    (w', Err (ClouisleError.mk ErrorKind.Network ("host nft allow " +:+ ip +:+ " failed")))
  end.

(** The exit status is ignored, a failure to spawn is not. *)
Definition teardown_host_egress (sandbox_id : string) : cmd () := λ w,
  let table := host_table_name sandbox_id in
  match exec "nft" ["delete"; "table"; "ip"; table]%string "" w with
  | (w', SpawnFailed e) =>
    (w', Err (ClouisleError.io ("delete host nft table " +:+ table +:+ ": " +:+ e)))
  | (w', Exited _ _ _) => (w', Ok ())
  end.

Definition ns_ruleset (vn : string) : string :=
  join NL
   [""; "table ip filter {"; "    chain forward {";
    "        type filter hook forward priority 0; policy drop;";
    "        ip daddr 10.0.0.0/8 accept"; "        ip daddr 127.0.0.0/8 accept";
    "        tcp dport 5201 accept"; "        udp dport 53 accept";
    "        ct state established,related accept"; "        counter drop"; "    }";
    "    chain input {"; "        type filter hook input priority 0; policy drop;";
    "        iif " +:+ Q +:+ "lo" +:+ Q +:+ " accept";
    "        iif " +:+ Q +:+ "br0" +:+ Q +:+ " accept";
    "        iif " +:+ Q +:+ "tap0" +:+ Q +:+ " udp dport 53 accept";
    "        udp dport 53 accept"; "        ct state established,related accept"; "    }";
    "    chain postrouting {"; "        type nat hook postrouting priority 100; policy accept;";
    "        oif " +:+ Q +:+ "br0" +:+ Q +:+ " masquerade";
    "        oif " +:+ Q +:+ vn +:+ Q +:+ " masquerade"; "    }"; "}"; ""]%string.

Definition setup_ruleset (ns vn : string) : cmd () := λ w,
  match exec "ip" ["netns"; "exec"; ns; "nft"; "-f"; "-"]%string (ns_ruleset vn) w with
  | (w', SpawnFailed e) => (w', Err (ClouisleError.io ("spawn nft in ns: " +:+ e)))
  | (w', Exited true _ _) => (w', Ok ())
  | (w', Exited false _ err) =>
    (w', Err (ClouisleError.mk ErrorKind.Network
       ("nft ruleset apply in ns " +:+ ns +:+ " failed: " +:+ err)))
  end.

Definition allow_ip (ns ip : string) : cmd () :=
  _ ← run_nft_in_ns ns ["add"; "rule"; "ip"; "filter"; "forward"; "iif"; "tap0"; "ip"; "daddr";
                        ip; "accept"]%string;
  mret ().

Definition teardown_ruleset (ns : string) : cmd () :=
  ignore (run_nft_in_ns ns ["delete"; "table"; "ip"; "filter"]%string).

(** ** [firewall.rs] *)

Record FirewallManager : Type := firewall {
  nets : gset string;
  dns_proxies : gmap string DnsProxy }.
Definition manager_new : FirewallManager := firewall ∅ ∅.

Definition fw (A : Type) : Type := stres (FirewallManager * os_world) ClouisleError.t A.

(** A command leaves the manager's maps alone. *)
Definition sys {A} (c : cmd A) : fw A := λ '(m, w), let '(w', r) := c w in ((m, w'), r).

Definition create_network_in_subnet (sandbox_id : string) (sub : option (Z * Z))
  : fw (string * string * string) :=
  info ← sys (create_netns_in_subnet sandbox_id sub);
  mret (info_ns_name info, veth_ns info, info_guest_ip info).

Definition set_proxy (sandbox_id : string) (p : DnsProxy) (s : FirewallManager * os_world)
  : FirewallManager * os_world :=
  (firewall (nets s.1) (<[sandbox_id := p]> (dns_proxies s.1)), s.2).
Definition drop_proxy (sandbox_id : string) (s : FirewallManager * os_world)
  : FirewallManager * os_world :=
  (firewall (nets s.1) (delete sandbox_id (dns_proxies s.1)), s.2).
Definition add_net (sandbox_id : string) (s : FirewallManager * os_world)
  : FirewallManager * os_world :=
  (firewall ({[sandbox_id]} ∪ nets s.1) (dns_proxies s.1), s.2).
Definition drop_net (sandbox_id : string) (s : FirewallManager * os_world)
  : FirewallManager * os_world :=
  (firewall (nets s.1 ∖ {[sandbox_id]}) (dns_proxies s.1), s.2).

(** The spawned server task is not part of the state; the proxy it serves is. *)
Definition setup_sandbox_network (sandbox_id veth_host_ip : string) (allow deny : list string)
    (bandwidth_mbps : option Z) : fw () :=
  let ns := ns_name sandbox_id in
  let vn := short_name sandbox_id "vn" in
  _ ← sys (attach_tap sandbox_id);
  _ ← sys (setup_ruleset ns vn);
  _ ← sys (setup_host_egress_with_policy sandbox_id allow deny);
  _ ← sys (apply_bandwidth_limit sandbox_id bandwidth_mbps);
  _ ← modify (set_proxy sandbox_id (with_sandbox allow (Some sandbox_id)));
  modify (add_net sandbox_id).

Definition update_sandbox_network (sandbox_id : string) (enabled : bool)
    (allow deny : list string) : fw () :=
  m ← gets fst;
  match dns_proxies m !! sandbox_id with
  | None => fail (ClouisleError.invalid_state
      ("sandbox network " +:+ sandbox_id +:+ " is not active"))
  | Some p =>
    _ ← modify (set_proxy sandbox_id (replace_allowed p (if enabled then allow else [])));
    _ ← sys (teardown_host_egress sandbox_id);
    let deny := if enabled then deny else ["0.0.0.0/0"%string] in
    sys (setup_host_egress_with_policy sandbox_id (if enabled then allow else []) deny)
  end.

Definition teardown_sandbox_network (sandbox_id : string) (sub : option (Z * Z)) : fw () :=
  _ ← modify (drop_proxy sandbox_id);
  _ ← sys (ignore (teardown_ruleset (ns_name sandbox_id)));
  _ ← sys (ignore (teardown_host_egress sandbox_id));
  _ ← sys (ignore (delete_netns sandbox_id sub));
  modify (drop_net sandbox_id).

Definition firewall_allow_ip (sandbox_id ip : string) : fw () :=
  sys (allow_ip (ns_name sandbox_id) ip).

Definition dns_proxy (sandbox_id : string) (m : FirewallManager) : option DnsProxy :=
  dns_proxies m !! sandbox_id.
End net.

(** ** The host rules, as a list *)

Inductive verdict : Set := Accept | Drop.
Inductive condition : Set := Any | Daddr (cidr : string) | Established.
Record rule : Set := mk_rule { iifname : string; cond : condition; act : verdict }.

Definition local_nets : list string := ["10.0.0.0/8"; "127.0.0.0/8"]%string.

(** The rules of [setup_host_egress_with_policy], in the order of its text. *)
Definition host_rules (veth : string) (allow deny : list string) : list rule :=
  ((λ c, mk_rule veth (Daddr c) Accept) <$> local_nets)
  ++ [mk_rule veth Established Accept]
  ++ ((λ c, mk_rule veth (Daddr c) Drop) <$> deny)
  ++ ((λ c, mk_rule veth (Daddr c) Accept) <$> List.filter is_valid_ipv4_cidr allow)
  ++ [mk_rule veth Any Drop].

Definition render (r : rule) : string :=
  rule_line (iifname r)
    match cond r with
    | Any => "" | Daddr c => " ip daddr " +:+ c | Established => " ct state established,related"
    end
    match act r with Accept => "accept" | Drop => "drop" end.

Definition concat_strings (l : list string) : string := foldr String.append "" l.

(** ** Lemmas *)

Lemma deny_lines_render veth deny s :
  deny_lines veth deny = Ok s →
  s = concat_strings (render <$> ((λ c, mk_rule veth (Daddr c) Drop) <$> deny))
  ∧ Forall (λ c, is_valid_ipv4_cidr c = true) deny.
Proof.
  revert s. induction deny as [|c deny IH]; intros s; simpl; [intros [= <-]; by split|].
  destruct (is_valid_ipv4_cidr c) eqn:Hv; simpl; [|done]. run_res.
  destruct (deny_lines veth deny) as [rest| |]; intros [= <-].
  destruct (IH rest eq_refl) as [-> ?]. split; [done|by constructor].
Qed.

Lemma allow_lines_render veth allow :
  allow_lines veth allow =
  concat_strings (render <$> ((λ c, mk_rule veth (Daddr c) Accept)
    <$> List.filter is_valid_ipv4_cidr allow)).
Proof.
  induction allow as [|c allow IH]; simpl; [done|].
  destruct (is_valid_ipv4_cidr c); simpl; [|done]. by rewrite IH.
Qed.

Lemma concat_strings_app l1 l2 :
  concat_strings (l1 ++ l2) = concat_strings l1 +:+ concat_strings l2.
Proof. induction l1 as [|x l1 IH]; simpl; [done|]. by rewrite IH, string_app_assoc. Qed.

(** *** Characters of an accepted rule *)

Definition cidr_char (a : ascii) : bool :=
  match digit a with
  | Some _ => true
  | None => Ascii.eqb a "." || Ascii.eqb a "/" || Ascii.eqb a "+"
  end.
Fixpoint all_chars (p : ascii → bool) (s : string) : bool :=
  match s with EmptyString => true | String a s' => p a && all_chars p s' end.

Lemma all_chars_app p x y : all_chars p (x +:+ y) = all_chars p x && all_chars p y.
Proof. induction x as [|a x IH]; simpl; [done|]. by rewrite IH, andb_assoc. Qed.

Lemma digit_range a d : digit a = Some d → cidr_char a = true ∧ 0 ≤ d ≤ 9.
Proof.
  unfold cidr_char. intros Ha. rewrite Ha. split; [done|].
  unfold digit in Ha. split_match; [|done]. bool_to_prop. simplify_eq. lia.
Qed.

Lemma parse_octet_chars s n : parse_octet s = Some n → all_chars cidr_char s = true ∧ 0 ≤ n ≤ 255.
Proof.
  destruct s as [|a [|b [|c [|]]]]; simpl; try done.
  - intros [Hc ?]%digit_range. rewrite Hc. split; [done|lia].
  - destruct (digit a) as [x|] eqn:Ha; simpl; [|done]. destruct (digit b) as [y|] eqn:Hb; simpl; [|done].
    apply digit_range in Ha as [-> ?], Hb as [-> ?]. destruct (x =? 0); [done|].
    intros [= <-]. split; [done|lia].
  - destruct (digit a) as [x|] eqn:Ha; simpl; [|done]. destruct (digit b) as [y|] eqn:Hb; simpl; [|done].
    destruct (digit c) as [z|] eqn:Hc; simpl; [|done].
    apply digit_range in Ha as [-> ?], Hb as [-> ?], Hc as [-> ?].
    destruct ((x =? 0) || _) eqn:Hr; [done|]. bool_to_prop. intros [= <-]. split; [done|lia].
Qed.

Lemma parse_ipv4_chars s n :
  parse_ipv4 s = Some n → all_chars cidr_char s = true ∧ 0 ≤ n < 4294967296.
Proof.
  unfold parse_ipv4. intros Hp. rewrite <-(join_split "." s).
  destruct (split "." s) as [|a [|b [|c [|d [|]]]]]; try done.
  destruct (parse_octet a) as [w|] eqn:Ha; simpl in Hp; [|done].
  destruct (parse_octet b) as [x|] eqn:Hb; simpl in Hp; [|done].
  destruct (parse_octet c) as [y|] eqn:Hc; simpl in Hp; [|done].
  destruct (parse_octet d) as [z|] eqn:Hd; simpl in Hp; [|done]. simplify_eq.
  apply parse_octet_chars in Ha as [Ha ?], Hb as [Hb ?], Hc as [Hc ?], Hd as [Hd ?].
  split; [|lia]. simpl. repeat (rewrite all_chars_app || simpl). by rewrite Ha, Hb, Hc, Hd.
Qed.

Lemma uint_of_string_chars s u :
  NilEmpty.uint_of_string s = Some u → all_chars cidr_char s = true.
Proof.
  revert u. induction s as [|a s IH]; intros u; simpl; [done|].
  destruct (NilEmpty.uint_of_string s) as [d|]; [|by destruct a as [[] [] [] [] [] [] [] []]].
  rewrite (IH d eq_refl), andb_true_r. by destruct a as [[] [] [] [] [] [] [] []].
Qed.

Lemma parse_unsigned_chars max s n : parse_unsigned max s = Some n → all_chars cidr_char s = true.
Proof.
  unfold parse_unsigned.
  assert (∀ t u, NilZero.uint_of_string t = Some u → all_chars cidr_char t = true) as Hz.
  { intros [|a t] u; [done|]. apply uint_of_string_chars. }
  destruct s as [|a s]; [done|]. destruct (Ascii.ascii_dec a "+") as [->|Hn].
  - destruct (NilZero.uint_of_string s) as [u|] eqn:Hu; [|done]. intros _. simpl. by eapply Hz.
  - assert ((match String a s with String "+"%char s' => s' | _ => String a s end) = String a s) as ->
      by (by destruct a as [[] [] [] [] [] [] [] []]).
    destruct (NilZero.uint_of_string (String a s)) as [u|] eqn:Hu; [|done]. intros _. by eapply Hz.
Qed.

Lemma split_once_Some c s x y : split_once c s = Some (x, y) → s = x +:+ String c y.
Proof.
  revert x. induction s as [|a s IH]; intros x; simpl; [done|].
  destruct (Ascii.eqb_spec a c) as [->|]; [by intros [= <- <-]|].
  destruct (split_once c s) as [[x' y']|]; simpl; [|done]. intros [= <- <-].
  by rewrite (IH x' eq_refl).
Qed.

Lemma parse_cidr_chars r net bits :
  parse_cidr r = Some (net, bits) →
  all_chars cidr_char r = true ∧ 0 ≤ net < 4294967296 ∧ bits ≤ 32.
Proof.
  unfold parse_cidr. destruct (split_once "/" r) as [[a p]|] eqn:Hs.
  - apply split_once_Some in Hs as ->. destruct (parse_ipv4 a) as [ip|] eqn:Ha; simpl; [|done].
    apply parse_ipv4_chars in Ha as [Ha ?].
    destruct (parse_unsigned u8_max p) as [b|] eqn:Hb; simpl; [|done].
    apply parse_unsigned_chars in Hb. destruct (Z.leb_spec b 32); [|done]. intros [= <- <-].
    rewrite all_chars_app. simpl. by rewrite Ha, Hb.
  - destruct (parse_ipv4 r) as [ip|] eqn:Ha; simpl; [|done].
    apply parse_ipv4_chars in Ha as [Ha ?]. intros [= <- <-]. split_and!; [done|lia..].
Qed.

(** *** The allocator *)

Fixpoint allocations (n : nat) (next : Z * Z) : list (Z * Z) :=
  match n with
  | O => []
  | S n' => let '(next', r) := allocate next in r :: allocations n' next'
  end.

Definition nth_subnet (k : Z) : Z * Z := (10 + (k / 191) mod 191, 10 + k mod 191).

Lemma allocate_nth k :
  0 ≤ k → allocate (nth_subnet k) = (nth_subnet (k + 1), nth_subnet k).
Proof.
  intros Hk. unfold allocate, nth_subnet.
  pose proof (Z.div_mod k 191 ltac:(lia)) as Hd. pose proof (Z.mod_pos_bound k 191 ltac:(lia)).
  pose proof (Z.mod_pos_bound (k / 191) 191 ltac:(lia)).
  destruct (Z.ltb_spec 200 (10 + k mod 191 + 1)).
  - assert (k mod 191 = 190) as Hm by lia.
    assert ((k + 1) / 191 = k / 191 + 1 ∧ (k + 1) mod 191 = 0) as [-> ->].
    { assert (k + 1 = (k / 191 + 1) * 191) as -> by lia.
      by rewrite Z.div_mul, Z.mod_mul by lia. }
    rewrite Hm. destruct (Z.ltb_spec 200 (10 + (k / 191) mod 191 + 1)).
    + assert ((k / 191) mod 191 = 190) as Hq by lia.
      rewrite Zplus_mod, Hq. done.
    + rewrite (Zplus_mod (k / 191) 1), (Z.mod_small ((k / 191) mod 191 + 1 mod 191)).
      * f_equal. f_equal. change (1 mod 191) with 1. lia.
      * change (1 mod 191) with 1. lia.
  - assert ((k + 1) / 191 = k / 191 ∧ (k + 1) mod 191 = k mod 191 + 1) as [-> ->].
    { assert (k + 1 = (k mod 191 + 1) + k / 191 * 191) as -> by lia.
      rewrite Z.div_add, Z.mod_add, Z.div_small, Z.mod_small by lia. lia. }
    rewrite (proj2 (Z.ltb_ge 200 _)) by lia. f_equal. f_equal. lia.
Qed.

Lemma allocations_nth n k :
  0 ≤ k → allocations n (nth_subnet k) = (λ i, nth_subnet (k + Z.of_nat i)) <$> seq 0 n.
Proof.
  revert k. induction n as [|n IH]; intros k Hk; [done|].
  cbn [allocations seq]. rewrite allocate_nth by done. rewrite IH by lia. rewrite fmap_cons.
  f_equal; [f_equal; lia|]. rewrite <-fmap_S_seq, <-list_fmap_compose.
  apply list_fmap_ext. intros i x _. cbn. f_equal. lia.
Qed.

Lemma nth_subnet_inj k1 k2 :
  0 ≤ k1 < 36481 → 0 ≤ k2 < 36481 → nth_subnet k1 = nth_subnet k2 → k1 = k2.
Proof.
  unfold nth_subnet. intros H1 H2 [= Hq Hr].
  assert (0 ≤ k1 / 191 < 191) by (split; [apply Z.div_pos|apply Z.div_lt_upper_bound]; lia).
  assert (0 ≤ k2 / 191 < 191) by (split; [apply Z.div_pos|apply Z.div_lt_upper_bound]; lia).
  rewrite !Z.mod_small in Hq by lia.
  rewrite (Z.div_mod k1 191), (Z.div_mod k2 191) by lia. lia.
Qed.

Lemma deny_lines_result veth deny :
  match deny_lines veth deny with
  | Ok _ => True
  | Err e => ClouisleError.kind e = ErrorKind.Validation
  | Panic => False
  end.
Proof.
  induction deny as [|c deny IH]; simpl; [done|]. destruct (negb _); [done|]. run_res.
  by destruct (deny_lines veth deny).
Qed.

Lemma substring_length n s :
  (n ≤ String.length s)%nat → String.length (String.substring 0 n s) = n.
Proof.
  revert n. induction s as [|a s IH]; intros [|n]; simpl; try lia. intros. rewrite IH; lia.
Qed.

(** *** The manager *)

Section manager.
Context {OS : Os} {H : Sha256}.

Lemma sys_spec {A} (c : cmd A) m w : (sys c (m, w)).1.1 = m.
Proof. unfold sys. by destruct (c w). Qed.

Lemma run_no_panic c args w : snd (run c args w) ≠ Panic.
Proof. unfold run. by destruct (exec c args "" w) as [w' [|[]]]. Qed.

Lemma ignore_ok {A} (c : cmd A) w : snd (c w) ≠ Panic → snd (ignore c w) = Ok ().
Proof.
  unfold ignore, attempt, mbind, stres_bind. by destruct (c w) as [w' []].
Qed.

Lemma bind_no_panic {S E A B} (m : stres S E A) (f : A → stres S E B) s :
  snd (m s) ≠ Panic → (∀ a s', snd (f a s') ≠ Panic) → snd ((m ≫= f) s) ≠ Panic.
Proof.
  intros Hm Hf. unfold mbind, stres_bind. destruct (m s) as [s' [a|e|]]; simpl in *; auto.
Qed.

Lemma delete_netns_ok id sub w : snd (delete_netns id sub w) ≠ Panic.
Proof.
  unfold delete_netns.
  repeat (apply bind_no_panic; [rewrite ignore_ok; [done|apply run_no_panic]|intros _ ?]). done.
Qed.

Lemma teardown_ok id sub m w :
  let '((m', _), r) := teardown_sandbox_network id sub (m, w) in
  r = Ok () ∧ dns_proxies m' = delete id (dns_proxies m) ∧ nets m' = nets m ∖ {[id]}.
Proof.
  unfold teardown_sandbox_network, modify, mbind, stres_bind, sys. simpl.
  pose proof (ignore_ok (teardown_ruleset (ns_name id)) w) as H1.
  destruct (ignore (teardown_ruleset _) w) as [w1 r1].
  simpl in H1. rewrite H1 by (unfold teardown_ruleset, run_nft_in_ns; rewrite ignore_ok; [done|apply run_no_panic]).
  pose proof (ignore_ok (teardown_host_egress id) w1) as H2.
  destruct (ignore (teardown_host_egress id) w1) as [w2 r2].
  simpl in H2. rewrite H2 by (unfold teardown_host_egress; by destruct (exec _ _ _ _) as [? []]).
  pose proof (ignore_ok (delete_netns id sub) w2) as H3.
  destruct (ignore (delete_netns id sub) w2) as [w3 r3].
  simpl in H3. rewrite H3 by apply delete_netns_ok. done.
Qed.

Lemma setup_cases id ip allow deny bw m w :
  let '((m', _), r) := setup_sandbox_network id ip allow deny bw (m, w) in
  match r with
  | Ok _ => dns_proxies m' = <[id := with_sandbox allow (Some id)]> (dns_proxies m)
            ∧ nets m' = {[id]} ∪ nets m
            ∧ Forall (λ c, is_valid_ipv4_cidr c = true) deny
  | _ => m' = m
  end.
Proof.
  unfold setup_sandbox_network, mbind, stres_bind, sys.
  destruct (attach_tap id w) as [w1 [[]|e|]]; [|done..].
  destruct (setup_ruleset _ _ w1) as [w2 [[]|e|]]; [|done..].
  destruct (setup_host_egress_with_policy id allow deny w2) as [w3 [[]|e|]] eqn:Hs; [|done..].
  destruct (apply_bandwidth_limit id bw w3) as [w4 [[]|e|]]; [|done..].
  simpl. split_and!; [done..|].
  unfold setup_host_egress_with_policy, mbind, stres_bind, lift in Hs. simpl in Hs.
  destruct (deny_lines (short_name id "vh") deny) as [s| |] eqn:Hd; [|done..].
  by apply deny_lines_render in Hd as [_ ?].
Qed.
End manager.

(** ** Properties *)

(** The text handed to nft is the list of rules.  When the deny list is accepted,
    the rule set fed to [nft] is the fixed header, the rules of the policy one
    per line in their order, and the fixed footer; an invalid deny entry is
    refused before anything runs. *)
Theorem egress_text_is_policy {OS : Os} {H : Sha256} id allow deny w :
  let veth := short_name id "vh" in
  match deny_lines veth deny with
  | Ok deny_rules =>
    setup_host_egress_with_policy id allow deny w = load_host_ruleset
      (NL +:+ "table ip " +:+ host_table_name id +:+ " {" +:+ NL
       +:+ "    chain egress {" +:+ NL
       +:+ "        type filter hook forward priority -1; policy accept;" +:+ NL
       +:+ concat_strings (render <$> host_rules veth allow deny)
       +:+ "    }" +:+ NL +:+ "}" +:+ NL) w
  | Err e => setup_host_egress_with_policy id allow deny w = (w, Err e) ∧
             ClouisleError.kind e = ErrorKind.Validation
  | Panic => False
  end.
Proof.
  intros veth. pose proof (deny_lines_result veth deny) as Hres.
  unfold setup_host_egress_with_policy, mbind, stres_bind, lift. fold veth.
  destruct (deny_lines veth deny) as [s|e|] eqn:Hd; [|done|done].
  apply deny_lines_render in Hd as [-> _]. f_equal. unfold host_ruleset, host_rules.
  rewrite !fmap_app, !concat_strings_app, <-allow_lines_render.
  generalize (concat_strings (render <$> ((λ c, mk_rule veth (Daddr c) Drop) <$> deny))) as dr.
  generalize (allow_lines veth allow) as ar. intros ar dr.
  change (concat_strings (render <$> ((λ c, mk_rule veth (Daddr c) Accept) <$> local_nets)))
    with (rule_line veth " ip daddr 10.0.0.0/8" "accept"
          +:+ (rule_line veth " ip daddr 127.0.0.0/8" "accept" +:+ "")).
  change (concat_strings (render <$> [mk_rule veth Established Accept]))
    with (rule_line veth " ct state established,related" "accept" +:+ "").
  change (concat_strings (render <$> [mk_rule veth Any Drop]))
    with (rule_line veth "" "drop" +:+ "").
  generalize (rule_line veth " ip daddr 10.0.0.0/8" "accept"),
    (rule_line veth " ip daddr 127.0.0.0/8" "accept"),
    (rule_line veth " ct state established,related" "accept"), (rule_line veth "" "drop").
  intros r1 r2 r3 r4. by rewrite !string_app_nil_r, !string_app_assoc.
Qed.

(** Nothing can be smuggled into the rule set.  An entry that passes the
    check is made of digits, dots, slashes and plus signs only, and denotes a
    32-bit address with a prefix of at most 32 bits. *)
Theorem cidr_cannot_inject c :
  is_valid_ipv4_cidr c = true →
  all_chars cidr_char c = true ∧
  ∃ net bits, parse_cidr c = Some (net, bits) ∧ 0 ≤ net < 4294967296 ∧ bits ≤ 32.
Proof.
  unfold is_valid_ipv4_cidr. intros [[net bits] Hp]%bool_decide_eq_true_1.
  pose proof (parse_cidr_chars c net bits Hp). naive_solver.
Qed.

(** The subnet allocator repeats itself only after 191 * 191 allocations:
    the first 36481 pairs are pairwise distinct and stay in 10..200, and the next
    one is the first again. *)
Theorem subnet_allocator_period :
  NoDup (allocations (Z.to_nat 36481) allocator_new) ∧
  Forall (λ ab, 10 ≤ ab.1 ≤ 200 ∧ 10 ≤ ab.2 ≤ 200) (allocations (Z.to_nat 36481) allocator_new) ∧
  nth_subnet 36481 = allocator_new ∧
  ∀ n, allocations n allocator_new = (λ i, nth_subnet (Z.of_nat i)) <$> seq 0 n.
Proof.
  assert (∀ n, allocations n allocator_new = (λ i, nth_subnet (Z.of_nat i)) <$> seq 0 n) as Hall.
  { intros n. change allocator_new with (nth_subnet 0). rewrite allocations_nth by lia.
    apply list_fmap_ext. intros i x _. by rewrite Z.add_0_l. }
  split_and!; [| |reflexivity|exact Hall]; rewrite Hall.
  - apply NoDup_fmap_2_strong; [|apply NoDup_seq].
    intros i j Hi%elem_of_seq Hj%elem_of_seq Heq. apply nth_subnet_inj in Heq; lia.
  - apply Forall_fmap, Forall_forall. intros i _. unfold nth_subnet. simpl.
    pose proof (Z.mod_pos_bound (Z.of_nat i) 191 ltac:(lia)).
    pose proof (Z.mod_pos_bound (Z.of_nat i / 191) 191 ltac:(lia)). lia.
Qed.

(** Device names fit the kernel.  Every interface name derived from a
    sandbox id is at most 15 characters long, the derived octets are valid, and
    the derived subnets are not kept apart from the allocator's: an id whose
    digest starts with two zero bytes gets the first pair the allocator hands
    out. *)
Theorem derived_network_names {H : Sha256} {HO : Sha256Ok H} id :
  String.length (short_name id "vh") = 10%nat ∧ String.length (short_name id "vn") = 10%nat ∧
  String.length (ns_name id) = 12%nat ∧
  (10 ≤ (sandbox_subnet id).1 ≤ 209 ∧ 10 ≤ (sandbox_subnet id).2 ≤ 209) ∧
  (digest_byte id 0 = 0 → digest_byte id 1 = 0 → sandbox_subnet id = (allocate allocator_new).2).
Proof.
  assert (∀ p, String.length (short_name id p) = (String.length p + 8)%nat) as Hlen.
  { intros p. unfold short_name. rewrite string_length_app, substring_length; [done|].
    rewrite sha256_hex_length. lia. }
  unfold ns_name. rewrite string_length_app, !Hlen. split_and!; try done.
  1-4: unfold sandbox_subnet; simpl;
    pose proof (Z.mod_pos_bound (digest_byte id 0) 200 ltac:(lia));
    pose proof (Z.mod_pos_bound (digest_byte id 1) 200 ltac:(lia)); lia.
  unfold sandbox_subnet. by intros -> ->.
Qed.

(** The manager's registry follows the network.  A successful setup
    registers the DNS proxy with the sandbox's allow list; a setup that fails at
    any command registers nothing; teardown always succeeds and unregisters,
    whatever the commands answer; an update of a sandbox that is not active is
    refused before any command runs. *)
Theorem firewall_registry {OS : Os} {H : Sha256} id ip allow deny bw sub en m w :
  (let '((m', _), r) := setup_sandbox_network id ip allow deny bw (m, w) in
   match r with
   | Ok _ => dns_proxy id m' = Some (with_sandbox allow (Some id)) ∧ id ∈ nets m'
             ∧ Forall (λ c, is_valid_ipv4_cidr c = true) deny
   | _ => m' = m
   end) ∧
  (let '((m', _), r) := teardown_sandbox_network id sub (m, w) in
   r = Ok () ∧ dns_proxy id m' = None ∧ id ∉ nets m' ∧
   ∀ j, j ≠ id → dns_proxy j m' = dns_proxy j m) ∧
  (dns_proxy id m = None → ∃ e,
     update_sandbox_network id en allow deny (m, w) = ((m, w), Err e) ∧
     ClouisleError.kind e = ErrorKind.InvalidState).
Proof.
  split_and!.
  - pose proof (setup_cases id ip allow deny bw m w) as Hs.
    destruct (setup_sandbox_network _ _ _ _ _ _) as [[m' w'] [[]|e|]]; [|done|done].
    destruct Hs as (Hp & Hn & Hd). unfold dns_proxy. rewrite Hp, Hn, lookup_insert_eq. set_solver.
  - pose proof (teardown_ok id sub m w) as Ht.
    destruct (teardown_sandbox_network _ _ _) as [[m' w'] r]. destruct Ht as (-> & Hp & Hn).
    unfold dns_proxy. rewrite Hp, Hn. split_and!; [done|by rewrite lookup_delete_eq|set_solver|].
    intros j Hj. by rewrite lookup_delete_ne.
  - intros Hn. unfold dns_proxy in Hn. unfold update_sandbox_network, gets, mbind, stres_bind. simpl.
    rewrite Hn. unfold fail. eauto.
Qed.

(** *** Witnesses *)

Module NetDemo.
(** Every command succeeds and is recorded. *)
#[global] Instance os : Os :=
  {| os_world := list (list string); exec c args _ w := (w ++ [c :: args], Exited true "" "") |}.
End NetDemo.

Lemma cidr_cannot_inject_witness : all_chars cidr_char "192.168.0.0/16" = true.
Proof. exact (proj1 (cidr_cannot_inject "192.168.0.0/16" eq_refl)). Defined.

Lemma derived_network_names_witness : String.length (short_name "sandbox-1" "vh") = 10%nat.
Proof. exact (proj1 (derived_network_names "sandbox-1")). Defined.

Lemma firewall_registry_witness :
  ∃ e, update_sandbox_network "s" true [] [] (manager_new, []) = ((manager_new, []), Err e) ∧
    ClouisleError.kind e = ErrorKind.InvalidState.
Proof.
  exact (proj2 (proj2 (firewall_registry "s" "" [] [] None None true manager_new [])) eq_refl).
Defined.
