(* ===== verification/Firecracker.v ===== *)
(** * The Firecracker backend ([crates/clouisle-vmm/src/firecracker.rs])

    [FirecrackerVmm]: a [firecracker] process per sandbox, configured over its API
    socket.  The node it runs on (files, processes, the HTTP client on a Unix socket,
    the image builder) is the class [FcHost] over an opaque world; the table of
    running processes is kept here.

    The backend is an instance of the class [Vmm], and keeps its promise [VmmOk]. *)

From S2P Require Import Prelude Core SandboxModel Paths Vmm Digest Json Net.

(** ** The node *)

Inductive http_method : Set := PUT | POST | PATCH | GET.

(** What a request comes to: an error of the client, the limit passed, or a status
    with its text and the body (or the error of reading it, as [read_body] shows
    it). *)
Inductive http_answer : Type :=
| HttpFailed (e : string)
| HttpTimedOut
| HttpAnswer (status : Z) (text body : string).

Class FcHost : Type := {
  host : Type; process : Type;
  h_exists : string → host → bool;
  h_is_file : string → host → bool;
  h_create_dir_all : string → host → host * (string + ());
  h_remove_file : string → host → host * (string + ());
  h_remove_dir_all : string → host → host;
  h_write : string → string → host → host * (string + ());
  h_copy : string → string → host → host * (string + ());
  h_device : string → host → string + Z;
  h_read_dir : string → host → option (list string);
  h_read : string → host → option string;
  h_spawn : list string → host → host * (string + process);
  process_id : process → option Z;
  h_killpg : Z → host → host;
  h_alive : Z → host → bool;
  h_reap : process → host → host;
  h_request : http_method → string → string → option Json → option Z → host →
    host * http_answer;
  parse_json : string → string + Json;
  h_sleep_ms : Z → host → host;
  h_now_ms : host → Z;
  (** [ImageManager::pull_and_build] and [cache_hit]. *)
  h_pull_and_build : string → option string → host → host * (string + string);
  h_cache_hit : string → option string → host → host * bool }.

Record FirecrackerConfig : Type := fc_config {
  firecracker_bin : string;
  jailer_bin : option string;
  kernel_path : string;
  api_sock_dir : string;
  use_jailer : bool;
  enable_seccomp : bool;
  images_dir : string;
  rootfs_work_dir : string }.

Definition default_config : FirecrackerConfig :=
  fc_config "/usr/local/bin/firecracker" (Some "/usr/local/bin/jailer"%string)
    "/opt/clouisle/vmlinux" "/tmp/clouisle-fc" true true "/tmp/clouisle-cache"
    "/tmp/clouisle-cache/.rootfs".

Definition MIN_CID : Z := 3.

Definition vmm_err : string → ClouisleError.t := ClouisleError.mk ErrorKind.Vmm.

(** [as i32] of an unsigned number. *)
Definition as_i32 (z : Z) : Z := (z + 2147483648) mod 4294967296 - 2147483648.

(** ** Kernel command line *)

(** [str::split_whitespace]. *)
Fixpoint words (cs : list N) (word : list N) : list (list N) :=
  match cs with
  | [] => match word with [] => [] | _ => [rev word] end
  | c :: cs' =>
    if is_whitespace c then
      match word with [] => words cs' [] | _ => rev word :: words cs' [] end
    else words cs' (c :: word)
  end.
Definition text_of (cs : list N) : string :=
  foldr (λ c t, String.append (encode_char c) t) ""%string cs.
Definition split_whitespace (s : string) : list string := text_of <$> words (chars s) [].

Definition default_boot_args : string := "console=ttyS0 reboot=k panic=1 pci=off root=/dev/vda rw".

Definition boot_args_for_subnet (spec : SandboxSpec.t) (a b : Z) : string :=
  let base := default default_boot_args (SandboxSpec.env spec !! "boot_args"%string) in
  let init := if existsb (starts_with "init=") (split_whitespace base) then ""%string
              else " init=/usr/local/bin/clouisle-agent"%string in
  base +:+ init +:+ " ip=" +:+ dotted (a, b) ".2" +:+ "::" +:+ dotted (a, b) ".1"
    +:+ ":255.255.255.252::eth0:off clouisle.guest_ip=" +:+ dotted (a, b) ".2"
    +:+ " clouisle.gateway=" +:+ dotted (a, b) ".1".

Section backend.
Context {HD : Sha256} {H : FcHost} (cfg : FirecrackerConfig).

(** The backend's own copy of the derivation in [netns.rs]. *)
Definition fc_subnet (sandbox_id : string) : Z * Z :=
  (10 + digest_byte sandbox_id 0 mod 200, 10 + digest_byte sandbox_id 1 mod 200).

Definition boot_args (sandbox_id : string) (spec : SandboxSpec.t) : string :=
  let '(a, b) := fc_subnet sandbox_id in boot_args_for_subnet spec a b.

(** The choice [create_inner] makes. *)
Definition kernel_args (sandbox_id : string) (spec : SandboxSpec.t) (subnet : option (Z * Z))
  : string :=
  match subnet with
  | Some (a, b) => boot_args_for_subnet spec a b
  | None => boot_args sandbox_id spec
  end.

(** ** State, and calls that may fail *)

Record FcProcess : Type := fc_process { p_handle : VmHandle.t; p_child : option process }.
Record Firecracker : Type := fc_world { node : host; vms : gmap string FcProcess }.

Definition set_node (h : host) (w : Firecracker) : Firecracker := fc_world h (vms w).
Definition set_vms (m : gmap string FcProcess) (w : Firecracker) : Firecracker := fc_world (node w) m.

Definition fc (A : Type) : Type := Firecracker → Firecracker * outcome A.
#[local] Instance fc_ret : MRet fc := λ A a w, (w, inr a).
#[local] Instance fc_bind : MBind fc := λ A B k m w,
  match m w with
  | (w', inr a) => k a w'
  | (w', inl e) => (w', inl e)
  end.
Definition throw {A} (e : ClouisleError.t) : fc A := λ w, (w, inl e).

(** A call on the node, with [map_err]; one whose result is ignored. *)
Definition on_node {A} (err : string → ClouisleError.t) (op : host → host * (string + A)) : fc A :=
  λ w, let '(h, r) := op (node w) in
       (set_node h w, match r with inl e => inl (err e) | inr a => inr a end).
Definition ignoring {A} (op : host → host * A) : fc () := λ w,
  (set_node (op (node w)).1 w, inr ()).
Definition just (op : host → host) : fc () := λ w, (set_node (op (node w)) w, inr ()).
Definition ask {A} (f : host → A) : fc A := λ w, (w, inr (f (node w))).

Definition check_environment : fc () :=
  have_bin ← ask (h_exists (firecracker_bin cfg));
  if negb have_bin then throw (vmm_err ("firecracker not found at " +:+ firecracker_bin cfg))
  else
    have_jailer ← ask (λ h, match jailer_bin cfg with
                            | Some j => negb (use_jailer cfg) || h_exists j h
                            | None => true
                            end);
    if negb have_jailer
    then throw (vmm_err ("jailer not found at " +:+ default "" (jailer_bin cfg)))
    else
      kvm ← ask (h_exists "/dev/kvm");
      if negb kvm
      then throw (vmm_err "no /dev/kvm; please join the kvm group or run on a KVM-capable host")
      else mret ().

(** ** The API of a machine *)

Definition method_name (m : http_method) : string :=
  match m with PUT => "PUT" | POST => "POST" | PATCH => "PATCH" | GET => "GET" end.

(** [fc_put], [fc_post], [fc_patch] and the first half of [fc_get]: the socket comes
    from the handle, a status outside 200..299 is an error with its body. *)
Definition request (m : http_method) (limit : option Z) (h : VmHandle.t) (path : string)
    (body : option Json) : fc string :=
  match VmHandle.api_socket h with
  | None => throw (ClouisleError.invalid_state "VmHandle missing api_socket")
  | Some socket => λ w,
    let '(n, r) := h_request m socket path body limit (node w) in
    let what := ("firecracker " +:+ method_name m +:+ " " +:+ path)%string in
    (set_node n w,
     match r with
     | HttpFailed e => inl (vmm_err (what +:+ ": " +:+ e))
     | HttpTimedOut => inl (vmm_err (what +:+ " timed out"))
     | HttpAnswer status text b =>
       if (200 <=? status) && (status <=? 299) then inr b
       else inl (vmm_err (what +:+ " => " +:+ text +:+ ": " +:+ b))
     end)
  end.

Definition fc_put (h : VmHandle.t) (path : string) (body : Json) : fc () :=
  _ ← request PUT None h path (Some body); mret ().
Definition fc_post (h : VmHandle.t) (path : string) (body : Json) : fc () :=
  _ ← request POST (Some 30) h path (Some body); mret ().
Definition fc_patch (h : VmHandle.t) (path : string) (body : Json) : fc () :=
  _ ← request PATCH (Some 30) h path (Some body); mret ().
Definition fc_get (h : VmHandle.t) (path : string) : fc Json :=
  body ← request GET None h path None;
  match parse_json body with
  | inl e => throw (vmm_err ("parse JSON: " +:+ e))
  | inr v => mret v
  end.

(** [wait_for_socket]: 14 looks, with a pause that doubles up to two seconds. *)
Fixpoint wait_loop (n : nat) (delay : Z) (path : string) : fc () :=
  match n with
  | O => throw (vmm_err ("firecracker API socket not ready at " +:+ path))
  | S n =>
    there ← ask (h_exists path);
    if there : bool then mret ()
    else _ ← just (h_sleep_ms delay); wait_loop n (Z.min (delay * 2) 2000) path
  end.
Definition wait_for_socket (path : string) : fc () := wait_loop 14 50 path.

(** ** Disks *)

Definition resolve_rootfs (spec : SandboxSpec.t) : fc string :=
  let image := SandboxSpec.image spec in
  on_node (λ e, vmm_err ("resolve OCI rootfs " +:+ ImageRef.reference image +:+ ": " +:+ e))
    (h_pull_and_build (ImageRef.reference image) (ImageRef.digest image)).

Definition rootfs_copy (sandbox_id : string) : string :=
  path_join (rootfs_work_dir cfg) (sandbox_id +:+ ".ext4").

Definition prepare_rootfs (spec : SandboxSpec.t) (sandbox_id : string) : fc string :=
  cached ← resolve_rootfs spec;
  let work := rootfs_work_dir cfg in
  _ ← on_node (λ e, ClouisleError.io ("create rootfs work dir " +:+ work +:+ ": " +:+ e))
        (h_create_dir_all work);
  let target := rootfs_copy sandbox_id in
  _ ← on_node (λ e, ClouisleError.io ("copy rootfs " +:+ cached +:+ " -> " +:+ target +:+ ": " +:+ e))
        (h_copy cached target);
  mret target.

(** The numbers of a device, as the C library packs them into 64 bits. *)
Definition dev_major (dev : Z) : Z :=
  Z.lor (Z.land (Z.shiftr dev 8) 4095) (Z.land (Z.shiftr dev 32) (u64_max - 4095)).
Definition dev_minor (dev : Z) : Z :=
  Z.lor (Z.land dev 255) (Z.land (Z.shiftr dev 12) (u64_max - 255)).

Definition io_cgroup (sandbox_id : string) : string := "/sys/fs/cgroup/clouisle-io/" +:+ sandbox_id.

(** The text of its errors goes to the log only. *)
Definition apply_io_limit (sandbox_id : string) (iops : option Z) (fc_pid : Z) (rootfs : string)
  : fc () :=
  match iops with
  | None => mret ()
  | Some iops =>
    if iops <=? 0 then mret ()
    else
      let base := "/sys/fs/cgroup/clouisle-io"%string in
      let dir := io_cgroup sandbox_id in
      _ ← ignoring (h_create_dir_all base);
      _ ← ignoring (h_write (base +:+ "/cgroup.subtree_control") "+io");
      _ ← just (h_remove_dir_all dir);
      _ ← on_node (λ e, ClouisleError.io ("create io cgroup: " +:+ e)) (h_create_dir_all dir);
      dev ← on_node (λ e, ClouisleError.io ("stat rootfs: " +:+ e)) (λ h, (h, h_device rootfs h));
      _ ← on_node (λ e, ClouisleError.io ("write io.max: " +:+ e))
            (h_write (dir +:+ "/io.max")
               (show (dev_major dev) +:+ ":" +:+ show (dev_minor dev) +:+ " riops=" +:+ show iops
                +:+ " wiops=" +:+ show iops));
      on_node (λ e, ClouisleError.io ("move fc into io cgroup: " +:+ e))
        (h_write (dir +:+ "/cgroup.procs") (show fc_pid))
  end.

(** An error that is logged and forgotten. *)
Definition forgiving {A} (m : fc A) : fc () := λ w, ((m w).1, inr ()).

(** ** Machines *)

Definition vsock_path (sandbox_id : string) : string := "/tmp/clouisle-" +:+ sandbox_id +:+ ".vsock".

Definition next_cid (h : host) : Z := MIN_CID + Z.land (h_now_ms h) 65535.

Definition spawn_firecracker (sandbox_id : string) (subnet : option (Z * Z))
  : fc (VmHandle.t * string * process) :=
  _ ← ignoring (h_remove_file (vsock_path sandbox_id));
  let sock_path := path_join (api_sock_dir cfg) (sandbox_id +:+ ".sock") in
  _ ← on_node ClouisleError.io (h_create_dir_all (api_sock_dir cfg));
  stale ← ask (h_exists sock_path);
  _ ← (if stale : bool
       then on_node (λ e, ClouisleError.io ("remove stale API socket " +:+ sock_path +:+ ": " +:+ e))
              (h_remove_file sock_path)
       else mret ());
  let ns := ns_name sandbox_id in
  child ← on_node (λ e, vmm_err ("spawn firecracker in ns " +:+ ns +:+ ": " +:+ e))
    (h_spawn (["ip"; "netns"; "exec"; ns; firecracker_bin cfg; "--api-sock"; sock_path]%string
              ++ (if enable_seccomp cfg then [] else ["--no-seccomp"%string])));
  cid ← ask next_cid;
  mret (VmHandle.mk sandbox_id "firecracker" None (process_id child) (Some sock_path)
          (Some (vsock_path sandbox_id)) (Some cid) subnet, sock_path, child).

Definition register (h : VmHandle.t) (child : process) : fc () := λ w,
  (set_vms (<[VmHandle.id h := fc_process h (Some child)]> (vms w)) w, inr ()).

(** The three parts of [stop]: the request to the guest, the entry of the table, and
    what is left of the machine. *)
Definition ask_shutdown (h : VmHandle.t) (mode : StopMode.t) : fc () :=
  match mode with
  | StopMode.Graceful => λ w,
    match fc_post h "/actions" (JObj [("action_type"%string, JStr "SendCtrlAltDel")]) w with
    | (w', inr _) => just (h_sleep_ms 500) w'
    | (w', inl _) => (w', inr ())
    end
  | StopMode.Force => mret ()
  end.

Definition take_process (id : string) : fc (option FcProcess) := λ w,
  (set_vms (delete id (vms w)) w, inr (vms w !! id)).

Definition clean_up (h : VmHandle.t) (owned : option FcProcess) : fc () :=
  _ ← match (owned ≫= λ p, VmHandle.pid (p_handle p)) ∪ VmHandle.pid h with
      | Some pid => just (h_killpg (as_i32 pid))
      | None => mret ()
      end;
  _ ← match owned ≫= p_child with Some c => just (h_reap c) | None => mret () end;
  _ ← match VmHandle.api_socket h with Some s => ignoring (h_remove_file s) | None => mret () end;
  _ ← match VmHandle.vsock_socket h with Some s => ignoring (h_remove_file s) | None => mret () end;
  _ ← just (h_remove_dir_all (io_cgroup (VmHandle.id h)));
  ignoring (h_remove_file (rootfs_copy (VmHandle.id h))).

Definition stop (h : VmHandle.t) (mode : StopMode.t) : fc () :=
  _ ← ask_shutdown h mode;
  owned ← take_process (VmHandle.id h);
  clean_up h owned.

(** What [create_inner] does between the spawn and the answer. *)
Definition configure (h : VmHandle.t) (sock_path : string) (spec : SandboxSpec.t)
    (subnet : option (Z * Z)) : fc () :=
  let id := VmHandle.id h in
  _ ← wait_for_socket sock_path;
  _ ← fc_put h "/machine-config" (JObj [
        ("vcpu_count"%string, JNum (Resources.vcpu (SandboxSpec.resources spec)));
        ("mem_size_mib"%string, JNum (Resources.memory_mb (SandboxSpec.resources spec)));
        ("smt"%string, JBool false); ("track_dirty_pages"%string, JBool false)]);
  _ ← fc_put h "/boot-source" (JObj [("kernel_image_path"%string, JStr (kernel_path cfg));
                                     ("boot_args"%string, JStr (kernel_args id spec subnet))]);
  rootfs ← prepare_rootfs spec id;
  _ ← fc_put h "/drives/rootfs" (JObj [("drive_id"%string, JStr "rootfs");
        ("path_on_host"%string, JStr rootfs); ("is_root_device"%string, JBool true);
        ("is_read_only"%string, JBool false)]);
  _ ← match VmHandle.pid h with
      | Some pid =>
        forgiving (apply_io_limit id (Resources.iops (SandboxSpec.resources spec)) pid rootfs)
      | None => mret ()
      end;
  _ ← match subnet with
      | Some _ => mret ()
      | None =>
        match VmHandle.vsock_cid h with
        | None => throw (ClouisleError.invalid_state "missing guest CID")
        | Some cid =>
          match VmHandle.vsock_socket h with
          | None => throw (ClouisleError.invalid_state "missing vsock socket path")
          | Some path => fc_put h "/vsock" (JObj [("guest_cid"%string, JNum cid);
                                                  ("uds_path"%string, JStr path)])
          end
        end
      end;
  fc_put h "/network-interfaces/eth0" (JObj [("iface_id"%string, JStr "eth0");
                                             ("host_dev_name"%string, JStr "tap0")]).

(** After a failure everything the machine had is taken down. *)
Definition or_stop (h : VmHandle.t) (m : fc ()) : fc VmHandle.t := λ w,
  match m w with
  | (w', inr _) => (w', inr h)
  | (w', inl e) => ((stop h StopMode.Force w').1, inl e)
  end.

(** A machine that is spawned, registered and then set up. *)
Definition launch (id : string) (subnet : option (Z * Z)) (setup : VmHandle.t → string → fc ())
  : fc VmHandle.t :=
  '(h, s, c) ← spawn_firecracker id subnet; _ ← register h c; or_stop h (setup h s).

Definition create_inner (sandbox_id : string) (spec : SandboxSpec.t) (subnet : option (Z * Z))
  : fc VmHandle.t :=
  _ ← check_environment;
  launch sandbox_id subnet (λ h sock_path, configure h sock_path spec subnet).

Definition image_cache_hit (spec : SandboxSpec.t) : fc bool := λ w,
  let image := SandboxSpec.image spec in
  let '(n, hit) := h_cache_hit (ImageRef.reference image) (ImageRef.digest image) (node w) in
  (set_node n w, inr hit).

Definition prefetch_image (spec : SandboxSpec.t) : fc () :=
  let image := SandboxSpec.image spec in
  _ ← on_node (λ e, vmm_err ("prefetch OCI rootfs " +:+ ImageRef.reference image +:+ ": " +:+ e))
        (h_pull_and_build (ImageRef.reference image) (ImageRef.digest image));
  mret ().

Definition succeeds {A} (m : fc A) : fc bool := λ w,
  match m w with (w', inr _) => (w', inr true) | (w', inl _) => (w', inr false) end.

Definition probe (h : VmHandle.t) : fc bool :=
  alive ← ask (λ n, match VmHandle.pid h with Some pid => h_alive (as_i32 pid) n | None => true end);
  if negb alive then mret false
  else
    match VmHandle.api_socket h with
    | None => mret false
    | Some socket =>
      there ← ask (h_exists socket);
      if negb there then mret false else succeeds (fc_get h "/vm/config")
    end.

Definition start (h : VmHandle.t) : fc () :=
  fc_put h "/actions" (JObj [("action_type"%string, JStr "InstanceStart")]).
Definition pause (h : VmHandle.t) : fc () :=
  fc_patch h "/vm" (JObj [("state"%string, JStr "Paused")]).
Definition resume (h : VmHandle.t) : fc () :=
  fc_patch h "/vm" (JObj [("state"%string, JStr "Resumed")]).

Definition snapshot (h : VmHandle.t) (kind : SnapshotKind.t) (out : SnapshotPaths.t) : fc () :=
  fc_put h "/snapshot/create" (JObj [
    ("snapshot_type"%string, JStr (match kind with SnapshotKind.Full => "Full" | SnapshotKind.Diff => "Diff" end));
    ("mem_file_path"%string, JStr (SnapshotPaths.mem_path out));
    ("snapshot_path"%string, JStr (SnapshotPaths.state_path out))]).

Fixpoint require_files (paths : list string) : fc () :=
  match paths with
  | [] => mret ()
  | p :: paths' =>
    file ← ask (h_is_file p);
    if negb file
    then throw (ClouisleError.not_found ("snapshot file not found: " +:+ p))
    else require_files paths'
  end.

Definition load (from : SnapshotPaths.t) (h : VmHandle.t) (socket : string) : fc () :=
  _ ← wait_for_socket socket;
  fc_put h "/snapshot/load" (JObj [
    ("mem_file_path"%string, JStr (SnapshotPaths.mem_path from));
    ("snapshot_path"%string, JStr (SnapshotPaths.state_path from));
    ("enable_diff_snapshots"%string, JBool false); ("resume_vm"%string, JBool true)]).

Definition restore (sandbox_id : string) (from : SnapshotPaths.t) : fc VmHandle.t :=
  _ ← require_files [SnapshotPaths.state_path from; SnapshotPaths.mem_path from];
  _ ← check_environment;
  launch sandbox_id None (load from).

Definition stats (h : VmHandle.t) : fc VmStats.t :=
  config ← fc_get h "/vm/config";
  mret (VmStats.mk None None (jget "mem_size_mib" config ≫= as_u64) None None).

(** ** Machines of an earlier run *)

Fixpoint pair_in (x y : string) (l : list string) : bool :=
  match l with
  | a :: ((b :: _) as l') => (String.eqb a x && String.eqb b y) || pair_in x y l'
  | _ => false
  end.

(** The process whose arguments name the socket. *)
Fixpoint find_pid (procs : list string) (socket : string) (n : host) : option Z :=
  match procs with
  | [] => None
  | name :: procs' =>
    match parse_unsigned u64_max name, h_read (path_join (path_join "/proc" name) "cmdline") n with
    | Some pid, Some cmdline =>
      let args := List.filter (λ a, negb (is_empty a)) (split "000" cmdline) in
      if pair_in "--api-sock" socket args then Some pid else find_pid procs' socket n
    | _, _ => find_pid procs' socket n
    end
  end.

(** [file_stem] of a name with the extension [sock]. *)
Fixpoint sock_stem (s : string) : option string :=
  match s with
  | EmptyString => None
  | String a s' => if String.eqb s ".sock" then Some ""%string else String a <$> sock_stem s'
  end.

Definition candidates (n : host) : list VmHandle.t :=
  match h_read_dir (api_sock_dir cfg) n with
  | None => []
  | Some names =>
    omap (λ name,
      match sock_stem name with
      | Some (String c id' as id) =>
        let path := path_join (api_sock_dir cfg) name in
        let pid := match h_read_dir "/proc" n with
                   | Some procs => find_pid procs path n
                   | None => None
                   end in
        Some (VmHandle.mk id "firecracker" None pid (Some path) (Some (vsock_path id)) None None)
      | _ => None
      end) names
  end.

Fixpoint keep_live (hs : list VmHandle.t) : fc (list VmHandle.t) :=
  match hs with
  | [] => mret []
  | h :: hs' =>
    alive ← probe h;
    rest ← keep_live hs';
    mret (if alive : bool then h :: rest else rest)
  end.
Definition discover : fc (list VmHandle.t) :=
  hs ← ask candidates; keep_live hs.

(** ** The backend as a [Vmm] *)

Definition firecracker : Vmm := {|
  Vmm.world := Firecracker;
  Vmm.create i sp := create_inner i sp None;
  Vmm.create_in_subnet i sp ab := create_inner i sp (Some ab);
  Vmm.image_cache_hit := image_cache_hit;
  Vmm.prefetch_image := prefetch_image;
  Vmm.probe := probe;
  Vmm.supports_detached_warm_pool := false;
  Vmm.requires_guest_agent := true;
  Vmm.capabilities := VmmCapabilities.mk true true true;
  Vmm.start := start;
  Vmm.pause := pause;
  Vmm.resume := resume;
  Vmm.snapshot := snapshot;
  Vmm.restore i _ from := restore i from;
  Vmm.stop := stop;
  Vmm.stats := stats;
  Vmm.live w := dom (vms w) |}.

(** ** Lemmas *)

(** A relation on nodes that every call but the spawning of a process respects. *)
Class HostRel (R : relation host) : Prop := {
  rel_pre :: PreOrder R;
  rel_mkdir p h : R h (h_create_dir_all p h).1;
  rel_remove p h : R h (h_remove_file p h).1;
  rel_rmdir p h : R h (h_remove_dir_all p h);
  rel_write p t h : R h (h_write p t h).1;
  rel_copy p q h : R h (h_copy p q h).1;
  rel_spawn_err c h h' e : h_spawn c h = (h', inl e) → R h h';
  rel_killpg p h : R h (h_killpg p h);
  rel_reap c h : R h (h_reap c h);
  rel_request m s p b l h : R h (h_request m s p b l h).1;
  rel_sleep d h : R h (h_sleep_ms d h);
  rel_pull i d h : R h (h_pull_and_build i d h).1;
  rel_cache i d h : R h (h_cache_hit i d h).1 }.

#[global] Instance no_relation : HostRel (λ _ _, True).
Proof. by repeat split. Qed.

Section calm.
Context (R : relation host) `{HR : HostRel R}.

(** Calls that leave the table alone and respect the relation. *)
Definition calm {A} (m : fc A) : Prop := ∀ w, vms (m w).1 = vms w ∧ R (node w) (node (m w).1).

Lemma calm_bind {A B} (m : fc A) (k : A → fc B) :
  calm m → (∀ a, calm (k a)) → calm (m ≫= k).
Proof.
  intros Hm Hk w. unfold mbind, fc_bind. destruct (Hm w) as [H1 H2].
  destruct (m w) as [w1 [e|a]]; simpl in *; [done|]. destruct (Hk a w1) as [H3 H4].
  split; [congruence|]. by etrans.
Qed.
Lemma calm_ret {A} (a : A) : calm (mret a). Proof. done. Qed.
Lemma calm_throw {A} e : calm (throw (A := A) e). Proof. done. Qed.
Lemma calm_on_node {A} err (op : host → host * (string + A)) :
  (∀ h, R h (op h).1) → calm (on_node err op).
Proof. intros Ho w. unfold on_node. specialize (Ho (node w)). by destruct (op (node w)). Qed.
Lemma calm_ignoring {A} (op : host → host * A) : (∀ h, R h (op h).1) → calm (ignoring op).
Proof. intros Ho w. by split. Qed.
Lemma calm_just op : (∀ h, R h (op h)) → calm (just op). Proof. intros Ho w. by split. Qed.
Lemma calm_ask {A} (f : host → A) : calm (ask f). Proof. done. Qed.
Lemma calm_forgiving {A} (m : fc A) : calm m → calm (forgiving m).
Proof. intros Hm w. apply Hm. Qed.
Lemma calm_succeeds {A} (m : fc A) : calm m → calm (succeeds m).
Proof. intros Hm w. specialize (Hm w). unfold succeeds. by destruct (m w) as [w1 []]. Qed.
Lemma calm_request m limit h path body : calm (request m limit h path body).
Proof.
  unfold request. destruct (VmHandle.api_socket h) as [s|]; [|apply calm_throw]. intros w.
  pose proof (rel_request m s path body limit (node w)). by destruct (h_request _ _ _ _ _ _).
Qed.

Hint Resolve calm_bind calm_ret calm_throw calm_on_node calm_ignoring calm_just calm_ask
  calm_forgiving calm_succeeds calm_request : fc.
Hint Extern 1 (R _ _) => first [reflexivity | apply rel_mkdir | apply rel_remove | apply rel_rmdir
  | apply rel_write | apply rel_copy | apply rel_killpg | apply rel_reap | apply rel_sleep
  | apply rel_pull | apply rel_cache] : fc.

Lemma calm_put h path body : calm (fc_put h path body).
Proof. unfold fc_put. auto with fc. Qed.
Lemma calm_post h path body : calm (fc_post h path body).
Proof. unfold fc_post. auto with fc. Qed.
Lemma calm_patch h path body : calm (fc_patch h path body).
Proof. unfold fc_patch. auto with fc. Qed.
Lemma calm_get h path : calm (fc_get h path).
Proof. unfold fc_get. apply calm_bind; [auto with fc|]. intros b. destruct (parse_json b); auto with fc. Qed.
Lemma calm_wait n delay path : calm (wait_loop n delay path).
Proof.
  revert delay. induction n as [|n IH]; intros delay; simpl; [auto with fc|].
  apply calm_bind; [auto with fc|]. intros []; auto 6 with fc.
Qed.

Hint Resolve calm_put calm_post calm_patch calm_get calm_wait : fc.

Lemma calm_environment : calm check_environment.
Proof.
  unfold check_environment. apply calm_bind; [auto with fc|]. intros []; simpl; [|auto with fc].
  apply calm_bind; [auto with fc|]. intros []; simpl; [|auto with fc].
  apply calm_bind; [auto with fc|]. intros []; simpl; auto with fc.
Qed.

Lemma calm_io_limit id iops pid rootfs : calm (apply_io_limit id iops pid rootfs).
Proof.
  unfold apply_io_limit. destruct iops as [i|]; [|auto with fc]. destruct (i <=? 0); auto 12 with fc.
Qed.

Lemma calm_rootfs spec id : calm (prepare_rootfs spec id).
Proof. unfold prepare_rootfs, resolve_rootfs. auto 12 with fc. Qed.

Lemma calm_configure h sock spec subnet : calm (configure h sock spec subnet).
Proof.
  unfold configure, wait_for_socket.
  apply calm_bind; [auto with fc|]. intros _. apply calm_bind; [auto with fc|]. intros _.
  apply calm_bind; [auto with fc|]. intros _. apply calm_bind; [apply calm_rootfs|]. intros rootfs.
  apply calm_bind; [auto with fc|]. intros _.
  apply calm_bind; [destruct (VmHandle.pid h); auto using calm_io_limit with fc|]. intros _.
  apply calm_bind; [|auto with fc].
  destruct subnet, (VmHandle.vsock_cid h), (VmHandle.vsock_socket h); auto with fc.
Qed.

Lemma calm_probe h : calm (probe h).
Proof.
  unfold probe. apply calm_bind; [auto with fc|]. intros []; simpl; [|auto with fc].
  destruct (VmHandle.api_socket h); [|auto with fc].
  apply calm_bind; [auto with fc|]. intros []; simpl; auto with fc.
Qed.

Lemma calm_cache_hit spec : calm (image_cache_hit spec).
Proof.
  intros w. unfold image_cache_hit.
  pose proof (rel_cache (ImageRef.reference (SandboxSpec.image spec))
    (ImageRef.digest (SandboxSpec.image spec)) (node w)). by destruct (h_cache_hit _ _ _).
Qed.

Lemma calm_prefetch spec : calm (prefetch_image spec).
Proof. unfold prefetch_image. auto 6 with fc. Qed.

Lemma calm_files paths : calm (require_files paths).
Proof.
  induction paths as [|p paths IH]; simpl; [auto with fc|].
  apply calm_bind; [auto with fc|]. intros []; simpl; auto with fc.
Qed.

Lemma calm_stats h : calm (stats h). Proof. unfold stats. auto with fc. Qed.

(** Calls that cannot fail either. *)
Definition serene (m : fc ()) : Prop := calm m ∧ ∀ w, (m w).2 = inr ().

Lemma serene_bind (m k : fc ()) : serene m → serene k → serene (_ ← m; k).
Proof.
  intros [Hm Hm2] [Hk Hk2]. split; [auto with fc|]. intros w. unfold mbind, fc_bind.
  specialize (Hm2 w). destruct (m w) as [w1 r]. simpl in *. subst r. apply Hk2.
Qed.
Lemma serene_ret : serene (mret ()). Proof. split; [auto with fc|done]. Qed.
Lemma serene_just op : (∀ h, R h (op h)) → serene (just op).
Proof. split; [auto with fc|done]. Qed.
Lemma serene_ignoring {A} (op : host → host * A) : (∀ h, R h (op h).1) → serene (ignoring op).
Proof. split; [auto with fc|done]. Qed.
Hint Resolve serene_ret serene_just serene_ignoring : fc.

Lemma serene_shutdown h mode : serene (ask_shutdown h mode).
Proof.
  destruct mode; [|apply serene_ret].
  assert (∀ w, (ask_shutdown h StopMode.Graceful w).2 = inr () ∧
    vms (ask_shutdown h StopMode.Graceful w).1 = vms w ∧
    R (node w) (node (ask_shutdown h StopMode.Graceful w).1)) as Ha.
  { intros w. unfold ask_shutdown.
    destruct (calm_post h "/actions" (JObj [("action_type"%string, JStr "SendCtrlAltDel")]) w).
    destruct (fc_post _ _ _ w) as [w1 [e|[]]]; [done|]. split; [done|]. split; [done|].
    simpl in *. etrans; [done|]. apply rel_sleep. }
  split; intros w; apply Ha.
Qed.

Lemma serene_clean_up h owned : serene (clean_up h owned).
Proof. unfold clean_up. repeat apply serene_bind; try case_match; auto with fc. Qed.

(** [stop] never fails, and takes the machine out of the table. *)
Lemma stop_vms h mode w :
  (stop h mode w).2 = inr () ∧ vms (stop h mode w).1 = delete (VmHandle.id h) (vms w) ∧
  R (node w) (node (stop h mode w).1).
Proof.
  unfold stop, mbind, fc_bind. destruct (serene_shutdown h mode) as [Hc Hr].
  destruct (Hc w) as [H1 H2]. specialize (Hr w).
  destruct (ask_shutdown h mode w) as [w1 r1]. simpl in *. subst r1.
  destruct (serene_clean_up h (vms w1 !! VmHandle.id h)) as [Hc2 Hr2].
  set (w2 := set_vms (delete (VmHandle.id h) (vms w1)) w1).
  destruct (Hc2 w2) as [H3 H4]. simpl in *. split; [apply Hr2|].
  split; [by rewrite H3, <-H1|]. by etrans.
Qed.

Lemma or_stop_vms h m w :
  calm m →
  R (node w) (node (or_stop h m w).1) ∧
  match or_stop h m w with
  | (w', inr h') => h' = h ∧ vms w' = vms w
  | (w', inl _) => vms w' = delete (VmHandle.id h) (vms w)
  end.
Proof.
  intros Hm. unfold or_stop. destruct (Hm w) as [H1 H2].
  destruct (m w) as [w1 [e|[]]]; simpl in *; [|done].
  destruct (stop_vms h StopMode.Force w1) as (_ & Hs & Hr). split; [by etrans|]. congruence.
Qed.

(** The handle of a new process. *)
Definition handle_of (id : string) (subnet : option (Z * Z)) (c : process) (h : VmHandle.t) : Prop :=
  ∃ cid, h = VmHandle.mk id "firecracker" None (process_id c)
    (Some (path_join (api_sock_dir cfg) (id +:+ ".sock"))) (Some (vsock_path id)) (Some cid) subnet.

Lemma spawned id subnet w :
  let '(w', r) := spawn_firecracker id subnet w in
  vms w' = vms w ∧
  match r with
  | inl _ => R (node w) (node w')
  | inr (h, _, c) => handle_of id subnet c h ∧
    ∃ n1 args, R (node w) n1 ∧ h_spawn args n1 = (node w', inr c)
  end.
Proof.
  unfold spawn_firecracker.
  set (before := (_ ← ignoring (h_remove_file (vsock_path id));
    _ ← on_node ClouisleError.io (h_create_dir_all (api_sock_dir cfg));
    stale ← ask (h_exists (path_join (api_sock_dir cfg) (id +:+ ".sock")));
    (if stale : bool
     then on_node (λ e, ClouisleError.io ("remove stale API socket " +:+
            path_join (api_sock_dir cfg) (id +:+ ".sock") +:+ ": " +:+ e))
            (h_remove_file (path_join (api_sock_dir cfg) (id +:+ ".sock")))
     else mret ())) : fc ()).
  assert (calm before) as Hb.
  { unfold before. apply calm_bind; [auto with fc|]. intros _. apply calm_bind; [auto with fc|].
    intros _. apply calm_bind; [auto with fc|]. intros []; auto with fc. }
  destruct (Hb w) as [H1 H2]. clear Hb. revert H1 H2.
  unfold before, mbind, fc_bind, ignoring, on_node, ask. simpl.
  destruct (h_remove_file (vsock_path id) (node w)) as [n1 r1]. simpl.
  destruct (h_create_dir_all _ n1) as [n2 [e|[]]]; simpl; [done|].
  destruct (h_exists _ n2); simpl; [destruct (h_remove_file _ n2) as [n3 [e|[]]]; simpl; [done|]|];
    (intros _ H2; destruct (h_spawn _ _) as [n4 [e|c]] eqn:Hsp; simpl; split; [done| |done|];
     [apply rel_spawn_err in Hsp; by etrans| split; [by eexists|eauto]]).
Qed.

End calm.

(** A machine is in the table exactly when the whole of [launch] succeeds. *)
Lemma launch_vms id subnet setup w :
  (∀ h s, calm (λ _ _, True) (setup h s)) →
  match launch id subnet setup w with
  | (w', inr h) => VmHandle.id h = id ∧ dom (vms w') = {[id]} ∪ dom (vms w)
  | (w', inl _) => dom (vms w') ⊆ dom (vms w)
  end.
Proof.
  intros Hsame. pose proof (spawned (λ _ _, True) id subnet w) as Hs. unfold launch.
  unfold mbind at 1, fc_bind at 1.
  destruct (spawn_firecracker id subnet w) as [w1 [e|[[h s] c]]]; destruct Hs as [Hs Hh];
    [by rewrite Hs|]. destruct Hh as [[cid ->] _].
  unfold mbind, fc_bind, register. set (w2 := set_vms _ w1). set (h := VmHandle.mk _ _ _ _ _ _ _ _).
  destruct (or_stop_vms (λ _ _, True) h (setup h s) w2 (Hsame h s)) as [_ Ho].
  destruct (or_stop h (setup h s) w2) as [w3 [e|h']].
  - rewrite Ho. unfold w2. simpl. rewrite dom_delete_L, dom_insert_L, Hs. set_solver.
  - destruct Ho as [-> ->]. unfold w2. simpl. by rewrite dom_insert_L, Hs.
Qed.

Lemma guarded_vms {A B} (m : fc A) (k : A → fc B) (Q : Firecracker → outcome B → Prop) w :
  calm (λ _ _, True) m → (∀ w' e, vms w' = vms w → Q w' (inl e)) →
  (∀ a w', vms w' = vms w → Q (k a w').1 (k a w').2) → Q ((m ≫= k) w).1 ((m ≫= k) w).2.
Proof.
  intros Hm He Hk. unfold mbind, fc_bind. destruct (Hm w) as [H1 _].
  destruct (m w) as [w1 [e|a]]; simpl in *; auto.
Qed.

(** What [create] and [restore] do to the table. *)
Definition launched (id : string) (before : gset string) (w : Firecracker) (r : outcome VmHandle.t)
  : Prop :=
  match r with
  | inr h => VmHandle.id h = id ∧ dom (vms w) = {[id]} ∪ before
  | inl _ => dom (vms w) ⊆ before
  end.

Lemma launch_launched id subnet setup w w0 :
  vms w = vms w0 → (∀ h s, calm (λ _ _, True) (setup h s)) →
  launched id (dom (vms w0)) (launch id subnet setup w).1 (launch id subnet setup w).2.
Proof.
  intros Hw Hc. pose proof (launch_vms id subnet setup w Hc) as Hl.
  destruct (launch id subnet setup w) as [w' [e|h]]; simpl in *; by rewrite <-Hw.
Qed.

Lemma create_launched id sp sub w :
  launched id (dom (vms w)) (create_inner id sp sub w).1 (create_inner id sp sub w).2.
Proof.
  unfold create_inner. apply (guarded_vms _ _ (launched id _)).
  - apply calm_environment, _.
  - intros w' e Hw. simpl. by rewrite Hw.
  - intros _ w' Hw. apply launch_launched; [done|]. intros h s. apply calm_configure, _.
Qed.

Lemma restore_launched id from w :
  launched id (dom (vms w)) (restore id from w).1 (restore id from w).2.
Proof.
  unfold restore. apply (guarded_vms _ _ (launched id _)).
  { apply calm_files, _. } { intros w' e Hw. simpl. by rewrite Hw. }
  intros _ w1 Hw1. apply (guarded_vms _ _ (launched id _)).
  { apply calm_environment, _. } { intros w' e Hw. simpl. by rewrite Hw, Hw1. }
  intros _ w' Hw. apply launch_launched; [congruence|]. intros h s.
  apply calm_bind; [apply _|apply calm_wait, _|]. intros _. apply calm_put, _.
Qed.

Lemma calm_live {A} (m : fc A) w : calm (λ _ _, True) m → dom (vms (m w).1) = dom (vms w).
Proof. intros Hm. by rewrite (proj1 (Hm w)). Qed.

(** C8: [FirecrackerVmm] keeps the promises the control plane relies on, whatever the
    node answers: [create], [create_in_subnet] and [restore] answer a machine with the id
    that was asked for and add exactly that id to the machines that exist; when they fail
    at any of their steps they leave nothing behind; [stop], graceful or forced, cannot
    fail and ends exactly its machine; and [start], [pause], [resume], [snapshot],
    [probe], [stats], [image_cache_hit] and [prefetch_image] create and destroy nothing. *)
Theorem firecracker_is_a_vmm :
  VmmOk firecracker ∧ StopTotal firecracker ∧ ∀ h m w, (Vmm.stop (Vmm := firecracker) h m w).2 = inr ().
Proof.
  split; [|split; [split; intros h w|intros h m w]; apply (stop_vms (λ _ _, True))]. split; simpl.
  - intros i sp w w' h Hc. pose proof (create_launched i sp None w) as Hl. by rewrite Hc in Hl.
  - intros i sp w w' h Hc. pose proof (create_launched i sp None w) as Hl. by rewrite Hc in Hl.
  - intros i sp sn w w' h Hc. pose proof (restore_launched i sn w) as Hl. by rewrite Hc in Hl.
  - intros i sp sn w w' h Hc. pose proof (restore_launched i sn w) as Hl. by rewrite Hc in Hl.
  - intros h w. apply calm_live, calm_put, _.
  - intros h w. apply calm_live, calm_patch, _.
  - intros h w. apply calm_live, calm_patch, _.
  - intros h w. apply calm_live, calm_probe, _.
  - intros h w. apply calm_live, calm_cache_hit, _.
  - intros h w. apply calm_live, calm_prefetch, _.
  - intros i sp ab w w' h Hc. pose proof (create_launched i sp (Some ab) w) as Hl. by rewrite Hc in Hl.
  - intros i sp ab w w' h Hc. pose proof (create_launched i sp (Some ab) w) as Hl. by rewrite Hc in Hl.
  - intros h k out w. apply calm_live, calm_put, _.
  - intros h w. apply calm_live, calm_stats, _.
  - intros h m w w' Hs. destruct (stop_vms (λ _ _, True) h m w) as (_ & Hv & _).
    rewrite Hs in Hv. simpl in Hv. by rewrite Hv, dom_delete_L.
  - intros h m w. destruct (stop_vms (λ _ _, True) h m w) as (_ & Hv & _).
    rewrite Hv, dom_delete_L. set_solver.
Qed.

(** ** Processes

    The node's processes: only [spawn] starts one, and one that was reaped has
    ended. *)
Definition no_new (runs : process → host → Prop) (h h' : host) : Prop := ∀ p, runs p h' → runs p h.

Class FcHostOk : Type := {
  runs : process → host → Prop;
  only_spawn :: HostRel (no_new runs);
  spawn_runs args h h' c q : h_spawn args h = (h', inr c) → runs q h' → q = c ∨ runs q h;
  reaped_ends c h : ¬ runs c (h_reap c h) }.

Section processes.
Context {HO : FcHostOk}.
#[local] Abbreviation fewer := (no_new runs).

(** Every process that runs is the child of a machine in the table. *)
Definition tracked (w : Firecracker) : Prop :=
  (∀ q, runs q (node w) → ∃ id p, vms w !! id = Some p ∧ p_child p = Some q) ∧
  (∀ id p, vms w !! id = Some p → VmHandle.id (p_handle p) = id).

Lemma calm_tracked {A} (m : fc A) w : calm fewer m → tracked w → tracked (m w).1.
Proof.
  intros Hm [Ht Hi]. destruct (Hm w) as [Hv Hr]. split; rewrite Hv; [|done].
  intros q Hq. by apply Ht, Hr.
Qed.

(** [clean_up] ends the child of the entry. *)
Lemma clean_up_ends h p c w : p_child p = Some c → ¬ runs c (node (clean_up h (Some p) w).1).
Proof.
  intros Hc. unfold clean_up. simpl. rewrite Hc.
  set (first := match _ with Some pid => just (h_killpg (as_i32 pid)) | None => mret () end).
  assert (serene fewer first) as [_ Hf].
  { unfold first. case_match; [apply (serene_just fewer); intros ?; apply rel_killpg|apply (serene_ret fewer)]. }
  unfold mbind at 1, fc_bind at 1. specialize (Hf w). destruct (first w) as [w1 r]. simpl in Hf.
  subst r. unfold mbind at 1, fc_bind at 1. unfold just at 1.
  set (w2 := set_node (h_reap c (node w1)) w1).
  match goal with |- ¬ runs c (node (?m w2).1) => assert (serene fewer m) as [Hm _] end.
  { repeat apply (serene_bind fewer); try case_match;
      first [apply (serene_ret fewer) | apply (serene_ignoring fewer); intros ?; apply rel_remove
            | apply (serene_just fewer); intros ?; apply rel_rmdir]. }
  intros Hr. apply (Hm w2) in Hr. by apply reaped_ends in Hr.
Qed.

(** The end of the machine with this id. *)
Lemma stop_ends h mode w p c :
  vms w !! VmHandle.id h = Some p → p_child p = Some c → ¬ runs c (node (stop h mode w).1).
Proof.
  intros Hp Hc. unfold stop, mbind, fc_bind. destruct (serene_shutdown fewer h mode) as [Hca Hok].
  specialize (Hok w). destruct (Hca w) as [Hsv _]. destruct (ask_shutdown h mode w) as [w1 r].
  simpl in *. subst r. rewrite Hsv, Hp. by apply clean_up_ends.
Qed.

Lemma stop_tracked h mode w : tracked w → tracked (stop h mode w).1.
Proof.
  intros [Ht Hi]. destruct (stop_vms fewer h mode w) as (_ & Hv & Hr).
  split; [|intros id p; rewrite Hv, lookup_delete_Some; naive_solver].
  intros q Hq. destruct (Ht q (Hr q Hq)) as (id & p & Hp & Hc). exists id, p. split; [|done].
  rewrite Hv. apply lookup_delete_Some. split; [|done]. intros <-. by eapply stop_ends.
Qed.

Lemma launch_tracked id subnet setup w :
  vms w !! id = None → (∀ h s, calm fewer (setup h s)) → tracked w →
  tracked (launch id subnet setup w).1.
Proof.
  intros Hf Hset [Ht Hi]. pose proof (spawned fewer id subnet w) as Hs. unfold launch.
  unfold mbind at 1, fc_bind at 1.
  destruct (spawn_firecracker id subnet w) as [w1 [e|[[h s] c]]]; destruct Hs as [Hv Hh]; simpl.
  { split; rewrite Hv; [|done]. intros q Hq. by apply Ht, Hh. }
  destruct Hh as [[cid Hh] (n1 & args & Hn & Hsp)]. unfold mbind, fc_bind, register.
  assert (VmHandle.id h = id) as Hid by by rewrite Hh.
  assert (tracked (set_vms (<[VmHandle.id h:=fc_process h (Some c)]> (vms w1)) w1)) as Htr.
  { rewrite Hid, Hv. split; simpl.
    - intros q Hq. destruct (spawn_runs _ _ _ _ _ Hsp Hq) as [->|Hold].
      + exists id, (fc_process h (Some c)). by rewrite lookup_insert_eq.
      + destruct (Ht q (Hn q Hold)) as (id' & p & Hp & Hc). exists id', p. split; [|done].
        rewrite lookup_insert_ne; [done|]. congruence.
    - intros id' p. destruct (decide (id' = id)) as [->|Hne].
      + rewrite lookup_insert_eq. by intros [= <-].
      + rewrite lookup_insert_ne by done. apply Hi. }
  unfold or_stop. match goal with |- context [setup h s ?w2] =>
    pose proof (calm_tracked (setup h s) w2 (Hset h s) Htr) as Ht2;
    destruct (setup h s w2) as [w3 [e|[]]] end; simpl; [by apply stop_tracked|done].
Qed.

(** A guarded launch. *)
Lemma guarded_tracked {A B} (m : fc A) (k : A → fc B) w :
  calm fewer m → (∀ a w', vms w' = vms w → tracked w' → tracked (k a w').1) → tracked w →
  tracked ((m ≫= k) w).1.
Proof.
  intros Hm Hk Ht. unfold mbind, fc_bind. pose proof (calm_tracked m w Hm Ht) as Ht1.
  destruct (Hm w) as [Hv _]. destruct (m w) as [w1 [e|a]]; simpl in *; auto.
Qed.

(** A call of the trait. *)
Inductive fc_call : Type :=
| Create (id : string) (spec : SandboxSpec.t) (subnet : option (Z * Z))
| Restore (id : string) (from : SnapshotPaths.t)
| Stop (h : VmHandle.t) (mode : StopMode.t)
| Start (h : VmHandle.t) | Pause (h : VmHandle.t) | Resume (h : VmHandle.t)
| Snapshot (h : VmHandle.t) (kind : SnapshotKind.t) (out : SnapshotPaths.t)
| Probe (h : VmHandle.t) | Stats (h : VmHandle.t)
| Prefetch (spec : SandboxSpec.t) | CacheHit (spec : SandboxSpec.t).

Definition after_call (c : fc_call) (w : Firecracker) : Firecracker :=
  match c with
  | Create id spec subnet => (create_inner id spec subnet w).1
  | Restore id from => (restore id from w).1
  | Stop h mode => (stop h mode w).1
  | Start h => (start h w).1 | Pause h => (pause h w).1 | Resume h => (resume h w).1
  | Snapshot h kind out => (snapshot h kind out w).1
  | Probe h => (probe h w).1 | Stats h => (stats h w).1
  | Prefetch spec => (prefetch_image spec w).1 | CacheHit spec => (image_cache_hit spec w).1
  end.

(** New machines have new ids. *)
Definition new_id (c : fc_call) (w : Firecracker) : bool :=
  match c with
  | Create id _ _ | Restore id _ => bool_decide (vms w !! id = None)
  | _ => true
  end.

Lemma after_call_tracked c w : new_id c w = true → tracked w → tracked (after_call c w).
Proof.
  destruct c; simpl; intros Hn Ht; try apply bool_decide_eq_true_1 in Hn.
  - apply guarded_tracked; [apply calm_environment, _| |done]. intros _ w' Hv Ht'.
    apply launch_tracked; [by rewrite Hv| |done]. intros h s. apply calm_configure, _.
  - apply guarded_tracked; [apply calm_files, _| |done]. intros _ w1 Hv1 Ht1.
    apply guarded_tracked; [apply calm_environment, _| |done]. intros _ w2 Hv2 Ht2.
    apply launch_tracked; [by rewrite Hv2, Hv1| |done]. intros h s.
    apply calm_bind; [apply _|apply calm_wait, _|]. intros _. apply calm_put, _.
  - by apply stop_tracked.
  - apply calm_tracked; [apply calm_put, _|done].
  - apply calm_tracked; [apply calm_patch, _|done].
  - apply calm_tracked; [apply calm_patch, _|done].
  - apply calm_tracked; [apply calm_put, _|done].
  - apply calm_tracked; [apply calm_probe, _|done].
  - apply calm_tracked; [apply calm_stats, _|done].
  - apply calm_tracked; [apply calm_prefetch, _|done].
  - apply calm_tracked; [apply calm_cache_hit, _|done].
Qed.

(** What the backend has come to after calls, the ids of new machines new. *)
Inductive reached : Firecracker → Prop :=
| reached_new n : (∀ q, ¬ runs q n) → reached (fc_world n ∅)
| reached_call w c : reached w → new_id c w = true → reached (after_call c w).

Lemma reached_tracked w : reached w → tracked w.
Proof.
  induction 1 as [n Hn|w c _ IH Hc]; [|by apply after_call_tracked].
  split; simpl; [intros q Hq; by destruct (Hn q)|intros id p; by rewrite lookup_empty].
Qed.

(** Every machine of the table stopped. *)
Definition stop_all (w : Firecracker) : Firecracker :=
  foldl (λ w h, (stop h StopMode.Force w).1) w (p_handle <$> (map_to_list (vms w)).*2).

Lemma stops_vms hs w :
  vms (foldl (λ w h, (stop h StopMode.Force w).1) w hs)
  = foldl (λ m h, delete (VmHandle.id h) m) (vms w) hs.
Proof.
  revert w. induction hs as [|h hs IH]; intros w; simpl; [done|].
  rewrite IH. by destruct (stop_vms fewer h StopMode.Force w) as (_ & -> & _).
Qed.

Lemma deletes_lookup (hs : list VmHandle.t) (m : gmap string FcProcess) id p :
  foldl (λ m h, delete (VmHandle.id h) m) m hs !! id = Some p →
  m !! id = Some p ∧ id ∉ VmHandle.id <$> hs.
Proof.
  revert m. induction hs as [|h hs IH]; intros m; simpl; [intros ?; split; [done|apply not_elem_of_nil]|].
  intros Hl. apply IH in Hl as [Hl Hn]. apply lookup_delete_Some in Hl as [Hne Hl].
  split; [done|]. apply not_elem_of_cons. split; [congruence|done].
Qed.

(** C9: No Firecracker process is lost.  However the calls of the trait were mixed
    and whichever of their steps failed, as long as machines that still exist do not
    share an id, every process that runs on the node is the child of an entry of the
    table; so stopping the machines of the table leaves no process behind. *)
Theorem no_process_is_orphaned w :
  reached w →
  (∀ q, runs q (node w) → ∃ id p, vms w !! id = Some p ∧ p_child p = Some q) ∧
  vms (stop_all w) = ∅ ∧ ∀ q, ¬ runs q (node (stop_all w)).
Proof.
  intros Hr%reached_tracked. split; [apply Hr|]. unfold stop_all.
  set (hs := p_handle <$> (map_to_list (vms w)).*2).
  assert (vms (foldl (λ w h, (stop h StopMode.Force w).1) w hs) = ∅) as He.
  { rewrite stops_vms. apply map_empty. intros id. apply eq_None_not_Some. intros [p Hp].
    apply deletes_lookup in Hp as [Hl Hn]. apply Hn. destruct Hr as [_ Hi].
    rewrite <-(Hi id p Hl). unfold hs. rewrite <-!list_fmap_compose.
    apply list_elem_of_fmap. exists (id, p). split; [done|]. by apply elem_of_map_to_list. }
  split; [done|]. intros q Hq.
  assert (tracked (foldl (λ w h, (stop h StopMode.Force w).1) w hs)) as [Ht _].
  { clear He Hq. clearbody hs. revert w Hr. induction hs as [|h hs IH]; intros w Hr; simpl; [done|].
    by apply IH, stop_tracked. }
  destruct (Ht q Hq) as (id & p & Hp & _). by rewrite He, lookup_empty in Hp.
Qed.

End processes.
End backend.

(** ** Device numbers *)

(** How the kernel packs the numbers of a device into what [stat] answers. *)
Definition encode_dev (major minor : Z) : Z :=
  Z.lor (Z.lor (Z.land minor 255) (Z.shiftl major 8)) (Z.shiftl (Z.shiftr minor 8) 20).

Lemma land_mask_not (x k : Z) : 0 <= x < 2 ^ 64 → 0 <= k <= 64 →
  Z.land x (u64_max - (2 ^ k - 1)) = Z.shiftl (Z.shiftr x k) k.
Proof.
  intros Hx Hk. assert (u64_max - (2 ^ k - 1) = Z.shiftl (Z.ones (64 - k)) k) as ->.
  { rewrite Z.shiftl_mul_pow2, Z.ones_equiv by lia.
    assert (2 ^ (64 - k) * 2 ^ k = 2 ^ 64) as Hp by (rewrite <-Z.pow_add_r by lia; f_equal; lia).
    unfold u64_max. lia. }
  apply Z.bits_inj'. intros i Hi. rewrite Z.land_spec, !Z.shiftl_spec by done.
  destruct (decide (i < k)) as [Hlt|Hge].
  - by rewrite !(Z.testbit_neg_r _ (i - k)), andb_false_r by lia.
  - rewrite Z.shiftr_spec by lia. rewrite Z.testbit_ones by lia.
    replace (i - k + k) with i by lia. destruct (decide (i < 64)).
    + rewrite (proj2 (Z.leb_le 0 (i - k))), (proj2 (Z.ltb_lt (i - k) (64 - k))) by lia.
      by rewrite andb_true_r.
    + rewrite (Z.bits_above_log2 x i); [done|lia|]. destruct (decide (x = 0)) as [->|]; [simpl; lia|].
      apply Z.log2_lt_pow2; [lia|]. apply Z.lt_le_trans with (2 ^ 64); [lia|].
      apply Z.pow_le_mono_r; lia.
Qed.

Lemma lor_shiftl a b k : 0 <= k → 0 <= a < 2 ^ k → Z.lor a (Z.shiftl b k) = a + b * 2 ^ k.
Proof.
  intros Hk Ha. rewrite <-Z.shiftl_mul_pow2 by done.
  assert (Z.land a (Z.shiftl b k) = 0) as Hl.
  { apply Z.bits_inj'. intros i Hi. rewrite Z.land_spec, Z.bits_0, Z.shiftl_spec by done.
    destruct (decide (i < k)); [by rewrite (Z.testbit_neg_r _ (i - k)), andb_false_r by lia|].
    destruct (decide (a = 0)) as [->|]; [by rewrite Z.bits_0|].
    rewrite (Z.bits_above_log2 a i); [done|lia|]. apply Z.log2_lt_pow2; [lia|].
    apply Z.lt_le_trans with (2 ^ k); [lia|]. apply Z.pow_le_mono_r; lia. }
  rewrite <-Z.lxor_lor by done. symmetry. by apply Z.add_nocarry_lxor.
Qed.

Lemma encode_dev_sum major minor :
  0 <= major < 4096 → 0 <= minor < 1048576 →
  encode_dev major minor = minor mod 256 + major * 256 + minor / 256 * 1048576.
Proof.
  intros Hma Hmi. unfold encode_dev. pose proof (Z.mod_pos_bound minor 256 ltac:(lia)).
  change 255 with (Z.ones 8). rewrite Z.land_ones by done. change (2 ^ 8) with 256.
  rewrite (lor_shiftl (minor mod 256) major 8); [|lia|change (2 ^ 8) with 256; lia].
  change (2 ^ 8) with 256. rewrite lor_shiftl; [|lia|change (2 ^ 20) with 1048576; lia].
  change (2 ^ 20) with 1048576.
  by rewrite (Z.shiftr_div_pow2 minor 8) by lia.
Qed.

(** C36: The block-device limit names the device it is meant for: for every device
    number the kernel hands out (12 bits of major, 20 bits of minor, packed in the
    32 bits [stat] answers), the two shifts and masks of [apply_io_limit] recover
    the major and the minor number exactly. *)
Theorem device_numbers_are_exact major minor :
  0 <= major < 4096 → 0 <= minor < 1048576 →
  let dev := encode_dev major minor in
  0 <= dev < 2 ^ 32 ∧ dev_major dev = major ∧ dev_minor dev = minor.
Proof.
  intros Hma Hmi dev. pose proof (encode_dev_sum major minor Hma Hmi) as Hd. fold dev in Hd.
  pose proof (Z.mod_pos_bound minor 256 ltac:(lia)). pose proof (Z.div_mod minor 256 ltac:(lia)).
  assert (0 <= dev < 2 ^ 32) as Hb by (change (2 ^ 32) with 4294967296; nia).
  change (2 ^ 32) with 4294967296 in Hb. split; [done|].
  unfold dev_major, dev_minor. rewrite !Z.shiftr_div_pow2 by lia.
  change (2 ^ 8) with 256. change (2 ^ 12) with 4096. change (2 ^ 32) with 4294967296.
  rewrite (Z.div_small dev 4294967296) by lia. rewrite Z.land_0_l, Z.lor_0_r.
  change (Z.land (dev / 256) 4095) with (Z.land (dev / 256) (Z.ones 12)).
  change (Z.land dev 255) with (Z.land dev (Z.ones 8)).
  change (u64_max - 255) with (u64_max - (2 ^ 8 - 1)).
  rewrite land_mask_not, lor_shiftl, !Z.land_ones, Z.shiftr_div_pow2.
  all: try lia.
  - change (2 ^ 8) with 256. change (2 ^ 12) with 4096. clearbody dev.
    set (q := minor / 256) in *. set (r := minor mod 256) in *. rewrite Hd.
    assert ((r + major * 256 + q * 1048576) / 256 = major + q * 4096) as ->
      by (symmetry; apply Z.div_unique with r; lia).
    rewrite Z.mod_add, Z.mod_small by lia. split; [done|]. rewrite Z.div_div by lia.
    replace (r + major * 256 + q * 1048576) with (r + (major + q * 4096) * 256) by lia.
    rewrite Z.mod_add, Z.mod_small by lia.
    assert ((r + (major + q * 4096) * 256) / (4096 * 256) = q) as ->
      by (symmetry; apply Z.div_unique with (r + major * 256); lia). lia.
  - rewrite Z.land_ones by lia. apply Z.mod_pos_bound. lia.
  - split; [apply Z.div_pos; lia|]. apply Z.div_lt_upper_bound; lia.
Qed.

Lemma device_numbers_are_exact_witness :
  let dev := encode_dev 259 70000 in
  0 <= dev < 2 ^ 32 ∧ dev_major dev = 259 ∧ dev_minor dev = 70000.
Proof. apply (device_numbers_are_exact 259 70000); lia. Defined.

(** For a 64-bit number whose major has more than 12 bits, which [makedev] of the C
    library admits, the upper bits of the major number appear in the minor. *)
Lemma wide_major_spills : dev_minor (2 ^ 44) = 2 ^ 32.
Proof. reflexivity. Qed.

(** ** A node in memory *)

Module FcDemo.
(** The processes that run and the number of the next one; the request for the root
    drive fails when the node is [broken]. *)
Record node_ : Type := mk { running : list Z; next : Z; broken : bool }.

Definition ok {A} (a : A) (n : node_) : node_ * (string + A) := (n, inr a).
Definition end_ (p : Z) (n : node_) : node_ :=
  mk (List.filter (λ q, negb (q =? p)) (running n)) (next n) (broken n).

#[local] Instance memory_node : FcHost := {|
  host := node_; process := Z;
  h_exists _ _ := true; h_is_file _ _ := true;
  h_create_dir_all _ := ok (); h_remove_file _ := ok (); h_remove_dir_all _ n := n;
  h_write _ _ := ok (); h_copy _ _ := ok (); h_device _ _ := inr 0;
  h_read_dir _ _ := None; h_read _ _ := None;
  h_spawn _ n := (mk (next n :: running n) (next n + 1) (broken n), inr (next n));
  process_id p := Some p; h_killpg _ n := n; h_alive p n := existsb (Z.eqb p) (running n);
  h_reap := end_;
  h_request _ _ path _ _ n :=
    (n, if String.eqb path "/drives/rootfs" && broken n then HttpFailed "refused"
        else HttpAnswer 204 "204 No Content" "");
  parse_json _ := inr JNull; h_sleep_ms _ n := n; h_now_ms _ := 0;
  h_pull_and_build _ _ := ok "/cache/rootfs.ext4"%string;
  h_cache_hit _ _ n := (n, true) |}.

#[local] Instance node_ok : FcHostOk.
Proof.
  refine {| runs := λ p n, p ∈ running n |}.
  - split; [split; [by intros x p|intros x y z H1 H2 p Hp; auto]|..]; unfold no_new; try by intros.
    intros p n q. simpl. intros Hq. apply list_elem_of_In, filter_In in Hq as [Hq _].
    by apply list_elem_of_In.
  - intros args h h' c q [= <- <-]. simpl. intros [->|]%elem_of_cons; auto.
  - intros c h Hc. apply list_elem_of_In, filter_In in Hc as [_ Hc]. by rewrite Z.eqb_refl in Hc.
Defined.

#[local] Existing Instance ToyDigest.digest.

(** A machine that is created, and one that fails while it is configured. *)
Definition w1 : Firecracker :=
  after_call default_config (Create "a" SandboxSpec.default None) (fc_world (mk [] 7 false) ∅).
Definition w2 : Firecracker :=
  after_call default_config (Create "b" SandboxSpec.default None) (fc_world (mk [] 7 true) ∅).

Lemma no_process_is_orphaned_witness :
  running (node w1) = [7] ∧
  (∀ q, q ∈ running (node w1) → ∃ id p, vms w1 !! id = Some p ∧ p_child p = Some q) ∧
  vms (stop_all default_config w1) = ∅ ∧
  (∀ q, q ∉ running (node (stop_all default_config w1))) ∧
  running (node w2) = [].
Proof.
  assert (reached default_config w1) as Hr.
  { apply reached_call; [|reflexivity]. apply reached_new. intros q. apply not_elem_of_nil. }
  split; [vm_compute; reflexivity|].
  destruct (no_process_is_orphaned default_config w1 Hr) as (H1 & H2 & H3).
  split; [apply H1|]. split; [apply H2|]. split; [apply H3|]. vm_compute; reflexivity.
Defined.
End FcDemo.
