(* ===== verification/Store.v ===== *)
(** * The store interface and the in-memory store
    ([crates/clouisle-store/src/{store_trait,memory}.rs])

    The trait [Store] is a class of operations over a state; [StoreOk] says what
    every store promises the control plane, as a refinement of a plain map from
    ids to sandbox contents.  The in-memory store is the first instance, the SQL
    stores are in [SqlStore].  The wall clock is an argument. *)

From S2P Require Import Prelude Core SandboxModel.

Module StoreError.
Inductive t : Set :=
| NotFound (message : string)
| Conflict (message : string)
| Sqlite (message : string)
| Io (message : string)
| Internal (message : string).

Definition display (e : t) : string :=
  match e with
  | NotFound m => "not found: " +:+ m
  | Conflict m => "conflict: " +:+ m
  | Sqlite m => "sqlite: " +:+ m
  | Io m => "io: " +:+ m
  | Internal m => "internal: " +:+ m
  end.

(** [From<StoreError> for ClouisleError]. *)
Definition into (e : t) : ClouisleError.t :=
  match e with
  | NotFound m => ClouisleError.not_found m
  | Conflict m => ClouisleError.invalid_state m
  | _ => ClouisleError.mk ErrorKind.Store (display e)
  end.
End StoreError.

Abbreviation StoreResult := (res StoreError.t).

(** The store could not do its work: anything but a missing or an existing row. *)
Definition fault {A} (r : StoreResult A) : Prop :=
  match r with
  | Err (StoreError.Sqlite _ | StoreError.Io _ | StoreError.Internal _) => True
  | _ => False
  end.

(** ** The trait *)

Class Store : Type := {
  store : Type;
  create_sandbox : Sandbox.t → store → store * StoreResult ();
  get_sandbox : string → Z → store → store * StoreResult Sandbox.t;
  update_sandbox_status : string → SandboxStatus.t → Z → store → store * StoreResult ();
  update_sandbox_spec : string → SandboxSpec.t → Z → store → store * StoreResult ();
  update_sandbox_status_message :
    string → SandboxStatus.t → option string → Z → store → store * StoreResult ();
  update_sandbox_node : string → option string → Z → store → store * StoreResult ();
  update_sandbox_vmm_meta : string → VmmMeta.t → Z → store → store * StoreResult ();
  update_sandbox_expiry : string → option Z → Z → store → store * StoreResult ();
  list_sandboxes : option SandboxStatus.t → Z → store → store * StoreResult (list Sandbox.t);
  delete_sandbox : string → store → store * StoreResult ();
  upsert_node : RegisteredNode.t → store → store * StoreResult ();
  list_ready_nodes : Z → store → store * StoreResult (list RegisteredNode.t);
  save_execution : ExecutionRecord.t → store → store * StoreResult ();
  get_execution : string → Z → store → store * StoreResult ExecutionRecord.t;
  list_executions : string → Z → store → store * StoreResult (list ExecutionRecord.t) }.

(** ** The abstract store *)

(** What of a sandbox every store keeps: everything but the bookkeeping times
    ([updated_at] and [ready_at]), with the other times at the resolution of a
    millisecond. *)
Definition content (s : Sandbox.t) : Sandbox.t :=
  Sandbox.mk (Sandbox.id s) (Sandbox.spec s) (Sandbox.status s)
    (timestamp_millis (Sandbox.created_at s)) 0 None
    (timestamp_millis <$> Sandbox.expires_at s) (Sandbox.vmm_meta s)
    (Sandbox.terminal_message s) (Sandbox.node_id s).

Definition set_status (st : SandboxStatus.t) (s : Sandbox.t) : Sandbox.t :=
  Sandbox.set_status s st (Sandbox.updated_at s).
Definition set_message (m : option string) (s : Sandbox.t) : Sandbox.t :=
  Sandbox.mk (Sandbox.id s) (Sandbox.spec s) (Sandbox.status s) (Sandbox.created_at s)
    (Sandbox.updated_at s) (Sandbox.ready_at s) (Sandbox.expires_at s) (Sandbox.vmm_meta s) m
    (Sandbox.node_id s).
Definition set_node (n : option string) (s : Sandbox.t) : Sandbox.t :=
  Sandbox.mk (Sandbox.id s) (Sandbox.spec s) (Sandbox.status s) (Sandbox.created_at s)
    (Sandbox.updated_at s) (Sandbox.ready_at s) (Sandbox.expires_at s) (Sandbox.vmm_meta s)
    (Sandbox.terminal_message s) n.
Definition set_expiry (e : option Z) (s : Sandbox.t) : Sandbox.t :=
  Sandbox.set_ready s (Sandbox.ready_at s) e.

Abbreviation abstract := (gmap string Sandbox.t).

(** The answer to an update of [id] by [f], on the abstract store. *)
Definition updated (m m' : abstract) (id : string) (f : Sandbox.t → Sandbox.t)
    (r : StoreResult ()) : Prop :=
  match m !! id with
  | None => m' = m ∧ ∃ msg, r = Err (StoreError.NotFound msg)
  | Some c => m' = <[id := f c]> m ∧ r = Ok ()
  end.
(** An operation faults and changes nothing, or it does what it is for. *)
Definition or_fault {A} (m m' : abstract) (r : StoreResult A) (P : Prop) : Prop :=
  (fault r ∧ m' = m) ∨ P.
Definition updates (m m' : abstract) (id : string) (f : Sandbox.t → Sandbox.t)
    (r : StoreResult ()) : Prop := or_fault m m' r (updated m m' id f r).

Definition with_status (o : option SandboxStatus.t) (s : Sandbox.t) : bool :=
  match o with Some st => bool_decide (Sandbox.status s = st) | None => true end.

(** A [DateTime] is inside chrono's range. *)
Definition in_range (t : Z) : Prop := dt_min ≤ t ≤ dt_max.
Lemma dt_add_range {C : Chrono} {CO : ChronoOk C} t n e : dt_add_seconds t n = Some e → in_range e.
Proof.
  intros He. unfold in_range.
  destruct (decide (- duration_max_secs ≤ n ≤ duration_max_secs)) as [Hn|Hn];
    [|by rewrite dt_add_duration_overflow in He].
  destruct (decide (dt_min ≤ t + n * ns_per_sec ≤ dt_max)) as [Hd|Hd];
    [|by rewrite dt_add_date_overflow in He].
  rewrite dt_add_in_range in He by done. by simplify_eq.
Qed.
Definition times_in_range (s : Sandbox.t) : Prop :=
  in_range (Sandbox.created_at s) ∧ in_range (Sandbox.updated_at s)
  ∧ (∀ t, Sandbox.ready_at s = Some t → in_range t)
  ∧ (∀ t, Sandbox.expires_at s = Some t → in_range t).

(** What a store promises.  Every operation may fail (the disk, the connection); it then
    has changed no row.  [StoreUp] below is a store whose operations do not fail. *)
Class StoreOk (S : Store) : Type := {
  store_wf : store → Prop;
  abs : store → abstract;
  create_law sb s : store_wf s → times_in_range sb →
    let '(s', r) := create_sandbox sb s in store_wf s' ∧
    or_fault (abs s) (abs s') r
      match abs s !! Sandbox.id sb with
      | Some _ => abs s' = abs s ∧ ∃ msg, r = Err (StoreError.Conflict msg)
      | None => abs s' = <[Sandbox.id sb := content sb]> (abs s) ∧ r = Ok ()
      end;
  get_law id now s : store_wf s →
    let '(s', r) := get_sandbox id now s in store_wf s' ∧ abs s' = abs s ∧
    (fault r ∨
     match abs s !! id with
     | Some c => ∃ sb, r = Ok sb ∧ content sb = c ∧ times_in_range sb
     | None => ∃ msg, r = Err (StoreError.NotFound msg)
     end);
  status_law id st now s : store_wf s → in_range now →
    let '(s', r) := update_sandbox_status id st now s in
    store_wf s' ∧ updates (abs s) (abs s') id (set_status st) r;
  spec_law id sp now s : store_wf s → in_range now →
    let '(s', r) := update_sandbox_spec id sp now s in
    store_wf s' ∧ updates (abs s) (abs s') id (λ c, Sandbox.set_spec c sp) r;
  status_message_law id st m now s : store_wf s → in_range now →
    let '(s', r) := update_sandbox_status_message id st m now s in
    store_wf s' ∧ updates (abs s) (abs s') id (set_message m ∘ set_status st) r;
  node_law id n now s : store_wf s → in_range now →
    let '(s', r) := update_sandbox_node id n now s in
    store_wf s' ∧ updates (abs s) (abs s') id (set_node n) r;
  vmm_meta_law id v now s : store_wf s → in_range now →
    let '(s', r) := update_sandbox_vmm_meta id v now s in
    store_wf s' ∧ updates (abs s) (abs s') id (λ c, Sandbox.set_vmm_meta c v) r;
  expiry_law id e now s : store_wf s → in_range now → (∀ t, e = Some t → in_range t) →
    let '(s', r) := update_sandbox_expiry id e now s in
    store_wf s' ∧ updates (abs s) (abs s') id (set_expiry (timestamp_millis <$> e)) r;
  list_law o now s : store_wf s →
    let '(s', r) := list_sandboxes o now s in store_wf s' ∧ abs s' = abs s ∧
    (fault r ∨
     ∃ l, r = Ok l ∧ Forall times_in_range l ∧
       content <$> l ≡ₚ List.filter (with_status o) (map_to_list (abs s)).*2);
  delete_law id s : store_wf s →
    let '(s', r) := delete_sandbox id s in store_wf s' ∧
    or_fault (abs s) (abs s') r
      match abs s !! id with
      | None => abs s' = abs s ∧ ∃ msg, r = Err (StoreError.NotFound msg)
      | Some _ => abs s' = delete id (abs s) ∧ r = Ok ()
      end;
  ready_nodes_law now_ms s : store_wf s →
    let '(s', _) := list_ready_nodes now_ms s in store_wf s' ∧ abs s' = abs s;
  upsert_node_law n s : store_wf s →
    let '(s', _) := upsert_node n s in store_wf s' ∧ abs s' = abs s;
  save_execution_law x s : store_wf s →
    let '(s', _) := save_execution x s in store_wf s' ∧ abs s' = abs s;
  get_execution_law id now s : store_wf s →
    let '(s', _) := get_execution id now s in store_wf s' ∧ abs s' = abs s;
  list_executions_law id now s : store_wf s →
    let '(s', _) := list_executions id now s in store_wf s' ∧ abs s' = abs s }.

(** A store that is up: the operations on sandboxes do not fault. *)
Class StoreUp (S : Store) {SO : StoreOk S} : Prop := {
  create_up sb s : store_wf s → ¬ fault (create_sandbox sb s).2;
  get_up id now s : store_wf s → ¬ fault (get_sandbox id now s).2;
  status_up id st now s : store_wf s → ¬ fault (update_sandbox_status id st now s).2;
  spec_up id sp now s : store_wf s → ¬ fault (update_sandbox_spec id sp now s).2;
  status_message_up id st m now s : store_wf s → ¬ fault (update_sandbox_status_message id st m now s).2;
  node_up id n now s : store_wf s → ¬ fault (update_sandbox_node id n now s).2;
  vmm_meta_up id v now s : store_wf s → ¬ fault (update_sandbox_vmm_meta id v now s).2;
  expiry_up id e now s : store_wf s → ¬ fault (update_sandbox_expiry id e now s).2;
  list_up o now s : store_wf s → ¬ fault (list_sandboxes o now s).2;
  delete_up id s : store_wf s → ¬ fault (delete_sandbox id s).2 }.

(** What a store that is up answers. *)
Section up.
Context {S : Store} {SO : StoreOk S} {SU : StoreUp S}.

Lemma create_answers sb s : store_wf s → times_in_range sb →
  let '(s', r) := create_sandbox sb s in store_wf s' ∧
  match abs s !! Sandbox.id sb with
  | Some _ => abs s' = abs s ∧ ∃ msg, r = Err (StoreError.Conflict msg)
  | None => abs s' = <[Sandbox.id sb := content sb]> (abs s) ∧ r = Ok ()
  end.
Proof.
  intros Hwf Ht. pose proof (create_law sb s Hwf Ht) as Hl. pose proof (create_up sb s Hwf) as Hu.
  destruct (create_sandbox sb s). simpl in Hu. unfold or_fault in Hl. naive_solver.
Qed.
Lemma get_answers id now s : store_wf s →
  let '(s', r) := get_sandbox id now s in store_wf s' ∧ abs s' = abs s ∧
  match abs s !! id with
  | Some c => ∃ sb, r = Ok sb ∧ content sb = c ∧ times_in_range sb
  | None => ∃ msg, r = Err (StoreError.NotFound msg)
  end.
Proof.
  intros Hwf. pose proof (get_law id now s Hwf) as Hl. pose proof (get_up id now s Hwf) as Hu.
  destruct (get_sandbox id now s). simpl in Hu. naive_solver.
Qed.
Lemma status_answers id st now s : store_wf s → in_range now →
  let '(s', r) := update_sandbox_status id st now s in
  store_wf s' ∧ updated (abs s) (abs s') id (set_status st) r.
Proof.
  intros Hwf Hn. pose proof (status_law id st now s Hwf Hn) as Hl. pose proof (status_up id st now s Hwf) as Hu.
  destruct (update_sandbox_status id st now s). simpl in Hu. unfold updates, or_fault in Hl. naive_solver.
Qed.
Lemma spec_answers id sp now s : store_wf s → in_range now →
  let '(s', r) := update_sandbox_spec id sp now s in
  store_wf s' ∧ updated (abs s) (abs s') id (λ c, Sandbox.set_spec c sp) r.
Proof.
  intros Hwf Hn. pose proof (spec_law id sp now s Hwf Hn) as Hl. pose proof (spec_up id sp now s Hwf) as Hu.
  destruct (update_sandbox_spec id sp now s). simpl in Hu. unfold updates, or_fault in Hl. naive_solver.
Qed.
Lemma status_message_answers id st m now s : store_wf s → in_range now →
  let '(s', r) := update_sandbox_status_message id st m now s in
  store_wf s' ∧ updated (abs s) (abs s') id (set_message m ∘ set_status st) r.
Proof.
  intros Hwf Hn. pose proof (status_message_law id st m now s Hwf Hn) as Hl.
  pose proof (status_message_up id st m now s Hwf) as Hu.
  destruct (update_sandbox_status_message id st m now s). simpl in Hu. unfold updates, or_fault in Hl. naive_solver.
Qed.
Lemma node_answers id n now s : store_wf s → in_range now →
  let '(s', r) := update_sandbox_node id n now s in
  store_wf s' ∧ updated (abs s) (abs s') id (set_node n) r.
Proof.
  intros Hwf Hn. pose proof (node_law id n now s Hwf Hn) as Hl. pose proof (node_up id n now s Hwf) as Hu.
  destruct (update_sandbox_node id n now s). simpl in Hu. unfold updates, or_fault in Hl. naive_solver.
Qed.
Lemma vmm_meta_answers id v now s : store_wf s → in_range now →
  let '(s', r) := update_sandbox_vmm_meta id v now s in
  store_wf s' ∧ updated (abs s) (abs s') id (λ c, Sandbox.set_vmm_meta c v) r.
Proof.
  intros Hwf Hn. pose proof (vmm_meta_law id v now s Hwf Hn) as Hl. pose proof (vmm_meta_up id v now s Hwf) as Hu.
  destruct (update_sandbox_vmm_meta id v now s). simpl in Hu. unfold updates, or_fault in Hl. naive_solver.
Qed.
Lemma expiry_answers id e now s : store_wf s → in_range now → (∀ t, e = Some t → in_range t) →
  let '(s', r) := update_sandbox_expiry id e now s in
  store_wf s' ∧ updated (abs s) (abs s') id (set_expiry (timestamp_millis <$> e)) r.
Proof.
  intros Hwf Hn He. pose proof (expiry_law id e now s Hwf Hn He) as Hl. pose proof (expiry_up id e now s Hwf) as Hu.
  destruct (update_sandbox_expiry id e now s). simpl in Hu. unfold updates, or_fault in Hl. naive_solver.
Qed.
Lemma list_answers o now s : store_wf s →
  let '(s', r) := list_sandboxes o now s in store_wf s' ∧ abs s' = abs s ∧
  ∃ l, r = Ok l ∧ Forall times_in_range l ∧
    content <$> l ≡ₚ List.filter (with_status o) (map_to_list (abs s)).*2.
Proof.
  intros Hwf. pose proof (list_law o now s Hwf) as Hl. pose proof (list_up o now s Hwf) as Hu.
  destruct (list_sandboxes o now s). simpl in Hu. naive_solver.
Qed.
Lemma delete_answers id s : store_wf s →
  let '(s', r) := delete_sandbox id s in store_wf s' ∧
  match abs s !! id with
  | None => abs s' = abs s ∧ ∃ msg, r = Err (StoreError.NotFound msg)
  | Some _ => abs s' = delete id (abs s) ∧ r = Ok ()
  end.
Proof.
  intros Hwf. pose proof (delete_law id s Hwf) as Hl. pose proof (delete_up id s Hwf) as Hu.
  destruct (delete_sandbox id s). simpl in Hu. unfold or_fault in Hl. naive_solver.
Qed.
End up.

(** ** The in-memory store *)

Module InMemoryStore.
Record t : Type := mk {
  sandboxes : gmap string Sandbox.t;
  executions : gmap string ExecutionRecord.t;
  nodes : gmap string RegisteredNode.t }.

Definition new : t := mk ∅ ∅ ∅.

Definition set_sandboxes (s : t) (m : gmap string Sandbox.t) : t :=
  mk m (executions s) (nodes s).

Definition missing (id : string) : StoreError.t :=
  StoreError.NotFound ("sandbox " +:+ id +:+ " not found").

(** [get_mut(id)] with the error of a missing key, then a write. *)
Definition update (id : string) (f : Sandbox.t → Sandbox.t) (s : t) : t * StoreResult () :=
  match sandboxes s !! id with
  | None => (s, Err (missing id))
  | Some sb => (set_sandboxes s (<[id := f sb]> (sandboxes s)), Ok ())
  end.

Definition create_sandbox (sb : Sandbox.t) (s : t) : t * StoreResult () :=
  match sandboxes s !! Sandbox.id sb with
  | Some _ => (s, Err (StoreError.Conflict ("sandbox " +:+ Sandbox.id sb +:+ " already exists")))
  | None => (set_sandboxes s (<[Sandbox.id sb := sb]> (sandboxes s)), Ok ())
  end.

Definition get_sandbox (id : string) (s : t) : StoreResult Sandbox.t :=
  ok_or (missing id) (sandboxes s !! id).

(** The write of the two status updates: [ready_at] follows every entry into
    [Running]. *)
Definition write_status (st : SandboxStatus.t) (now : Z) (sb : Sandbox.t) : Sandbox.t :=
  let sb := Sandbox.set_status sb st now in
  if bool_decide (st = SandboxStatus.Running)
  then Sandbox.set_ready sb (Some now) (Sandbox.expires_at sb) else sb.

Definition touch (now : Z) (sb : Sandbox.t) : Sandbox.t :=
  Sandbox.set_status sb (Sandbox.status sb) now.

Definition update_sandbox_status (id : string) (st : SandboxStatus.t) (now : Z) :=
  update id (write_status st now).
Definition update_sandbox_spec (id : string) (sp : SandboxSpec.t) (now : Z) :=
  update id (λ sb, touch now (Sandbox.set_spec sb sp)).
Definition update_sandbox_status_message (id : string) (st : SandboxStatus.t)
    (m : option string) (now : Z) :=
  update id (λ sb, write_status st now (set_message m sb)).
Definition update_sandbox_node (id : string) (n : option string) (now : Z) :=
  update id (λ sb, touch now (set_node n sb)).
Definition update_sandbox_vmm_meta (id : string) (v : VmmMeta.t) (now : Z) :=
  update id (λ sb, touch now (Sandbox.set_vmm_meta sb v)).
(** [updated_at] is left alone. *)
Definition update_sandbox_expiry (id : string) (e : option Z) := update id (set_expiry e).

Definition list_sandboxes (o : option SandboxStatus.t) (s : t) : list Sandbox.t :=
  List.filter (with_status o) (map_to_list (sandboxes s)).*2.

Definition delete_sandbox (id : string) (s : t) : t * StoreResult () :=
  match sandboxes s !! id with
  | None => (s, Err (missing id))
  | Some _ => (set_sandboxes s (delete id (sandboxes s)), Ok ())
  end.

Definition upsert_node (n : RegisteredNode.t) (s : t) : t :=
  mk (sandboxes s) (executions s)
     (<[NodeInfo.node_id (RegisteredNode.info n) := n]> (nodes s)).

Definition is_ready_node (now_ms : Z) (n : RegisteredNode.t) : bool :=
  bool_decide (RegisteredNode.status n = NodeStatus.Ready)
  && (now_ms <=? RegisteredNode.last_heartbeat_ms n).

Definition list_ready_nodes (now_ms : Z) (s : t) : list RegisteredNode.t :=
  List.filter (is_ready_node now_ms) (map_to_list (nodes s)).*2.

Definition save_execution (r : ExecutionRecord.t) (s : t) : t :=
  mk (sandboxes s) (<[ExecutionRecord.id r := r]> (executions s)) (nodes s).

Definition get_execution (id : string) (s : t) : StoreResult ExecutionRecord.t :=
  ok_or (StoreError.NotFound ("execution " +:+ id +:+ " not found")) (executions s !! id).

Definition list_executions (sandbox_id : string) (s : t) : list ExecutionRecord.t :=
  List.filter (λ r, String.eqb (ExecutionRecord.sandbox_id r) sandbox_id)
    (map_to_list (executions s)).*2.

#[global] Instance impl : Store := {|
  store := t;
  Store.create_sandbox := create_sandbox;
  Store.get_sandbox id _ s := (s, get_sandbox id s);
  Store.update_sandbox_status := update_sandbox_status;
  Store.update_sandbox_spec := update_sandbox_spec;
  Store.update_sandbox_status_message := update_sandbox_status_message;
  Store.update_sandbox_node := update_sandbox_node;
  Store.update_sandbox_vmm_meta := update_sandbox_vmm_meta;
  Store.update_sandbox_expiry id e _ := update_sandbox_expiry id e;
  Store.list_sandboxes o _ s := (s, Ok (list_sandboxes o s));
  Store.delete_sandbox := delete_sandbox;
  Store.upsert_node n s := (upsert_node n s, Ok ());
  Store.list_ready_nodes now s := (s, Ok (list_ready_nodes now s));
  Store.save_execution r s := (save_execution r s, Ok ());
  Store.get_execution id _ s := (s, get_execution id s);
  Store.list_executions sid _ s := (s, Ok (list_executions sid s)) |}.

(** *** It keeps the promise *)

Definition wf (s : t) : Prop := map_Forall (λ _, times_in_range) (sandboxes s).
Definition view (s : t) : abstract := content <$> sandboxes s.

Lemma update_law id f g s :
  wf s → (∀ sb, times_in_range sb → times_in_range (f sb)) →
  (∀ sb, content (f sb) = g (content sb)) →
  let '(s', r) := update id f s in wf s' ∧ updates (view s) (view s') id g r.
Proof.
  intros Hwf Hr Hc. unfold update, updates, or_fault, updated, view. rewrite lookup_fmap.
  destruct (sandboxes s !! id) as [sb|] eqn:Hs; simpl.
  - split; [|right; by rewrite fmap_insert, Hc].
    apply map_Forall_insert_2; [|done]. apply Hr. by apply (Hwf id).
  - split; [done|]. right. split; [done|]. by eexists.
Qed.

Lemma write_status_range st now sb :
  in_range now → times_in_range sb → times_in_range (write_status st now sb).
Proof.
  unfold write_status, times_in_range. intros Hn (? & ? & ? & ?).
  case_bool_decide; simpl; split_and!; try done. by intros ? [= <-].
Qed.

Lemma write_status_content st now sb :
  content (write_status st now sb) = set_status st (content sb).
Proof. unfold write_status. by case_bool_decide. Qed.

Lemma list_view o s :
  content <$> list_sandboxes o s ≡ₚ List.filter (with_status o) (map_to_list (view s)).*2.
Proof.
  unfold list_sandboxes, view. rewrite map_to_list_fmap, <-!list_fmap_compose.
  induction (map_to_list (sandboxes s)) as [|[id sb] l IH]; csimpl; [done|].
  assert (with_status o (content sb) = with_status o sb) as Heq by by destruct o.
  destruct (with_status o sb) eqn:Hw; csimpl; rewrite Heq; csimpl; [by f_equiv|done].
Qed.

Lemma list_in_range o s : wf s → Forall times_in_range (list_sandboxes o s).
Proof.
  intros Hwf. apply Forall_forall. intros sb [Hin _]%elem_of_List_filter.
  apply list_elem_of_fmap in Hin as ([id sb'] & -> & Hin%elem_of_map_to_list).
  by apply (Hwf id).
Qed.

#[global] Instance impl_ok : StoreOk impl.
Proof.
  refine {| store_wf := wf : @store impl → Prop; abs := view : @store impl → abstract |};
    simpl; intros.
  - unfold create_sandbox, view. rewrite lookup_fmap.
    destruct (sandboxes s !! Sandbox.id sb) eqn:Hs; simpl.
    + split; [done|]. right. split; [done|by eexists].
    + split; [by apply map_Forall_insert_2|]. right. by rewrite fmap_insert.
  - split_and!; [done..|]. right. unfold get_sandbox, view. rewrite lookup_fmap.
    destruct (sandboxes s !! id) as [sb|] eqn:Hs; simpl; [|by eexists].
    exists sb. split_and!; [done..|]. by apply (H id).
  - apply update_law; auto using write_status_range, write_status_content.
  - apply update_law; [done| |done]. intros sb (? & ? & ? & ?). by split_and!.
  - apply update_law; [done| |].
    + intros sb (? & ? & ? & ?). apply write_status_range; [done|]. by split_and!.
    + intros sb. by rewrite write_status_content.
  - apply update_law; [done| |done]. intros sb (? & ? & ? & ?). by split_and!.
  - apply update_law; [done| |done]. intros sb (? & ? & ? & ?). by split_and!.
  - apply update_law; [done| |done]. intros sb (? & ? & ? & ?). by split_and!.
  - split_and!; [done..|]. right. eexists. split_and!; [done|by apply list_in_range|apply list_view].
  - unfold delete_sandbox, view. rewrite lookup_fmap.
    destruct (sandboxes s !! id) eqn:Hs; simpl.
    + split; [by apply map_Forall_delete|]. right. by rewrite fmap_delete.
    + split; [done|]. right. split; [done|by eexists].
  - done.
  - done.
  - done.
  - done.
  - done.
Defined.

(** It never faults. *)
#[global] Instance impl_up : StoreUp impl.
Proof.
  assert (∀ id f s, ¬ fault (update id f s).2) as Hu.
  { intros id f s. unfold update. destruct (_ !! _); simpl; tauto. }
  split; intros; try apply Hu; simpl; try tauto;
    unfold create_sandbox, get_sandbox, delete_sandbox; destruct (_ !! _); simpl; tauto.
Qed.
End InMemoryStore.

(** ** A store that fails now and then

    Any store, with a list that says which of the next operations find the disk or the
    connection gone. *)

Module FaultyStore.
Section faulty.
Context {S : Store}.

Definition attempt_op {A} (f : store → store * StoreResult A) (x : store * list bool)
  : store * list bool * StoreResult A :=
  match x with
  | (s, true :: l) => ((s, l), Err (StoreError.Io "unavailable"))
  | (s, false :: l) => let '(s', r) := f s in ((s', l), r)
  | (s, []) => let '(s', r) := f s in ((s', []), r)
  end.

Definition impl : Store := {|
  store := store * list bool;
  Store.create_sandbox sb := attempt_op (create_sandbox sb);
  Store.get_sandbox id now := attempt_op (get_sandbox id now);
  Store.update_sandbox_status id st now := attempt_op (update_sandbox_status id st now);
  Store.update_sandbox_spec id sp now := attempt_op (update_sandbox_spec id sp now);
  Store.update_sandbox_status_message id st m now := attempt_op (update_sandbox_status_message id st m now);
  Store.update_sandbox_node id n now := attempt_op (update_sandbox_node id n now);
  Store.update_sandbox_vmm_meta id v now := attempt_op (update_sandbox_vmm_meta id v now);
  Store.update_sandbox_expiry id e now := attempt_op (update_sandbox_expiry id e now);
  Store.list_sandboxes o now := attempt_op (list_sandboxes o now);
  Store.delete_sandbox id := attempt_op (delete_sandbox id);
  Store.upsert_node n := attempt_op (upsert_node n);
  Store.list_ready_nodes now := attempt_op (list_ready_nodes now);
  Store.save_execution x := attempt_op (save_execution x);
  Store.get_execution id now := attempt_op (get_execution id now);
  Store.list_executions id now := attempt_op (list_executions id now) |}.

Context {SO : StoreOk S}.
Lemma attempt_law {A} (f : store → store * StoreResult A) s l (P : abstract → StoreResult A → Prop) :
  store_wf s →
  (let '(s', r) := f s in store_wf s' ∧ P (abs s') r) →
  (∀ r, fault r → P (abs s) r) →
  let '(x, r) := attempt_op f (s, l) in store_wf x.1 ∧ P (abs x.1) r.
Proof.
  intros Hwf Hf Hr. unfold attempt_op. destruct (f s). destruct l as [|[] l]; simpl; [done| |done].
  split; [done|]. by apply Hr.
Qed.

Definition faulty_ok : StoreOk impl.
Proof.
  refine {| store_wf := (λ x, store_wf x.1) : @store impl → Prop;
            abs := (λ x, abs x.1) : @store impl → abstract |}; intros; destruct s as [s l]; simpl in *.
  - apply (attempt_law _ s l (λ m r, or_fault (abs s) m r
      match abs s !! Sandbox.id sb with
      | Some _ => m = abs s ∧ ∃ msg, r = Err (StoreError.Conflict msg)
      | None => m = <[Sandbox.id sb := content sb]> (abs s) ∧ r = Ok ()
      end)); [done|by apply create_law|by left].
  - apply (attempt_law _ s l (λ m r, m = abs s ∧ (fault r ∨
      match abs s !! id with
      | Some c => ∃ sb, r = Ok sb ∧ content sb = c ∧ times_in_range sb
      | None => ∃ msg, r = Err (StoreError.NotFound msg)
      end))); [done|by apply get_law|by split; [|left]].
  - apply (attempt_law _ s l (λ m r, updates (abs s) m id (set_status st) r)); [done|by apply status_law|by left].
  - apply (attempt_law _ s l (λ m r, updates (abs s) m id (λ c, Sandbox.set_spec c sp) r));
      [done|by apply spec_law|by left].
  - apply (attempt_law _ s l (λ m' r, updates (abs s) m' id (set_message m ∘ set_status st) r));
      [done|by apply status_message_law|by left].
  - apply (attempt_law _ s l (λ m r, updates (abs s) m id (set_node n) r)); [done|by apply node_law|by left].
  - apply (attempt_law _ s l (λ m r, updates (abs s) m id (λ c, Sandbox.set_vmm_meta c v) r));
      [done|by apply vmm_meta_law|by left].
  - apply (attempt_law _ s l (λ m r, updates (abs s) m id (set_expiry (timestamp_millis <$> e)) r));
      [done|by apply expiry_law|by left].
  - apply (attempt_law _ s l (λ m r, m = abs s ∧ (fault r ∨
      ∃ l, r = Ok l ∧ Forall times_in_range l ∧
        content <$> l ≡ₚ List.filter (with_status o) (map_to_list (abs s)).*2)));
      [done|by apply list_law|by split; [|left]].
  - apply (attempt_law _ s l (λ m r, or_fault (abs s) m r
      match abs s !! id with
      | None => m = abs s ∧ ∃ msg, r = Err (StoreError.NotFound msg)
      | Some _ => m = delete id (abs s) ∧ r = Ok ()
      end)); [done|by apply delete_law|by left].
  - apply (attempt_law _ s l (λ m _, m = abs s)); [done|by apply ready_nodes_law|done].
  - apply (attempt_law _ s l (λ m _, m = abs s)); [done|by apply upsert_node_law|done].
  - apply (attempt_law _ s l (λ m _, m = abs s)); [done|by apply save_execution_law|done].
  - apply (attempt_law _ s l (λ m _, m = abs s)); [done|by apply get_execution_law|done].
  - apply (attempt_law _ s l (λ m _, m = abs s)); [done|by apply list_executions_law|done].
Defined.
End faulty.
End FaultyStore.

(** ** Stores that keep the promise cannot be told apart *)

Inductive store_op : Type :=
| OpCreate (sb : Sandbox.t)
| OpGet (id : string)
| OpStatus (id : string) (st : SandboxStatus.t)
| OpSpec (id : string) (sp : SandboxSpec.t)
| OpStatusMessage (id : string) (st : SandboxStatus.t) (m : option string)
| OpNode (id : string) (n : option string)
| OpVmmMeta (id : string) (v : VmmMeta.t)
| OpExpiry (id : string) (e : option Z)
| OpDelete (id : string).

Definition op_in_range (o : store_op) : Prop :=
  match o with
  | OpCreate sb => times_in_range sb
  | OpExpiry _ e => ∀ t, e = Some t → in_range t
  | _ => True
  end.

(** What a caller sees of an answer: the content, or the kind of the error. *)
Inductive answer : Type := Done | Content (c : Sandbox.t) | Missing | Exists | Failed.

Definition seen {A} (f : A → answer) (r : StoreResult A) : answer :=
  match r with
  | Ok a => f a
  | Err (StoreError.NotFound _) => Missing
  | Err (StoreError.Conflict _) => Exists
  | _ => Failed
  end.

Definition run_op {S : Store} (o : store_op) (now : Z) (s : store) : store * answer :=
  let done := seen (λ _ : (), Done) in
  match o with
  | OpCreate sb => let '(s', r) := create_sandbox sb s in (s', done r)
  | OpGet id => let '(s', r) := get_sandbox id now s in (s', seen (λ sb, Content (content sb)) r)
  | OpStatus id st => let '(s', r) := update_sandbox_status id st now s in (s', done r)
  | OpSpec id sp => let '(s', r) := update_sandbox_spec id sp now s in (s', done r)
  | OpStatusMessage id st m =>
    let '(s', r) := update_sandbox_status_message id st m now s in (s', done r)
  | OpNode id n => let '(s', r) := update_sandbox_node id n now s in (s', done r)
  | OpVmmMeta id v => let '(s', r) := update_sandbox_vmm_meta id v now s in (s', done r)
  | OpExpiry id e => let '(s', r) := update_sandbox_expiry id e now s in (s', done r)
  | OpDelete id => let '(s', r) := delete_sandbox id s in (s', done r)
  end.

(** The same operations on the abstract store. *)
Definition abs_update (id : string) (f : Sandbox.t → Sandbox.t) (m : abstract)
  : abstract * answer :=
  match m !! id with Some c => (<[id := f c]> m, Done) | None => (m, Missing) end.

Definition abs_op (o : store_op) (m : abstract) : abstract * answer :=
  match o with
  | OpCreate sb =>
    match m !! Sandbox.id sb with
    | Some _ => (m, Exists)
    | None => (<[Sandbox.id sb := content sb]> m, Done)
    end
  | OpGet id => (m, match m !! id with Some c => Content c | None => Missing end)
  | OpStatus id st => abs_update id (set_status st) m
  | OpSpec id sp => abs_update id (λ c, Sandbox.set_spec c sp) m
  | OpStatusMessage id st msg => abs_update id (set_message msg ∘ set_status st) m
  | OpNode id n => abs_update id (set_node n) m
  | OpVmmMeta id v => abs_update id (λ c, Sandbox.set_vmm_meta c v) m
  | OpExpiry id e => abs_update id (set_expiry (timestamp_millis <$> e)) m
  | OpDelete id =>
    match m !! id with Some _ => (delete id m, Done) | None => (m, Missing) end
  end.

Lemma updates_abs m m' id f r :
  updated m m' id f r → (m', seen (λ _ : (), Done) r) = abs_update id f m.
Proof.
  unfold updated, abs_update. destruct (m !! id); [by intros [-> ->]|].
  by intros [-> [msg ->]].
Qed.

(** Every operation of a store refines its abstract counterpart. *)
Lemma run_op_refines {S : Store} {SO : StoreOk S} {SU : StoreUp S} o now s :
  store_wf s → in_range now → op_in_range o →
  let '(s', a) := run_op o now s in
  store_wf s' ∧ (abs s', a) = abs_op o (abs s).
Proof.
  intros Hwf Hn Ho. destruct o; simpl in *.
  - pose proof (create_answers sb s Hwf Ho) as Hl. destruct (create_sandbox sb s) as [s' r].
    destruct Hl as [? Hl]. split; [done|]. destruct (abs s !! Sandbox.id sb).
    + by destruct Hl as [-> [msg ->]].
    + by destruct Hl as [-> ->].
  - pose proof (get_answers id now s Hwf) as Hl. destruct (get_sandbox id now s) as [s' r].
    destruct Hl as (? & -> & Hl). split; [done|]. destruct (abs s !! id).
    + by destruct Hl as (sb & -> & <- & _).
    + by destruct Hl as [msg ->].
  - pose proof (status_answers id st now s Hwf Hn) as Hl.
    destruct (update_sandbox_status id st now s). destruct Hl. eauto using updates_abs.
  - pose proof (spec_answers id sp now s Hwf Hn) as Hl.
    destruct (update_sandbox_spec id sp now s). destruct Hl. eauto using updates_abs.
  - pose proof (status_message_answers id st m now s Hwf Hn) as Hl.
    destruct (update_sandbox_status_message id st m now s). destruct Hl. eauto using updates_abs.
  - pose proof (node_answers id n now s Hwf Hn) as Hl.
    destruct (update_sandbox_node id n now s). destruct Hl. eauto using updates_abs.
  - pose proof (vmm_meta_answers id v now s Hwf Hn) as Hl.
    destruct (update_sandbox_vmm_meta id v now s). destruct Hl. eauto using updates_abs.
  - pose proof (expiry_answers id e now s Hwf Hn Ho) as Hl.
    destruct (update_sandbox_expiry id e now s). destruct Hl. eauto using updates_abs.
  - pose proof (delete_answers id s Hwf) as Hl. destruct (delete_sandbox id s) as [s' r].
    destruct Hl as [? Hl]. split; [done|]. destruct (abs s !! id).
    + by destruct Hl as [-> ->].
    + by destruct Hl as [-> [msg ->]].
Qed.

Fixpoint run_ops {S : Store} (ops : list (store_op * Z)) (s : store) : store * list answer :=
  match ops with
  | [] => (s, [])
  | (o, now) :: ops' =>
    let '(s1, a) := run_op o now s in
    let '(s2, l) := run_ops ops' s1 in (s2, a :: l)
  end.

Fixpoint abs_ops (ops : list (store_op * Z)) (m : abstract) : abstract * list answer :=
  match ops with
  | [] => (m, [])
  | (o, _) :: ops' =>
    let '(m1, a) := abs_op o m in let '(m2, l) := abs_ops ops' m1 in (m2, a :: l)
  end.

Definition ops_in_range (ops : list (store_op * Z)) : Prop :=
  Forall (λ on, op_in_range on.1 ∧ in_range on.2) ops.

Lemma run_ops_refines {S : Store} {SO : StoreOk S} {SU : StoreUp S} ops s :
  store_wf s → ops_in_range ops →
  let '(s', l) := run_ops ops s in store_wf s' ∧ (abs s', l) = abs_ops ops (abs s).
Proof.
  intros Hwf Hr. revert s Hwf. induction Hr as [|[o now] ops [Ho Hn] Hr IH]; intros s Hwf; [done|].
  simpl in *. pose proof (run_op_refines o now s Hwf Hn Ho) as H1.
  destruct (run_op o now s) as [s1 a]. destruct H1 as [Hwf1 H1].
  specialize (IH s1 Hwf1). destruct (run_ops ops s1) as [s2 l]. destruct IH as [Hwf2 H2].
  split; [done|]. rewrite <-H1. by rewrite <-H2.
Qed.

Module StoreDemo.
Definition sb : Sandbox.t := Sandbox.new "a" SandboxSpec.default 1500000.
Definition ops : list (store_op * Z) :=
  [(OpCreate sb, 1500000); (OpCreate sb, 1600000); (OpStatus "a" SandboxStatus.Starting, 2000000);
   (OpStatus "b" SandboxStatus.Starting, 2100000); (OpDelete "a", 2200000); (OpGet "a", 2300000)].

Lemma small_in_range t : 0 ≤ t ≤ 4000000000 → in_range t.
Proof.
  unfold in_range. intros. assert (dt_min ≤ 0 ∧ 4000000000 ≤ dt_max) by (vm_compute; done). lia.
Qed.

Lemma sb_in_range : times_in_range sb.
Proof. split_and!; try done; apply small_in_range; simpl; lia. Qed.

Lemma ops_ok : ops_in_range ops.
Proof.
  repeat (apply Forall_cons; split; [split; simpl; [try done; apply sb_in_range|apply small_in_range; lia]|]).
  by apply Forall_nil.
Qed.
End StoreDemo.

