(* ===== verification/SqlStore.v ===== *)
(** * The SQL stores ([crates/clouisle-store/src/{sqlite,postgres}.rs])

    The tables as finite maps by primary key, the statements as functions on
    them, and the conversions between rows and records.  [serde_json] is the
    class [Json] (for the types stored here serialization does not fail); the
    database engines execute the statements they are given.  A PostgreSQL client
    can be found closed; the stores reconnect where the code does. *)

From S2P Require Import Prelude Core SandboxModel Store.

Class Json (A : Type) : Type := {
  to_string : A → string;
  from_str : string → res string A }.
Class JsonOk (A : Type) {J : Json A} : Prop := {
  from_to_string x : from_str (to_string x) = Ok x }.

(** [DateTime::from_timestamp_millis]. *)
Definition from_timestamp_millis (ms : Z) : option Z :=
  if (dt_min <=? from_millis ms) && (from_millis ms <=? dt_max) then Some (from_millis ms) else None.

(** ** Tables *)

Record RowData : Set := sandbox_row {
  id : string;
  spec_json : string;
  status : string;
  vmm_meta_json : string;
  created_at : Z;
  updated_at : Z;
  ready_at : option Z;
  expires_at : option Z;
  terminal_message : option string;
  node_id : option string }.

Record ExecRow : Set := exec_row {
  exec_id : string;
  exec_sandbox_id : string;
  exec_spec_json : string;
  exit_code : Z;
  stdout : Bytes;
  stderr : Bytes;
  started_at : Z;
  finished_at : Z;
  timed_out : bool;
  stdout_truncated : bool;
  stderr_truncated : bool;
  exec_node_id : option string }.

Record NodeRow : Set := node_row {
  node_json : string; node_status : string; last_heartbeat_ms : Z }.

Record db : Type := tables {
  sandboxes : gmap string RowData;
  executions : gmap string ExecRow;
  nodes : gmap string NodeRow }.
Definition empty_db : db := tables ∅ ∅ ∅.

Definition set_sandboxes (d : db) (m : gmap string RowData) : db :=
  tables m (executions d) (nodes d).

(** [UPDATE sandboxes SET .. WHERE id = ..]: the table and the rows affected. *)
Definition update_rows (i : string) (f : RowData → RowData) (d : db) : db * Z :=
  match sandboxes d !! i with
  | None => (d, 0)
  | Some row => (set_sandboxes d (<[i := f row]> (sandboxes d)), 1)
  end.
(** [DELETE FROM sandboxes WHERE id = ..]. *)
Definition delete_rows (i : string) (d : db) : db * Z :=
  match sandboxes d !! i with
  | None => (d, 0)
  | Some _ => (set_sandboxes d (delete i (sandboxes d)), 1)
  end.
Definition upsert_node_row (i : string) (r : NodeRow) (d : db) : db :=
  tables (sandboxes d) (executions d) (<[i := r]> (nodes d)).
Definition insert_execution (r : ExecRow) (d : db) : db :=
  tables (sandboxes d) (<[exec_id r := r]> (executions d)) (nodes d).

(** *** The assignments of the [SET] clauses *)

Definition coalesce {A} (a b : option A) : option A :=
  match a with Some _ => a | None => b end.

Definition row_set_status (st : string) (ready : option Z) (now : Z) (r : RowData) : RowData :=
  sandbox_row (id r) (spec_json r) st (vmm_meta_json r) (created_at r) now
    (coalesce (ready_at r) ready) (expires_at r) (terminal_message r) (node_id r).
Definition row_set_spec (j : string) (now : Z) (r : RowData) : RowData :=
  sandbox_row (id r) j (status r) (vmm_meta_json r) (created_at r) now (ready_at r)
    (expires_at r) (terminal_message r) (node_id r).
Definition row_set_message (m : option string) (r : RowData) : RowData :=
  sandbox_row (id r) (spec_json r) (status r) (vmm_meta_json r) (created_at r) (updated_at r)
    (ready_at r) (expires_at r) m (node_id r).
Definition row_set_node (n : option string) (now : Z) (r : RowData) : RowData :=
  sandbox_row (id r) (spec_json r) (status r) (vmm_meta_json r) (created_at r) now (ready_at r)
    (expires_at r) (terminal_message r) n.
Definition row_set_vmm_meta (j : string) (now : Z) (r : RowData) : RowData :=
  sandbox_row (id r) (spec_json r) (status r) j (created_at r) now (ready_at r) (expires_at r)
    (terminal_message r) (node_id r).
Definition row_set_expiry (e : option Z) (now : Z) (r : RowData) : RowData :=
  sandbox_row (id r) (spec_json r) (status r) (vmm_meta_json r) (created_at r) now (ready_at r) e
    (terminal_message r) (node_id r).

(** The time to store in [ready_at] on entry into [Running]. *)
Definition ready_now (st : SandboxStatus.t) (now : Z) : option Z :=
  if bool_decide (st = SandboxStatus.Running) then Some now else None.

Section sql.
Context {Jspec : Json SandboxSpec.t} {Jmeta : Json VmmMeta.t} {Jexec : Json ExecutionSpec.t}
  {Jnode : Json RegisteredNode.t} {Jstatus : Json NodeStatus.t}.

(** The bound parameters of [INSERT INTO sandboxes]. *)
Definition sandbox_to_row (sb : Sandbox.t) : RowData :=
  sandbox_row (Sandbox.id sb) (to_string (Sandbox.spec sb))
    (SandboxStatus.as_str (Sandbox.status sb)) (to_string (Sandbox.vmm_meta sb))
    (timestamp_millis (Sandbox.created_at sb)) (timestamp_millis (Sandbox.updated_at sb))
    (timestamp_millis <$> Sandbox.ready_at sb) (timestamp_millis <$> Sandbox.expires_at sb)
    (Sandbox.terminal_message sb) (Sandbox.node_id sb).

Definition execution_to_row (r : ExecutionRecord.t) : ExecRow :=
  exec_row (ExecutionRecord.id r) (ExecutionRecord.sandbox_id r)
    (to_string (ExecutionRecord.spec r)) (ExecutionRecord.exit_code r)
    (ExecutionRecord.stdout r) (ExecutionRecord.stderr r)
    (timestamp_millis (ExecutionRecord.started_at r))
    (timestamp_millis (ExecutionRecord.finished_at r)) (ExecutionRecord.timed_out r)
    (ExecutionRecord.stdout_truncated r) (ExecutionRecord.stderr_truncated r)
    (ExecutionRecord.node_id r).

(** [from_timestamp_millis(..).unwrap_or_else(Utc::now)]. *)
Definition date_or_now (now ms : Z) : Z := default now (from_timestamp_millis ms).

Definition build_sandbox (row : RowData) (sp : SandboxSpec.t) (m : VmmMeta.t)
    (st : SandboxStatus.t) (now : Z) : Sandbox.t :=
  Sandbox.mk (id row) sp st (date_or_now now (created_at row)) (date_or_now now (updated_at row))
    (ready_at row ≫= from_timestamp_millis) (expires_at row ≫= from_timestamp_millis) m
    (terminal_message row) (node_id row).

Definition build_execution (row : ExecRow) (sp : ExecutionSpec.t) (now : Z) : ExecutionRecord.t :=
  ExecutionRecord.mk (exec_id row) (exec_sandbox_id row) sp (exit_code row) (stdout row)
    (stderr row) (date_or_now now (started_at row)) (date_or_now now (finished_at row))
    (timed_out row) (stdout_truncated row) (stderr_truncated row) (exec_node_id row).

(** [n == 0] after an update. *)
Definition found (i : string) (n : Z) : StoreResult () :=
  if n =? 0 then Err (StoreError.NotFound ("sandbox " +:+ i)) else Ok ().

(** ** SQLite *)

Definition sqlite_row_to_sandbox (now : Z) (row : RowData) : StoreResult Sandbox.t :=
  sp ← map_err (λ e, StoreError.Internal ("bad spec_json: " +:+ e)) (from_str (spec_json row));
  m ← map_err (λ e, StoreError.Internal ("bad vmm_meta_json: " +:+ e))
        (from_str (vmm_meta_json row));
  st ← ok_or (StoreError.Internal ("bad status: " +:+ status row))
         (SandboxStatus.of_str (status row));
  Ok (build_sandbox row sp m st now).

Definition sqlite_create_sandbox (sb : Sandbox.t) (d : db) : db * StoreResult () :=
  match sandboxes d !! Sandbox.id sb with
  | Some _ => (d, Err (StoreError.Conflict ("sandbox " +:+ Sandbox.id sb +:+ " already exists")))
  | None => (set_sandboxes d (<[Sandbox.id sb := sandbox_to_row sb]> (sandboxes d)), Ok ())
  end.

Definition sqlite_get_sandbox (i : string) (now : Z) (d : db) : StoreResult Sandbox.t :=
  row ← ok_or (StoreError.NotFound ("sandbox " +:+ i)) (sandboxes d !! i);
  sqlite_row_to_sandbox now row.

Definition sqlite_update (i : string) (f : RowData → RowData) (d : db) : db * StoreResult () :=
  let '(d', n) := update_rows i f d in (d', found i n).

Definition sqlite_update_sandbox_status (i : string) (st : SandboxStatus.t) (now : Z) :=
  let now := timestamp_millis now in
  sqlite_update i (row_set_status (SandboxStatus.as_str st) (ready_now st now) now).
Definition sqlite_update_sandbox_spec (i : string) (sp : SandboxSpec.t) (now : Z) :=
  sqlite_update i (row_set_spec (to_string sp) (timestamp_millis now)).
Definition sqlite_update_sandbox_status_message (i : string) (st : SandboxStatus.t)
    (m : option string) (now : Z) :=
  let now := timestamp_millis now in
  sqlite_update i (λ r, row_set_status (SandboxStatus.as_str st) (ready_now st now) now
                          (row_set_message m r)).
Definition sqlite_update_sandbox_node (i : string) (n : option string) (now : Z) :=
  sqlite_update i (row_set_node n (timestamp_millis now)).
Definition sqlite_update_sandbox_vmm_meta (i : string) (v : VmmMeta.t) (now : Z) :=
  sqlite_update i (row_set_vmm_meta (to_string v) (timestamp_millis now)).
Definition sqlite_update_sandbox_expiry (i : string) (e : option Z) (now : Z) :=
  sqlite_update i (row_set_expiry (timestamp_millis <$> e) (timestamp_millis now)).

(** Rows that do not decode are skipped. *)
Definition sqlite_list_sandboxes (o : option SandboxStatus.t) (now : Z) (d : db)
  : list Sandbox.t :=
  List.filter (with_status o)
    (omap (λ row, res_option (sqlite_row_to_sandbox now row)) (map_to_list (sandboxes d)).*2).

Definition sqlite_delete_sandbox (i : string) (d : db) : db * StoreResult () :=
  let '(d', n) := delete_rows i d in (d', found i n).

(** [serde_json::to_string(&NodeStatus::Ready)]: a quoted, snake-case name. *)
Definition ready_text : string := String "034" ("ready" +:+ String "034" "").

Definition sqlite_upsert_node (n : RegisteredNode.t) (d : db) : db :=
  upsert_node_row (NodeInfo.node_id (RegisteredNode.info n))
    (node_row (to_string n) (to_string (RegisteredNode.status n))
       (RegisteredNode.last_heartbeat_ms n)) d.

Definition ready_rows (now_ms : Z) (d : db) : list NodeRow :=
  List.filter (λ r, String.eqb (node_status r) ready_text && (now_ms <=? last_heartbeat_ms r))
    (map_to_list (nodes d)).*2.

Definition sqlite_list_ready_nodes (now_ms : Z) (d : db) : StoreResult (list RegisteredNode.t) :=
  foldr (λ r acc,
      n ← map_err StoreError.Internal (from_str (node_json r));
      l ← acc; Ok (n :: l)) (Ok []) (ready_rows now_ms d).

Definition sqlite_save_execution (r : ExecutionRecord.t) (d : db) : db * StoreResult () :=
  match executions d !! ExecutionRecord.id r with
  | Some _ => (d, Err (StoreError.Sqlite "UNIQUE constraint failed: executions.id"))
  | None => (insert_execution (execution_to_row r) d, Ok ())
  end.

Definition sqlite_row_to_execution (now : Z) (row : ExecRow) : StoreResult ExecutionRecord.t :=
  sp ← map_err StoreError.Sqlite (from_str (exec_spec_json row));
  Ok (build_execution row sp now).

Definition sqlite_get_execution (i : string) (now : Z) (d : db) : StoreResult ExecutionRecord.t :=
  row ← ok_or (StoreError.NotFound ("execution " +:+ i)) (executions d !! i);
  sqlite_row_to_execution now row.

(** [WHERE sandbox_id = .. ORDER BY started_at DESC]. *)
Definition execution_rows (sid : string) (d : db) : list ExecRow :=
  sort_by (λ a b, Z.compare (started_at b) (started_at a))
    (List.filter (λ r, String.eqb (exec_sandbox_id r) sid) (map_to_list (executions d)).*2).

Definition sqlite_list_executions (sid : string) (now : Z) (d : db)
  : StoreResult (list ExecutionRecord.t) :=
  foldr (λ r acc, x ← sqlite_row_to_execution now r; l ← acc; Ok (x :: l)) (Ok [])
    (execution_rows sid d).

#[global] Instance sqlite : Store := {|
  store := db;
  create_sandbox := sqlite_create_sandbox;
  get_sandbox i now d := (d, sqlite_get_sandbox i now d);
  update_sandbox_status := sqlite_update_sandbox_status;
  update_sandbox_spec := sqlite_update_sandbox_spec;
  update_sandbox_status_message := sqlite_update_sandbox_status_message;
  update_sandbox_node := sqlite_update_sandbox_node;
  update_sandbox_vmm_meta := sqlite_update_sandbox_vmm_meta;
  update_sandbox_expiry := sqlite_update_sandbox_expiry;
  list_sandboxes o now d := (d, Ok (sqlite_list_sandboxes o now d));
  delete_sandbox := sqlite_delete_sandbox;
  upsert_node n d := (sqlite_upsert_node n d, Ok ());
  list_ready_nodes now d := (d, sqlite_list_ready_nodes now d);
  save_execution := sqlite_save_execution;
  get_execution i now d := (d, sqlite_get_execution i now d);
  list_executions sid now d := (d, sqlite_list_executions sid now d) |}.

(** ** PostgreSQL

    The client is open or closed; [reachable] says whether the server accepts a
    new connection. *)

Record pg : Type := client { data : db; is_closed : bool }.

Context (reachable : bool).

Definition ensure_client (p : pg) : pg * StoreResult () :=
  if is_closed p then
    if reachable then (client (data p) false, Ok ())
    else (p, Err (StoreError.Internal "postgres reconnect: connection refused"))
  else (p, Ok ()).

(** A statement on the client: it fails on a closed connection. *)
Definition statement {A} (f : db → db * StoreResult A) (p : pg) : pg * StoreResult A :=
  if is_closed p then (p, Err (StoreError.Internal "connection closed"))
  else let '(d, r) := f (data p) in (client d false, r).

Definition with_client {A} (f : db → db * StoreResult A) (p : pg) : pg * StoreResult A :=
  match ensure_client p with
  | (p1, Ok _) => statement f p1
  | (p1, Err e) => (p1, Err e)
  | (p1, Panic) => (p1, Panic)
  end.

Definition pg_row_to_sandbox (now : Z) (row : RowData) : StoreResult Sandbox.t :=
  sp ← map_err (λ e, StoreError.Internal ("bad spec: " +:+ e)) (from_str (spec_json row));
  m ← map_err (λ e, StoreError.Internal ("bad vmm: " +:+ e)) (from_str (vmm_meta_json row));
  st ← ok_or (StoreError.Internal ("bad status: " +:+ status row))
         (SandboxStatus.of_str (status row));
  Ok (build_sandbox row sp m st now).

Definition pg_exec_from_row (now : Z) (row : ExecRow) : StoreResult ExecutionRecord.t :=
  sp ← map_err StoreError.Internal (from_str (exec_spec_json row));
  Ok (build_execution row sp now).

Definition pg_create_sandbox (sb : Sandbox.t) : pg → pg * StoreResult () :=
  with_client (λ d,
    match sandboxes d !! Sandbox.id sb with
    | Some _ => (d, Err (StoreError.Conflict ("sandbox " +:+ Sandbox.id sb +:+ " exists")))
    | None => (set_sandboxes d (<[Sandbox.id sb := sandbox_to_row sb]> (sandboxes d)), Ok ())
    end).

Definition pg_get_sandbox (i : string) (now : Z) : pg → pg * StoreResult Sandbox.t :=
  with_client (λ d,
    (d, row ← ok_or (StoreError.NotFound ("sandbox " +:+ i)) (sandboxes d !! i);
        pg_row_to_sandbox now row)).

Definition pg_update (i : string) (f : RowData → RowData) : pg → pg * StoreResult () :=
  with_client (λ d, let '(d', n) := update_rows i f d in (d', found i n)).

Definition pg_update_sandbox_status (i : string) (st : SandboxStatus.t) (now : Z) :=
  let now := timestamp_millis now in
  pg_update i (row_set_status (SandboxStatus.as_str st) (ready_now st now) now).
Definition pg_update_sandbox_spec (i : string) (sp : SandboxSpec.t) (now : Z) :=
  pg_update i (row_set_spec (to_string sp) (timestamp_millis now)).
Definition pg_update_sandbox_status_message (i : string) (st : SandboxStatus.t)
    (m : option string) (now : Z) :=
  let now := timestamp_millis now in
  pg_update i (λ r, row_set_status (SandboxStatus.as_str st) (ready_now st now) now
                      (row_set_message m r)).
Definition pg_update_sandbox_node (i : string) (n : option string) (now : Z) :=
  pg_update i (row_set_node n (timestamp_millis now)).
Definition pg_update_sandbox_vmm_meta (i : string) (v : VmmMeta.t) (now : Z) :=
  pg_update i (row_set_vmm_meta (to_string v) (timestamp_millis now)).
Definition pg_update_sandbox_expiry (i : string) (e : option Z) (now : Z) :=
  pg_update i (row_set_expiry (timestamp_millis <$> e) (timestamp_millis now)).

(** The status is compared in the query, and one bad row fails the list. *)
Definition pg_list_sandboxes (o : option SandboxStatus.t) (now : Z)
  : pg → pg * StoreResult (list Sandbox.t) :=
  with_client (λ d,
    let rows := List.filter
      (λ r, match o with
            | Some st => String.eqb (status r) (SandboxStatus.as_str st)
            | None => true
            end) (map_to_list (sandboxes d)).*2 in
    (d, foldr (λ r acc, x ← pg_row_to_sandbox now r; l ← acc; Ok (x :: l)) (Ok []) rows)).

Definition pg_delete_sandbox (i : string) : pg → pg * StoreResult () :=
  with_client (λ d, let '(d', n) := delete_rows i d in (d', found i n)).

(** The node registry uses the client as it is. *)
Definition pg_upsert_node (n : RegisteredNode.t) : pg → pg * StoreResult () :=
  statement (λ d, (sqlite_upsert_node n d, Ok ())).
Definition pg_list_ready_nodes (now_ms : Z) : pg → pg * StoreResult (list RegisteredNode.t) :=
  statement (λ d, (d, sqlite_list_ready_nodes now_ms d)).

Definition pg_save_execution (r : ExecutionRecord.t) : pg → pg * StoreResult () :=
  with_client (λ d,
    match executions d !! ExecutionRecord.id r with
    | Some _ => (d, Err (StoreError.Internal "duplicate key value"))
    | None => (insert_execution (execution_to_row r) d, Ok ())
    end).
Definition pg_get_execution (i : string) (now : Z) : pg → pg * StoreResult ExecutionRecord.t :=
  with_client (λ d,
    (d, row ← ok_or (StoreError.NotFound ("execution " +:+ i)) (executions d !! i);
        pg_exec_from_row now row)).
Definition pg_list_executions (sid : string) (now : Z)
  : pg → pg * StoreResult (list ExecutionRecord.t) :=
  with_client (λ d,
    (d, foldr (λ r acc, x ← pg_exec_from_row now r; l ← acc; Ok (x :: l)) (Ok [])
          (execution_rows sid d))).

Definition postgres : Store := {|
  store := pg;
  create_sandbox := pg_create_sandbox;
  get_sandbox := pg_get_sandbox;
  update_sandbox_status := pg_update_sandbox_status;
  update_sandbox_spec := pg_update_sandbox_spec;
  update_sandbox_status_message := pg_update_sandbox_status_message;
  update_sandbox_node := pg_update_sandbox_node;
  update_sandbox_vmm_meta := pg_update_sandbox_vmm_meta;
  update_sandbox_expiry := pg_update_sandbox_expiry;
  list_sandboxes := pg_list_sandboxes;
  delete_sandbox := pg_delete_sandbox;
  upsert_node := pg_upsert_node;
  list_ready_nodes := pg_list_ready_nodes;
  save_execution := pg_save_execution;
  get_execution := pg_get_execution;
  list_executions := pg_list_executions |}.
End sql.

(** ** Both keep the promise of the interface *)

Section laws.
Context {Jspec : Json SandboxSpec.t} {Jmeta : Json VmmMeta.t} {Jexec : Json ExecutionSpec.t}
  {Jnode : Json RegisteredNode.t} {Jstatus : Json NodeStatus.t}.
Context {JspecOk : JsonOk SandboxSpec.t} {JmetaOk : JsonOk VmmMeta.t}.

Definition ms_ok (ms : Z) : Prop := dt_min ≤ from_millis ms ≤ dt_max.

Lemma in_range_millis t : in_range t → ms_ok (timestamp_millis t).
Proof.
  unfold in_range, ms_ok, from_millis, timestamp_millis. intros [H1 H2].
  pose proof (Z.mul_div_le t 1000000 ltac:(lia)).
  assert (dt_min = -8334601228800000 * 1000000) as Hd by reflexivity. rewrite Hd in *.
  split; [|lia]. apply Z.mul_le_mono_nonneg_r; [lia|]. apply Z.div_le_lower_bound; lia.
Qed.

Lemma from_timestamp_ok ms : ms_ok ms → from_timestamp_millis ms = Some (from_millis ms).
Proof.
  unfold ms_ok, from_timestamp_millis. intros [? ?].
  by rewrite (proj2 (Z.leb_le _ _)), (proj2 (Z.leb_le _ _)) by done.
Qed.

Lemma millis_from_millis ms : timestamp_millis (from_millis ms) = ms.
Proof. unfold timestamp_millis, from_millis. by apply Z.div_mul. Qed.

(** The content a row stands for. *)
Definition row_content (row : RowData) : option Sandbox.t :=
  sp ← res_option (from_str (spec_json row));
  m ← res_option (from_str (vmm_meta_json row));
  st ← SandboxStatus.of_str (status row);
  Some (Sandbox.mk (id row) sp st (created_at row) 0 None (expires_at row) m
          (terminal_message row) (node_id row)).

Record row_ok (row : RowData) : Prop := {
  ok_decodes : is_Some (row_content row);
  ok_created : ms_ok (created_at row);
  ok_updated : ms_ok (updated_at row);
  ok_ready t : ready_at row = Some t → ms_ok t;
  ok_expires t : expires_at row = Some t → ms_ok t }.

Definition row_view (row : RowData) : Sandbox.t :=
  default (content (Sandbox.new "" SandboxSpec.default 0)) (row_content row).

Definition db_wf (d : db) : Prop := map_Forall (λ _, row_ok) (sandboxes d).
Definition db_view (d : db) : gmap string Sandbox.t := row_view <$> sandboxes d.

Lemma row_decoded row now :
  row_ok row → ∃ sp m st,
    from_str (spec_json row) = Ok sp ∧ from_str (vmm_meta_json row) = Ok m ∧
    SandboxStatus.of_str (status row) = Some st ∧
    content (build_sandbox row sp m st now) = row_view row ∧
    times_in_range (build_sandbox row sp m st now).
Proof.
  intros [Hd Hc Hu Hr He]. unfold row_view. destruct Hd as [c Hd]. rewrite Hd. simpl.
  unfold row_content in Hd.
  destruct (from_str (spec_json row)) as [sp| |]; simpl in Hd; [|done..].
  destruct (from_str (vmm_meta_json row)) as [m| |]; simpl in Hd; [|done..].
  destruct (SandboxStatus.of_str (status row)) as [st|]; simpl in Hd; [|done]. simplify_eq.
  exists sp, m, st. split_and!; try done; unfold build_sandbox, date_or_now.
  - unfold content; simpl. rewrite !from_timestamp_ok by done. simpl. rewrite millis_from_millis.
    f_equal. destruct (expires_at row) as [e|]; simpl; [|done].
    rewrite from_timestamp_ok by auto. simpl. by rewrite millis_from_millis.
  - unfold times_in_range, in_range; simpl. rewrite !from_timestamp_ok by done. simpl.
    split_and!; [apply Hc|apply Hc|apply Hu|apply Hu|..].
    + destruct (ready_at row) as [t|]; simpl; [|done]. rewrite from_timestamp_ok by auto.
      intros ? [= <-]. by apply Hr.
    + destruct (expires_at row) as [t|]; simpl; [|done]. rewrite from_timestamp_ok by auto.
      intros ? [= <-]. by apply He.
Qed.

Lemma sqlite_decode row now :
  row_ok row → ∃ sb, sqlite_row_to_sandbox now row = Ok sb ∧ content sb = row_view row ∧
    times_in_range sb.
Proof.
  intros (sp & m & st & H1 & H2 & H3 & H4 & H5)%(row_decoded _ now).
  unfold sqlite_row_to_sandbox. rewrite H1, H2, H3. simpl. eauto.
Qed.

Lemma pg_decode row now :
  row_ok row → ∃ sb, pg_row_to_sandbox now row = Ok sb ∧ content sb = row_view row ∧
    times_in_range sb.
Proof.
  intros (sp & m & st & H1 & H2 & H3 & H4 & H5)%(row_decoded _ now).
  unfold pg_row_to_sandbox. rewrite H1, H2, H3. simpl. eauto.
Qed.

(** An inserted row stands for the sandbox's content. *)
Lemma sandbox_to_row_ok sb :
  times_in_range sb → row_ok (sandbox_to_row sb) ∧ row_view (sandbox_to_row sb) = content sb.
Proof.
  intros (Hc & Hu & Hr & He).
  assert (row_content (sandbox_to_row sb) = Some (content sb)) as Hrc.
  { unfold row_content, sandbox_to_row. simpl. rewrite !from_to_string. simpl.
    by rewrite SandboxStatus.of_as_str. }
  split; [|unfold row_view; by rewrite Hrc].
  split; [eauto|by apply in_range_millis|by apply in_range_millis|..]; simpl.
  - destruct (Sandbox.ready_at sb) as [t|]; simpl; [|done]. intros ? [= <-].
    apply in_range_millis. eauto.
  - destruct (Sandbox.expires_at sb) as [t|]; simpl; [|done]. intros ? [= <-].
    apply in_range_millis. eauto.
Qed.

(** A [SET] clause that acts on the content as [g]. *)
Definition acts (f : RowData → RowData) (g : Sandbox.t → Sandbox.t) : Prop :=
  ∀ row c, row_ok row → row_content row = Some c →
    row_ok (f row) ∧ row_content (f row) = Some (g c).

Lemma acts_intro f g :
  (∀ row c, row_content row = Some c → row_content (f row) = Some (g c)) →
  (∀ row, row_ok row → created_at (f row) = created_at row ∧ ms_ok (updated_at (f row)) ∧
     (∀ t, ready_at (f row) = Some t → ms_ok t) ∧ (∀ t, expires_at (f row) = Some t → ms_ok t)) →
  acts f g.
Proof.
  intros Hg Hr row c Hok Hc. specialize (Hg row c Hc). destruct (Hr row Hok) as (Hcr & ? & ? & ?).
  split; [|done]. split; try done. rewrite Hcr. apply Hok.
Qed.

Lemma row_content_fields row c :
  row_content row = Some c →
  from_str (spec_json row) = Ok (Sandbox.spec c) ∧
  from_str (vmm_meta_json row) = Ok (Sandbox.vmm_meta c) ∧
  SandboxStatus.of_str (status row) = Some (Sandbox.status c) ∧
  c = Sandbox.mk (id row) (Sandbox.spec c) (Sandbox.status c) (created_at row) 0 None
        (expires_at row) (Sandbox.vmm_meta c) (terminal_message row) (node_id row).
Proof.
  unfold row_content. destruct (from_str (spec_json row)) as [sp| |]; simpl; [|done..].
  destruct (from_str (vmm_meta_json row)) as [m| |]; simpl; [|done..].
  destruct (SandboxStatus.of_str (status row)) as [st|]; simpl; [|done]. by intros [= <-].
Qed.

Ltac solve_content :=
  intros row c (H1 & H2 & H3 & ->)%row_content_fields; unfold row_content; simpl in *;
  rewrite ?H1, ?H2, ?H3, ?from_to_string, ?SandboxStatus.of_as_str; simpl; reflexivity.

Lemma set_status_acts st now :
  in_range now →
  acts (row_set_status (SandboxStatus.as_str st) (ready_now st (timestamp_millis now))
          (timestamp_millis now)) (set_status st).
Proof.
  intros Hn. apply acts_intro; [solve_content|].
  intros row Hok. simpl. split_and!; [done|by apply in_range_millis| |apply Hok].
  unfold coalesce, ready_now. intros t. destruct (ready_at row) eqn:Hr.
  - intros [= <-]. by apply (ok_ready _ Hok).
  - case_bool_decide; [|done]. intros [= <-]. by apply in_range_millis.
Qed.

Lemma set_message_acts m : acts (row_set_message m) (set_message m).
Proof. apply acts_intro; [solve_content|]. intros row [? ? ? ? ?]. by split_and!. Qed.

Lemma acts_compose f1 g1 f2 g2 : acts f1 g1 → acts f2 g2 → acts (λ r, f2 (f1 r)) (g2 ∘ g1).
Proof. intros H1 H2 row c Hok Hc. destruct (H1 row c Hok Hc). by apply H2. Qed.

Lemma set_spec_acts sp now :
  in_range now →
  acts (row_set_spec (to_string sp) (timestamp_millis now)) (λ c, Sandbox.set_spec c sp).
Proof.
  intros Hn. apply acts_intro; [solve_content|].
  intros row [? ? ? ? ?]. simpl. split_and!; [done|by apply in_range_millis|done|done].
Qed.

Lemma set_node_acts n now :
  in_range now → acts (row_set_node n (timestamp_millis now)) (set_node n).
Proof.
  intros Hn. apply acts_intro; [solve_content|].
  intros row [? ? ? ? ?]. simpl. split_and!; [done|by apply in_range_millis|done|done].
Qed.

Lemma set_vmm_meta_acts v now :
  in_range now →
  acts (row_set_vmm_meta (to_string v) (timestamp_millis now)) (λ c, Sandbox.set_vmm_meta c v).
Proof.
  intros Hn. apply acts_intro; [solve_content|].
  intros row [? ? ? ? ?]. simpl. split_and!; [done|by apply in_range_millis|done|done].
Qed.

Lemma set_expiry_acts e now :
  in_range now → (∀ t, e = Some t → in_range t) →
  acts (row_set_expiry (timestamp_millis <$> e) (timestamp_millis now))
    (set_expiry (timestamp_millis <$> e)).
Proof.
  intros Hn He. apply acts_intro; [solve_content|].
  intros row [? ? ? ? ?]. simpl. split_and!; [done|by apply in_range_millis|done|].
  intros t. destruct e as [t'|]; simpl; [|done]. intros [= <-]. apply in_range_millis. auto.
Qed.

Lemma update_rows_law i f g d :
  db_wf d → acts f g →
  let '(d', n) := update_rows i f d in
  db_wf d' ∧ updated (db_view d) (db_view d') i g (found i n).
Proof.
  intros Hwf Ha. unfold update_rows, updated, db_view. rewrite lookup_fmap.
  destruct (sandboxes d !! i) as [row|] eqn:Hr; simpl.
  - pose proof (Hwf i row Hr) as Hok. destruct (ok_decodes _ Hok) as [c Hc].
    destruct (Ha row c Hok Hc) as [Hok' Hc']. split; [by apply map_Forall_insert_2|].
    split; [|done]. rewrite fmap_insert. unfold row_view. by rewrite Hc, Hc'.
  - split; [done|]. split; [done|]. by eexists.
Qed.

Lemma delete_rows_law i d :
  db_wf d →
  let '(d', n) := delete_rows i d in db_wf d' ∧
  match db_view d !! i with
  | None => db_view d' = db_view d ∧ ∃ msg, found i n = Err (StoreError.NotFound msg)
  | Some _ => db_view d' = delete i (db_view d) ∧ found i n = Ok ()
  end.
Proof.
  intros Hwf. unfold delete_rows, db_view. rewrite lookup_fmap.
  destruct (sandboxes d !! i) as [row|] eqn:Hr; simpl.
  - split_and!; [by apply map_Forall_delete|by rewrite fmap_delete|done].
  - split_and!; [done..|by eexists].
Qed.

Lemma insert_row_law sb d :
  db_wf d → times_in_range sb → sandboxes d !! Sandbox.id sb = None →
  let d' := set_sandboxes d (<[Sandbox.id sb := sandbox_to_row sb]> (sandboxes d)) in
  db_wf d' ∧ db_view d' = <[Sandbox.id sb := content sb]> (db_view d).
Proof.
  intros Hwf Ht Hn. destruct (sandbox_to_row_ok sb Ht) as [Hok Hv]. split.
  - by apply map_Forall_insert_2.
  - unfold db_view. simpl. by rewrite fmap_insert, Hv.
Qed.

Lemma rows_ok d row : db_wf d → row ∈ (map_to_list (sandboxes d)).*2 → row_ok row.
Proof.
  intros Hwf ([i r] & -> & Hin%elem_of_map_to_list)%list_elem_of_fmap. by apply (Hwf i).
Qed.

Lemma sqlite_list_law o now d :
  db_wf d → Forall times_in_range (sqlite_list_sandboxes o now d) ∧
  content <$> sqlite_list_sandboxes o now d
  ≡ₚ List.filter (with_status o) (map_to_list (db_view d)).*2.
Proof.
  intros Hwf. pose proof (λ r, rows_ok d r Hwf) as Hok.
  unfold sqlite_list_sandboxes, db_view.
  rewrite map_to_list_fmap, <-list_fmap_compose.
  assert (∀ l : list RowData, (∀ r, r ∈ l → row_ok r) →
    Forall times_in_range (List.filter (with_status o)
      (omap (λ row, res_option (sqlite_row_to_sandbox now row)) l)) ∧
    content <$> List.filter (with_status o)
      (omap (λ row, res_option (sqlite_row_to_sandbox now row)) l)
    = List.filter (with_status o) (row_view <$> l)) as Hgen.
  { clear. induction l as [|r l IH]; intros Hl; [by split|].
    destruct (sqlite_decode r now) as (sb & Hd & Hc & Ht); [apply Hl; set_solver|].
    destruct IH as [IH1 IH2]; [set_solver|]. csimpl. rewrite Hd. simpl.
    assert (with_status o (row_view r) = with_status o sb) as ->
      by (rewrite <-Hc; by destruct o).
    destruct (with_status o sb); csimpl; [|done].
    split; [by constructor|]. by rewrite Hc, IH2. }
  destruct (Hgen _ Hok) as [H1 H2]. split; [done|]. rewrite H2.
  rewrite <-list_fmap_compose. done.
Qed.

Lemma update_rows_ok i f g d :
  db_wf d → acts f g →
  let '(d', r) := sqlite_update i f d in
  db_wf d' ∧ updates (db_view d) (db_view d') i g r.
Proof.
  intros Hwf Ha. unfold sqlite_update. pose proof (update_rows_law i f g d Hwf Ha) as Hu.
  destruct (update_rows i f d). destruct Hu. split; [done|]. by right.
Qed.

#[global] Instance sqlite_ok : StoreOk sqlite.
Proof.
  refine {| store_wf := db_wf : @store sqlite → Prop; abs := db_view : @store sqlite → _ |};
    simpl; intros.
  - unfold sqlite_create_sandbox. pose proof (insert_row_law sb s H H0) as Hi.
    unfold db_view at 2 3. rewrite lookup_fmap.
    destruct (sandboxes s !! Sandbox.id sb) eqn:Hs; simpl.
    + split; [done|]. right. by split; [|eexists].
    + destruct (Hi eq_refl). split; [done|]. by right.
  - split_and!; [done..|]. right. unfold sqlite_get_sandbox, db_view. rewrite lookup_fmap.
    destruct (sandboxes s !! id0) as [row|] eqn:Hs; simpl; [|by eexists].
    destruct (sqlite_decode row now) as (sb & -> & ? & ?); [by apply (H id0)|]. eauto.
  - by apply update_rows_ok, set_status_acts.
  - by apply update_rows_ok, set_spec_acts.
  - apply (update_rows_ok _ _ _ _ H
      (acts_compose _ _ _ _ (set_message_acts m) (set_status_acts st now H0))).
  - by apply update_rows_ok, set_node_acts.
  - by apply update_rows_ok, set_vmm_meta_acts.
  - by apply update_rows_ok, set_expiry_acts.
  - split_and!; [done..|]. right. eexists. split; [done|]. by apply sqlite_list_law.
  - unfold sqlite_delete_sandbox. pose proof (delete_rows_law id0 s H) as Hd.
    destruct (delete_rows _ _). destruct Hd. split; [done|]. by right.
  - done.
  - done.
  - unfold sqlite_save_execution. by destruct (executions s !! _).
  - done.
  - done.
Defined.

(** The engine executes every statement, and every row of a well-formed table decodes:
    nothing faults. *)
Lemma found_up i n : ¬ fault (found i n).
Proof. unfold found. destruct (n =? 0); simpl; tauto. Qed.
Lemma sqlite_update_up i f d : ¬ fault (sqlite_update i f d).2.
Proof. unfold sqlite_update. destruct (update_rows i f d). apply found_up. Qed.

#[global] Instance sqlite_up : StoreUp sqlite.
Proof.
  split; simpl; intros; try apply sqlite_update_up; try tauto.
  - unfold sqlite_create_sandbox. destruct (_ !! _); simpl; tauto.
  - unfold sqlite_get_sandbox. destruct (sandboxes s !! id0) as [row|] eqn:Hs; simpl; [|tauto].
    destruct (sqlite_decode row now) as (sb & -> & _); [by apply (H id0)|]. simpl. tauto.
  - unfold sqlite_delete_sandbox. destruct (delete_rows id0 s). apply found_up.
Qed.

(** *** PostgreSQL: an operation on a closed client faults when the server cannot be reached *)

Lemma with_client_reachable {A} (f : db → db * StoreResult A) p :
  with_client true f p = let '(d, r) := f (data p) in (client d false, r).
Proof. unfold with_client, ensure_client, statement. destruct p as [d []]; by simpl. Qed.

Lemma pg_list_law o now d :
  db_wf d →
  let rows := List.filter (λ r, match o with
      | Some st => String.eqb (status r) (SandboxStatus.as_str st) | None => true end)
      (map_to_list (sandboxes d)).*2 in
  ∃ l, foldr (λ r acc, x ← pg_row_to_sandbox now r; l ← acc; Ok (x :: l)) (Ok []) rows = Ok l ∧
    Forall times_in_range l ∧
    content <$> l ≡ₚ List.filter (with_status o) (map_to_list (db_view d)).*2.
Proof.
  intros Hwf rows. pose proof (λ r, rows_ok d r Hwf) as Hok. subst rows.
  unfold db_view. rewrite map_to_list_fmap, <-list_fmap_compose.
  assert (∀ l : list RowData, (∀ r, r ∈ l → row_ok r) →
    ∃ out, foldr (λ r acc, x ← pg_row_to_sandbox now r; l ← acc; Ok (x :: l)) (Ok [])
      (List.filter (λ r, match o with
         | Some st => String.eqb (status r) (SandboxStatus.as_str st) | None => true end) l) = Ok out ∧
    Forall times_in_range out ∧
    content <$> out = List.filter (with_status o) (row_view <$> l)) as Hgen.
  { clear. induction l as [|r l IH]; intros Hl; [by exists []|].
    destruct IH as (out & Hf & Ho1 & Ho2); [set_solver|].
    assert (row_ok r) as Hr by (apply Hl; set_solver).
    destruct (pg_decode r now Hr) as (sb & Hd & Hc & Ht). csimpl.
    assert (with_status o (row_view r) = match o with
       | Some st => String.eqb (status r) (SandboxStatus.as_str st) | None => true end) as ->.
    { destruct o as [st|]; [|done]. simpl. unfold row_view.
      destruct (ok_decodes _ Hr) as [c Hrc]. rewrite Hrc. simpl.
      apply row_content_fields in Hrc as (_ & _ & Hst & _).
      apply SandboxStatus.as_of_str in Hst as <-.
      destruct (String.eqb_spec (SandboxStatus.as_str (Sandbox.status c)) (SandboxStatus.as_str st))
        as [Heq|Hne].
      - apply bool_decide_true. apply (f_equal SandboxStatus.of_str) in Heq.
        rewrite !SandboxStatus.of_as_str in Heq. congruence.
      - apply bool_decide_false. congruence. }
    destruct (match o with Some st => _ | None => true end).
    - simpl. rewrite Hd, Hf. simpl. exists (sb :: out). csimpl. rewrite Hc, Ho2.
      split_and!; [done|by constructor|done].
    - eauto. }
  destruct (Hgen _ Hok) as (l & H1 & H2 & H3). exists l. split_and!; [done..|].
  rewrite H3, <-list_fmap_compose. done.
Qed.

Lemma with_client_law {A} reach (f : db → db * StoreResult A) p
    (P : gmap string Sandbox.t → StoreResult A → Prop) :
  db_wf (data p) →
  (let '(d, r) := f (data p) in db_wf d ∧ P (db_view d) r) →
  (∀ r, fault r → P (db_view (data p)) r) →
  let '(p', r) := with_client reach f p in db_wf (data p') ∧ P (db_view (data p')) r.
Proof.
  intros Hwf Hf Hr. unfold with_client, ensure_client, statement.
  destruct p as [d []], reach; simpl in *; try (by destruct (f d)). split; [done|]. by apply Hr.
Qed.

Lemma pg_update_ok reach i f g p :
  db_wf (data p) → acts f g →
  let '(p', r) := pg_update reach i f p in
  db_wf (data p') ∧ updates (db_view (data p)) (db_view (data p')) i g r.
Proof.
  intros Hwf Ha. apply (with_client_law reach _ p (λ m r, updates (db_view (data p)) m i g r));
    [done|exact (update_rows_ok i f g (data p) Hwf Ha)|by left].
Qed.

#[global] Instance postgres_ok reach : StoreOk (postgres reach).
Proof.
  refine {| store_wf := (λ p, db_wf (data p)) : @store (postgres reach) → Prop;
            abs := (λ p, db_view (data p)) : @store (postgres reach) → _ |}; simpl; intros.
  - apply (with_client_law reach _ s (λ m r, or_fault (db_view (data s)) m r
      match db_view (data s) !! Sandbox.id sb with
      | Some _ => m = db_view (data s) ∧ ∃ msg, r = Err (StoreError.Conflict msg)
      | None => m = <[Sandbox.id sb := content sb]> (db_view (data s)) ∧ r = Ok ()
      end)); [done| |by left].
    pose proof (insert_row_law sb (data s) H H0) as Hi. unfold db_view at 2 3. rewrite lookup_fmap.
    destruct (sandboxes (data s) !! Sandbox.id sb) eqn:Hs; simpl.
    + split; [done|]. right. by split; [|eexists].
    + destruct (Hi eq_refl). split; [done|]. by right.
  - apply (with_client_law reach _ s (λ m r, m = db_view (data s) ∧ (fault r ∨
      match db_view (data s) !! id0 with
      | Some c => ∃ sb, r = Ok sb ∧ content sb = c ∧ times_in_range sb
      | None => ∃ msg, r = Err (StoreError.NotFound msg)
      end))); [done| |by split; [|left]].
    split_and!; [done..|]. right. unfold db_view. rewrite lookup_fmap.
    destruct (sandboxes (data s) !! id0) as [row|] eqn:Hs; simpl; [|by eexists].
    destruct (pg_decode row now) as (sb & -> & ? & ?); [by apply (H id0)|]. eauto.
  - by apply pg_update_ok, set_status_acts.
  - by apply pg_update_ok, set_spec_acts.
  - apply (pg_update_ok reach _ _ _ _ H
      (acts_compose _ _ _ _ (set_message_acts m) (set_status_acts st now H0))).
  - by apply pg_update_ok, set_node_acts.
  - by apply pg_update_ok, set_vmm_meta_acts.
  - by apply pg_update_ok, set_expiry_acts.
  - apply (with_client_law reach _ s (λ m r, m = db_view (data s) ∧ (fault r ∨
      ∃ l, r = Ok l ∧ Forall times_in_range l ∧
        content <$> l ≡ₚ List.filter (with_status o) (map_to_list (db_view (data s))).*2)));
      [done| |by split; [|left]].
    split_and!; [done..|]. right.
    destruct (pg_list_law o now (data s) H) as (l & Hl & ? & ?). exists l. by split_and!.
  - apply (with_client_law reach _ s (λ m r, or_fault (db_view (data s)) m r
      match db_view (data s) !! id0 with
      | None => m = db_view (data s) ∧ ∃ msg, r = Err (StoreError.NotFound msg)
      | Some _ => m = delete id0 (db_view (data s)) ∧ r = Ok ()
      end)); [done| |by left].
    pose proof (delete_rows_law id0 (data s) H) as Hd. destruct (delete_rows _ _).
    destruct Hd. split; [done|]. by right.
  - unfold pg_list_ready_nodes, statement. destruct s as [d []]; by simpl.
  - unfold pg_upsert_node, statement. destruct s as [d []]; by simpl.
  - apply (with_client_law reach _ s (λ m _, m = db_view (data s))); [done| |done].
    by destruct (executions (data s) !! _).
  - by apply (with_client_law reach _ s (λ m _, m = db_view (data s))).
  - by apply (with_client_law reach _ s (λ m _, m = db_view (data s))).
Defined.

Lemma pg_update_up i f p : ¬ fault (pg_update true i f p).2.
Proof.
  unfold pg_update. rewrite with_client_reachable. destruct (update_rows i f (data p)).
  apply found_up.
Qed.

(** While the server can be reached nothing faults. *)
#[global] Instance postgres_up : StoreUp (postgres true).
Proof.
  split; simpl; intros; try apply pg_update_up.
  - unfold pg_create_sandbox. rewrite with_client_reachable. destruct (_ !! _); simpl; tauto.
  - unfold pg_get_sandbox. rewrite with_client_reachable. simpl.
    destruct (sandboxes (data s) !! id0) as [row|] eqn:Hs; simpl; [|tauto].
    destruct (pg_decode row now) as (sb & -> & _); [by apply (H id0)|]. simpl. tauto.
  - unfold pg_list_sandboxes. rewrite with_client_reachable. simpl.
    destruct (pg_list_law o now (data s) H) as (l & -> & _). simpl. tauto.
  - unfold pg_delete_sandbox. rewrite with_client_reachable.
    destruct (delete_rows id0 (data s)). apply found_up.
Qed.
End laws.

(** ** Executions *)

Definition floor_ms (t : Z) : Z := from_millis (timestamp_millis t).

Definition floor_execution (r : ExecutionRecord.t) : ExecutionRecord.t :=
  ExecutionRecord.mk (ExecutionRecord.id r) (ExecutionRecord.sandbox_id r)
    (ExecutionRecord.spec r) (ExecutionRecord.exit_code r) (ExecutionRecord.stdout r)
    (ExecutionRecord.stderr r) (floor_ms (ExecutionRecord.started_at r))
    (floor_ms (ExecutionRecord.finished_at r)) (ExecutionRecord.timed_out r)
    (ExecutionRecord.stdout_truncated r) (ExecutionRecord.stderr_truncated r)
    (ExecutionRecord.node_id r).

Lemma execution_row_round_trip {J : Json ExecutionSpec.t} {JO : JsonOk ExecutionSpec.t} r now :
  in_range (ExecutionRecord.started_at r) → in_range (ExecutionRecord.finished_at r) →
  sqlite_row_to_execution now (execution_to_row r) = Ok (floor_execution r).
Proof.
  intros H1%in_range_millis H2%in_range_millis. unfold sqlite_row_to_execution. simpl.
  rewrite from_to_string. simpl. unfold build_execution, date_or_now. simpl.
  by rewrite !from_timestamp_ok.
Qed.

(** ** Properties *)

Section properties.
Context {Jspec : Json SandboxSpec.t} {Jmeta : Json VmmMeta.t} {Jexec : Json ExecutionSpec.t}
  {Jnode : Json RegisteredNode.t} {Jstatus : Json NodeStatus.t}.
Context {JspecOk : JsonOk SandboxSpec.t} {JmetaOk : JsonOk VmmMeta.t}
  {JexecOk : JsonOk ExecutionSpec.t}.

(** While its server can be reached, PostgreSQL runs as SQLite does on any rows, those that
    do not decode included: the same rows after the same answers. *)
Lemma pg_reads_as_sqlite i now p :
  res_option (pg_get_sandbox true i now p).2 = res_option (sqlite_get_sandbox i now (data p)) ∧
  seen (λ sb, Content (content sb)) (pg_get_sandbox true i now p).2
  = seen (λ sb, Content (content sb)) (sqlite_get_sandbox i now (data p)).
Proof.
  unfold pg_get_sandbox, sqlite_get_sandbox. rewrite with_client_reachable. simpl.
  destruct (sandboxes (data p) !! i) as [row|]; simpl; [|done].
  unfold pg_row_to_sandbox, sqlite_row_to_sandbox.
  destruct (from_str (spec_json row)); [|done..]. simpl.
  destruct (from_str (vmm_meta_json row)); [|done..]. simpl.
  by destruct (SandboxStatus.of_str (status row)).
Qed.
Lemma pg_update_as_sqlite i f p :
  (data (pg_update true i f p).1, (pg_update true i f p).2) = sqlite_update i f (data p).
Proof.
  unfold pg_update, sqlite_update. rewrite with_client_reachable.
  by destruct (update_rows i f (data p)).
Qed.
Lemma pg_runs_as_sqlite o now p :
  (data (run_op (S := postgres true) o now p).1, (run_op (S := postgres true) o now p).2)
  = run_op (S := sqlite) o now (data p).
Proof.
  assert (∀ (x : pg * StoreResult ()) y, (data x.1, x.2) = y →
    let z := (let '(s', r) := x in (s', seen (λ _ : (), Done) r)) in
    (data z.1, z.2) = (let '(s', r) := y in (s', seen (λ _ : (), Done) r))) as Hu.
  { intros [p' r] y <-. done. }
  destruct o; simpl; try apply Hu, pg_update_as_sqlite.
  - unfold pg_create_sandbox, sqlite_create_sandbox. rewrite with_client_reachable.
    by destruct (sandboxes (data p) !! Sandbox.id sb).
  - pose proof (proj2 (pg_reads_as_sqlite id0 now p)) as Hr.
    assert (data (pg_get_sandbox true id0 now p).1 = data p) as Hd.
    { unfold pg_get_sandbox. by rewrite with_client_reachable. }
    destruct (pg_get_sandbox true id0 now p). simpl in *. by rewrite Hr, Hd.
  - unfold pg_delete_sandbox, sqlite_delete_sandbox. rewrite with_client_reachable.
    by destruct (delete_rows id0 (data p)).
Qed.
Lemma pg_runs_all_as_sqlite ops p :
  (data (run_ops (S := postgres true) ops p).1, (run_ops (S := postgres true) ops p).2)
  = run_ops (S := sqlite) ops (data p).
Proof.
  revert p. induction ops as [|[o now] ops IH]; intros p; [done|]. simpl.
  rewrite <-pg_runs_as_sqlite. destruct (run_op (S := postgres true) o now p) as [p1 a]. simpl.
  rewrite <-IH. by destruct (run_ops (S := postgres true) ops p1).
Qed.

(** C29: the three stores implement one map.  Any sequence of creates, reads, updates and
    deletes on an empty in-memory, SQLite or PostgreSQL store (whose client may have been
    closed, while the server can be reached) gives the answers of the abstract map from ids
    to contents, up to the texts of errors, and leaves its contents.  The two SQL stores
    also end with the same rows, and any sandbox then reads back as the same record from
    both.  A content is everything of a sandbox but [updated_at] and [ready_at], its other
    times at the millisecond: on [ready_at] the in-memory store differs
    ([stores_disagree_on_ready_at]).  No disk or connection error occurs in the run, and
    [list_sandboxes], on which the two SQL stores treat a row that does not decode
    differently, is not one of the operations. *)
Theorem stores_interchangeable closed ops :
  ops_in_range ops →
  let '(m, lm) := run_ops (S := InMemoryStore.impl) ops InMemoryStore.new in
  let '(d, ld) := run_ops (S := sqlite) ops empty_db in
  let '(p, lp) := run_ops (S := postgres true) ops (client empty_db closed) in
  (InMemoryStore.view m, lm) = abs_ops ops ∅ ∧ (db_view d, ld) = abs_ops ops ∅ ∧
  data p = d ∧ lp = ld ∧
  ∀ i now, res_option (pg_get_sandbox true i now p).2 = res_option (sqlite_get_sandbox i now d).
Proof.
  intros Hr.
  pose proof (run_ops_refines (S := InMemoryStore.impl) ops InMemoryStore.new) as H1.
  pose proof (run_ops_refines (S := sqlite) ops empty_db) as H2.
  pose proof (pg_runs_all_as_sqlite ops (client empty_db closed)) as H3. simpl in H3.
  destruct (run_ops (S := InMemoryStore.impl) ops _) as [m lm].
  destruct (run_ops (S := sqlite) ops _) as [d ld].
  destruct (run_ops (S := postgres true) ops _) as [p lp]. simplify_eq/=.
  destruct H1 as [_ H1]; [by intros ???|done|]. destruct H2 as [_ H2]; [by intros ???|done|].
  split_and!; [|by rewrite <-(fmap_empty row_view)|done..|].
  - rewrite <-(fmap_empty content). exact H1.
  - intros i now. apply pg_reads_as_sqlite.
Qed.

(** A sandbox that is paused and resumed keeps its first ready time in the
    SQL stores but takes the latest one in memory: the two disagree on
    [ready_at] after the same sequence of operations. *)
Theorem stores_disagree_on_ready_at i sp t0 t1 t2 :
  in_range (from_millis t0) → in_range (from_millis t1) → in_range (from_millis t2) → t1 ≠ t2 →
  let sb := Sandbox.new i sp (from_millis t0) in
  let run {S : Store} (s : store) :=
    (update_sandbox_status i SandboxStatus.Running (from_millis t2)
      (update_sandbox_status i SandboxStatus.Paused (from_millis t1)
        (update_sandbox_status i SandboxStatus.Running (from_millis t1)
          (create_sandbox sb s).1).1).1).1 in
  (∃ x, (get_sandbox (Store := InMemoryStore.impl) i 0 (run (S := InMemoryStore.impl) InMemoryStore.new)).2
        = Ok x ∧ Sandbox.ready_at x = Some (from_millis t2)) ∧
  (∃ y, (get_sandbox (Store := sqlite) i 0 (run (S := sqlite) empty_db)).2
        = Ok y ∧ Sandbox.ready_at y = Some (from_millis t1)).
Proof.
  intros H0 H1 H2 Hne sb run. subst run. split.
  - simpl. unfold InMemoryStore.create_sandbox. simpl. rewrite lookup_empty. simpl.
    unfold InMemoryStore.update_sandbox_status, InMemoryStore.update. simpl.
    rewrite lookup_insert_eq. simpl. rewrite !lookup_insert_eq. simpl. rewrite !lookup_insert_eq.
    unfold InMemoryStore.get_sandbox. simpl. rewrite lookup_insert_eq. simpl. eauto.
  - simpl. unfold sqlite_create_sandbox. simpl. rewrite lookup_empty. simpl.
    unfold sqlite_update_sandbox_status, sqlite_update, update_rows. simpl.
    rewrite lookup_insert_eq. simpl. rewrite !lookup_insert_eq. simpl. rewrite !lookup_insert_eq.
    unfold sqlite_get_sandbox. simpl. rewrite lookup_insert_eq. simpl.
    unfold sqlite_row_to_sandbox. simpl. rewrite !from_to_string. simpl.
    eexists. split; [done|]. simpl. rewrite !millis_from_millis. simpl.
    by rewrite from_timestamp_ok.
Qed.

(** An execution record is kept faithfully by SQLite: what was saved under a
    fresh id is read back with its times rounded down to the millisecond, and a
    second record under the same id is refused without changing the first. *)
Theorem execution_saved_once r r' now d :
  in_range (ExecutionRecord.started_at r) → in_range (ExecutionRecord.finished_at r) →
  executions d !! ExecutionRecord.id r = None → ExecutionRecord.id r' = ExecutionRecord.id r →
  let '(d1, a1) := sqlite_save_execution r d in
  let '(d2, a2) := sqlite_save_execution r' d1 in
  a1 = Ok () ∧ sqlite_get_execution (ExecutionRecord.id r) now d1 = Ok (floor_execution r) ∧
  d2 = d1 ∧ is_ok a2 = false.
Proof.
  intros H1 H2 Hn Hid. unfold sqlite_save_execution. rewrite Hn. simpl. rewrite Hid.
  rewrite lookup_insert_eq. split_and!; try done.
  unfold sqlite_get_execution. simpl. rewrite lookup_insert_eq. simpl.
  by apply execution_row_round_trip.
Qed.

(** The PostgreSQL node registry does not reconnect.  On a closed client with
    a reachable server, a sandbox read reconnects and answers, but a node
    heartbeat and the list of ready nodes fail, and leave the client closed. *)
Theorem pg_node_registry_does_not_reconnect d n now i :
  let p := client d true in
  pg_get_sandbox true i now p = (client d false, (pg_get_sandbox true i now (client d false)).2) ∧
  (∃ e, pg_upsert_node n p = (p, Err (StoreError.Internal e))) ∧
  (∃ e, pg_list_ready_nodes now p = (p, Err (StoreError.Internal e))).
Proof.
  intros p. unfold pg_get_sandbox. rewrite !with_client_reachable. simpl. split_and!; eauto.
Qed.
End properties.

(** *** A serializer for the witnesses: the binary numeral of the encoding of a
    countable type *)

Module JsonDemo.
Fixpoint digits (p : positive) : string :=
  match p with
  | xH => "" | xO p => String "0" (digits p) | xI p => String "1" (digits p)
  end.
Fixpoint undigits (s : string) : option positive :=
  match s with
  | EmptyString => Some xH
  | String "0" s => xO <$> undigits s
  | String "1" s => xI <$> undigits s
  | _ => None
  end.
Lemma undigits_digits p : undigits (digits p) = Some p.
Proof. induction p as [p IH|p IH|]; simpl; [by rewrite IH..|done]. Qed.

Definition json_countable A `{Countable A} : Json A := {|
  to_string x := digits (encode x);
  from_str s := match undigits s ≫= decode with Some x => Ok x | None => Err "malformed"%string end |}.

Lemma json_countable_ok A `{Countable A} : @JsonOk A (json_countable A).
Proof. split. intros x. simpl. by rewrite undigits_digits; simpl; rewrite decode_encode. Qed.

#[global] Instance exec_spec_eq_dec : EqDecision ExecutionSpec.t.
Proof. solve_decision. Defined.
#[global] Instance exec_spec_countable : Countable ExecutionSpec.t.
Proof.
  refine (inj_countable'
    (λ s, (ExecutionSpec.argv s, ExecutionSpec.env s, ExecutionSpec.cwd s, ExecutionSpec.timeout_ms s))
    (λ '(a, e, c, t), ExecutionSpec.mk a e c t) _). by intros [].
Defined.
#[global] Instance vmm_meta_eq_dec : EqDecision VmmMeta.t.
Proof. solve_decision. Defined.
#[global] Instance vmm_meta_countable : Countable VmmMeta.t.
Proof.
  refine (inj_countable'
    (λ m, (VmmMeta.backend m, VmmMeta.owner_id m, VmmMeta.pid m, VmmMeta.api_socket m,
           VmmMeta.vsock_socket m, VmmMeta.vsock_cid m, VmmMeta.vmm_id m, VmmMeta.extra m))
    (λ '(b, o, p, a, v, c, i, x), VmmMeta.mk b o p a v c i x) _). by intros [].
Defined.
#[global] Instance image_eq_dec : EqDecision ImageRef.t.
Proof. solve_decision. Defined.
#[global] Instance image_countable : Countable ImageRef.t.
Proof.
  refine (inj_countable' (λ i, (ImageRef.reference i, ImageRef.digest i))
    (λ '(r, d), ImageRef.mk r d) _). by intros [].
Defined.
#[global] Instance resources_eq_dec : EqDecision Resources.t.
Proof. solve_decision. Defined.
#[global] Instance resources_countable : Countable Resources.t.
Proof.
  refine (inj_countable'
    (λ r, (Resources.vcpu r, Resources.memory_mb r, Resources.disk_mb r,
           Resources.bandwidth_mbps r, Resources.iops r, Resources.pids_max r))
    (λ '(a, b, c, d, e, f), Resources.mk a b c d e f) _). by intros [].
Defined.
#[global] Instance network_eq_dec : EqDecision NetworkConfig.t.
Proof. solve_decision. Defined.
#[global] Instance network_countable : Countable NetworkConfig.t.
Proof.
  refine (inj_countable'
    (λ n, (NetworkConfig.enabled n, NetworkConfig.allow_egress n, NetworkConfig.deny_egress n))
    (λ '(a, b, c), NetworkConfig.mk a b c) _). by intros [].
Defined.
#[global] Instance mount_eq_dec : EqDecision MountSpec.t.
Proof. solve_decision. Defined.
#[global] Instance mount_countable : Countable MountSpec.t.
Proof.
  refine (inj_countable' (λ m, (MountSpec.source m, MountSpec.target m, MountSpec.readonly m))
    (λ '(a, b, c), MountSpec.mk a b c) _). by intros [].
Defined.
#[global] Instance volume_eq_dec : EqDecision VolumeMountSpec.t.
Proof. solve_decision. Defined.
#[global] Instance volume_countable : Countable VolumeMountSpec.t.
Proof.
  refine (inj_countable' (λ m, (VolumeMountSpec.name m, VolumeMountSpec.target m))
    (λ '(a, b), VolumeMountSpec.mk a b) _). by intros [].
Defined.
#[global] Instance secret_eq_dec : EqDecision SecretSpec.t.
Proof. solve_decision. Defined.
#[global] Instance secret_countable : Countable SecretSpec.t.
Proof.
  refine (inj_countable' (λ m, (SecretSpec.name m, SecretSpec.value m))
    (λ '(a, b), SecretSpec.mk a b) _). by intros [].
Defined.
#[global] Instance policy_countable : Countable RestartPolicy.t.
Proof.
  refine (inj_countable'
    (λ p, match p with
          | RestartPolicy.Never => 0 | RestartPolicy.OnFailure => 1 | RestartPolicy.Always => 2
          end)
    (λ z : Z, if z =? 0 then RestartPolicy.Never
              else if z =? 1 then RestartPolicy.OnFailure else RestartPolicy.Always) _).
  by intros [].
Defined.
#[global] Instance spec_eq_dec : EqDecision SandboxSpec.t.
Proof. solve_decision. Defined.
#[global] Instance spec_countable : Countable SandboxSpec.t.
Proof.
  refine (inj_countable'
    (λ s, ((SandboxSpec.image s, SandboxSpec.resources s, SandboxSpec.network s,
            SandboxSpec.mounts s, SandboxSpec.volume_mounts s),
           (SandboxSpec.secrets s, SandboxSpec.ttl_secs s, SandboxSpec.start_timeout_secs s,
            SandboxSpec.env s, SandboxSpec.init_command s),
           (SandboxSpec.init_env s, SandboxSpec.init_cwd s, SandboxSpec.init_timeout_ms s,
            SandboxSpec.metadata s, SandboxSpec.auto_pause s),
           (SandboxSpec.auto_pause_memory s, SandboxSpec.auto_resume s,
            SandboxSpec.node_selector s, SandboxSpec.restart_policy s, SandboxSpec.tenant_id s)))
    (λ '((a, b, c, d, e), (f, g, h, i, j), (k, l, m, n, o), (p, q, r, s, t)),
       SandboxSpec.mk a b c d e f g h i j k l m n o p q r s t) _). by intros [].
Defined.

#[global] Instance spec_json : Json SandboxSpec.t := json_countable _.
#[global] Instance spec_json_ok : JsonOk SandboxSpec.t := json_countable_ok _.
#[global] Instance meta_json : Json VmmMeta.t := json_countable _.
#[global] Instance meta_json_ok : JsonOk VmmMeta.t := json_countable_ok _.
#[global] Instance exec_json : Json ExecutionSpec.t := json_countable _.
#[global] Instance exec_json_ok : JsonOk ExecutionSpec.t := json_countable_ok _.
#[global] Instance node_json : Json RegisteredNode.t :=
  {| to_string _ := ""; from_str _ := Err "unused"%string |}.
#[global] Instance status_json : Json NodeStatus.t :=
  {| to_string _ := ""; from_str _ := Err "unused"%string |}.

Definition run : ExecutionRecord.t :=
  ExecutionRecord.mk "e" "a" (ExecutionSpec.mk ["ls"%string] ∅ None 1000) 0 [] [] 1500000 2700000
    false false false None.
End JsonDemo.

Lemma stores_interchangeable_witness :
  let '(m, lm) := run_ops (S := InMemoryStore.impl) StoreDemo.ops InMemoryStore.new in
  let '(d, ld) := run_ops (S := sqlite) StoreDemo.ops empty_db in
  let '(p, lp) := run_ops (S := postgres true) StoreDemo.ops (client empty_db true) in
  (InMemoryStore.view m, lm) = abs_ops StoreDemo.ops ∅ ∧ (db_view d, ld) = abs_ops StoreDemo.ops ∅ ∧
  data p = d ∧ lp = ld ∧
  ∀ i now, res_option (pg_get_sandbox true i now p).2 = res_option (sqlite_get_sandbox i now d).
Proof. exact (stores_interchangeable true StoreDemo.ops StoreDemo.ops_ok). Defined.

Lemma stores_disagree_on_ready_at_witness :
  ∃ y, (get_sandbox (Store := sqlite) "a" 0
    (update_sandbox_status (Store := sqlite) "a" SandboxStatus.Running (from_millis 3)
      (update_sandbox_status (Store := sqlite) "a" SandboxStatus.Paused (from_millis 2)
        (update_sandbox_status (Store := sqlite) "a" SandboxStatus.Running (from_millis 2)
          (create_sandbox (Store := sqlite) (Sandbox.new "a" SandboxSpec.default (from_millis 1))
             empty_db).1).1).1).1).2 = Ok y ∧ Sandbox.ready_at y = Some (from_millis 2).
Proof.
  refine (proj2 (stores_disagree_on_ready_at "a" SandboxSpec.default 1 2 3 _ _ _ _));
    [apply StoreDemo.small_in_range; unfold from_millis; lia..|lia].
Defined.

Lemma execution_saved_once_witness :
  let d1 := (sqlite_save_execution JsonDemo.run empty_db).1 in
  sqlite_get_execution "e" 0 d1 = Ok (floor_execution JsonDemo.run).
Proof.
  refine (proj1 (proj2 (execution_saved_once JsonDemo.run JsonDemo.run 0 empty_db _ _ eq_refl eq_refl)));
    apply StoreDemo.small_in_range; simpl; lia.
Defined.
