(* ===== verification/Schema.v ===== *)
(** * Opening a database ([SCHEMA], [add_column_if_missing], [init] of
    [crates/clouisle-store/src/sqlite.rs]; [SCHEMA] and [connect] of [postgres.rs])

    A store opens the database of an earlier release: it creates what is missing and adds
    the columns that came later.  The engine is the class [Engine]; [EngineOk] says that
    it carries out the few statements used here as its documentation has them, on the
    names of the columns of each table. *)

From S2P Require Import Prelude Core Store.

(** The names of the columns of each table, in their order. *)
Abbreviation schema := (gmap string (list string)).

Inductive ddl : Set :=
| CreateTableIfNotExists (table : string) (columns : list string)
| CreateIndexIfNotExists (name table : string) (columns : list string)
| AddColumn (table column definition : string)
| AddColumnIfNotExists (table column definition : string).

(** ** What the statements mean *)

Definition has_columns (m : schema) (table : string) (columns : list string) : bool :=
  match m !! table with
  | Some have => forallb (λ c, bool_decide (c ∈ have)) columns
  | None => false
  end.

(** [None] is an error, which leaves the tables alone.  An index that exists is an index
    on columns that exist. *)
Definition apply_ddl (s : ddl) (m : schema) : option schema :=
  match s with
  | CreateTableIfNotExists t cols =>
    Some (match m !! t with Some _ => m | None => <[t := cols]> m end)
  | CreateIndexIfNotExists _ t cols => if has_columns m t cols then Some m else None
  | AddColumn t c _ =>
    have ← m !! t;
    if bool_decide (c ∈ have) then None else Some (<[t := have ++ [c]]> m)
  | AddColumnIfNotExists t c _ =>
    have ← m !! t;
    if bool_decide (c ∈ have) then Some m else Some (<[t := have ++ [c]]> m)
  end.

(** The statements in order, up to the first that fails. *)
Fixpoint apply_all (l : list ddl) (m : schema) : schema * bool :=
  match l with
  | [] => (m, true)
  | s :: l' => match apply_ddl s m with Some m' => apply_all l' m' | None => (m, false) end
  end.

Class Engine : Type := {
  conn : Type;
  pragma : string → conn → conn * option string;
  execute_batch : list ddl → conn → conn * option string;
  table_info : string → conn → res string (list string) }.

(** [atomic]: a batch that fails leaves nothing behind. *)
Class EngineOk (E : Engine) (atomic : bool) : Type := {
  schema_of : conn → schema;
  pragma_law p c : let '(c', e) := pragma p c in e = None ∧ schema_of c' = schema_of c;
  batch_law l c : let '(c', e) := execute_batch l c in
    let '(m, ok) := apply_all l (schema_of c) in
    (e = None ↔ ok = true) ∧ schema_of c' = if ok || negb atomic then m else schema_of c;
  table_info_law t c : table_info t c = Ok (default [] (schema_of c !! t)) }.

(** ** SQLite *)

Definition sandbox_columns : list string :=
  ["id"; "spec_json"; "status"; "vmm_meta_json"; "created_at"; "updated_at"; "ready_at"; "expires_at";
   "terminal_message"; "node_id"]%string.
Definition execution_columns : list string :=
  ["id"; "sandbox_id"; "spec_json"; "exit_code"; "stdout"; "stderr"; "started_at"; "finished_at";
   "timed_out"; "stdout_truncated"; "stderr_truncated"; "node_id"]%string.
Definition node_columns : list string := ["node_id"; "node_json"; "status"; "last_heartbeat_ms"]%string.

Definition SCHEMA : list ddl :=
  [CreateTableIfNotExists "sandboxes" sandbox_columns;
   CreateTableIfNotExists "executions" execution_columns;
   CreateIndexIfNotExists "idx_exec_sandbox" "executions" ["sandbox_id"%string];
   CreateTableIfNotExists "nodes" node_columns;
   CreateIndexIfNotExists "idx_nodes_ready" "nodes" ["status"; "last_heartbeat_ms"]%string].

(** The columns [init] adds where they are missing, with their definitions. *)
Definition additions : list (string * string * string) :=
  [("sandboxes", "vmm_meta_json", "TEXT NOT NULL DEFAULT '{}'");
   ("sandboxes", "ready_at", "INTEGER");
   ("sandboxes", "expires_at", "INTEGER");
   ("sandboxes", "terminal_message", "TEXT");
   ("sandboxes", "node_id", "TEXT");
   ("executions", "timed_out", "INTEGER NOT NULL DEFAULT 0");
   ("executions", "stdout_truncated", "INTEGER NOT NULL DEFAULT 0");
   ("executions", "stderr_truncated", "INTEGER NOT NULL DEFAULT 0");
   ("executions", "node_id", "TEXT");
   ("nodes", "last_heartbeat_ms", "INTEGER NOT NULL DEFAULT 0")]%string.

Section sqlite.
Context {E : Engine}.

Definition on_conn (A : Type) : Type := stres conn StoreError.t A.

Definition run_sql (f : conn → conn * option string) : on_conn () := λ c,
  let '(c', e) := f c in
  (c', match e with None => Ok () | Some msg => Err (StoreError.Sqlite msg) end).

Definition add_column_if_missing (table column definition : string) : on_conn () := λ c,
  match table_info table c with
  | Ok columns =>
    if existsb (String.eqb column) columns then (c, Ok ())
    else run_sql (execute_batch [AddColumn table column definition]) c
  | Err e => (c, Err (StoreError.Sqlite e))
  | Panic => (c, Panic)
  end.

Fixpoint add_missing (l : list (string * string * string)) : on_conn () :=
  match l with
  | [] => mret ()
  | (t, c, d) :: l' => _ ← add_column_if_missing t c d; add_missing l'
  end.

Definition init : on_conn () :=
  _ ← run_sql (pragma "journal_mode=WAL");
  _ ← run_sql (pragma "synchronous=NORMAL");
  _ ← run_sql (pragma "foreign_keys=ON");
  _ ← run_sql (execute_batch SCHEMA);
  add_missing additions.
End sqlite.

(** ** PostgreSQL *)

(** The same tables and indexes, then the columns: all but [vmm_meta_json]. *)
Definition PG_SCHEMA : list ddl :=
  SCHEMA ++
  [AddColumnIfNotExists "sandboxes" "ready_at" "BIGINT";
   AddColumnIfNotExists "sandboxes" "expires_at" "BIGINT";
   AddColumnIfNotExists "sandboxes" "terminal_message" "TEXT";
   AddColumnIfNotExists "sandboxes" "node_id" "TEXT";
   AddColumnIfNotExists "executions" "timed_out" "BOOLEAN NOT NULL DEFAULT false";
   AddColumnIfNotExists "executions" "stdout_truncated" "BOOLEAN NOT NULL DEFAULT false";
   AddColumnIfNotExists "executions" "stderr_truncated" "BOOLEAN NOT NULL DEFAULT false";
   AddColumnIfNotExists "executions" "node_id" "TEXT";
   AddColumnIfNotExists "nodes" "last_heartbeat_ms" "BIGINT NOT NULL DEFAULT 0"]%string.

(** [connect], once the server has answered. *)
Definition connect {E : Engine} : on_conn () := λ c,
  let '(c', e) := execute_batch PG_SCHEMA c in
  (c', match e with
       | None => Ok ()
       | Some msg => Err (StoreError.Internal ("postgres schema: " +:+ msg))
       end).

(** ** The database that results *)

(** The tables of a new database. *)
Definition created : schema :=
  {["sandboxes"%string := sandbox_columns; "executions"%string := execution_columns;
    "nodes"%string := node_columns]}.
Definition pg_additions : list (string * string * string) :=
  omap (λ s, match s with AddColumnIfNotExists t c d => Some (t, c, d) | _ => None end) PG_SCHEMA.

(** The columns a list of additions has for a table, and a table that has them. *)
Definition later (l : list (string * string * string)) (t : string) : list string :=
  (λ x, x.1.2) <$> List.filter (λ x, String.eqb x.1.1 t) l.
Definition add_col (have : list string) (c : string) : list string :=
  if bool_decide (c ∈ have) then have else have ++ [c].
Definition grow (l : list (string * string * string)) (t : string) (have : list string) : list string :=
  foldl add_col have (later l t).
Definition grown (l : list (string * string * string)) (m : schema) : schema :=
  map_imap (λ t have, Some (grow l t have)) m.
Definition upgrade (l : list (string * string * string)) (m : schema) : schema := grown l (m ∪ created).

(** The indexes can be made before any column is added. *)
Definition indexable (m : schema) : bool :=
  has_columns (m ∪ created) "executions" ["sandbox_id"%string]
  && has_columns (m ∪ created) "nodes" ["status"; "last_heartbeat_ms"]%string.

(** A database of an earlier release: what a table lacks is what is added. *)
Definition dated (l : list (string * string * string)) (m : schema) : Prop :=
  ∀ t cols have, created !! t = Some cols → m !! t = Some have →
    ∀ c, c ∈ cols → c ∈ have ∨ c ∈ later l t.

Lemma add_cols_extend adds : ∀ have, ∃ more, foldl add_col have adds = have ++ more.
Proof.
  induction adds as [|c adds IH]; intros have; simpl; [exists []; by rewrite app_nil_r|].
  destruct (IH (add_col have c)) as [more ->]. unfold add_col. case_bool_decide; [by exists more|].
  exists (c :: more). by rewrite <-app_assoc.
Qed.
Lemma add_cols_elem adds : ∀ have c, c ∈ foldl add_col have adds ↔ c ∈ have ∨ c ∈ adds.
Proof.
  induction adds as [|a adds IH]; intros have c; simpl; [set_solver|]. rewrite IH.
  unfold add_col. case_bool_decide; set_solver.
Qed.
Lemma add_cols_id adds : ∀ have, (∀ c, c ∈ adds → c ∈ have) → foldl add_col have adds = have.
Proof.
  induction adds as [|a adds IH]; intros have Hin; simpl; [done|].
  unfold add_col at 2. rewrite bool_decide_true by set_solver. apply IH. set_solver.
Qed.

Lemma lookup_upgrade l m t : upgrade l m !! t = grow l t <$> (m ∪ created) !! t.
Proof. unfold upgrade, grown. rewrite map_lookup_imap. by destruct ((m ∪ created) !! t). Qed.

Lemma has_columns_spec m t cols :
  has_columns m t cols = true ↔ ∃ have, m !! t = Some have ∧ ∀ c, c ∈ cols → c ∈ have.
Proof.
  unfold has_columns. destruct (m !! t) as [have|].
  - rewrite forallb_forall. setoid_rewrite bool_decide_eq_true. setoid_rewrite <-list_elem_of_In. naive_solver.
  - naive_solver.
Qed.
Lemma has_columns_grown l m t cols :
  has_columns (m ∪ created) t cols = true → has_columns (upgrade l m) t cols = true.
Proof.
  rewrite !has_columns_spec. intros (have & Hh & Hc). rewrite lookup_upgrade, Hh. simpl.
  exists (grow l t have). split; [done|]. intros c Hin. apply add_cols_elem. left. by apply Hc.
Qed.

Lemma upgrade_covers l m : upgrade l m ∪ created = upgrade l m.
Proof.
  apply map_eq. intros t. rewrite lookup_union, lookup_upgrade, lookup_union.
  destruct (m !! t), (created !! t); done.
Qed.

Lemma upgrade_again l m : upgrade l (upgrade l m) = upgrade l m.
Proof.
  apply map_eq. intros t. rewrite lookup_upgrade, upgrade_covers, lookup_upgrade.
  destruct ((m ∪ created) !! t) as [have|]; [|done]. simpl. f_equal. unfold grow.
  apply add_cols_id. intros c Hc. apply add_cols_elem. by right.
Qed.

Lemma indexable_upgraded l m : indexable m = true → indexable (upgrade l m) = true.
Proof.
  unfold indexable. rewrite upgrade_covers, !andb_true_iff. intros [H1 H2].
  split; by apply has_columns_grown.
Qed.

(** ** Running the statements *)

Lemma lookup_grown l m t : grown l m !! t = grow l t <$> m !! t.
Proof. unfold grown. rewrite map_lookup_imap. by destruct (m !! t). Qed.

Lemma grown_nil m : grown [] m = m.
Proof. apply map_eq. intros t. rewrite lookup_grown. by destruct (m !! t). Qed.

Lemma grown_cons t c d l m have :
  m !! t = Some have → grown l (<[t := add_col have c]> m) = grown ((t, c, d) :: l) m.
Proof.
  intros Hm. apply map_eq. intros u. rewrite !lookup_grown. unfold grow, later. simpl.
  destruct (String.eqb_spec t u) as [<-|Hu].
  - by rewrite lookup_insert_eq, Hm.
  - by rewrite lookup_insert_ne.
Qed.

Definition known (l : list (string * string * string)) (m : schema) : Prop :=
  Forall (λ x, is_Some (m !! x.1.1)) l.
Lemma known_insert t c l (m : schema) : known l m → known l (<[t := c]> m).
Proof.
  intros Hl. eapply Forall_impl; [exact Hl|]. intros [[u ?] ?] Hu. simpl in *.
  destruct (decide (t = u)) as [->|]; [rewrite lookup_insert_eq|rewrite lookup_insert_ne]; eauto.
Qed.

Definition as_ddl (x : string * string * string) : ddl := AddColumnIfNotExists x.1.1 x.1.2 x.2.
Lemma apply_added l : ∀ m, known l m → apply_all (as_ddl <$> l) m = (grown l m, true).
Proof.
  induction l as [|[[t c] d] l IH]; intros m Hl; [by rewrite grown_nil|].
  apply Forall_cons in Hl as [[have Hh] Hl]. simpl in Hh. rewrite fmap_cons. cbn [apply_all apply_ddl as_ddl fst snd].
  rewrite Hh. cbn [mbind option_bind]. rewrite <-(grown_cons t c d l m have Hh). unfold add_col.
  case_bool_decide; [rewrite insert_id by done; by apply IH|]. apply IH. by apply known_insert.
Qed.

Lemma apply_app l1 l2 m :
  apply_all (l1 ++ l2) m = let '(m', ok) := apply_all l1 m in if ok then apply_all l2 m' else (m', false).
Proof. revert m. induction l1 as [|s l1 IH]; intros m; simpl; [done|]. by destruct (apply_ddl s m). Qed.

Lemma create_union t cols (m : schema) :
  match m !! t with Some _ => m | None => <[t := cols]> m end = m ∪ {[t := cols]}.
Proof.
  apply map_eq. intros u. rewrite lookup_union. destruct (decide (t = u)) as [<-|Hu].
  - rewrite lookup_singleton_eq. destruct (m !! t) eqn:Hm; [by rewrite Hm|by rewrite lookup_insert_eq].
  - rewrite lookup_singleton_ne by done. destruct (m !! t) eqn:Hm; rewrite ?lookup_insert_ne by done;
      by destruct (m !! u).
Qed.
Lemma has_columns_ext (m m' : schema) t cols : m !! t = m' !! t → has_columns m t cols = has_columns m' t cols.
Proof. intros Hm. unfold has_columns. by rewrite Hm. Qed.

Lemma apply_schema m :
  (apply_all SCHEMA m).2 = indexable m ∧ (indexable m = true → (apply_all SCHEMA m).1 = m ∪ created).
Proof.
  unfold SCHEMA, indexable. cbn [apply_all apply_ddl]. rewrite !create_union.
  assert (m ∪ {["sandboxes"%string := sandbox_columns]} ∪ {["executions"%string := execution_columns]}
    ∪ {["nodes"%string := node_columns]} = m ∪ created) as Hm.
  { rewrite <-!(assoc_L (∪)). f_equal. }
  rewrite (has_columns_ext _ (m ∪ created) "executions").
  2:{ rewrite <-Hm, (lookup_union _ {["nodes"%string := _]}), lookup_singleton_ne by done.
      by destruct (_ !! "executions"%string). }
  destruct (has_columns (m ∪ created) "executions" _); [|done]. rewrite create_union, Hm.
  by destruct (has_columns (m ∪ created) "nodes" _).
Qed.

(** The tables are there when the columns are added. *)
Lemma known_additions l (m : schema) :
  Forall (λ x, x.1.1 = "sandboxes" ∨ x.1.1 = "executions" ∨ x.1.1 = "nodes")%string l →
  known l (m ∪ created).
Proof.
  intros Hl. eapply Forall_impl; [exact Hl|]. intros x Hx. rewrite lookup_union.
  assert (is_Some (created !! x.1.1)) as [c ->] by (by destruct Hx as [-> | [-> | ->]]; eexists).
  destruct (m !! x.1.1); by eexists.
Qed.

Section opening.
Context {E : Engine} {atomic : bool} {EO : EngineOk E atomic}.

Lemma add_column_spec t c d s have :
  schema_of s !! t = Some have →
  ∃ s', add_column_if_missing t c d s = (s', Ok ()) ∧
    schema_of s' = <[t := add_col have c]> (schema_of s).
Proof.
  intros Hh. unfold add_column_if_missing, run_sql. rewrite table_info_law, Hh. simpl.
  assert (existsb (String.eqb c) have = bool_decide (c ∈ have)) as ->.
  { apply eq_true_iff_eq. rewrite existsb_exists, bool_decide_eq_true.
    setoid_rewrite String.eqb_eq. setoid_rewrite <-list_elem_of_In. naive_solver. }
  unfold add_col. case_bool_decide as Hc.
  - exists s. split; [done|]. by rewrite insert_id.
  - pose proof (batch_law [AddColumn t c d] s) as Hb. destruct (execute_batch _ s) as [s' e].
    simpl in Hb. rewrite Hh in Hb. simpl in Hb. rewrite bool_decide_false in Hb by done. simpl in Hb.
    destruct Hb as [He Hs]. rewrite (proj2 He eq_refl). by exists s'.
Qed.

Lemma add_missing_spec l : ∀ s, known l (schema_of s) →
  ∃ s', add_missing l s = (s', Ok ()) ∧ schema_of s' = grown l (schema_of s).
Proof.
  induction l as [|[[t c] d] l IH]; intros s Hl; [exists s; by rewrite grown_nil|].
  apply Forall_cons in Hl as [[have Hh] Hl]. simpl in Hh.
  destruct (add_column_spec t c d s have Hh) as (s1 & Hs1 & Hm1).
  destruct (IH s1) as (s2 & Hs2 & Hm2); [rewrite Hm1; by apply known_insert|].
  exists s2. cbn [add_missing]. unfold mbind, stres_bind. rewrite Hs1, Hs2. split; [done|].
  rewrite Hm2, Hm1. by apply grown_cons.
Qed.

Lemma pragma_spec p s :
  ∃ s', run_sql (pragma p) s = (s', Ok ()) ∧ schema_of s' = schema_of s.
Proof.
  unfold run_sql. pose proof (pragma_law p s) as Hp. destruct (pragma p s) as [s' e].
  destruct Hp as [-> Hp]. by exists s'.
Qed.

Lemma init_spec s :
  let '(s', r) := init s in
  if indexable (schema_of s) then r = Ok () ∧ schema_of s' = upgrade additions (schema_of s)
  else ∃ msg, r = Err (StoreError.Sqlite msg).
Proof.
  unfold init, mbind, stres_bind.
  destruct (pragma_spec "journal_mode=WAL" s) as (s1 & -> & H1).
  destruct (pragma_spec "synchronous=NORMAL" s1) as (s2 & -> & H2).
  destruct (pragma_spec "foreign_keys=ON" s2) as (s3 & -> & H3).
  rewrite <-H1, <-H2, <-H3. unfold run_sql.
  pose proof (batch_law SCHEMA s3) as Hb. destruct (execute_batch SCHEMA s3) as [s4 e].
  destruct (apply_schema (schema_of s3)) as [Hok Hm].
  destruct (apply_all SCHEMA (schema_of s3)) as [m ok]. simpl in Hok, Hm. subst ok.
  destruct Hb as [He Hs]. destruct (indexable (schema_of s3)).
  - rewrite (proj2 He eq_refl). simpl in Hs. rewrite Hm in Hs by done.
    destruct (add_missing_spec additions s4) as (s5 & -> & H5); [|by rewrite H5, Hs].
    rewrite Hs. apply known_additions. by repeat constructor.
  - destruct e as [msg|]; [by eexists|]. by destruct He as [He _]; specialize (He eq_refl).
Qed.

Lemma connect_spec s :
  let '(s', r) := connect s in
  if indexable (schema_of s) then r = Ok () ∧ schema_of s' = upgrade pg_additions (schema_of s)
  else ∃ msg, r = Err (StoreError.Internal msg).
Proof.
  unfold connect. pose proof (batch_law PG_SCHEMA s) as Hb. destruct (execute_batch PG_SCHEMA s) as [s' e].
  change PG_SCHEMA with (SCHEMA ++ (as_ddl <$> pg_additions)) in Hb. rewrite apply_app in Hb.
  destruct (apply_schema (schema_of s)) as [Hok Hm].
  destruct (apply_all SCHEMA (schema_of s)) as [m ok]. simpl in Hok, Hm. subst ok.
  destruct (indexable (schema_of s)).
  - rewrite Hm, apply_added in Hb by (done || by (apply known_additions; repeat constructor)).
    destruct Hb as [He Hs]. rewrite (proj2 He eq_refl). by split.
  - destruct Hb as [He _]. destruct e as [msg|]; [by eexists|]. by specialize (proj1 He eq_refl).
Qed.
End opening.

Lemma dated_upgraded l m t cols :
  dated l m → created !! t = Some cols → has_columns (upgrade l m) t cols = true.
Proof.
  intros Hd Ht. apply has_columns_spec. rewrite lookup_upgrade, lookup_union, Ht.
  destruct (m !! t) as [have|] eqn:Hm; simpl; (eexists; split; [done|]); intros c Hc; apply add_cols_elem.
  - by eapply Hd.
  - by left.
Qed.

(** ** Properties *)

(** C30: opening a database, new or of an earlier release, with either store.  It
    succeeds exactly when the two indexes can be made on the tables as they are found
    (so an [executions] table must have its sandbox column, a [nodes] table the time of
    the heartbeat).  Then every table keeps the columns it had, in their order, with new
    ones after them; when the tables lacked nothing but later additions, every column the
    statements name is there; and opening the database again succeeds and changes
    nothing.  A failure is an error, never a panic. *)
Theorem opening_upgrades_the_schema {E : Engine} {atomic : bool} {EO : EngineOk E atomic}
    (postgres : bool) (s : conn) :
  let open := if postgres then connect else init in
  let l := if postgres then pg_additions else additions in
  let m := schema_of s in
  let '(s', r) := open s in
  (r = Ok () ↔ indexable m = true) ∧ r ≠ Panic ∧
  (r = Ok () →
    (∀ t have, m !! t = Some have → ∃ more, schema_of s' !! t = Some (have ++ more)) ∧
    (dated l m → ∀ t cols, created !! t = Some cols → has_columns (schema_of s') t cols = true) ∧
    (let '(s2, r2) := open s' in r2 = Ok () ∧ schema_of s2 = schema_of s')).
Proof.
  intros open l m.
  assert (∀ s, let '(s', r) := open s in
    if indexable (schema_of s) then r = Ok () ∧ schema_of s' = upgrade l (schema_of s)
    else ∃ e, r = Err e) as Hopen.
  { intros c. subst open l. destruct postgres.
    - pose proof (connect_spec c) as Hc. destruct (connect c). destruct (indexable _); naive_solver.
    - pose proof (init_spec c) as Hc. destruct (init c). destruct (indexable _); naive_solver. }
  pose proof (Hopen s) as Hs. destruct (open s) as [s' r]. fold m in Hs.
  destruct (indexable m) eqn:Hi; [|destruct Hs as [e ->]; naive_solver].
  destruct Hs as [-> Hm]. split_and!; [done..|]. intros _. split_and!.
  - intros t have Ht. rewrite Hm, lookup_upgrade, lookup_union, Ht.
    destruct (add_cols_extend (later l t) have) as [more Hmore]. exists more.
    destruct (created !! t); simpl; unfold grow; by rewrite Hmore.
  - intros Hd t cols Ht. rewrite Hm. by apply dated_upgraded.
  - pose proof (Hopen s') as H2. destruct (open s') as [s2 r2].
    rewrite Hm, indexable_upgraded, upgrade_again in H2 by done. rewrite Hm. exact H2.
Qed.

(** ** An engine, for the witnesses *)

Module PureEngine.
Definition batch (atomic : bool) (l : list ddl) (m : schema) : schema * option string :=
  let '(m', ok) := apply_all l m in
  (if ok || negb atomic then m' else m, if ok then None else Some "no such column"%string).
Definition engine (atomic : bool) : Engine := {|
  conn := schema;
  pragma _ m := (m, None);
  execute_batch := batch atomic;
  table_info t m := Ok (default [] (m !! t)) |}.
#[global] Instance engine_ok atomic : EngineOk (engine atomic) atomic.
Proof.
  refine {| schema_of := (λ m, m) : @conn (engine atomic) → schema |}; [done| |done].
  intros l c. simpl. unfold batch. destruct (apply_all l c) as [m []]; naive_solver.
Defined.

(** A database from before nodes were registered. *)
Definition old : schema :=
  {["sandboxes"%string := ["id"; "spec_json"; "status"; "created_at"; "updated_at"]%string;
    "executions"%string :=
      ["id"; "sandbox_id"; "spec_json"; "exit_code"; "stdout"; "stderr"; "started_at"; "finished_at"]%string]}.
(** And one whose nodes had no lease yet. *)
Definition no_lease : schema := {["nodes"%string := ["node_id"; "node_json"; "status"]%string]}.

Lemma old_is_dated : dated additions old.
Proof.
  intros t cols have Hc Ho. unfold created, old in *.
  apply lookup_insert_Some in Ho as [[<- <-]|[_ Ho]].
  - assert (cols = sandbox_columns) as -> by (vm_compute in Hc; by simplify_eq).
    intros c Hin. repeat (apply elem_of_cons in Hin as [->|Hin]; [vm_compute; set_solver|]). set_solver.
  - apply lookup_singleton_Some in Ho as [<- <-].
    assert (cols = execution_columns) as -> by (vm_compute in Hc; by simplify_eq).
    intros c Hin. repeat (apply elem_of_cons in Hin as [->|Hin]; [vm_compute; set_solver|]). set_solver.
Qed.

Lemma opening_upgrades_the_schema_witness :
  let r := @init (engine false) old in
  r.2 = Ok () ∧
  r.1 !! "sandboxes"%string = Some (["id"; "spec_json"; "status"; "created_at"; "updated_at";
    "vmm_meta_json"; "ready_at"; "expires_at"; "terminal_message"; "node_id"]%string) ∧
  has_columns r.1 "executions" execution_columns = true ∧
  has_columns r.1 "nodes" node_columns = true.
Proof.
  pose proof (opening_upgrades_the_schema (EO := engine_ok false) false (old : @conn (engine false))) as Hp.
  cbn [negb] in Hp. cbv beta iota zeta in Hp. intros r. change (@init (engine false) old) with r in Hp.
  assert (r.2 = Ok ()) as Hr by (vm_compute; reflexivity).
  assert (r.1 !! "sandboxes"%string = Some (["id"; "spec_json"; "status"; "created_at"; "updated_at";
    "vmm_meta_json"; "ready_at"; "expires_at"; "terminal_message"; "node_id"]%string)) as Hs
    by (vm_compute; reflexivity).
  split; [exact Hr|]. split; [exact Hs|]. clear Hs. clearbody r. destruct r as [s' r]. simpl in Hr.
  destruct Hp as (_ & _ & Hp). destruct (Hp Hr) as (_ & Hd & _).
  split; apply (Hd old_is_dated); reflexivity.
Defined.

(** A [nodes] table without the column that is to be added is refused by both stores: the
    index on the column is made first. *)
Example lease_is_not_added :
  (init (E := engine false) no_lease).2 = Err (StoreError.Sqlite "no such column") ∧
  (connect (E := engine true) no_lease).2
  = Err (StoreError.Internal "postgres schema: no such column").
Proof. by vm_compute. Qed.
End PureEngine.
