(* ===== verification/Auth.v ===== *)
(** * Authentication ([crates/clouisle-api/src/{auth,middleware_auth,error}.rs])

    The API-key table, the request filter in front of every route, and the
    mapping of errors to HTTP statuses.  The E2B credential table the filter
    falls back to is an argument ([e2b_authenticate]), as is the environment. *)

From S2P Require Import Prelude Core SandboxModel Store.

#[local] Arguments strip_prefix : simpl never.

(** ** [error.rs] *)

Definition status_of (k : ErrorKind.t) : Z :=
  match k with
  | ErrorKind.Validation => 400
  | ErrorKind.NotFound => 404
  | ErrorKind.ResourceExhausted => 507
  | ErrorKind.InvalidState => 409
  | ErrorKind.Unauthenticated => 401
  | ErrorKind.Forbidden => 403
  | ErrorKind.QuotaExceeded => 429
  | _ => 500
  end.

Record ErrorResponse : Set := error_response {
  response_status : Z; response_code : string; response_message : string }.

Definition into_error_response (e : ClouisleError.t) : ErrorResponse :=
  error_response (status_of (ClouisleError.kind e)) (ErrorKind.display (ClouisleError.kind e))
    (ClouisleError.message e).

(** ** [auth.rs] *)

Module Scope.
Inductive t : Set := Full | Read.
#[global] Instance eq_dec : EqDecision t.
Proof. solve_decision. Defined.
Definition from_string (s : string) : t :=
  if String.eqb s "read" then Read
  else if String.eqb s "full" || String.eqb s "admin" then Full
  else Read.
Definition as_str (s : t) : string := match s with Full => "full" | Read => "read" end.
End Scope.

Module Principal.
Record t : Set := mk { tenant_id : string; scope : Scope.t; volume_id : option string }.
Definition dev : t := mk "dev" Scope.Full None.
End Principal.

Module Authenticator.
Record t : Type := mk {
  keys : gmap string Principal.t;
  key_ids : gmap string string;
  allow_anonymous_dev : bool }.

Definition new : t := mk ∅ ∅ true.
Definition new_production : t := mk ∅ ∅ false.
Definition is_empty (a : t) : bool := bool_decide (keys a = ∅).

Definition register_inner (id : option string) (key tenant : string) (scope : Scope.t) (a : t) : t :=
  mk (<[key := Principal.mk tenant scope None]> (keys a))
     (match id with Some i => <[i := key]> (key_ids a) | None => key_ids a end)
     (allow_anonymous_dev a).
Definition register (key tenant : string) (scope : Scope.t) : t → t :=
  register_inner None key tenant scope.
Definition register_with_id (id key tenant : string) (scope : Scope.t) : t → t :=
  register_inner (Some id) key tenant scope.

Definition revoke_id (id : string) (a : t) : t :=
  match key_ids a !! id with
  | Some key => mk (delete key (keys a)) (delete id (key_ids a)) (allow_anonymous_dev a)
  | None => a
  end.

Definition require_tenant (p : Principal.t) (sb : Sandbox.t) : result () :=
  if bool_decide (SandboxSpec.tenant_id (Sandbox.spec sb) = Some (Principal.tenant_id p))
  then Ok ()
  else Err (ClouisleError.mk ErrorKind.NotFound ("sandbox " +:+ Sandbox.id sb +:+ " not found")).

Definition authenticate (header : option string) (a : t) : result Principal.t :=
  header ← ok_or (ClouisleError.mk ErrorKind.Unauthenticated "missing Authorization header") header;
  key ← ok_or (ClouisleError.mk ErrorKind.Unauthenticated "invalid auth scheme")
          (strip_prefix "Bearer " header);
  ok_or (ClouisleError.mk ErrorKind.Unauthenticated "invalid API key") (keys a !! key).

Definition require_write (p : Principal.t) : result () :=
  if bool_decide (Principal.scope p = Scope.Full) then Ok ()
  else Err (ClouisleError.mk ErrorKind.Forbidden "read-only token cannot perform this operation").
End Authenticator.

(** ** [main.rs]: [load_authenticator]

    [entry.splitn(3, ':')] and its first three fields, empty when missing. *)
Definition key_fields (entry : string) : string * string * string :=
  match split_once ":" entry with
  | None => (entry, "", "")
  | Some (key, r) =>
    match split_once ":" r with
    | None => (key, r, "")
    | Some (tenant, scope) => (key, tenant, scope)
    end
  end%string.

Fixpoint load_keys (entries : list string) (a : Authenticator.t) : string + Authenticator.t :=
  match entries with
  | [] => inr a
  | entry :: rest =>
    let '(key, tenant, scope) := key_fields entry in
    if is_empty key || is_empty tenant
       || negb (bool_decide (scope ∈ ["read"; "full"; "admin"]%string))
    then inl "invalid CLOUISLE_API_KEYS entry; expected key:tenant:read|full"%string
    else load_keys rest (Authenticator.register key tenant (Scope.from_string scope) a)
  end.

Definition load_authenticator (encoded : option string) : string + Authenticator.t :=
  match encoded with
  | None =>
    inl "CLOUISLE_API_KEYS is required; use the test router for anonymous development"%string
  | Some text =>
    match load_keys (List.filter (λ e, negb (is_empty e)) (split "," text))
            Authenticator.new_production with
    | inl e => inl e
    | inr a => if Authenticator.is_empty a
               then inl "CLOUISLE_API_KEYS must contain at least one key"%string else inr a
    end
  end.

(** ** [middleware_auth.rs] *)

Inductive Method : Set := GET | HEAD | OPTIONS | POST | PUT | PATCH | DELETE | OtherMethod.

(** A header is absent, or present with a text; [Some None] is a value that is
    not visible ASCII, which [to_str] rejects. *)
Abbreviation header := (option (option string)).

Record Request : Set := request {
  path : string;
  method : Method;
  authorization : header;
  x_api_key : header;
  x_access_token : header;
  x_admin_token : header }.

Inductive decision : Set :=
| Forward (principal : option Principal.t)
| Reject (r : ErrorResponse).

Definition mutating (m : Method) : bool :=
  match m with POST | PUT | PATCH | DELETE => true | _ => false end.

Definition volume_credential_path (p : string) : bool :=
  starts_with "/volumecontent/" p
  && negb (bool_decide (p ∈ ["/volumecontent/health"; "/volumecontent/init";
                             "/volumecontent/metrics"]%string)).

Definition probe_path (p : string) : bool :=
  bool_decide (p ∈ ["/health"; "/health/live"; "/health/ready"; "/metrics"]%string).

(** [strip_prefix("Bearer ").unwrap_or(value)]. *)
Definition credential_of (value : string) : string :=
  match strip_prefix "Bearer " value with Some c => c | None => value end.

(** [get(a).or_else(|| get(b)).and_then(to_str)]. *)
Definition header_or (a b : header) : option string :=
  match a with Some v => v | None => match b with Some v => v | None => None end end.

Definition is_admin (admin_token : option string) (r : Request) : bool :=
  match admin_token, header_or (x_admin_token r) (authorization r) with
  | Some token, Some value => String.eqb (credential_of value) token
  | _, _ => false
  end.

Definition no_credential (r : Request) : bool :=
  match authorization r, x_api_key r, x_access_token r with None, None, None => true | _, _, _ => false end.

Definition bearer (h : header) : option string :=
  match h with Some (Some v) => Some ("Bearer " +:+ v) | _ => None end.

Definition auth_header (r : Request) : option string :=
  match authorization r with
  | Some (Some v) => Some v
  | _ => match bearer (x_api_key r) with Some v => Some v | None => bearer (x_access_token r) end
  end.

(** What follows a recognised principal, in both arms of the match. *)
Definition admit_principal (r : Request) (p : Principal.t) : decision :=
  if bool_decide (is_Some (Principal.volume_id p)) && negb (volume_credential_path (path r)) then
    Reject (into_error_response (ClouisleError.mk ErrorKind.Forbidden
      "volume credential is limited to its volume content API"))
  else if mutating (method r) then
    match Authenticator.require_write p with
    | Err e => Reject (into_error_response e)
    | _ => Forward (Some p)
    end
  else Forward (Some p).

Section middleware.
Context (admin_token : option string) (e2b_authenticate : string → option Principal.t).

Definition auth_middleware (auth : Authenticator.t) (r : Request) : decision :=
  if probe_path (path r) then Forward None
  else if is_admin admin_token r then Forward (Some Principal.dev)
  else if Authenticator.is_empty auth && Authenticator.allow_anonymous_dev auth && no_credential r
  then Forward (Some Principal.dev)
  else match Authenticator.authenticate (auth_header r) auth with
  | Ok p => admit_principal r p
  | Err error =>
    match (auth_header r ≫= strip_prefix "Bearer ") ≫= e2b_authenticate with
    | Some p => admit_principal r p
    | None => Reject (into_error_response error)
    end
  | Panic => Reject (into_error_response (ClouisleError.internal ""))
  end.

(** *** Lemmas *)

Lemma authenticate_cases h a :
  match Authenticator.authenticate h a with
  | Ok p => ∃ key, h = Some ("Bearer " +:+ key) ∧ Authenticator.keys a !! key = Some p
  | Err e => ClouisleError.kind e = ErrorKind.Unauthenticated
  | Panic => False
  end.
Proof.
  unfold Authenticator.authenticate. destruct h as [h|]; simpl; [|done].
  destruct (strip_prefix "Bearer " h) as [key|] eqn:Hk; simpl; [|done].
  apply strip_prefix_Some in Hk as ->.
  destruct (Authenticator.keys a !! key) as [p|] eqn:Hp; simpl; [|done]. eauto.
Qed.

Lemma admit_principal_forward r p q :
  admit_principal r p = Forward q →
  q = Some p ∧ (mutating (method r) = true → Principal.scope p = Scope.Full) ∧
  (is_Some (Principal.volume_id p) → volume_credential_path (path r) = true).
Proof.
  unfold admit_principal, Authenticator.require_write.
  destruct (bool_decide (is_Some _) && _) eqn:Hv; [done|].
  intros Hf. split_and!.
  - repeat case_match; by simplify_eq.
  - intros Hm. rewrite Hm in Hf. by case_bool_decide.
  - intros Hs. rewrite bool_decide_true in Hv by done. simpl in Hv. by apply negb_false_iff in Hv.
Qed.

Lemma admit_principal_reject r p e :
  admit_principal r p = Reject e → response_status e = 403.
Proof.
  unfold admit_principal, Authenticator.require_write.
  repeat case_match; intros; by simplify_eq/=.
Qed.
End middleware.

Lemma load_keys_production entries a a' :
  load_keys entries a = inr a' →
  Authenticator.allow_anonymous_dev a' = Authenticator.allow_anonymous_dev a.
Proof.
  revert a. induction entries as [|e l IH]; intros a; simpl; [by intros [= ->]|].
  destruct (key_fields e) as [[k t] sc]. case_match; [done|]. intros Hl. by rewrite (IH _ Hl).
Qed.

Lemma load_authenticator_ok text a :
  load_authenticator text = inr a →
  Authenticator.keys a ≠ ∅ ∧ Authenticator.allow_anonymous_dev a = false.
Proof.
  destruct text as [text|]; simpl; [|done].
  destruct (load_keys _ _) as [e|a'] eqn:Hl; [done|].
  destruct (Authenticator.is_empty a') eqn:He; [done|]. intros [= <-].
  split; [by eapply bool_decide_eq_false_1|]. by rewrite (load_keys_production _ _ _ Hl).
Qed.

(** ** Properties *)

(** The filter fails closed.  A request reaches a handler only on a probe
    path, with the administrator's token, by the development bypass (only with
    an empty key table that allows it and no credential presented), or with a
    credential that some table knows; in the last case a mutating method needs
    full scope and a volume credential is confined to the volume content paths.
    Every refusal is a 401 or a 403. *)
Theorem auth_filter_fails_closed admin_token e2b_authenticate auth r :
  match auth_middleware admin_token e2b_authenticate auth r with
  | Forward None => probe_path (path r) = true
  | Forward (Some p) =>
    is_admin admin_token r = true ∨
    (Authenticator.keys auth = ∅ ∧ Authenticator.allow_anonymous_dev auth = true ∧
     no_credential r = true) ∨
    (∃ key, auth_header r = Some ("Bearer " +:+ key) ∧
       (Authenticator.keys auth !! key = Some p ∨ e2b_authenticate key = Some p) ∧
       (mutating (method r) = true → Principal.scope p = Scope.Full) ∧
       (is_Some (Principal.volume_id p) → volume_credential_path (path r) = true))
  | Reject e => response_status e = 401 ∨ response_status e = 403
  end.
Proof.
  unfold auth_middleware. destruct (probe_path (path r)) eqn:Hpr; [done|].
  destruct (is_admin admin_token r) eqn:Had; [by left|].
  destruct (Authenticator.is_empty auth && _ && _) eqn:Hdev.
  { right; left. bool_to_prop. split_and!; [by eapply bool_decide_eq_true_1|done|done]. }
  pose proof (authenticate_cases (auth_header r) auth) as Hc.
  destruct (Authenticator.authenticate _ _) as [p|e|]; [| |done].
  - destruct Hc as (key & Hh & Hk). destruct (admit_principal r p) as [q|e] eqn:Hap.
    + apply admit_principal_forward in Hap as (-> & ? & ?). right; right. eauto 10.
    + apply admit_principal_reject in Hap. by right.
  - destruct (auth_header r) as [h|] eqn:Hh; simpl; [|left; by rewrite Hc].
    destruct (strip_prefix "Bearer " h) as [key|] eqn:Hk; simpl; [|left; by rewrite Hc].
    apply strip_prefix_Some in Hk as ->.
    destruct (e2b_authenticate key) as [p|] eqn:He; simpl; [|left; by rewrite Hc].
    destruct (admit_principal r p) as [q|e'] eqn:Hap.
    + apply admit_principal_forward in Hap as (-> & ? & ?). right; right. eauto 10.
    + apply admit_principal_reject in Hap. by right.
Qed.

(** A control plane started the production way (its keys read from the
    environment) has at least one key and lets nobody in without a credential: with
    no administrator token and no header, every path but the probes is refused with
    401. *)
Theorem production_refuses_anonymous e2b_authenticate text auth r :
  load_authenticator text = inr auth →
  no_credential r = true → probe_path (path r) = false →
  Authenticator.keys auth ≠ ∅ ∧
  ∃ e, auth_middleware None e2b_authenticate auth r = Reject e ∧ response_status e = 401.
Proof.
  intros Hl Hn Hpr. apply load_authenticator_ok in Hl as [Hk Hp]. split; [done|].
  unfold auth_middleware. rewrite Hpr, Hp, andb_false_r. simpl.
  destruct r as [pa m [] [] [] adm]; simpl in *; try done. eauto.
Qed.

(** Revocation is immediate for the key last registered under an id: after
    [revoke_id] the key authenticates nobody.  A key registered earlier under
    the same id stays valid, and nothing can revoke it by id any more. *)
Theorem revoke_only_latest_key a id k1 k2 t1 t2 s1 s2 :
  k1 ≠ k2 →
  let a' := Authenticator.revoke_id id
    (Authenticator.register_with_id id k2 t2 s2 (Authenticator.register_with_id id k1 t1 s1 a)) in
  is_ok (Authenticator.authenticate (Some ("Bearer " +:+ k2)) a') = false ∧
  Authenticator.authenticate (Some ("Bearer " +:+ k1)) a' = Ok (Principal.mk t1 s1 None) ∧
  Authenticator.authenticate (Some ("Bearer " +:+ k1)) (Authenticator.revoke_id id a')
  = Ok (Principal.mk t1 s1 None).
Proof.
  intros Hne a'.
  assert (Authenticator.key_ids a' !! id = None ∧ Authenticator.keys a' !! k2 = None ∧
    Authenticator.keys a' !! k1 = Some (Principal.mk t1 s1 None)) as (Hi & H2 & H1).
  { subst a'. unfold Authenticator.revoke_id. simpl. rewrite lookup_insert_eq. simpl.
    rewrite !lookup_delete_eq. split_and!; [done..|].
    rewrite lookup_delete_ne, lookup_insert_ne by done. by rewrite lookup_insert_eq. }
  unfold Authenticator.revoke_id at 1. rewrite Hi.
  unfold Authenticator.authenticate.
  cbn [mbind res_bind ok_or]. rewrite !strip_prefix_app. cbn [mbind res_bind ok_or].
  by rewrite H1, H2.
Qed.

(** Tenants are kept apart: a principal passes the ownership check exactly
    for sandboxes of its own tenant, and the refusal is a 404, not a 403. *)
Theorem tenant_isolation p sb :
  match Authenticator.require_tenant p sb with
  | Ok _ => SandboxSpec.tenant_id (Sandbox.spec sb) = Some (Principal.tenant_id p)
  | Err e => SandboxSpec.tenant_id (Sandbox.spec sb) ≠ Some (Principal.tenant_id p) ∧
             response_status (into_error_response e) = 404
  | Panic => False
  end.
Proof. unfold Authenticator.require_tenant. by case_bool_decide. Qed.

Lemma production_refuses_anonymous_witness :
  ∃ e, auth_middleware None (λ _, None)
    (Authenticator.register "k1" "acme" Scope.Full Authenticator.new_production)
    (request "/v1/sandboxes" POST None None None None) = Reject e ∧ response_status e = 401.
Proof.
  exact (proj2 (production_refuses_anonymous (λ _, None) (Some "k1:acme:full,"%string)
    (Authenticator.register "k1" "acme" Scope.Full Authenticator.new_production)
    (request "/v1/sandboxes" POST None None None None) eq_refl eq_refl eq_refl)).
Defined.

Lemma revoke_only_latest_key_witness :
  let a' := Authenticator.revoke_id "id" (Authenticator.register_with_id "id" "new" "t" Scope.Full
    (Authenticator.register_with_id "id" "old" "t" Scope.Full Authenticator.new)) in
  Authenticator.authenticate (Some "Bearer old"%string) a' = Ok (Principal.mk "t" Scope.Full None).
Proof.
  exact (proj1 (proj2 (revoke_only_latest_key Authenticator.new "id" "old" "new" "t" "t"
    Scope.Full Scope.Full ltac:(discriminate)))).
Defined.
