(* ===== verification/Router.v ===== *)
(** * Routes ([crates/clouisle-api/src/{router,middleware}.rs])

    The route table, the layers around it and what a request reaches through them.
    The matching of a path against the patterns is axum's: the class [PathRouter] with
    what its documentation says of patterns, and an instance.  Handlers are named by
    module and function. *)

From S2P Require Import Prelude Core SandboxModel Store Auth.

Module Endpoint.
Inductive t : Set :=
| sandbox_create_sandbox | sandbox_list_sandboxes | sandbox_get_sandbox | sandbox_delete_sandbox
| sandbox_recover_sandbox | images_prefetch_images | images_get_prefetch_job | exec_exec_sync
| exec_exec_stream | exec_get_execution | exec_list_executions | files_upload_file
| files_download_file | files_list_files | nodes_upsert_node | nodes_list_ready_nodes | e2b_create
| e2b_list | e2b_v2_list | e2b_get | e2b_delete | e2b_connect | e2b_refresh | e2b_pause
| e2b_resume | e2b_set_timeout | e2b_update_network | e2b_upload_file | e2b_download_file
| e2b_list_dir | e2b_process_start | e2b_filesystem_stat | e2b_filesystem_make_dir
| e2b_filesystem_move | e2b_filesystem_remove | e2b_filesystem_watch_dir
| e2b_filesystem_create_watcher | e2b_filesystem_get_watcher_events | e2b_filesystem_remove_watcher
| e2b_process_list | e2b_process_connect | e2b_process_update | e2b_process_stream_input
| e2b_process_send_input | e2b_process_send_signal | e2b_process_close_stdin | e2b_envd_init
| e2b_envd_envs | e2b_envd_compose | e2b_envd_operation_unavailable | e2b_cloud_list_teams
| e2b_cloud_create_team | e2b_cloud_team_members | e2b_cloud_team_metrics
| e2b_cloud_team_metrics_max | e2b_cloud_list_api_keys | e2b_cloud_create_api_key
| e2b_cloud_update_api_key | e2b_cloud_delete_api_key | e2b_cloud_create_access_token
| e2b_cloud_delete_access_token | e2b_cloud_list_volumes | e2b_cloud_create_volume
| e2b_cloud_get_volume | e2b_cloud_delete_volume | e2b_cloud_volume_path | e2b_cloud_volume_dir
| e2b_cloud_volume_file | e2b_cloud_create_template_v3 | e2b_cloud_list_templates
| e2b_cloud_create_template_v2 | e2b_cloud_upload_template_file | e2b_cloud_list_template_builds
| e2b_cloud_start_template_build | e2b_cloud_build_template_v2 | e2b_cloud_update_template
| e2b_cloud_get_build_status | e2b_cloud_get_build_logs | e2b_cloud_assign_template_tags
| e2b_cloud_list_template_tags | e2b_cloud_resolve_template_alias | e2b_cloud_list_nodes
| e2b_cloud_get_node | e2b_cloud_list_sandbox_metrics | e2b_cloud_sandbox_logs
| e2b_cloud_sandbox_metrics | e2b_cloud_fork_sandbox | e2b_cloud_create_snapshot
| e2b_cloud_list_snapshots | e2b_cloud_admin_kill_team | e2b_cloud_admin_cancel_builds
| e2b_cloud_admin_create_key | e2b_cloud_admin_delete_key | e2b_cloud_volume_content_health
| e2b_cloud_volume_content_init | e2b_cloud_volume_content_metrics | e2b_cloud_health_204
| health_health | health_liveness | health_readiness | health_metrics.
#[global] Instance t_eq_dec : EqDecision t.
Proof. solve_decision. Defined.
End Endpoint.

(** ** The table ([build_router]) *)

Section table.
Import Endpoint.
(** The service's own routes. *)
Definition native_routes : list (string * list (Method * Endpoint.t)) := [
  ("/api/v1/sandboxes", [(POST, sandbox_create_sandbox)]);
  ("/api/v1/sandboxes", [(GET, sandbox_list_sandboxes)]);
  ("/api/v1/sandboxes/{id}", [(GET, sandbox_get_sandbox)]);
  ("/api/v1/sandboxes/{id}", [(DELETE, sandbox_delete_sandbox)]);
  ("/api/v1/sandboxes/{id}/recover", [(POST, sandbox_recover_sandbox)]);
  ("/api/v1/images/prefetch", [(POST, images_prefetch_images)]);
  ("/api/v1/images/prefetch/{job_id}", [(GET, images_get_prefetch_job)]);
  ("/api/v1/sandboxes/{id}/exec", [(POST, exec_exec_sync)]);
  ("/api/v1/sandboxes/{id}/exec/stream", [(POST, exec_exec_stream)]);
  ("/api/v1/sandboxes/{id}/exec/{exec_id}", [(GET, exec_get_execution)]);
  ("/api/v1/sandboxes/{id}/exec", [(GET, exec_list_executions)]);
  ("/api/v1/sandboxes/{id}/files/upload", [(POST, files_upload_file)]);
  ("/api/v1/sandboxes/{id}/files/download", [(GET, files_download_file)]);
  ("/api/v1/sandboxes/{id}/files/ls", [(GET, files_list_files)]);
  ("/api/v1/nodes", [(POST, nodes_upsert_node)]);
  ("/api/v1/nodes", [(GET, nodes_list_ready_nodes)])]%string.

(** The E2B sandbox platform, and the file and process calls of envd. *)
Definition e2b_routes : list (string * list (Method * Endpoint.t)) := [
  ("/sandboxes", [(POST, e2b_create)]);
  ("/sandboxes", [(GET, e2b_list)]);
  ("/v2/sandboxes", [(GET, e2b_v2_list)]);
  ("/sandboxes/{sandbox_id}", [(GET, e2b_get); (DELETE, e2b_delete)]);
  ("/sandboxes/{sandbox_id}/connect", [(POST, e2b_connect)]);
  ("/sandboxes/{sandbox_id}/refreshes", [(POST, e2b_refresh)]);
  ("/sandboxes/{sandbox_id}/pause", [(POST, e2b_pause)]);
  ("/sandboxes/{sandbox_id}/resume", [(POST, e2b_resume)]);
  ("/sandboxes/{sandbox_id}/timeout", [(POST, e2b_set_timeout)]);
  ("/sandboxes/{sandbox_id}/refresh", [(POST, e2b_refresh)]);
  ("/sandboxes/{sandbox_id}/network", [(PUT, e2b_update_network)]);
  ("/files", [(POST, e2b_upload_file); (PUT, e2b_upload_file); (GET, e2b_download_file)]);
  ("/filesystem.Filesystem/ListDir", [(POST, e2b_list_dir)]);
  ("/process.Process/Start", [(POST, e2b_process_start)]);
  ("/filesystem.Filesystem/Stat", [(POST, e2b_filesystem_stat)]);
  ("/filesystem.Filesystem/MakeDir", [(POST, e2b_filesystem_make_dir)]);
  ("/filesystem.Filesystem/Move", [(POST, e2b_filesystem_move)]);
  ("/filesystem.Filesystem/Remove", [(POST, e2b_filesystem_remove)]);
  ("/filesystem.Filesystem/WatchDir", [(POST, e2b_filesystem_watch_dir)]);
  ("/filesystem.Filesystem/CreateWatcher", [(POST, e2b_filesystem_create_watcher)]);
  ("/filesystem.Filesystem/GetWatcherEvents", [(POST, e2b_filesystem_get_watcher_events)]);
  ("/filesystem.Filesystem/RemoveWatcher", [(POST, e2b_filesystem_remove_watcher)]);
  ("/process.Process/List", [(POST, e2b_process_list)]);
  ("/process.Process/Connect", [(POST, e2b_process_connect)]);
  ("/process.Process/Update", [(POST, e2b_process_update)]);
  ("/process.Process/StreamInput", [(POST, e2b_process_stream_input)]);
  ("/process.Process/SendInput", [(POST, e2b_process_send_input)]);
  ("/process.Process/SendSignal", [(POST, e2b_process_send_signal)]);
  ("/process.Process/CloseStdin", [(POST, e2b_process_close_stdin)]);
  ("/init", [(POST, e2b_envd_init)]);
  ("/envs", [(GET, e2b_envd_envs)]);
  ("/files/compose", [(POST, e2b_envd_compose)]);
  ("/freeze", [(POST, e2b_envd_operation_unavailable)]);
  ("/unfreeze", [(POST, e2b_envd_operation_unavailable)]);
  ("/collapse", [(POST, e2b_envd_operation_unavailable)]);
  ("/fsfreeze", [(POST, e2b_envd_operation_unavailable)]);
  ("/fsthaw", [(POST, e2b_envd_operation_unavailable)])]%string.

(** The resources of the E2B control plane. *)
Definition cloud_routes : list (string * list (Method * Endpoint.t)) := [
  ("/teams", [(GET, e2b_cloud_list_teams); (POST, e2b_cloud_create_team)]);
  ("/teams/{teamID}/members", [(GET, e2b_cloud_team_members)]);
  ("/teams/{teamID}/metrics", [(GET, e2b_cloud_team_metrics)]);
  ("/teams/{teamID}/metrics/max", [(GET, e2b_cloud_team_metrics_max)]);
  ("/api-keys", [(GET, e2b_cloud_list_api_keys); (POST, e2b_cloud_create_api_key)]);
  ("/api-keys/{apiKeyID}", [(PATCH, e2b_cloud_update_api_key); (DELETE, e2b_cloud_delete_api_key)]);
  ("/access-tokens", [(POST, e2b_cloud_create_access_token)]);
  ("/access-tokens/{accessTokenID}", [(DELETE, e2b_cloud_delete_access_token)]);
  ("/volumes", [(GET, e2b_cloud_list_volumes); (POST, e2b_cloud_create_volume)]);
  ("/volumes/{volumeID}", [(GET, e2b_cloud_get_volume); (DELETE, e2b_cloud_delete_volume)]);
  ("/volumecontent/{volumeID}/path", [(GET, e2b_cloud_volume_path)]);
  ("/volumecontent/{volumeID}/dir", [(GET, e2b_cloud_volume_dir)]);
  ("/volumecontent/{volumeID}/file", [(GET, e2b_cloud_volume_file); (PUT, e2b_cloud_volume_file)]);
  ("/v3/templates", [(POST, e2b_cloud_create_template_v3)]);
  ("/v2/templates", [(GET, e2b_cloud_list_templates); (POST, e2b_cloud_create_template_v2)]);
  ("/templates", [(GET, e2b_cloud_list_templates); (POST, e2b_cloud_create_template_v2)]);
  ("/templates/{templateID}/files/{hash}", [(GET, e2b_cloud_upload_template_file)]);
  ("/templates/{templateID}", [(GET, e2b_cloud_list_template_builds)]);
  ("/templates/{templateID}/builds/{buildID}", [(POST, e2b_cloud_start_template_build)]);
  ("/v2/templates/{templateID}/builds/{buildID}", [(POST, e2b_cloud_build_template_v2)]);
  ("/v2/templates/{templateID}", [(PATCH, e2b_cloud_update_template)]);
  ("/templates/{templateID}/builds/{buildID}/status", [(GET, e2b_cloud_get_build_status)]);
  ("/templates/{templateID}/builds/{buildID}/logs", [(GET, e2b_cloud_get_build_logs)]);
  ("/templates/tags", [(POST, e2b_cloud_assign_template_tags)]);
  ("/templates/{templateID}/tags", [(GET, e2b_cloud_list_template_tags)]);
  ("/templates/aliases/{alias}", [(GET, e2b_cloud_resolve_template_alias)]);
  ("/nodes", [(GET, e2b_cloud_list_nodes)]);
  ("/nodes/{nodeID}", [(GET, e2b_cloud_get_node)]);
  ("/sandboxes/metrics", [(GET, e2b_cloud_list_sandbox_metrics)]);
  ("/sandboxes/{sandboxID}/logs", [(GET, e2b_cloud_sandbox_logs)]);
  ("/v2/sandboxes/{sandboxID}/logs", [(GET, e2b_cloud_sandbox_logs)]);
  ("/sandboxes/{sandboxID}/metrics", [(GET, e2b_cloud_sandbox_metrics)]);
  ("/sandboxes/{sandboxID}/fork", [(POST, e2b_cloud_fork_sandbox)]);
  ("/sandboxes/{sandboxID}/snapshots", [(POST, e2b_cloud_create_snapshot)]);
  ("/snapshots", [(GET, e2b_cloud_list_snapshots)]);
  ("/admin/teams/{teamID}/sandboxes/kill", [(POST, e2b_cloud_admin_kill_team)]);
  ("/admin/teams/{teamID}/builds/cancel", [(POST, e2b_cloud_admin_cancel_builds)]);
  ("/admin/teams/{teamID}/api-keys", [(POST, e2b_cloud_admin_create_key)]);
  ("/admin/teams/{teamID}/api-keys/{apiKeyID}", [(DELETE, e2b_cloud_admin_delete_key)]);
  ("/volumecontent/health", [(GET, e2b_cloud_volume_content_health)]);
  ("/volumecontent/init", [(POST, e2b_cloud_volume_content_init)]);
  ("/volumecontent/metrics", [(GET, e2b_cloud_volume_content_metrics)]);
  ("/healthz", [(GET, e2b_cloud_health_204)])]%string.

(** Observation. *)
Definition observation_routes : list (string * list (Method * Endpoint.t)) := [
  ("/health", [(GET, health_health)]);
  ("/health/live", [(GET, health_liveness)]);
  ("/health/ready", [(GET, health_readiness)]);
  ("/metrics", [(GET, health_metrics)])]%string.

Definition routes : list (string * list (Method * Endpoint.t)) :=
  native_routes ++ e2b_routes ++ cloud_routes ++ observation_routes.
End table.

(** ** Patterns *)

Inductive segment : Set := Lit (s : string) | Param (name : string).
#[global] Instance segment_eq_dec : EqDecision segment.
Proof. solve_decision. Defined.

Definition segment_of (s : string) : segment :=
  match strip_prefix "{" s with
  | Some x => match rev (split "}" x) with ""%string :: l => Param (join "}" (rev l)) | _ => Lit s end
  | None => Lit s
  end.
Definition segments (pattern : string) : list segment := segment_of <$> split "/" pattern.

(** A parameter takes one part of the path, which is not empty. *)
Fixpoint match_segments (pat : list segment) (path : list string) : option (list (string * string)) :=
  match pat, path with
  | [], [] => Some []
  | Lit a :: pat', s :: path' => if String.eqb a s then match_segments pat' path' else None
  | Param x :: pat', s :: path' =>
    if is_empty s then None else cons (x, s) <$> match_segments pat' path'
  | _, _ => None
  end.
Definition match_pattern (pattern path : string) : option (list (string * string)) :=
  match_segments (segments pattern) (split "/" path).

(** The first difference decides: a literal before a parameter. *)
Fixpoint more_specific (p q : list segment) : bool :=
  match p, q with
  | Lit _ :: _, Param _ :: _ => true
  | Lit a :: p', Lit b :: q' => String.eqb a b && more_specific p' q'
  | Param _ :: p', Param _ :: q' => more_specific p' q'
  | _, _ => false
  end.

Class PathRouter : Type := {
  find_route : list string → string → option (string * list (string * string)) }.
Class PathRouterOk (R : PathRouter) : Prop := {
  find_sound ps path p kv : find_route ps path = Some (p, kv) → p ∈ ps ∧ match_pattern p path = Some kv;
  find_complete ps path p kv : p ∈ ps → match_pattern p path = Some kv → is_Some (find_route ps path);
  find_priority ps path p q kv kv' :
    find_route ps path = Some (p, kv) → q ∈ ps → match_pattern q path = Some kv' →
    more_specific (segments q) (segments p) = false }.

(** ** Dispatch *)

Inductive routed : Type :=
| Handler (e : Endpoint.t) (params : list (string * string)) | NotFound | MethodNotAllowed.

(** A [get] handler also answers [HEAD]. *)
Definition serves (registered m : Method) : bool :=
  match registered, m with
  | GET, GET | GET, HEAD | POST, POST | PUT, PUT | PATCH, PATCH | DELETE, DELETE => true
  | _, _ => false
  end.

(** The handlers registered for a pattern. *)
Definition handlers_of (p : string) : list (Method * Endpoint.t) :=
  mjoin (snd <$> List.filter (λ x : string * list (Method * Endpoint.t), String.eqb x.1 p) routes).

Section dispatch.
Context {R : PathRouter}.

Definition dispatch (m : Method) (path : string) : routed :=
  match find_route routes.*1 path with
  | None => NotFound
  | Some (p, kv) =>
    match List.find (λ h, serves h.1 m) (handlers_of p) with
    | Some h => Handler h.2 kv
    | None => MethodNotAllowed
    end
  end.

(** ** The layers *)

(** The id of the answer: the request's if it has one that is a text. *)
Definition visible (c : ascii) : bool :=
  let n := Ascii.nat_of_ascii c in (n =? 9)%nat || ((32 <=? n) && negb (n =? 127))%nat.
Definition from_str (s : string) : option string := if forallb visible (String.list_ascii_of_string s) then Some s else None.
Definition request_id (x_request_id : header) (fresh : string) : string :=
  let req_id := match x_request_id with Some (Some s) => s | _ => fresh end in
  default "unknown"%string (from_str req_id).

Inductive served : Type :=
| Handled (e : Endpoint.t) (params : list (string * string)) (principal : option Principal.t)
| Answered (status : Z) | Rejected (r : ErrorResponse).

(** [request_id] is outside of the filter, and the filter outside of the routes. *)
Definition serve (admin_token : option string) (e2b_authenticate : string → option Principal.t)
    (auth : Authenticator.t) (r : Request) (x_request_id : header) (fresh : string) : string * served :=
  (request_id x_request_id fresh,
   match auth_middleware admin_token e2b_authenticate auth r with
   | Reject e => Rejected e
   | Forward p =>
     match dispatch (method r) (path r) with
     | Handler e kv => Handled e kv p
     | NotFound => Answered 404
     | MethodNotAllowed => Answered 405
     end
   end).
End dispatch.

(** ** An instance: the most specific pattern that matches *)

Module BestMatch.
Definition better (path : string) (best : option (string * list (string * string))) (p : string)
  : option (string * list (string * string)) :=
  match match_pattern p path, best with
  | None, _ => best
  | Some kv, None => Some (p, kv)
  | Some kv, Some (b, _) => if more_specific (segments p) (segments b) then Some (p, kv) else best
  end.
#[global] Instance router : PathRouter := {| find_route ps path := foldl (better path) None ps |}.

Lemma specific_trans p q r : more_specific p q = true → more_specific q r = true → more_specific p r = true.
Proof.
  revert q r. induction p as [|[a|x] p IH]; intros [|[b|y] q] [|[c|z] r]; try done; simpl;
    rewrite ?andb_true_iff.
  - intros [->%String.eqb_eq ?] [->%String.eqb_eq ?]. split; [apply String.eqb_refl|eauto].
  - eauto.
Qed.
Lemma specific_irrefl p : more_specific p p = false.
Proof. induction p as [|[a|x] p IH]; simpl; [done|by rewrite IH, andb_false_r|done]. Qed.

(** What the fold has found among the patterns it has seen. *)
Definition found (ps : list string) (path : string) (best : option (string * list (string * string))) : Prop :=
  match best with
  | None => ∀ p, p ∈ ps → match_pattern p path = None
  | Some (b, kv) => b ∈ ps ∧ match_pattern b path = Some kv ∧
      ∀ q, q ∈ ps → is_Some (match_pattern q path) → more_specific (segments q) (segments b) = false
  end.
Lemma better_found ps path best p : found ps path best → found (ps ++ [p]) path (better path best p).
Proof.
  unfold better, found. destruct (match_pattern p path) as [kv|] eqn:Hm.
  - destruct best as [[b kvb]|].
    + intros (Hb & Hkv & Hmin). destruct (more_specific (segments p) (segments b)) eqn:Hs.
      * split_and!; [set_solver|done|]. intros q [Hq| ->%list_elem_of_singleton]%elem_of_app Hmq; [|apply specific_irrefl].
        destruct (more_specific (segments q) (segments p)) eqn:Hqp; [|done].
        by rewrite <-(Hmin q Hq Hmq), (specific_trans _ _ _ Hqp Hs).
      * split_and!; [set_solver|done|]. intros q [Hq| ->%list_elem_of_singleton]%elem_of_app Hmq; [by apply Hmin|done].
    + intros Hn. split_and!; [set_solver|done|].
      intros q [Hq| ->%list_elem_of_singleton]%elem_of_app [x Hmq]; [by rewrite Hn in Hmq|apply specific_irrefl].
  - destruct best as [[b kvb]|].
    + intros (Hb & Hkv & Hmin). split_and!; [set_solver|done|].
      intros q [Hq| ->%list_elem_of_singleton]%elem_of_app Hmq; [by apply Hmin|]. destruct Hmq. congruence.
    + intros Hn q [Hq| ->%list_elem_of_singleton]%elem_of_app; [by apply Hn|done].
Qed.
Lemma fold_found ps path : found ps path (find_route ps path).
Proof.
  simpl. induction ps as [|p ps IH] using rev_ind; [intros p Hp; set_solver|].
  rewrite foldl_app. by apply better_found.
Qed.
#[global] Instance router_ok : PathRouterOk router.
Proof.
  split; intros ps path p; pose proof (fold_found ps path) as Hf; unfold found in Hf.
  - intros kv Heq. rewrite Heq in Hf. naive_solver.
  - intros kv Hp Hm. destruct (find_route ps path) as [[b x]|]; [by eexists|]. rewrite Hf in Hm by done. done.
  - intros q kv kv' Heq Hq Hm. rewrite Heq in Hf. destruct Hf as (_ & _ & Hmin). apply Hmin; [done|by eexists].
Qed.
End BestMatch.

(** ** The table is consistent *)

(** axum refuses, when the router is built, a method registered twice for a path and
    two spellings of one path. *)
Definition shape (p : string) : list (option string) :=
  (λ s, match s with Lit a => Some a | Param _ => None end) <$> segments p.
Definition registered : list (list (option string) * Method) :=
  mjoin ((λ x : string * list (Method * Endpoint.t), (λ h, (shape x.1, h.1)) <$> x.2) <$> routes).
#[global] Instance method_eq_dec : EqDecision Method.
Proof. solve_decision. Defined.
Example routes_do_not_conflict :
  bool_decide (NoDup registered) = true ∧
  forallb (λ p, forallb (λ q, negb (bool_decide (shape p = shape q)) || String.eqb p q) routes.*1) routes.*1 = true.
Proof. vm_compute. split; reflexivity. Qed.

(** ** Who reaches what *)

Section classes.
Import Endpoint.
Definition probes : list Endpoint.t := [health_health; health_liveness; health_readiness; health_metrics].
Definition volume_content : list Endpoint.t :=
  [e2b_cloud_volume_path; e2b_cloud_volume_dir; e2b_cloud_volume_file].
(** The handlers the table files under [GET]. *)
Definition under_get : list Endpoint.t :=
  mjoin ((λ x : string * list (Method * Endpoint.t),
    snd <$> List.filter (λ h, match h.1 with GET => true | _ => false end) x.2) <$> routes).
End classes.

Section guarded.
Context {R : PathRouter} {RO : PathRouterOk R}.

Lemma registered_for (l : list (string * list (Method * Endpoint.t))) p h :
  h ∈ mjoin (snd <$> List.filter (λ x : string * list (Method * Endpoint.t), String.eqb x.1 p) l) →
  ∃ hs, (p, hs) ∈ l ∧ h ∈ hs.
Proof.
  intros (hs & Hin & Hhs)%list_elem_of_join. apply list_elem_of_fmap in Hhs as ([q hs0] & -> & Hq).
  apply list_elem_of_In, filter_In in Hq as [Hq Heq%String.eqb_eq]. simpl in Heq. subst q.
  apply list_elem_of_In in Hq. by exists hs0.
Qed.
#[local] Opaque routes.
Lemma dispatch_inv m path e kv :
  dispatch m path = Handler e kv →
  ∃ p hs, (p, hs) ∈ routes ∧ match_pattern p path = Some kv ∧ ∃ m0, (m0, e) ∈ hs ∧ serves m0 m = true.
Proof.
  unfold dispatch. destruct (find_route routes.*1 path) as [[p kv']|] eqn:Hf; [|done].
  apply find_sound in Hf as [_ Hm]. destruct (List.find _ (handlers_of p)) as [[m0 e0]|] eqn:Hh; [|done].
  intros [= <- <-]. apply find_some in Hh as [Hin Hs]. apply list_elem_of_In, registered_for in Hin as (hs & Hp & He).
  exists p, hs. eauto.
Qed.

(** A check of the whole table. *)
Lemma table_check (f : string → Method → Endpoint.t → bool) p hs m e :
  forallb (λ x : string * list (Method * Endpoint.t), forallb (λ h, f x.1 h.1 h.2) x.2) routes = true →
  (p, hs) ∈ routes → (m, e) ∈ hs → f p m e = true.
Proof.
  intros Hall Hp He. rewrite forallb_forall in Hall. apply list_elem_of_In, Hall in Hp. simpl in Hp.
  rewrite forallb_forall in Hp. apply list_elem_of_In, Hp in He. done.
Qed.

(** A pattern without parameters matches itself only. *)
Definition literal (p : string) : bool := forallb (λ s, match s with Lit _ => true | Param _ => false end) (segments p).
Lemma match_literal pat path kv :
  forallb (λ s, match s with Lit _ => true | Param _ => false end) pat = true →
  match_segments pat path = Some kv → pat = Lit <$> path.
Proof.
  revert path kv. induction pat as [|[a|x] pat IH]; intros [|s path] kv Hl; simpl in *; try done.
  destruct (String.eqb_spec a s) as [->|]; [|done]. intros Hm. by rewrite (IH path kv).
Qed.
Lemma segment_text s a : segment_of s = Lit a → s = a.
Proof. unfold segment_of. repeat case_match; by intros [= ->]. Qed.
Lemma match_static p path kv : literal p = true → match_pattern p path = Some kv → path = p.
Proof.
  intros Hl Hm. apply match_literal in Hm; [|done]. unfold segments in Hm.
  rewrite <-(join_split "/" path), <-(join_split "/" p). f_equal. revert Hm. generalize (split "/" p) (split "/" path).
  intros l. induction l as [|x l IH]; intros [|y l'] Heq; try done. simpl in Heq. injection Heq as Hx Heq.
  apply segment_text in Hx as ->. f_equal. by apply IH.
Qed.

(** *** Probes *)

Definition probe_paths : list string := ["/health"; "/health/live"; "/health/ready"; "/metrics"]%string.
Definition probe_check (p : string) (m : Method) (e : Endpoint.t) : bool :=
  bool_decide (e ∈ probes) && bool_decide (p ∈ probe_paths) && literal p
  || negb (bool_decide (e ∈ probes)) && forallb (λ x, negb (bool_decide (is_Some (match_pattern p x)))) probe_paths.
Lemma probe_routes m path e kv :
  dispatch m path = Handler e kv → (e ∈ probes ↔ probe_path path = true).
Proof.
  intros (p & hs & Hp & Hm & m0 & He & _)%dispatch_inv.
  pose proof (table_check probe_check p hs m0 e ltac:(vm_compute; reflexivity) Hp He) as Hc.
  unfold probe_path. rewrite bool_decide_eq_true. fold probe_paths. unfold probe_check in Hc.
  apply orb_true_iff in Hc as [[[He'%bool_decide_eq_true Hpp%bool_decide_eq_true]%andb_true_iff Hl]%andb_true_iff|
    [He'%negb_true_iff%bool_decide_eq_false Hno]%andb_true_iff].
  - apply match_static in Hm as ->; [|done]. done.
  - split; [done|]. intros Hpath. rewrite forallb_forall in Hno. apply list_elem_of_In, Hno in Hpath.
    apply negb_true_iff, bool_decide_eq_false in Hpath. destruct Hpath. by eexists.
Qed.

(** *** Volume credentials *)

Definition volume_check (p : string) (m : Method) (e : Endpoint.t) : bool :=
  match segments p with
  | Lit _ :: Lit x :: _ =>
    negb (String.eqb x "volumecontent") || bool_decide (e ∈ volume_content)
    || literal p && bool_decide (p ∈ ["/volumecontent/health"; "/volumecontent/init"; "/volumecontent/metrics"]%string)
  | _ => false
  end.
Lemma volume_routes m path e kv :
  dispatch m path = Handler e kv → volume_credential_path path = true → e ∈ volume_content.
Proof.
  intros (p & hs & Hp & Hm & m0 & He & _)%dispatch_inv.
  pose proof (table_check volume_check p hs m0 e ltac:(vm_compute; reflexivity) Hp He) as Hc.
  unfold volume_credential_path. rewrite andb_true_iff, negb_true_iff, bool_decide_eq_false. intros [Hv Hno].
  unfold volume_check in Hc. destruct (segments p) as [|[a|] [|[x|] l]] eqn:Hs; try done.
  apply orb_true_iff in Hc as [Hc|[Hl Hpp%bool_decide_eq_true]%andb_true_iff].
  - apply orb_true_iff in Hc as [Hx|?%bool_decide_eq_true]; [|done].
    unfold starts_with in Hv. destruct (strip_prefix "/volumecontent/" path) as [rest|] eqn:Hr; [|done].
    apply strip_prefix_Some in Hr as ->. unfold match_pattern in Hm. rewrite Hs in Hm.
    change ("/volumecontent/" +:+ rest) with ("/volumecontent" +:+ String "/" rest) in Hm. rewrite split_app in Hm.
    simpl in Hm. destruct (String.eqb a ""); [|done]. by apply negb_true_iff in Hx; rewrite Hx in Hm.
  - apply match_static in Hm as ->; [|done]. done.
Qed.

(** *** Keys that may not write *)

Definition reading_check (p : string) (m : Method) (e : Endpoint.t) : bool :=
  mutating m || bool_decide (e ∈ under_get).
Lemma reading_routes m path e kv : dispatch m path = Handler e kv → mutating m = false → e ∈ under_get.
Proof.
  intros (p & hs & Hp & _ & m0 & He & Hs)%dispatch_inv Hm.
  pose proof (table_check reading_check p hs m0 e ltac:(vm_compute; reflexivity) Hp He) as Hc.
  unfold reading_check in Hc. apply orb_true_iff in Hc as [Hc|?%bool_decide_eq_true]; [|done]. by destruct m0, m.
Qed.

(** The principals the filter lets through. *)
Lemma forwarded admin_token e2b_authenticate auth r q :
  auth_middleware admin_token e2b_authenticate auth r = Forward q →
  match q with
  | None => probe_path (path r) = true
  | Some p => probe_path (path r) = false ∧
      (mutating (method r) = true → Principal.scope p = Scope.Full) ∧
      (is_Some (Principal.volume_id p) → volume_credential_path (path r) = true)
  end.
Proof.
  unfold auth_middleware. destruct (probe_path (path r)) eqn:Hpr; [by intros [= <-]|].
  destruct (is_admin admin_token r); [intros [= <-]; split_and!; [done|done|by intros [? ?]]|].
  destruct (Authenticator.is_empty auth && _ && _); [intros [= <-]; split_and!; [done|done|by intros [? ?]]|].
  destruct (Authenticator.authenticate _ _) as [p|e|]; [| |done].
  - intros (-> & ? & ?)%admit_principal_forward. done.
  - destruct ((auth_header r ≫= strip_prefix "Bearer ") ≫= e2b_authenticate) as [p|]; [|done]. intros (-> & ? & ?)%admit_principal_forward. done.
Qed.

(** C14: Every handler is behind the filter.  A request that is served without a
    principal is served by one of the four probes, and these are served to everybody
    alike; a volume credential reaches nothing but the three handlers of volume
    content; a key that may not write reaches only handlers the table files under [GET],
    and by a method that is not a mutating one.  That is a statement about methods: two of
    the handlers under [GET] do change state, [e2b_get] (it issues and saves an access
    token) and [e2b_download_file] (it wakes a paused sandbox), and a read key reaches
    them. *)
Theorem routes_are_guarded admin_token e2b_authenticate auth r x_request_id fresh e kv principal :
  (serve admin_token e2b_authenticate auth r x_request_id fresh).2 = Handled e kv principal →
  match principal with
  | None => e ∈ probes
  | Some p => e ∉ probes ∧
      (is_Some (Principal.volume_id p) → e ∈ volume_content) ∧
      (Principal.scope p ≠ Scope.Full → e ∈ under_get ∧ mutating (method r) = false)
  end.
Proof.
  unfold serve. simpl. destruct (auth_middleware admin_token e2b_authenticate auth r) as [q|] eqn:Ha; [|done].
  destruct (dispatch (method r) (path r)) as [e' kv'| |] eqn:Hd; [|done..]. intros [= <- <- <-].
  apply forwarded in Ha. destruct q as [p|].
  - destruct Ha as (Hpr & Hw & Hv). split_and!.
    + rewrite (probe_routes _ _ _ _ Hd), Hpr. done.
    + intros Hp. by eapply volume_routes; [exact Hd|apply Hv].
    + intros Hsc. assert (mutating (method r) = false) as Hm.
      { destruct (mutating (method r)); [by destruct Hsc; apply Hw|done]. }
      split; [by eapply reading_routes|done].
  - by apply (probe_routes _ _ _ _ Hd).
Qed.
End guarded.

(** ** Requests *)

Section unique.
Context {R : PathRouter} {RO : PathRouterOk R}.

(** A path that one pattern matches is routed to it. *)
Lemma find_unique ps path p kv :
  p ∈ ps → match_pattern p path = Some kv →
  Forall (λ q, is_Some (match_pattern q path) → q = p) ps → find_route ps path = Some (p, kv).
Proof.
  intros Hp Hm Hu. destruct (find_complete ps path p kv Hp Hm) as [[q kv'] Hf]. rewrite Hf.
  apply find_sound in Hf as [Hq Hmq]. rewrite Forall_forall in Hu.
  assert (q = p) as -> by (apply Hu; [done|by eexists]). congruence.
Qed.

Lemma static_route p e :
  bool_decide (p ∈ routes.*1) = true → match_pattern p p = Some [] →
  bool_decide (Forall (λ q, is_Some (match_pattern q p) → q = p) routes.*1) = true →
  List.find (λ h, serves h.1 GET) (handlers_of p) = Some (GET, e) → dispatch GET p = Handler e [].
Proof.
  intros Hp%bool_decide_eq_true Hm Hu%bool_decide_eq_true Hh. unfold dispatch.
  by rewrite (find_unique _ _ _ _ Hp Hm Hu), Hh.
Qed.

(** Everybody may ask the probes. *)
Lemma probes_are_open admin_token e2b_authenticate auth r x_request_id fresh :
  method r = GET → probe_path (path r) = true →
  ∃ e, e ∈ probes ∧ (serve admin_token e2b_authenticate auth r x_request_id fresh).2 = Handled e [] None.
Proof.
  intros Hm Hp. unfold serve, auth_middleware. rewrite Hp, Hm. simpl.
  assert (∃ e, e ∈ probes ∧ dispatch GET (path r) = Handler e []) as (e & He & Hd); [|exists e; by rewrite Hd].
  unfold probe_path in Hp. apply bool_decide_eq_true in Hp. unfold probes. rewrite !elem_of_cons in Hp.
  destruct Hp as [->|[->|[->|[->|Hp]]]]; [..|set_solver].
  - exists Endpoint.health_health. split; [set_solver|]. apply static_route; vm_compute; reflexivity.
  - exists Endpoint.health_liveness. split; [set_solver|]. apply static_route; vm_compute; reflexivity.
  - exists Endpoint.health_readiness. split; [set_solver|]. apply static_route; vm_compute; reflexivity.
  - exists Endpoint.health_metrics. split; [set_solver|]. apply static_route; vm_compute; reflexivity.
Qed.
End unique.

Module RouterDemo.
Import Endpoint.
(** Literals come before parameters. *)
Example dispatched :
  dispatch GET "/sandboxes/metrics" = Handler e2b_cloud_list_sandbox_metrics [] ∧
  dispatch GET "/sandboxes/sb-1" = Handler e2b_get [("sandbox_id", "sb-1")]%string ∧
  dispatch GET "/templates/aliases/a" = Handler e2b_cloud_resolve_template_alias [("alias", "a")]%string ∧
  dispatch GET "/api/v1/sandboxes/sb-1/exec/stream" = MethodNotAllowed ∧
  dispatch HEAD "/health" = Handler health_health [] ∧
  dispatch GET "/sandboxes/" = NotFound.
Proof. vm_compute. split_and!; reflexivity. Qed.

Definition reader : Authenticator.t :=
  Authenticator.register "key" "tenant" Scope.Read Authenticator.new_production.
Definition get (p : string) : Request := request p GET (Some (Some "Bearer key"%string)) None None None.
Lemma routes_are_guarded_witness :
  sandbox_get_sandbox ∉ probes ∧ sandbox_get_sandbox ∈ under_get ∧ sandbox_delete_sandbox ∉ under_get.
Proof.
  assert ((serve None (λ _, None) reader (get "/api/v1/sandboxes/sb-1") None "u").2
    = Handled sandbox_get_sandbox [("id", "sb-1")]%string (Some (Principal.mk "tenant" Scope.Read None))) as Hs
    by (vm_compute; reflexivity).
  destruct (routes_are_guarded None (λ _, None) reader (get "/api/v1/sandboxes/sb-1") None "u" _ _ _ Hs)
    as (Hp & _ & Hr). split; [exact Hp|]. split; [apply Hr; discriminate|].
  apply (bool_decide_eq_false_1 _). vm_compute. reflexivity.
Defined.
End RouterDemo.
