(* ===== verification/E2bCloud.v ===== *)
(** * The E2B control plane ([crates/clouisle-api/src/e2b_cloud.rs])

    Teams, API keys, access tokens, volumes with their files, templates, builds,
    snapshots, watchers and the audit list; every operation of [E2bControlPlane],
    and the file it is kept in.

    An operation changes [data] in sections under the write lock and then calls
    [persist], which holds the read lock while it writes.  UUIDs, the clock, the
    file system and the JSON text of the data are the members of [CloudEnv]. *)

From S2P Require Import Prelude Core Proto Digest Json Auth.

Module ControlPlaneError.
Inductive t : Set :=
| NotFound (m : string) | Conflict (m : string) | Validation (m : string) | Persistence (m : string).

Definition display (e : t) : string :=
  match e with
  | NotFound m => "not found: " +:+ m
  | Conflict m => "conflict: " +:+ m
  | Validation m => "validation: " +:+ m
  | Persistence m => "persistence: " +:+ m
  end.

(** [impl From<ControlPlaneError> for ApiError]; the source of a persistence
    error is dropped. *)
Definition into (e : t) : ClouisleError.t :=
  match e with
  | NotFound m => ClouisleError.not_found m
  | Conflict m => ClouisleError.invalid_state m
  | Validation m => ClouisleError.validation m
  | Persistence m => ClouisleError.mk ErrorKind.Store m
  end.
End ControlPlaneError.

(** ** Records *)

Module Team.
Record t : Set := mk { team_id : string; name : string; is_default : bool; created_at : Z }.
End Team.

Module Member.
Record t : Set := mk { user_id : string; email : option string; role : string }.
End Member.

Module ScopeRecord.
Inductive t : Set := Read | Full | Admin.
Definition into_scope (s : t) : Scope.t := match s with Read => Scope.Read | Full | Admin => Scope.Full end.
End ScopeRecord.

Module ApiKey.
Record t : Set := mk {
  id : string; team_id : string; name : string; salt : string; digest : string; mask : string;
  created_at : Z; last_used : option Z; scope : ScopeRecord.t }.
Definition set_name (n : string) (k : t) : t :=
  mk (id k) (team_id k) n (salt k) (digest k) (mask k) (created_at k) (last_used k) (scope k).
Definition set_last_used (u : option Z) (k : t) : t :=
  mk (id k) (team_id k) (name k) (salt k) (digest k) (mask k) (created_at k) u (scope k).
End ApiKey.

Module AccessToken.
Record t : Set := mk {
  id : string; team_id : string; name : string; salt : string; digest : string; mask : string;
  created_at : Z }.
End AccessToken.

Module VolumeFile.
Record t : Type := mk { content : Bytes; mode : Z; modified_at : Z; metadata : gmap string string }.
End VolumeFile.

Module Volume.
Record t : Type := mk {
  volume_id : string; team_id : string; name : string; token_salt : string; token_digest : string;
  token_mask : string; created_at : Z; files : gmap string VolumeFile.t }.
Definition set_files (f : gmap string VolumeFile.t) (v : t) : t :=
  mk (volume_id v) (team_id v) (name v) (token_salt v) (token_digest v) (token_mask v) (created_at v) f.
End Volume.

Module Template.
Record t : Set := mk {
  template_id : string; team_id : string; names : list string; aliases : list string;
  tags : list string; public : bool; created_at : Z; updated_at : Z;
  latest_build_id : option string; build_ids : list string; image_reference : option string }.
Definition set_public (p : bool) (x : t) : t :=
  mk (template_id x) (team_id x) (names x) (aliases x) (tags x) p (created_at x) (updated_at x)
    (latest_build_id x) (build_ids x) (image_reference x).
Definition set_aliases (a : list string) (x : t) : t :=
  mk (template_id x) (team_id x) (names x) a (tags x) (public x) (created_at x) (updated_at x)
    (latest_build_id x) (build_ids x) (image_reference x).
Definition set_tags (g : list string) (x : t) : t :=
  mk (template_id x) (team_id x) (names x) (aliases x) g (public x) (created_at x) (updated_at x)
    (latest_build_id x) (build_ids x) (image_reference x).
Definition set_updated_at (u : Z) (x : t) : t :=
  mk (template_id x) (team_id x) (names x) (aliases x) (tags x) (public x) (created_at x) u
    (latest_build_id x) (build_ids x) (image_reference x).
Definition set_builds (latest : option string) (ids : list string) (image : option string) (x : t) : t :=
  mk (template_id x) (team_id x) (names x) (aliases x) (tags x) (public x) (created_at x)
    (updated_at x) latest ids image.
End Template.

Module Build.
Record t : Type := mk {
  build_id : string; template_id : string; team_id : string; status : string;
  image_reference : option string; request : Json; logs : list Json; created_at : Z; updated_at : Z }.
Definition set_status (st : string) (l : list Json) (u : Z) (b : t) : t :=
  mk (build_id b) (template_id b) (team_id b) st (image_reference b) (request b) l (created_at b) u.
End Build.

Module Snapshot.
Record t : Set := mk {
  snapshot_id : string; team_id : string; sandbox_id : string; name : option string;
  created_at : Z; state_path : string; memory_path : string }.
End Snapshot.

Module Watcher.
Record t : Type := mk {
  watcher_id : string; team_id : string; sandbox_id : string; path : string; recursive : bool;
  include_entry : bool; events : list Json }.
End Watcher.

Module AuditRecord.
Record t : Type := mk {
  id : string; team_id : string; action : string; resource_type : string;
  resource_id : option string; created_at : Z; fields : Json }.
End AuditRecord.

Record ControlPlaneData : Type := cp_data {
  teams : gmap string Team.t;
  members : gmap string (list Member.t);
  api_keys : gmap string ApiKey.t;
  access_tokens : gmap string AccessToken.t;
  volumes : gmap string Volume.t;
  templates : gmap string Template.t;
  builds : gmap string Build.t;
  cloud_snapshots : gmap string Snapshot.t;
  watchers : gmap string Watcher.t;
  audit_log : list AuditRecord.t }.

Definition data_default : ControlPlaneData := cp_data ∅ ∅ ∅ ∅ ∅ ∅ ∅ ∅ ∅ [].

Definition set_teams (v : gmap string Team.t) (d : ControlPlaneData) : ControlPlaneData :=
  cp_data v (members d) (api_keys d) (access_tokens d) (volumes d) (templates d) (builds d)
    (cloud_snapshots d) (watchers d) (audit_log d).
Definition set_members (v : gmap string (list Member.t)) (d : ControlPlaneData) : ControlPlaneData :=
  cp_data (teams d) v (api_keys d) (access_tokens d) (volumes d) (templates d) (builds d)
    (cloud_snapshots d) (watchers d) (audit_log d).
Definition set_api_keys (v : gmap string ApiKey.t) (d : ControlPlaneData) : ControlPlaneData :=
  cp_data (teams d) (members d) v (access_tokens d) (volumes d) (templates d) (builds d)
    (cloud_snapshots d) (watchers d) (audit_log d).
Definition set_access_tokens (v : gmap string AccessToken.t) (d : ControlPlaneData) : ControlPlaneData :=
  cp_data (teams d) (members d) (api_keys d) v (volumes d) (templates d) (builds d)
    (cloud_snapshots d) (watchers d) (audit_log d).
Definition set_volumes (v : gmap string Volume.t) (d : ControlPlaneData) : ControlPlaneData :=
  cp_data (teams d) (members d) (api_keys d) (access_tokens d) v (templates d) (builds d)
    (cloud_snapshots d) (watchers d) (audit_log d).
Definition set_templates (v : gmap string Template.t) (d : ControlPlaneData) : ControlPlaneData :=
  cp_data (teams d) (members d) (api_keys d) (access_tokens d) (volumes d) v (builds d)
    (cloud_snapshots d) (watchers d) (audit_log d).
Definition set_builds (v : gmap string Build.t) (d : ControlPlaneData) : ControlPlaneData :=
  cp_data (teams d) (members d) (api_keys d) (access_tokens d) (volumes d) (templates d) v
    (cloud_snapshots d) (watchers d) (audit_log d).
Definition set_cloud_snapshots (v : gmap string Snapshot.t) (d : ControlPlaneData) : ControlPlaneData :=
  cp_data (teams d) (members d) (api_keys d) (access_tokens d) (volumes d) (templates d) (builds
    d) v (watchers d) (audit_log d).
Definition set_watchers (v : gmap string Watcher.t) (d : ControlPlaneData) : ControlPlaneData :=
  cp_data (teams d) (members d) (api_keys d) (access_tokens d) (volumes d) (templates d) (builds
    d) (cloud_snapshots d) v (audit_log d).
Definition set_audit_log (v : list AuditRecord.t) (d : ControlPlaneData) : ControlPlaneData :=
  cp_data (teams d) (members d) (api_keys d) (access_tokens d) (volumes d) (templates d) (builds
    d) (cloud_snapshots d) (watchers d) v.

(** ** The surroundings *)

Class CloudEnv : Type := {
  cloud_clk : nat → Z;                        (* the n-th reading of the clock *)
  uuid : nat → string;                        (* the n-th [Uuid::now_v7()], hyphenated *)
  uuid_simple : nat → string;                 (* the same without hyphens *)
  process_id : Z;
  disk : Type;
  text : Type;                                (* the contents of a file *)
  try_exists : string → disk → bool;          (* [false] also for an error *)
  disk_read : string → disk → string + text;
  disk_make_dir : string → disk → disk * option string;
  disk_write : string → text → disk → disk * option string;
  disk_rename : string → string → disk → disk * option string;
  to_vec_pretty : ControlPlaneData → string + text;
  from_slice : text → string + ControlPlaneData;
  rfc3339 : Z → string }.                     (* how chrono writes a date into JSON *)

(** The data whose JSON text [serde_json] reads back: the values the data takes over
    from requests (and the other free-form ones) are not nested too deeply below the
    data's own objects and have no floats. *)
Definition plain_build (b : Build.t) : bool :=
  reads_back 3 (Build.request b) && forallb (reads_back 4) (Build.logs b).
Definition plain (d : ControlPlaneData) : Prop :=
  map_Forall (λ _ b, plain_build b = true) (builds d) ∧
  map_Forall (λ _ w, forallb (reads_back 4) (Watcher.events w) = true) (watchers d) ∧
  Forall (λ r, reads_back 3 (AuditRecord.fields r) = true) (audit_log d).

#[global] Instance plain_dec d : Decision (plain d).
Proof. unfold plain. apply _. Defined.

(** What the code relies on: identifiers do not repeat; a directory or a temporary
    file changes no other file; a write that succeeds leaves its text; a rename replaces
    its target or leaves it alone; a read that succeeds gives the contents; the JSON text
    of [plain] data reads back as the data.  Every operation may fail, the test whether
    the file is there (which answers [false] then) and the reading of it too. *)
Class CloudEnvOk (E : CloudEnv) : Type := {
  file : disk → string → option text;
  uuid_inj m n : uuid m = uuid n → m = n;
  uuid_simple_inj m n : uuid_simple m = uuid_simple n → m = n;
  read_law w p b : disk_read p w = inr b → file w p = Some b;
  make_dir_law p w q : file (disk_make_dir p w).1 q = file w q;
  write_frame p b w q : q ≠ p → file (disk_write p b w).1 q = file w q;
  write_law p b w : (disk_write p b w).2 = None → file (disk_write p b w).1 p = Some b;
  rename_ok p q w : (disk_rename p q w).2 = None → file (disk_rename p q w).1 q = file w p;
  rename_err p q w e : (disk_rename p q w).2 = Some e → file (disk_rename p q w).1 q = file w q;
  codec_law d b : plain d → to_vec_pretty d = inr b → from_slice b = inr d }.

Module E2bControlPlane.
Section control_plane.
Context {HO : HashOrder} {E : CloudEnv} {H : Sha256}.

Record ControlPlane : Type := cp {
  data : ControlPlaneData;
  persistence_path : option string;
  the_disk : disk;
  cloud_reads : nat;
  cloud_uuids : nat }.

Definition set_data (d : ControlPlaneData) (s : ControlPlane) : ControlPlane :=
  cp d (persistence_path s) (the_disk s) (cloud_reads s) (cloud_uuids s).
Definition set_disk (w : disk) (s : ControlPlane) : ControlPlane :=
  cp (data s) (persistence_path s) w (cloud_reads s) (cloud_uuids s).

Definition cloud (A : Type) : Type := stres ControlPlane ControlPlaneError.t A.

(** [Utc::now()] and [Uuid::now_v7()] (its index). *)
Definition cloud_now : cloud Z := λ s,
  (cp (data s) (persistence_path s) (the_disk s) (S (cloud_reads s)) (cloud_uuids s),
   Ok (cloud_clk (cloud_reads s))).
Definition fresh : cloud nat := λ s,
  (cp (data s) (persistence_path s) (the_disk s) (cloud_reads s) (S (cloud_uuids s)),
   Ok (cloud_uuids s)).

(** [self.data.read().await] and a section under [self.data.write().await]. *)
Definition read_data {A} (f : ControlPlaneData → A) : cloud A := gets (λ s, f (data s)).
Definition write_data (f : ControlPlaneData → ControlPlaneData) : cloud () :=
  modify (λ s, set_data (f (data s)) s).

Definition disk_call (f : disk → disk * option string) : cloud () := λ s,
  let '(w, o) := f (the_disk s) in
  (set_disk w s,
   match o with None => Ok () | Some e => Err (ControlPlaneError.Persistence e) end).

Definition tmp_path (path : string) : string := with_extension path ("tmp-" +:+ show process_id).

Definition persist : cloud () :=
  path ← gets persistence_path;
  match path with
  | None => mret ()
  | Some path =>
    bytes ← read_data to_vec_pretty;
    bytes ← lift match bytes with
                 | inl e => Err (ControlPlaneError.Persistence e)
                 | inr b => Ok b
                 end;
    _ ← match parent path with
        | Some dir => when (negb (is_empty dir)) (disk_call (disk_make_dir dir))
        | None => mret ()
        end;
    _ ← disk_call (disk_write (tmp_path path) bytes);
    disk_call (disk_rename (tmp_path path) path)
  end.

(** ** Helpers *)

Definition validate_name (name kind : string) : res ControlPlaneError.t () :=
  if trim_is_empty name || (128 <? Z.of_nat (String.length name))
  then Err (ControlPlaneError.Validation (kind +:+ " name is invalid")) else Ok ().

Definition validate_template_name (name : string) : res ControlPlaneError.t () :=
  if trim_is_empty name || (128 <? Z.of_nat (String.length name)) || contains_any ["/"; "\"]%char name
  then Err (ControlPlaneError.Validation "template name is invalid") else Ok ().

Definition NUL : ascii := Ascii.zero.

(** The loop over the components, with the [output] it pushes to. *)
Fixpoint normalize_components (parts output : list string) : res ControlPlaneError.t (list string) :=
  match parts with
  | [] => Ok output
  | c :: rest =>
    if String.eqb c "" || String.eqb c "." then normalize_components rest output
    else if String.eqb c ".." then Err (ControlPlaneError.Validation "volume path escapes root")
    else if contains_char NUL c then Err (ControlPlaneError.Validation "volume path contains NUL")
    else normalize_components rest (output ++ [c])
  end.

Definition normalize_volume_path (path : string) : res ControlPlaneError.t string :=
  if contains_char "\" path || contains_char NUL path
  then Err (ControlPlaneError.Validation "volume path contains an invalid character")
  else if is_empty path then Ok "/"%string
  else output ← normalize_components (split "/" path) []; Ok ("/" +:+ join "/" output).

Definition digest_secret (salt value : string) : string :=
  sha256_hex (salt +:+ String NUL value).
Definition verify_digest (salt value expected : string) : bool :=
  String.eqb (digest_secret salt value) expected.

Fixpoint stars (n : nat) : string := match n with O => "" | S n' => String "*" (stars n') end.

Definition mask_secret (value : string) : res ControlPlaneError.t string :=
  let n := String.length value in
  if (n <=? 8)%nat then Ok "********"%string
  else
    first ← slice_to 4 value;
    last ← slice_from (n - 4) value;
    Ok (first +:+ stars (n - 8) +:+ last).

(** The last four characters. *)
Definition mask_secret_suffix (mask : string) : string :=
  foldr (λ c t, String.append (encode_char c) t) ""%string (rev (take 4 (rev (chars mask)))).

Definition mask_json (n : nat) (mask : string) : res ControlPlaneError.t Json :=
  prefix ← slice_to (Nat.min (String.length mask) n) mask;
  Ok (JObj [("prefix", JStr prefix); ("suffix", JStr (mask_secret_suffix mask))]%string).

Definition api_key_view (k : ApiKey.t) : res ControlPlaneError.t Json :=
  m ← mask_json 4 (ApiKey.mask k);
  Ok (JObj [("id", JStr (ApiKey.id k)); ("name", JStr (ApiKey.name k)); ("mask", m);
            ("createdAt", JStr (rfc3339 (ApiKey.created_at k)));
            ("lastUsed", jopt (JStr ∘ rfc3339) (ApiKey.last_used k))]%string).

(** [get(id).filter(|x| x.team_id == team)]. *)
Definition of_team {A} (owner : A → string) (team : string) (o : option A) : option A :=
  match o with Some x => if String.eqb (owner x) team then Some x else None | None => None end.

(** [remove(id).filter(|x| x.team_id == team)]: the entry is gone whoever owned
    it. *)
Definition remove_of_team {A} (owner : A → string) (m : ControlPlaneData → gmap string A)
    (set : gmap string A → ControlPlaneData → ControlPlaneData) (team id : string) : cloud bool := λ s,
  (set_data (set (delete id (m (data s))) (data s)) s,
   Ok (bool_decide (is_Some (of_team owner team (m (data s) !! id))))).

Definition missing {A} (kind id : string) : cloud A :=
  fail (ControlPlaneError.NotFound (kind +:+ " " +:+ id)).

(** ** Teams *)

Definition ensure_team (team : string) (name : option string) : cloud Team.t :=
  if trim_is_empty team then fail (ControlPlaneError.Validation "team id is empty")
  else
    known ← read_data (λ d, teams d !! team);
    match known with
    | Some x => _ ← persist; mret x
    | None =>
      first ← read_data (λ d, bool_decide (teams d = ∅));
      t ← cloud_now;
      let x := Team.mk team (default team name) first t in
      _ ← write_data (λ d, set_teams (<[team := x]> (teams d)) d);
      _ ← persist;
      mret x
    end.

Definition team (id : string) : cloud Team.t :=
  o ← read_data (λ d, teams d !! id);
  match o with Some x => mret x | None => missing "team" id end.

Definition list_teams (id : string) : cloud (list Team.t) :=
  x ← ensure_team id None; mret [x].

Definition add_member (team : string) (m : Member.t) : cloud () :=
  _ ← ensure_team team None;
  present ← read_data (λ d, default [] (members d !! team));
  _ ← write_data (λ d, set_members (<[team := present]> (members d)) d);
  if existsb (λ x, String.eqb (Member.user_id x) (Member.user_id m)) present
  then fail (ControlPlaneError.Conflict ("member " +:+ Member.user_id m +:+ " already exists"))
  else
    _ ← write_data (λ d, set_members (<[team := present ++ [m]]> (members d)) d);
    persist.

Definition team_members (team : string) : cloud (list Member.t) :=
  _ ← ensure_team team None; read_data (λ d, default [] (members d !! team)).

Definition audit (team action kind : string) (id : option string) (fields : Json) : cloud () :=
  n ← fresh;
  t ← cloud_now;
  _ ← write_data (λ d, set_audit_log
        (audit_log d ++ [AuditRecord.mk (uuid n) team action kind id t fields]) d);
  persist.

(** ** Credentials *)

Definition authenticate (credential : string) : cloud (option Principal.t) :=
  key ← read_data (λ d, List.find
          (λ '(_, k), verify_digest (ApiKey.salt k) credential (ApiKey.digest k))
          (entries (api_keys d)));
  match key with
  | Some (i, k) =>
    t ← cloud_now;
    _ ← write_data (λ d, set_api_keys (<[i := ApiKey.set_last_used (Some t) k]> (api_keys d)) d);
    _ ← attempt persist;
    mret (Some (Principal.mk (ApiKey.team_id k) (ScopeRecord.into_scope (ApiKey.scope k)) None))
  | None =>
    token ← read_data (λ d, List.find
              (λ k, verify_digest (AccessToken.salt k) credential (AccessToken.digest k))
              (values (access_tokens d)));
    match token with
    | Some k => mret (Some (Principal.mk (AccessToken.team_id k) Scope.Full None))
    | None =>
      volume ← read_data (λ d, List.find
                 (λ v, verify_digest (Volume.token_salt v) credential (Volume.token_digest v))
                 (values (volumes d)));
      mret match volume with
           | Some v => Some (Principal.mk (Volume.team_id v) Scope.Full (Some (Volume.volume_id v)))
           | None => None
           end
    end
  end.

Definition create_api_key (team name : string) (scope : ScopeRecord.t) : cloud Json :=
  _ ← lift (validate_name name "API key");
  _ ← ensure_team team None;
  i ← fresh;
  r ← fresh;
  sa ← fresh;
  let raw := "e2b_" +:+ uuid_simple r in
  mask ← lift (mask_secret raw);
  t ← cloud_now;
  let k := ApiKey.mk (uuid i) team name (uuid sa) (digest_secret (uuid sa) raw) mask t None scope in
  _ ← write_data (λ d, set_api_keys (<[uuid i := k]> (api_keys d)) d);
  _ ← audit team "api_key.create" "api_key" (Some (uuid i)) (JObj [("name"%string, JStr name)]);
  _ ← persist;
  m ← lift (mask_json 8 mask);
  t' ← cloud_now;
  mret (JObj [("id", JStr (uuid i)); ("key", JStr raw); ("mask", m); ("name", JStr name);
              ("createdAt", JStr (rfc3339 t'))]%string).

Definition list_api_keys (team : string) : cloud (list Json) :=
  _ ← ensure_team team None;
  l ← read_data (λ d, List.filter (λ k, String.eqb (ApiKey.team_id k) team) (values (api_keys d)));
  lift (map_res api_key_view l).

Definition update_api_key (team id name : string) : cloud () :=
  _ ← lift (validate_name name "API key");
  o ← read_data (λ d, of_team ApiKey.team_id team (api_keys d !! id));
  match o with
  | None => missing "API key" id
  | Some k =>
    _ ← write_data (λ d, set_api_keys (<[id := ApiKey.set_name name k]> (api_keys d)) d);
    _ ← audit team "api_key.update" "api_key" (Some id) (JObj [("name"%string, JStr name)]);
    persist
  end.

Definition delete_api_key (team id : string) : cloud () :=
  removed ← remove_of_team ApiKey.team_id api_keys set_api_keys team id;
  if negb removed then missing "API key" id
  else
    _ ← audit team "api_key.delete" "api_key" (Some id) (JObj []);
    persist.

Definition create_access_token (team name : string) : cloud Json :=
  _ ← lift (validate_name name "access token");
  _ ← ensure_team team None;
  i ← fresh;
  r ← fresh;
  sa ← fresh;
  let raw := "e2b_access_" +:+ uuid_simple r in
  mask ← lift (mask_secret raw);
  t ← cloud_now;
  let k := AccessToken.mk (uuid i) team name (uuid sa) (digest_secret (uuid sa) raw) mask t in
  _ ← write_data (λ d, set_access_tokens (<[uuid i := k]> (access_tokens d)) d);
  _ ← audit team "access_token.create" "access_token" (Some (uuid i)) (JObj [("name"%string, JStr name)]);
  _ ← persist;
  m ← lift (mask_json 8 mask);
  t' ← cloud_now;
  mret (JObj [("id", JStr (uuid i)); ("name", JStr name); ("token", JStr raw); ("mask", m);
              ("createdAt", JStr (rfc3339 t'))]%string).

Definition delete_access_token (team id : string) : cloud () :=
  removed ← remove_of_team AccessToken.team_id access_tokens set_access_tokens team id;
  if negb removed then missing "access token" id
  else
    _ ← audit team "access_token.delete" "access_token" (Some id) (JObj []);
    persist.

(** ** Volumes *)

Definition volume_name_byte (a : ascii) : bool :=
  let b := byte_of a in
  ((48 <=? b) && (b <=? 57) || (65 <=? b) && (b <=? 90) || (97 <=? b) && (b <=? 122)
   || (b =? 95) || (b =? 45))%N.

Definition create_volume (team name : string) : cloud Json :=
  if is_empty name || negb (forallb volume_name_byte (String.list_ascii_of_string name))
  then fail (ControlPlaneError.Validation "volume name must match ^[a-zA-Z0-9_-]+$")
  else
    _ ← ensure_team team None;
    taken ← read_data (λ d, existsb
              (λ v, String.eqb (Volume.team_id v) team && String.eqb (Volume.name v) name)
              (values (volumes d)));
    if taken : bool then fail (ControlPlaneError.Conflict ("volume " +:+ name +:+ " exists"))
    else
      i ← fresh;
      r ← fresh;
      sa ← fresh;
      let token := "e2b_volume_" +:+ uuid_simple r in
      mask ← lift (mask_secret token);
      t ← cloud_now;
      let v := Volume.mk (uuid i) team name (uuid sa) (digest_secret (uuid sa) token) mask t ∅ in
      _ ← write_data (λ d, set_volumes (<[uuid i := v]> (volumes d)) d);
      _ ← audit team "volume.create" "volume" (Some (uuid i)) (JObj [("name"%string, JStr name)]);
      _ ← persist;
      mret (JObj [("volumeID", JStr (uuid i)); ("name", JStr name); ("token", JStr token)]%string).

Definition list_volumes (team : string) : cloud (list Json) :=
  _ ← ensure_team team None;
  read_data (λ d, (λ v, JObj [("volumeID", JStr (Volume.volume_id v));
                              ("name", JStr (Volume.name v))]%string)
    <$> List.filter (λ v, String.eqb (Volume.team_id v) team) (values (volumes d))).

Definition volume_by_name (team name : string) : cloud Volume.t :=
  o ← read_data (λ d, List.find
        (λ v, String.eqb (Volume.team_id v) team && String.eqb (Volume.name v) name)
        (values (volumes d)));
  match o with Some v => mret v | None => missing "volume" name end.

Definition own_volume (team id : string) : cloud Volume.t :=
  o ← read_data (λ d, of_team Volume.team_id team (volumes d !! id));
  match o with Some v => mret v | None => missing "volume" id end.

Definition get_volume (team id : string) : cloud Json :=
  v ← own_volume team id;
  mret (JObj [("volumeID", JStr (Volume.volume_id v)); ("name", JStr (Volume.name v));
              ("token", JStr (Volume.token_mask v))]%string).

Definition delete_volume (team id : string) : cloud () :=
  removed ← remove_of_team Volume.team_id volumes set_volumes team id;
  if negb removed then missing "volume" id
  else
    _ ← audit team "volume.delete" "volume" (Some id) (JObj []);
    persist.

Definition volume_by_credential (credential : string) : cloud (option Volume.t) :=
  read_data (λ d, List.find
    (λ v, verify_digest (Volume.token_salt v) credential (Volume.token_digest v))
    (values (volumes d))).

Definition put_volume_file (team id path : string) (content : Bytes) (meta : gmap string string)
  : cloud () :=
  path ← lift (normalize_volume_path path);
  v ← own_volume team id;
  t ← cloud_now;
  let v' := Volume.set_files (<[path := VolumeFile.mk content 420 t meta]> (Volume.files v)) v in
  _ ← write_data (λ d, set_volumes (<[id := v']> (volumes d)) d);
  persist.

Definition get_volume_file (team id path : string) : cloud VolumeFile.t :=
  path ← lift (normalize_volume_path path);
  o ← read_data (λ d, of_team Volume.team_id team (volumes d !! id) ≫= λ v, Volume.files v !! path);
  match o with Some f => mret f | None => missing "volume file" path end.

(** The first component below [prefix], with the directory in front of it. *)
Definition dir_entry (path prefix file : string) : option string :=
  remainder ← strip_prefix prefix file;
  first ← head (split "/" remainder);
  if is_empty first then None
  else Some (if String.eqb path "/" then "/" +:+ first
             else trim_end_matches "/" path +:+ "/" +:+ first).

(** [fold] that keeps the first occurrence of each entry. *)
Definition push_new (l : list string) (x : string) : list string :=
  if existsb (String.eqb x) l then l else l ++ [x].

Definition list_volume_files (team id path : string) : cloud (list string) :=
  path ← lift (normalize_volume_path path);
  let prefix := if String.eqb path "/" then "/"%string else trim_end_matches "/" path +:+ "/" in
  v ← own_volume team id;
  mret (foldl push_new [] (omap (dir_entry path prefix) (entries (Volume.files v)).*1)).

(** ** Templates and builds *)

(** [name.filter(..).unwrap_or_else(|| format!("template-{}", Uuid::now_v7()))]. *)
Definition choose_template_id (name : option string) : cloud string :=
  match name with
  | Some n => if trim_is_empty n then n' ← fresh; mret ("template-" +:+ uuid n') else mret n
  | None => n' ← fresh; mret ("template-" +:+ uuid n')
  end.

Definition create_template (team : string) (name alias : option string) (public : bool)
    (image : option string) : cloud Template.t :=
  template_id ← choose_template_id name;
  _ ← lift (validate_template_name template_id);
  _ ← ensure_team team None;
  t ← cloud_now;
  taken ← read_data (λ d, existsb
            (λ x, String.eqb (Template.team_id x) team && String.eqb (Template.template_id x) template_id)
            (values (templates d)));
  if taken : bool then fail (ControlPlaneError.Conflict ("template " +:+ template_id +:+ " exists"))
  else
    let x := Template.mk template_id team [template_id] (option_list alias) [] public t t None [] image in
    _ ← write_data (λ d, set_templates (<[template_id := x]> (templates d)) d);
    _ ← persist;
    mret x.

Definition visible (team : string) (x : Template.t) : bool :=
  Template.public x || String.eqb (Template.team_id x) team.

Definition list_templates (team : string) : cloud (list Template.t) :=
  read_data (λ d, List.filter (visible team) (values (templates d))).

Definition image_templates : cloud (list string) :=
  read_data (λ d, omap Template.image_reference (values (templates d))).

Definition template (team id : string) : cloud Template.t :=
  o ← read_data (λ d, templates d !! id);
  match o with
  | Some x => if visible team x then mret x else missing "template" id
  | None => missing "template" id
  end.

Definition own_template (team id : string) : cloud Template.t :=
  o ← read_data (λ d, of_team Template.team_id team (templates d !! id));
  match o with Some x => mret x | None => missing "template" id end.

Definition put_template (id : string) (x : Template.t) : cloud () :=
  write_data (λ d, set_templates (<[id := x]> (templates d)) d).

Definition with_alias (request : Json) (x : Template.t) : res ControlPlaneError.t Template.t :=
  match get_str "alias" request with
  | Some alias =>
    _ ← validate_template_name alias;
    Ok (if existsb (String.eqb alias) (Template.aliases x) then x
        else Template.set_aliases (Template.aliases x ++ [alias]) x)
  | None => Ok x
  end.

(** Each field is changed in place before the next one is looked at. *)
Definition update_template (team id : string) (request : Json) : cloud Template.t :=
  x ← own_template team id;
  let x := match jget "public" request ≫= as_bool with
           | Some b => Template.set_public b x | None => x end in
  _ ← put_template id x;
  x ← lift (with_alias request x);
  let x := match jget "tags" request ≫= as_array with
           | Some l => Template.set_tags (omap as_str l) x | None => x end in
  t ← cloud_now;
  let x := Template.set_updated_at t x in
  _ ← put_template id x;
  _ ← persist;
  mret x.

Definition create_build (team template_id : string) (request : Json) (image : option string)
  : cloud Build.t :=
  x ← template team template_id;
  t ← cloud_now;
  n ← fresh;
  let b := Build.mk (uuid n) (Template.template_id x) team "queued" image request [] t t in
  _ ← write_data (λ d, set_builds (<[uuid n := b]> (builds d)) d);
  _ ← write_data (λ d, match templates d !! template_id with
        | Some y => set_templates (<[template_id := Template.set_updated_at t
                      (Template.set_builds (Template.latest_build_id y)
                         (Template.build_ids y ++ [uuid n]) (Template.image_reference y) y)]>
                      (templates d)) d
        | None => d
        end);
  _ ← persist;
  mret b.

Definition update_build (team id status : string) (log : option Json) : cloud Build.t :=
  o ← read_data (λ d, of_team Build.team_id team (builds d !! id));
  match o with
  | None => missing "build" id
  | Some b =>
    t ← cloud_now;
    let b := Build.set_status status (Build.logs b ++ option_list log) t b in
    _ ← write_data (λ d, set_builds (<[id := b]> (builds d)) d);
    _ ← when (String.eqb status "succeeded")
          (write_data (λ d, match templates d !! Build.template_id b with
             | Some y => set_templates (<[Build.template_id b :=
                 Template.set_builds (Some (Build.build_id b)) (Template.build_ids y)
                   (match Build.image_reference b with
                    | Some i => Some i | None => Template.image_reference y end) y]> (templates d)) d
             | None => d
             end));
    _ ← persist;
    mret b
  end.

Definition build (team id : string) : cloud Build.t :=
  o ← read_data (λ d, of_team Build.team_id team (builds d !! id));
  match o with Some b => mret b | None => missing "build" id end.

Definition in_progress (status : string) : bool :=
  String.eqb status "queued" || String.eqb status "running".

Fixpoint cancel_loop (team : string) (l : list (string * Build.t)) (cancelled failed : nat)
  : cloud (nat * nat) :=
  match l with
  | [] => mret (cancelled, failed)
  | (i, b) :: rest =>
    if negb (String.eqb (Build.team_id b) team) then cancel_loop team rest cancelled failed
    else if in_progress (Build.status b) then
      t ← cloud_now;
      let log := JObj [("message", JStr "build cancelled by administrator")]%string in
      let b := Build.set_status "cancelled" (Build.logs b ++ [log]) t b in
      _ ← write_data (λ d, set_builds (<[i := b]> (builds d)) d);
      cancel_loop team rest (S cancelled) failed
    else cancel_loop team rest cancelled
           (if String.eqb (Build.status b) "failed" then S failed else failed)
  end.

Definition cancel_builds (team : string) : cloud (nat * nat) :=
  l ← read_data (λ d, entries (builds d));
  counts ← cancel_loop team l 0 0;
  _ ← persist;
  mret counts.

Definition add_template_tag (team id tag : string) : cloud Template.t :=
  _ ← lift (validate_template_name tag);
  x ← own_template team id;
  let x := if existsb (String.eqb tag) (Template.tags x) then x
           else Template.set_tags (Template.tags x ++ [tag]) x in
  t ← cloud_now;
  let x := Template.set_updated_at t x in
  _ ← put_template id x;
  _ ← persist;
  mret x.

(** ** Snapshots and watchers *)

Definition create_snapshot (team sandbox : string) (name : option string) (state memory : string)
  : cloud Snapshot.t :=
  n ← fresh;
  t ← cloud_now;
  let x := Snapshot.mk (uuid n) team sandbox name t state memory in
  _ ← write_data (λ d, set_cloud_snapshots (<[uuid n := x]> (cloud_snapshots d)) d);
  _ ← persist;
  mret x.

Definition list_snapshots (team : string) : cloud (list Snapshot.t) :=
  read_data (λ d, List.filter (λ x, String.eqb (Snapshot.team_id x) team) (values (cloud_snapshots d))).

Definition snapshot (team id : string) : cloud Snapshot.t :=
  o ← read_data (λ d, of_team Snapshot.team_id team (cloud_snapshots d !! id));
  match o with Some x => mret x | None => missing "snapshot" id end.

Definition create_watcher (team sandbox path : string) (recursive include_entry : bool)
  : cloud Watcher.t :=
  path ← lift (normalize_volume_path path);
  n ← fresh;
  let x := Watcher.mk (uuid n) team sandbox path recursive include_entry [] in
  _ ← write_data (λ d, set_watchers (<[uuid n := x]> (watchers d)) d);
  _ ← persist;
  mret x.

Definition watcher_events (team id : string) : cloud (list Json) :=
  o ← read_data (λ d, of_team Watcher.team_id team (watchers d !! id));
  match o with Some x => mret (Watcher.events x) | None => missing "watcher" id end.

Definition remove_watcher (team id : string) : cloud () :=
  removed ← remove_of_team Watcher.team_id watchers set_watchers team id;
  if negb removed then missing "watcher" id else persist.

(** ** Start-up: [open], over what the process finds *)

Definition control_plane_new (w : disk) : ControlPlane := cp data_default None w 0 0.

Definition load_data (path : string) (w : disk) : res ControlPlaneError.t ControlPlaneData :=
  if try_exists path w then
    match disk_read path w with
    | inl e => Err (ControlPlaneError.Persistence e)
    | inr b => match from_slice b with
               | inl e => Err (ControlPlaneError.Persistence e)
               | inr d => Ok d
               end
    end
  else Ok data_default.

Definition open (path : string) (w : disk) (reads uuids : nat) : res ControlPlaneError.t ControlPlane :=
  d ← load_data path w;
  match ensure_team "dev" (Some "Development"%string) (cp d (Some path) w reads uuids) with
  | (s, Ok _) => Ok s
  | (_, Err e) => Err e
  | (_, Panic) => Panic
  end.
End control_plane.
End E2bControlPlane.

(** ** Surroundings in memory, for the witnesses *)

(** A disk that works, in memory; a file holds the data themselves. *)
Module MemoryCloud.
Fixpoint unary (n : nat) : string := match n with O => "" | S n' => String "a" (unary n') end.
Lemma unary_inj m n : unary m = unary n → m = n.
Proof.
  revert n. induction m as [|m IH]; intros [|n]; simpl; try done. intros [= Hu]. by rewrite (IH n).
Qed.

#[global] Instance env : CloudEnv := {|
  cloud_clk n := 1700000000000000000 + Z.of_nat n;
  uuid := unary;
  uuid_simple := unary;
  process_id := 7;
  disk := gmap string ControlPlaneData;
  text := ControlPlaneData;
  try_exists p w := bool_decide (is_Some (w !! p));
  disk_read p w := match w !! p with Some d => inr d | None => inl "no such file"%string end;
  disk_make_dir _ w := (w, None);
  disk_write p b w := (<[p := b]> w, None);
  disk_rename p q w :=
    match w !! p with
    | Some b => (<[q := b]> (delete p w), None)
    | None => (w, Some "no such file"%string)
    end;
  to_vec_pretty d := inr d;
  from_slice d := if decide (plain d) then inr d else inl "recursion limit exceeded"%string;
  rfc3339 := show |}.

#[global] Instance env_ok : CloudEnvOk env.
Proof.
  refine {| file w p := (w : gmap string ControlPlaneData) !! p |}; simpl.
  - apply unary_inj.
  - apply unary_inj.
  - intros w p b. by destruct (_ !! p); intros [= ->].
  - done.
  - intros p b w q Hne. by rewrite lookup_insert_ne.
  - intros p b w _. apply lookup_insert_eq.
  - intros p q w. destruct (w !! p) as [d|] eqn:Hp; simpl; [|done]. intros _. by rewrite lookup_insert_eq.
  - intros p q w e. by destruct (w !! p).
  - intros d b Hd [= ->]. by rewrite decide_True.
Defined.

#[global] Instance order : HashOrder := key_order.
#[global] Instance sha : Sha256 := ToyDigest.digest.
End MemoryCloud.
