(* ===== verification/CloudLaws.v ===== *)
(** * What the E2B control plane guarantees

    Durability of acknowledged operations, isolation of teams, the life of a
    credential, and the volume file tree. *)

From S2P Require Import Prelude Core Proto Digest Json Auth E2bCloud.
Import E2bControlPlane.

(** ** The operations as one type, and the team each one acts for *)

Inductive op : Type :=
| OEnsureTeam (team : string) (name : option string)
| OAddMember (team : string) (m : Member.t)
| OAuthenticate (credential : string)
| OCreateKey (team name : string) (scope : ScopeRecord.t)
| OUpdateKey (team id name : string)
| ODeleteKey (team id : string)
| OCreateToken (team name : string)
| ODeleteToken (team id : string)
| OCreateVolume (team name : string)
| ODeleteVolume (team id : string)
| OPutFile (team id path : string) (content : Bytes) (meta : gmap string string)
| OCreateTemplate (team : string) (name alias : option string) (public : bool) (image : option string)
| OUpdateTemplate (team id : string) (request : Json)
| OCreateBuild (team template_id : string) (request : Json) (image : option string)
| OUpdateBuild (team id status : string) (log : option Json)
| OCancelBuilds (team : string)
| OAddTag (team id tag : string)
| OCreateSnapshot (team sandbox : string) (name : option string) (state memory : string)
| OCreateWatcher (team sandbox path : string) (recursive include_entry : bool)
| ORemoveWatcher (team id : string).

Definition actor (o : op) : option string :=
  match o with
  | OAuthenticate _ => None
  | OEnsureTeam t _ | OAddMember t _ | OCreateKey t _ _ | OUpdateKey t _ _ | ODeleteKey t _
  | OCreateToken t _ | ODeleteToken t _ | OCreateVolume t _ | ODeleteVolume t _
  | OPutFile t _ _ _ _ | OCreateTemplate t _ _ _ _ | OUpdateTemplate t _ _
  | OCreateBuild t _ _ _ | OUpdateBuild t _ _ _ | OCancelBuilds t | OAddTag t _ _
  | OCreateSnapshot t _ _ _ _ | OCreateWatcher t _ _ _ _ | ORemoveWatcher t _ => Some t
  end.

Section laws.
Context {HO : HashOrder} {E : CloudEnv} {H : Sha256}.

Definition drop_value {A} (m : cloud A) : cloud () := _ ← m; mret ().

Definition run_op (o : op) : cloud () :=
  match o with
  | OEnsureTeam t n => drop_value (ensure_team t n)
  | OAddMember t m => add_member t m
  | OAuthenticate c => drop_value (authenticate c)
  | OCreateKey t n sc => drop_value (create_api_key t n sc)
  | OUpdateKey t i n => update_api_key t i n
  | ODeleteKey t i => delete_api_key t i
  | OCreateToken t n => drop_value (create_access_token t n)
  | ODeleteToken t i => delete_access_token t i
  | OCreateVolume t n => drop_value (create_volume t n)
  | ODeleteVolume t i => delete_volume t i
  | OPutFile t i p c m => put_volume_file t i p c m
  | OCreateTemplate t n a p i => drop_value (create_template t n a p i)
  | OUpdateTemplate t i r => drop_value (update_template t i r)
  | OCreateBuild t x r i => drop_value (create_build t x r i)
  | OUpdateBuild t i st l => drop_value (update_build t i st l)
  | OCancelBuilds t => drop_value (cancel_builds t)
  | OAddTag t i g => drop_value (add_template_tag t i g)
  | OCreateSnapshot t sb n st m => drop_value (create_snapshot t sb n st m)
  | OCreateWatcher t sb p r i => drop_value (create_watcher t sb p r i)
  | ORemoveWatcher t i => remove_watcher t i
  end.

(** ** Rules *)

Lemma wp_read {A} (f : ControlPlaneData → A) s Q : Q (Ok (f (data s))) s → wp (read_data f) s Q.
Proof. done. Qed.
Lemma wp_write f s Q : Q (Ok ()) (set_data (f (data s)) s) → wp (write_data f) s Q.
Proof. done. Qed.
Lemma wp_now s (Q : res _ Z → ControlPlane → Prop) :
  Q (Ok (cloud_clk (cloud_reads s)))
    (cp (data s) (persistence_path s) (the_disk s) (S (cloud_reads s)) (cloud_uuids s)) →
  wp cloud_now s Q.
Proof. done. Qed.
Lemma wp_fresh s (Q : res _ nat → ControlPlane → Prop) :
  Q (Ok (cloud_uuids s))
    (cp (data s) (persistence_path s) (the_disk s) (cloud_reads s) (S (cloud_uuids s))) →
  wp fresh s Q.
Proof. done. Qed.
Lemma wp_disk_call f s Q :
  (∀ w o, f (the_disk s) = (w, o) →
     Q (match o with None => Ok () | Some e => Err (ControlPlaneError.Persistence e) end)
       (set_disk w s)) →
  wp (disk_call f) s Q.
Proof. intros HQ. unfold wp, disk_call. destruct (f (the_disk s)) as [w o]. by apply HQ. Qed.
Lemma wp_remove {A} (owner : A → string) m set team id s Q :
  Q (Ok (bool_decide (is_Some (of_team owner team (m (data s) !! id)))))
    (set_data (set (delete id (m (data s))) (data s)) s) →
  wp (remove_of_team owner m set team id) s Q.
Proof. done. Qed.

(** Saving touches nothing but the disk, and does not panic. *)
Lemma wp_persist s Q :
  (∀ r w, r ≠ Panic → persist s = (set_disk w s, r) → Q r (set_disk w s)) → wp persist s Q.
Proof.
  intros HQ. destruct (persist s) as [s' r] eqn:Hp. unfold wp. rewrite Hp. simpl.
  enough (∃ w, s' = set_disk w s ∧ r ≠ Panic) as (w & -> & Hr) by (by apply HQ).
  enough (wp persist s (λ r s', ∃ w, s' = set_disk w s ∧ r ≠ Panic)) as Hwp
    by (by eapply wp_elim in Hwp).
  clear. pose (Q := λ (r : res ControlPlaneError.t ()) s', ∃ w, s' = set_disk w s ∧ r ≠ Panic).
  change (wp persist s Q). assert (∀ r, r ≠ Panic → Q r s) as HQ
    by (intros r Hr; exists (the_disk s); by destruct s).
  assert (∀ r w, r ≠ Panic → Q r (set_disk w s)) as HQ' by (intros r w Hr; by exists w).
  unfold persist. apply wp_bind, wp_gets. destruct (persistence_path s) as [path|]; [|by apply HQ].
  apply wp_bind, wp_read. destruct (to_vec_pretty (data s)) as [e|b]; apply wp_bind, wp_lift;
    [by apply HQ|].
  assert (∀ w, wp (_ ← disk_call (disk_write (tmp_path path) b);
    disk_call (disk_rename (tmp_path path) path)) (set_disk w s) Q) as Ht.
  { intros w0. apply wp_bind, wp_disk_call. intros w1 [e|] _; [by apply HQ'|].
    apply wp_disk_call. intros w2 [e|] _; by apply HQ'. }
  assert (s = set_disk (the_disk s) s) as Hs by (by destruct s).
  apply wp_bind. destruct (parent path) as [dir|]; [|rewrite Hs; apply Ht].
  apply wp_when; intros _; [|rewrite Hs; apply Ht].
  apply wp_disk_call. intros w [e|] _; [by apply HQ'|apply Ht].
Qed.

(** ** Durability *)

Section durability.
Context {HOO : HashOrderOk HO} {EO : CloudEnvOk E} (path : string) (tmp_apart : tmp_path path ≠ path).

(** The control plane is kept at [path], where there is nothing or a file that
    reads back; its data is [plain]. *)
Definition readable (s : ControlPlane) : Prop :=
  persistence_path s = Some path ∧ plain (data s) ∧
  ∀ b, file (the_disk s) path = Some b → ∃ d, from_slice b = inr d.

(** A start finds the file and can read it. *)
Definition opens (w : disk) : Prop :=
  try_exists path w = true ∧ ∃ b, disk_read path w = inr b.

(** The file holds what is in memory, and a start that can read it loads that. *)
Definition durable (s : ControlPlane) : Prop :=
  (∃ b, file (the_disk s) path = Some b ∧ from_slice b = inr (data s)) ∧
  (opens (the_disk s) → load_data path (the_disk s) = Ok (data s)).

Lemma load_data_file w b d :
  file w path = Some b → from_slice b = inr d → opens w → load_data path w = Ok d.
Proof.
  intros Hf Hd (He & b' & Hb). unfold load_data. rewrite He, Hb.
  apply read_law in Hb. by simplify_eq/=; rewrite Hd.
Qed.

(** A save that succeeds leaves the text of the data in the file, one that fails
    leaves the file as it was. *)
Lemma persist_file s w r :
  persistence_path s = Some path → persist s = (set_disk w s, r) →
  match r with
  | Ok _ => ∃ b, to_vec_pretty (data s) = inr b ∧ file w path = Some b
  | _ => file w path = file (the_disk s) path
  end.
Proof.
  intros Hp Hs.
  set (Q := λ (r : res ControlPlaneError.t ()) s', match r with
    | Ok _ => ∃ b, to_vec_pretty (data s) = inr b ∧ file (the_disk s') path = Some b
    | _ => file (the_disk s') path = file (the_disk s) path end).
  enough (wp persist s Q) as Hw by exact (wp_elim _ _ _ _ _ Hw Hs). clear w r Hs.
  unfold persist. apply wp_bind, wp_gets. rewrite Hp. apply wp_bind, wp_read.
  destruct (to_vec_pretty (data s)) as [e|b] eqn:Hb; apply wp_bind, wp_lift; [done|].
  assert (∀ s0, file (the_disk s0) path = file (the_disk s) path →
    wp (_ ← disk_call (disk_write (tmp_path path) b);
        disk_call (disk_rename (tmp_path path) path)) s0 Q) as Ht.
  { intros s0 H0. apply wp_bind, wp_disk_call. intros w1 o H1.
    pose proof (write_frame (tmp_path path) b (the_disk s0) path (not_eq_sym tmp_apart)) as Hw.
    pose proof (write_law (tmp_path path) b (the_disk s0)) as Hl. rewrite H1 in Hw, Hl. simpl in *.
    destruct o as [e|]; [unfold Q; simpl; by rewrite Hw|]. apply wp_disk_call. intros w2 o H2. simpl in H2.
    pose proof (rename_ok (tmp_path path) path w1) as Hok.
    pose proof (rename_err (tmp_path path) path w1) as Herr. rewrite H2 in Hok, Herr. simpl in *.
    destruct o as [e|]; unfold Q; simpl; [by rewrite (Herr e), Hw|].
    exists b. by rewrite Hok, Hl. }
  apply wp_bind. destruct (parent path) as [dir|]; [|by apply Ht].
  apply wp_when; intros _; [|by apply Ht]. apply wp_disk_call. intros w o Hd.
  pose proof (make_dir_law dir (the_disk s) path) as Hm. rewrite Hd in Hm. simpl in Hm.
  destruct o; [done|]. by apply Ht.
Qed.

(** [safe m]: the file stays readable, whatever the outcome.  [acked m]: besides,
    when [m] answers, what it did is in the file. *)
Definition safe {A} (m : cloud A) : Prop := ∀ s, readable s → wp m s (λ _ s', readable s').
Definition acked {A} (m : cloud A) : Prop :=
  ∀ s, readable s → wp m s (λ r s', readable s' ∧ (is_ok r = true → durable s')).
(** [still m]: neither the data nor the disk is touched. *)
Definition still {A} (m : cloud A) : Prop :=
  ∀ s, wp m s (λ _ s', data s' = data s ∧ the_disk s' = the_disk s ∧
                       persistence_path s' = persistence_path s).

Lemma persist_acked : acked persist.
Proof.
  intros s (Hp & Hd & Hr). apply wp_persist. intros r w Hn Hs.
  pose proof (persist_file s w r Hp Hs) as Hf. destruct r as [[]|e|]; [| |done].
  - destruct Hf as (b & Hb & Hf). apply codec_law in Hb; [|done]. split.
    + split_and!; [done..|]. simpl. intros b'. rewrite Hf. intros [= <-]. eauto.
    + intros _. split; [eauto|]. by eapply load_data_file.
  - split; [|done]. split_and!; [done..|]. simpl. by rewrite Hf.
Qed.

Lemma acked_safe {A} (m : cloud A) : acked m → safe m.
Proof. intros Hm s Hs. eapply wp_mono; [by apply Hm|]. by intros r s' []. Qed.
Lemma still_safe {A} (m : cloud A) : still m → safe m.
Proof.
  intros Hm s (Hp & Hd & Hr). eapply wp_mono; [by apply Hm|]. intros r s' (Hd' & Hw & Hp').
  split_and!; [congruence..|]. by rewrite Hw.
Qed.
Lemma safe_bind {A B} (m : cloud A) (k : A → cloud B) : safe m → (∀ a, safe (k a)) → safe (m ≫= k).
Proof.
  intros Hm Hk s Hs. apply wp_bind. eapply wp_mono; [by apply Hm|].
  intros [a|e|] s' Hs'; [by apply Hk|done|done].
Qed.
Lemma still_bind {A B} (m : cloud A) (k : A → cloud B) : still m → (∀ a, still (k a)) → still (m ≫= k).
Proof.
  intros Hm Hk s. apply wp_bind. eapply wp_mono; [by apply Hm|].
  intros [a|e|] s' (H1 & H2 & H3); [|done|done]. eapply wp_mono; [by apply Hk|].
  intros r s'' (H4 & H5 & H6). split_and!; congruence.
Qed.
Lemma acked_bind {A B} (m : cloud A) (k : A → cloud B) :
  safe m → (∀ a, acked (k a)) → acked (m ≫= k).
Proof.
  intros Hm Hk s Hs. apply wp_bind. eapply wp_mono; [by apply Hm|].
  intros [a|e|] s' Hs'; [by apply Hk|done|done].
Qed.
Lemma acked_then {A B} (m : cloud A) (k : A → cloud B) :
  acked m → (∀ a, still (k a)) → acked (m ≫= k).
Proof.
  intros Hm Hk s Hs. apply wp_bind. eapply wp_mono; [by apply Hm|].
  intros [a|e|] s' [Hs' Hd]; [|done|done]. eapply wp_mono; [by apply Hk|].
  intros r s'' (H4 & H5 & H6). unfold readable, durable. rewrite H4, H5, H6. split; [done|].
  intros _. by apply Hd.
Qed.
Lemma acked_fail {A} e : acked (fail (A := A) e).
Proof. by intros s Hs. Qed.
Lemma still_ret {A} (a : A) : still (mret a). Proof. by intros s. Qed.
Lemma still_lift {A} (r : res _ A) : still (lift r). Proof. by intros s. Qed.
Lemma still_fail {A} e : still (fail (A := A) e). Proof. by intros s. Qed.
Lemma still_read {A} (f : _ → A) : still (read_data f). Proof. by intros s. Qed.
Lemma still_now : still cloud_now. Proof. by intros s. Qed.
Lemma still_fresh : still fresh. Proof. by intros s. Qed.
(** What was read of the data can be used for what is written. *)
Lemma acked_read {A B} (P : A → Prop) (f : _ → A) (k : A → cloud B) :
  (∀ d, plain d → P (f d)) → (∀ a, P a → acked (k a)) → acked (read_data f ≫= k).
Proof. intros Hf Hk s Hs. apply wp_bind, wp_read, Hk; [apply Hf, Hs|done]. Qed.
Lemma safe_write f : (∀ d, plain d → plain (f d)) → safe (write_data f).
Proof. intros Hf s (Hp & Hd & Hr). apply wp_write. by split_and!; [|apply Hf|]. Qed.
Lemma safe_remove {A} (owner : A → string) m set t i :
  (∀ d, plain d → plain (set (delete i (m d)) d)) → safe (remove_of_team owner m set t i).
Proof. intros Hf s (Hp & Hd & Hr). apply wp_remove. by split_and!; [|apply Hf|]. Qed.
Lemma safe_when b m : safe m → safe (when b m).
Proof. intros. destruct b; [done|]. by intros s Hs. Qed.
Lemma safe_attempt {A} (m : cloud A) : safe m → safe (attempt m).
Proof.
  intros Hm s Hs. apply wp_attempt. eapply wp_mono; [by apply Hm|]. by intros [] s' ?.
Qed.

(** Writes keep the data [plain]: most do not touch what it speaks of. *)
Lemma plain_set_builds d i x :
  plain d → plain_build x = true → plain (set_builds (<[i := x]> (builds d)) d).
Proof. intros (Hb & Hw & Ha) Hx. split_and!; [|done..]. by apply map_Forall_insert_2. Qed.
Lemma plain_set_watchers d i x :
  plain d → Watcher.events x = [] → plain (set_watchers (<[i := x]> (watchers d)) d).
Proof.
  intros (Hb & Hw & Ha) Hx. split_and!; [done| |done]. apply map_Forall_insert_2; [|done].
  by rewrite Hx.
Qed.
Lemma plain_delete_watcher d i : plain d → plain (set_watchers (delete i (watchers d)) d).
Proof. intros (Hb & Hw & Ha). split_and!; [done|by apply map_Forall_delete|done]. Qed.
Lemma plain_set_audit d r :
  plain d → reads_back 3 (AuditRecord.fields r) = true →
  plain (set_audit_log (audit_log d ++ [r]) d).
Proof.
  intros (Hb & Hw & Ha) Hr. split_and!; [done..|]. apply Forall_app. split; [done|by constructor].
Qed.
Ltac plain_step :=
  intros ? ?; repeat case_match;
  first [assumption | apply plain_set_builds; [done|unfold plain_build; simpl; by rewrite andb_true_r] | by apply plain_set_watchers
        | by apply plain_delete_watcher | by apply plain_set_audit].

(** Walks through an operation. *)
Ltac still_step :=
  lazymatch goal with
  | |- still (match ?x with _ => _ end) => destruct x
  | |- still (_ ≫= _) => apply still_bind; [|intros ?]
  | |- still (mret _) => apply still_ret
  | |- still (lift _) => apply still_lift
  | |- still (fail _) => apply still_fail
  | |- still (missing _ _) => apply still_fail
  | |- still (read_data _) => apply still_read
  | |- still cloud_now => apply still_now
  | |- still fresh => apply still_fresh
  end.
Ltac durable_step :=
  lazymatch goal with
  | |- still _ => still_step
  | |- acked (match ?x with _ => _ end) => destruct x
  | |- acked persist => apply persist_acked
  | |- acked (fail _) => apply acked_fail
  | |- acked (missing _ _) => apply acked_fail
  | |- acked (persist ≫= _) => apply acked_then; [|intros ?]
  | |- acked (_ ≫= _) => apply acked_bind; [|intros ?]
  | |- safe (match ?x with _ => _ end) => destruct x
  | |- safe persist => apply acked_safe
  | |- safe (write_data _) => apply safe_write; [plain_step]
  | |- safe (remove_of_team _ _ _ _ _) => apply safe_remove; [plain_step]
  | |- safe (_ ≫= _) => apply safe_bind; [|intros ?]
  | |- safe (when _ _) => apply safe_when
  | |- safe (attempt _) => apply safe_attempt
  | |- safe _ => apply still_safe; still_step
  end.
Ltac durable_walk := repeat durable_step.

Lemma ensure_team_acked t n : acked (ensure_team t n).
Proof. unfold ensure_team. durable_walk. Qed.
Lemma audit_acked t a k i f : reads_back 3 f = true → acked (audit t a k i f).
Proof. intros Hf. unfold audit. durable_walk. Qed.
Lemma plain_build_log b st l t :
  plain_build b = true → forallb (reads_back 4) l = true →
  plain_build (Build.set_status st (Build.logs b ++ l) t b) = true.
Proof.
  unfold plain_build. simpl. rewrite forallb_app, !andb_true_iff. tauto.
Qed.
Lemma cancel_loop_safe t l c f :
  Forall (λ ib, plain_build ib.2 = true) l → safe (cancel_loop t l c f).
Proof.
  intros Hl. revert c f. induction Hl as [|[i b] l Hb Hl IH]; intros c f; simpl; [durable_walk|].
  repeat case_match; try apply IH. apply safe_bind; [durable_walk|]. intros u.
  apply safe_bind; [|intros; apply IH]. apply safe_write. intros d Hd.
  apply plain_set_builds; [done|]. by apply plain_build_log.
Qed.
Lemma update_build_acked t i st l :
  forallb (reads_back 4) (option_list l) = true → acked (update_build t i st l).
Proof.
  intros Hl. unfold update_build.
  apply (acked_read (λ o, ∀ b, o = Some b → plain_build b = true)).
  { intros d (Hb & _) b Ho. destruct (builds d !! i) as [x|] eqn:Hx; simpl in Ho; [|done].
    case_match; simplify_eq/=. by apply (Hb i). }
  intros [b|] Hb; [|apply acked_fail]. apply acked_bind; [durable_walk|]. intros u.
  apply acked_bind; [|intros; durable_walk]. apply safe_write. intros d Hd.
  apply plain_set_builds; [done|]. apply plain_build_log; [by apply Hb|done].
Qed.
Lemma cancel_builds_acked t : acked (cancel_builds t).
Proof.
  unfold cancel_builds. apply (acked_read (λ l, Forall (λ ib, plain_build ib.2 = true) l)).
  { intros d (Hb & _). apply Forall_forall. intros [i b] Hi. apply elem_of_entries in Hi.
    by apply (Hb i). }
  intros l Hl. apply acked_bind; [by apply cancel_loop_safe|]. intros; durable_walk.
Qed.

(** The operation takes over nothing that does not read back. *)
Definition plain_op (o : op) : bool :=
  match o with
  | OCreateBuild _ _ r _ => reads_back 3 r
  | OUpdateBuild _ _ _ l => forallb (reads_back 4) (option_list l)
  | _ => true
  end.

Lemma run_op_acked o : actor o ≠ None → plain_op o = true → acked (run_op o).
Proof.
  pose proof (λ t n, acked_safe _ (ensure_team_acked t n)) as Hteam.
  pose proof (λ t a k i f Hf, acked_safe _ (audit_acked t a k i f Hf)) as Haudit.
  intros Hno Hpl. destruct o; [| |done|..]; simpl; unfold drop_value.
  all: try (apply acked_then; [|intros; apply still_ret]).
  all: try apply ensure_team_acked.
  all: try by apply update_build_acked.
  all: try apply cancel_builds_acked.
  all: unfold add_member, create_api_key, update_api_key, delete_api_key, create_access_token,
    delete_access_token, create_volume, delete_volume, put_volume_file, create_template,
    update_template, create_build, add_template_tag, create_snapshot,
    create_watcher, remove_watcher, own_volume, own_template, put_template, template,
    choose_template_id.
  all: repeat first [durable_step|apply Hteam|apply Haudit; vm_compute; reflexivity].
Qed.

Lemma run_op_safe o : plain_op o = true → safe (run_op o).
Proof.
  intros Hpl. destruct (decide (actor o = None)) as [Hn|Hn]; [|by apply acked_safe, run_op_acked].
  destruct o; try done. simpl. unfold drop_value, authenticate. durable_walk.
Qed.
End durability.

(** ** Isolation of teams *)

(** The entries of a map that belong to a team. *)
Definition mine {A} (owner : A → string) (b : string) (m : gmap string A) : gmap string A :=
  filter (λ kv, owner kv.2 = b) m.

Definition owned_by {A} (owner : A → string) (b : string) (o : option A) : bool :=
  match o with Some x => String.eqb (owner x) b | None => false end.

(** Everything the control plane keeps for a team. *)
Definition team_view (b : string) (d : ControlPlaneData) :=
  (teams d !! b, members d !! b,
   mine ApiKey.team_id b (api_keys d),
   mine AccessToken.team_id b (access_tokens d), mine Volume.team_id b (volumes d),
   mine Template.team_id b (templates d), mine Build.team_id b (builds d),
   mine Snapshot.team_id b (cloud_snapshots d), mine Watcher.team_id b (watchers d),
   List.filter (λ r, String.eqb (AuditRecord.team_id r) b) (audit_log d)).

(** Identifiers in use; the UUIDs still to come are not among them. *)
Definition ids (d : ControlPlaneData) : gset string :=
  dom (api_keys d) ∪ dom (access_tokens d) ∪ dom (volumes d) ∪ dom (builds d)
  ∪ dom (cloud_snapshots d) ∪ dom (watchers d).
Definition fresh_ids (s : ControlPlane) : Prop :=
  ∀ n, (cloud_uuids s <= n)%nat → uuid n ∉ ids (data s).

Definition new_template_id (name : option string) (s : ControlPlane) : string :=
  match name with
  | Some n => if trim_is_empty n then "template-" +:+ uuid (cloud_uuids s) else n
  | None => "template-" +:+ uuid (cloud_uuids s)
  end.

(** The operation is made for team [b]: it names it, or it authenticates with a
    credential that is the secret of one of its keys. *)
Definition made_for (b : string) (o : op) (s : ControlPlane) : bool :=
  match o with
  | OAuthenticate c =>
    existsb (λ k, String.eqb (ApiKey.team_id k) b && verify_digest (ApiKey.salt k) c (ApiKey.digest k))
      (values (api_keys (data s)))
  | _ => bool_decide (actor o = Some b)
  end.

(** The operations of another team that the code lets reach into the records of [b]:
    deletion by an id that is [b]'s, a new template under the id of one of [b]'s, a build
    of one of [b]'s public templates, and the success of the caller's own build of a
    template of [b]. *)
Definition trespasses (b : string) (o : op) (s : ControlPlane) : bool :=
  let d := data s in
  match o with
  | ODeleteKey _ i => owned_by ApiKey.team_id b (api_keys d !! i)
  | ODeleteToken _ i => owned_by AccessToken.team_id b (access_tokens d !! i)
  | ODeleteVolume _ i => owned_by Volume.team_id b (volumes d !! i)
  | ORemoveWatcher _ i => owned_by Watcher.team_id b (watchers d !! i)
  | OCreateTemplate _ n _ _ _ => owned_by Template.team_id b (templates d !! new_template_id n s)
  | OCreateBuild _ x _ _ =>
    match templates d !! x with
    | Some y => String.eqb (Template.team_id y) b && Template.public y
    | None => false
    end
  | OUpdateBuild t i st _ =>
    String.eqb st "succeeded" &&
    match of_team Build.team_id t (builds d !! i) with
    | Some x => owned_by Template.team_id b (templates d !! Build.template_id x)
    | None => false
    end
  | _ => false
  end.

Section isolation.
Context {HOO : HashOrderOk HO} {EO : CloudEnvOk E} (b : string).

Lemma mine_insert {A} (owner : A → string) m i x :
  owner x ≠ b → owned_by owner b (m !! i) = false → mine owner b (<[i := x]> m) = mine owner b m.
Proof.
  intros Hx Hi. unfold mine. rewrite map_filter_insert_False by done.
  rewrite map_filter_delete, delete_id; [done|]. apply map_lookup_filter_None. right.
  intros y Hy. rewrite Hy in Hi. simpl in *. by bool_to_prop.
Qed.
Lemma mine_delete {A} (owner : A → string) (m : gmap string A) i :
  owned_by owner b (m !! i) = false → mine owner b (delete i m) = mine owner b m.
Proof.
  intros Hi. unfold mine. rewrite map_filter_delete, delete_id; [done|].
  apply map_lookup_filter_None. right. intros y Hy. rewrite Hy in Hi. simpl in *. by bool_to_prop.
Qed.
Lemma of_team_Some {A} (owner : A → string) t o x :
  of_team owner t o = Some x → o = Some x ∧ owner x = t.
Proof. destruct o; simpl; [|done]. case_match; [|done]. intros [= ->]. by bool_to_prop. Qed.
Lemma owned_by_other {A} (owner : A → string) (m : gmap string A) i x :
  m !! i = Some x → owner x ≠ b → owned_by owner b (m !! i) = false.
Proof. intros -> Hx. by apply String.eqb_neq. Qed.
Context (d0 : ControlPlaneData).

(** The view of [b] is that of [d0], and the next UUIDs (from the [u]-th on) are
    unused. *)
Definition apart (d : ControlPlaneData) (u : nat) : Prop :=
  team_view b d = team_view b d0 ∧ ∀ n, (u <= n)%nat → uuid n ∉ ids d.
Definition stays {A} (m : cloud A) (s : ControlPlane) : Prop :=
  wp m s (λ _ s', apart (data s') (cloud_uuids s')).

Lemma apart_more d u u' : apart d u → (u <= u')%nat → apart d u'.
Proof. intros [Hv Hf] Hu. split; [done|]. intros n Hn. apply Hf. lia. Qed.
Lemma apart_write d d' u : apart d u → team_view b d' = team_view b d → ids d' ⊆ ids d → apart d' u.
Proof.
  intros [Hv Hf] Hd Hi. split; [congruence|]. intros n Hn Hin. by apply (Hf n Hn), Hi.
Qed.
Lemma apart_new d d' u k :
  apart d u → team_view b d' = team_view b d → (k < u)%nat → ids d' ⊆ {[uuid k]} ∪ ids d → apart d' u.
Proof.
  intros [Hv Hf] Hd Hk Hi. split; [congruence|]. intros n Hn Hin.
  apply Hi, elem_of_union in Hin as [Hin|Hin]; [|by apply (Hf n Hn)].
  apply elem_of_singleton, uuid_inj in Hin. lia.
Qed.

Lemma stays_ret {A} (a : A) s : apart (data s) (cloud_uuids s) → stays (mret a) s.
Proof. done. Qed.
Lemma stays_fail {A} e s : apart (data s) (cloud_uuids s) → stays (fail (A := A) e) s.
Proof. done. Qed.
Lemma stays_lift {A B} (r : res _ A) (k : A → cloud B) s :
  apart (data s) (cloud_uuids s) → (∀ a, r = Ok a → stays (k a) s) → stays (lift r ≫= k) s.
Proof. intros Hs Hk. apply wp_bind, wp_lift. destruct r; [by apply Hk|done|done]. Qed.
Lemma stays_read {A B} (f : _ → A) (k : A → cloud B) s :
  stays (k (f (data s))) s → stays (read_data f ≫= k) s.
Proof. done. Qed.
Lemma stays_now {B} (k : Z → cloud B) s :
  (∀ t s1, data s1 = data s → cloud_uuids s1 = cloud_uuids s → stays (k t) s1) →
  stays (cloud_now ≫= k) s.
Proof. intros Hk. apply wp_bind, wp_now. by apply Hk. Qed.
Lemma stays_fresh {B} (k : nat → cloud B) s :
  (∀ s1, data s1 = data s → cloud_uuids s1 = S (cloud_uuids s) → stays (k (cloud_uuids s)) s1) →
  stays (fresh ≫= k) s.
Proof. intros Hk. apply wp_bind, wp_fresh. by apply Hk. Qed.
Lemma stays_write {B} f (k : () → cloud B) s :
  (∀ s1, data s1 = f (data s) → cloud_uuids s1 = cloud_uuids s → stays (k ()) s1) →
  stays (write_data f ≫= k) s.
Proof. intros Hk. apply wp_bind, wp_write. by apply Hk. Qed.
Lemma stays_call {A B} (m : cloud A) (k : A → cloud B) s :
  stays m s → (∀ a s1, apart (data s1) (cloud_uuids s1) → stays (k a) s1) → stays (m ≫= k) s.
Proof.
  intros Hm Hk. apply wp_bind. eapply wp_mono; [apply Hm|]. intros [a|e|] s' Hs; [by apply Hk|done|done].
Qed.
Lemma stays_persist s : apart (data s) (cloud_uuids s) → stays persist s.
Proof. intros Hs. apply wp_persist. by intros. Qed.
Lemma stays_drop {A} (m : cloud A) s : stays m s → stays (drop_value m) s.
Proof. intros Hm. by apply stays_call. Qed.

(** Creating a team for somebody else: only the team map grows. *)
Lemma stays_team {B} t n (k : Team.t → cloud B) s :
  t ≠ b → apart (data s) (cloud_uuids s) →
  (∀ x s1, set_teams ∅ (data s1) = set_teams ∅ (data s) → cloud_uuids s1 = cloud_uuids s →
     apart (data s1) (cloud_uuids s1) → stays (k x) s1) →
  stays (ensure_team t n ≫= k) s.
Proof.
  intros Ht Hs Hk. apply wp_bind. unfold ensure_team. destruct (trim_is_empty t); [done|].
  apply wp_bind, wp_read. destruct (teams (data s) !! t) as [x|] eqn:Hx.
  - apply wp_bind, wp_persist. intros [] w _ _; [|done|done]. by apply Hk.
  - apply wp_bind, wp_read, wp_bind, wp_now, wp_bind, wp_write, wp_bind, wp_persist. simpl.
    set (d' := set_teams _ _). assert (apart d' (cloud_uuids s)) as Ha.
    { apply (apart_write (data s)); [done| |done]. unfold team_view. simpl. by rewrite lookup_insert_ne. }
    intros [] w _ _; [|done|done]. by apply Hk.
Qed.

Lemma stays_audit {B} t a kd i f (k : () → cloud B) s :
  t ≠ b → apart (data s) (cloud_uuids s) →
  (∀ s1, apart (data s1) (cloud_uuids s1) → stays (k ()) s1) → stays (audit t a kd i f ≫= k) s.
Proof.
  intros Ht Hs Hk. apply stays_call; [|by intros []]. unfold audit.
  apply stays_fresh. intros s1 E1 U1. apply stays_now. intros t' s2 E2 U2.
  apply stays_write. intros s3 E3 U3. apply stays_persist. rewrite E3, U3, U2, E2, U1, E1.
  apply (apart_write (data s)); [eapply apart_more; [done|lia]| |done].
  unfold team_view. simpl. by rewrite List.filter_app; simpl; rewrite (proj2 (String.eqb_neq t b)),
    app_nil_r.
Qed.

Lemma apart_none d u :
  apart d u → api_keys d !! uuid u = None ∧ access_tokens d !! uuid u = None ∧
  volumes d !! uuid u = None ∧ builds d !! uuid u = None ∧ cloud_snapshots d !! uuid u = None ∧
  watchers d !! uuid u = None.
Proof.
  intros [_ Hf]. specialize (Hf u (Nat.le_refl u)). unfold ids in Hf.
  rewrite !not_elem_of_union, !not_elem_of_dom in Hf. tauto.
Qed.

(** What the state is after the calls walked through. *)
Ltac trace :=
  repeat match goal with
  | He : data ?x = _ |- context [data ?x] => rewrite He
  | He : cloud_uuids ?x = _ |- context [cloud_uuids ?x] => rewrite He
  end; simpl.
Ltac stays_step :=
  cbv beta; lazymatch goal with
  | |- stays (read_data _ ≫= _) _ => apply stays_read; cbv beta
  | |- stays (cloud_now ≫= _) _ => apply stays_now; intros
  | |- stays (fresh ≫= _) _ => apply stays_fresh; intros
  | |- stays (write_data _ ≫= _) _ => apply stays_write; intros
  | |- stays (lift _ ≫= _) _ => apply stays_lift; [trace|intros]
  | |- stays (persist ≫= _) _ => apply stays_call; [apply stays_persist; trace|intros]
  | |- stays (audit _ _ _ _ _ ≫= _) _ => apply stays_audit; [done|trace|intros]
  | |- stays (mret _) _ => apply stays_ret; trace
  | |- stays (fail _) _ => apply stays_fail; trace
  | |- stays (missing _ _) _ => apply stays_fail; trace
  | |- stays persist _ => apply stays_persist; trace
  end.
Ltac older A := eapply apart_more; [exact A|lia].
Ltac same_ids :=
  unfold ids; simpl; rewrite ?dom_insert_L, ?dom_delete_L;
  repeat match goal with Hl : ?m !! ?i = Some _ |- _ =>
    lazymatch type of m with gmap string _ => apply elem_of_dom_2 in Hl end end;
  set_solver.
Ltac same_view := unfold team_view; simpl; rewrite ?fmap_insert, ?fmap_delete;
  rewrite ?mine_insert, ?mine_delete.

Lemma stays_create_key t n sc s :
  t ≠ b → apart (data s) (cloud_uuids s) → stays (create_api_key t n sc) s.
Proof.
  intros Ht Hs. unfold create_api_key. stays_step; [done|]. apply stays_team; [done..|].
  intros x s1 _ _ A1. do 3 stays_step. stays_step; [older A1|].
  do 2 stays_step. apply stays_audit; [done| |].
  - trace. eapply (apart_new (data s1) _ _ (cloud_uuids s1)); [older A1| |lia|same_ids].
    destruct (apart_none _ _ A1) as (Hk & _). same_view; [done|done|by rewrite Hk].
  - intros s9 A9. repeat stays_step; try done.
Qed.

Lemma stays_create_token t n s :
  t ≠ b → apart (data s) (cloud_uuids s) → stays (create_access_token t n) s.
Proof.
  intros Ht Hs. unfold create_access_token. stays_step; [done|]. apply stays_team; [done..|].
  intros x s1 _ _ A1. do 3 stays_step. stays_step; [older A1|].
  do 2 stays_step. apply stays_audit; [done| |].
  - trace. eapply (apart_new (data s1) _ _ (cloud_uuids s1)); [older A1| |lia|same_ids].
    destruct (apart_none _ _ A1) as (_ & Hk & _). same_view; [done|done|by rewrite Hk].
  - intros s9 A9. repeat stays_step; try done.
Qed.
Lemma stays_create_volume t n s :
  t ≠ b → apart (data s) (cloud_uuids s) → stays (create_volume t n) s.
Proof.
  intros Ht Hs. unfold create_volume. destruct (is_empty n || _); [done|]. apply stays_team; [done..|].
  intros x s1 _ _ A1. stays_step. destruct (existsb _ _); [done|]. do 3 stays_step. stays_step; [older A1|].
  do 2 stays_step. apply stays_audit; [done| |].
  - trace. eapply (apart_new (data s1) _ _ (cloud_uuids s1)); [older A1| |lia|same_ids].
    destruct (apart_none _ _ A1) as (_ & _ & Hk & _). same_view; [done|done|by rewrite Hk].
  - intros s9 A9. repeat stays_step; try done.
Qed.
Lemma stays_create_snapshot t sb n st m s :
  t ≠ b → apart (data s) (cloud_uuids s) → stays (create_snapshot t sb n st m) s.
Proof.
  intros Ht Hs. unfold create_snapshot. do 3 stays_step. stays_step; [|done].
  eapply (apart_new (data s) _ _ (cloud_uuids s)); [older Hs| |lia|same_ids].
  destruct (apart_none _ _ Hs) as (_ & _ & _ & _ & Hk & _). same_view; [done|done|by rewrite Hk].
Qed.
Lemma stays_create_watcher t sb p r i s :
  t ≠ b → apart (data s) (cloud_uuids s) → stays (create_watcher t sb p r i) s.
Proof.
  intros Ht Hs. unfold create_watcher. stays_step; [done|]. do 2 stays_step. stays_step; [|done].
  eapply (apart_new (data s) _ _ (cloud_uuids s)); [older Hs| |lia|same_ids].
  destruct (apart_none _ _ Hs) as (_ & _ & _ & _ & _ & Hk). same_view; [done|done|by rewrite Hk].
Qed.

Lemma stays_update_key t i n s :
  t ≠ b → apart (data s) (cloud_uuids s) → stays (update_api_key t i n) s.
Proof.
  intros Ht Hs. unfold update_api_key. stays_step; [done|]. stays_step.
  destruct (of_team _ _ _) as [k|] eqn:Hk; [|done]. apply of_team_Some in Hk as [Hk Ho].
  do 2 stays_step; [|by stays_step].
  apply (apart_write (data s)); [done| |same_ids].
  same_view; [done|simpl; congruence|eapply owned_by_other; [eassumption|congruence]].
Qed.

(** Deletion, when the entry is not the other team's. *)
Lemma stays_remove {A B} (owner : A → string) m set t i (k : bool → cloud B) s :
  apart (set (delete i (m (data s))) (data s)) (cloud_uuids s) →
  (∀ r s1, apart (data s1) (cloud_uuids s1) → stays (k r) s1) →
  stays (remove_of_team owner m set t i ≫= k) s.
Proof. intros Hs Hk. apply wp_bind, wp_remove. by apply Hk. Qed.

Ltac stays_delete :=
  apply stays_remove;
  [ eapply apart_write; [eassumption| |same_ids]; by same_view
  | intros [] ? ?; simpl; repeat stays_step; done ].
Lemma stays_delete_key t i s :
  t ≠ b → owned_by ApiKey.team_id b (api_keys (data s) !! i) = false →
  apart (data s) (cloud_uuids s) → stays (delete_api_key t i) s.
Proof. intros Ht Ho Hs. unfold delete_api_key. stays_delete. Qed.
Lemma stays_delete_token t i s :
  t ≠ b → owned_by AccessToken.team_id b (access_tokens (data s) !! i) = false →
  apart (data s) (cloud_uuids s) → stays (delete_access_token t i) s.
Proof. intros Ht Ho Hs. unfold delete_access_token. stays_delete. Qed.
Lemma stays_delete_volume t i s :
  t ≠ b → owned_by Volume.team_id b (volumes (data s) !! i) = false →
  apart (data s) (cloud_uuids s) → stays (delete_volume t i) s.
Proof. intros Ht Ho Hs. unfold delete_volume. stays_delete. Qed.
Lemma stays_remove_watcher t i s :
  t ≠ b → owned_by Watcher.team_id b (watchers (data s) !! i) = false →
  apart (data s) (cloud_uuids s) → stays (remove_watcher t i) s.
Proof. intros Ht Ho Hs. unfold remove_watcher. stays_delete. Qed.

Lemma stays_add_member t m s :
  t ≠ b → apart (data s) (cloud_uuids s) → stays (add_member t m) s.
Proof.
  intros Ht Hs. unfold add_member. apply stays_team; [done..|]. intros x s1 _ _ A1. do 2 stays_step.
  assert (∀ v, apart (set_members (<[t := v]> (members (data s1))) (data s1)) (cloud_uuids s1)) as Hm.
  { intros v. apply (apart_write (data s1)); [done| |done].
    unfold team_view. simpl. by rewrite lookup_insert_ne. }
  destruct (existsb _ _); repeat stays_step; [apply Hm|]. rewrite insert_insert_eq. apply Hm.
Qed.

Lemma stays_authenticate c s :
  made_for b (OAuthenticate c) s = false → apart (data s) (cloud_uuids s) → stays (authenticate c) s.
Proof.
  intros Hb Hs. unfold authenticate. stays_step. destruct (List.find _ _) as [[i k]|] eqn:Hk.
  - apply List.find_some in Hk as [Hk Hc]. apply list_elem_of_In, elem_of_entries in Hk.
    assert (ApiKey.team_id k ≠ b) as Hne.
    { intros <-. apply not_true_iff_false in Hb. apply Hb, existsb_values. exists i, k.
      split; [done|]. simpl in Hc. by rewrite String.eqb_refl, Hc. }
    do 2 stays_step. apply stays_call; [|done]. apply wp_attempt, wp_persist. intros r w Hr _.
    assert (apart (data s0) (cloud_uuids s0)) as Ha; [|by destruct r].
    trace. apply (apart_write (data s)); [done| |same_ids].
    same_view; [done|simpl; congruence|eapply owned_by_other; [eassumption|congruence]].
  - clear Hk. stays_step. case_match; [done|by stays_step].
Qed.

Lemma stays_own_volume {B} t i (k : Volume.t → cloud B) s :
  apart (data s) (cloud_uuids s) →
  (∀ v, volumes (data s) !! i = Some v → Volume.team_id v = t → stays (k v) s) →
  stays (own_volume t i ≫= k) s.
Proof.
  intros Hs Hk. apply wp_bind. unfold own_volume. apply wp_bind, wp_read.
  destruct (of_team _ _ _) as [v|] eqn:Hv; [|done]. apply of_team_Some in Hv as [Hv Ho]. by apply Hk.
Qed.
Lemma stays_own_template {B} t i (k : Template.t → cloud B) s :
  apart (data s) (cloud_uuids s) →
  (∀ v, templates (data s) !! i = Some v → Template.team_id v = t → stays (k v) s) →
  stays (own_template t i ≫= k) s.
Proof.
  intros Hs Hk. apply wp_bind. unfold own_template. apply wp_bind, wp_read.
  destruct (of_team _ _ _) as [v|] eqn:Hv; [|done]. apply of_team_Some in Hv as [Hv Ho]. by apply Hk.
Qed.

Lemma stays_put_file t i p c m s :
  t ≠ b → apart (data s) (cloud_uuids s) → stays (put_volume_file t i p c m) s.
Proof.
  intros Ht Hs. unfold put_volume_file. stays_step; [done|]. apply stays_own_volume; [done|].
  intros v Hv Ho. do 3 stays_step. apply (apart_write (data s)); [done| |same_ids].
  same_view; [done|simpl; congruence|eapply owned_by_other; [eassumption|congruence]].
Qed.

(** Writing a template that is, and stays, somebody else's. *)
Lemma apart_template d u i x :
  apart d u → Template.team_id x ≠ b → owned_by Template.team_id b (templates d !! i) = false →
  apart (set_templates (<[i := x]> (templates d)) d) u.
Proof. intros Hs Hx Ho. apply (apart_write d); [done|by same_view|done]. Qed.

Lemma choose_template_id_spec n s :
  apart (data s) (cloud_uuids s) →
  wp (choose_template_id n) s (λ r s', r = Ok (new_template_id n s) ∧ data s' = data s ∧
                                       apart (data s') (cloud_uuids s')).
Proof.
  intros Hs. unfold choose_template_id, new_template_id.
  assert (apart (data s) (S (cloud_uuids s))) by (older Hs).
  destruct n as [n|]; [destruct (trim_is_empty n)|]; by split_and!.
Qed.

Lemma stays_create_template t n al pb im s :
  t ≠ b → owned_by Template.team_id b (templates (data s) !! new_template_id n s) = false →
  apart (data s) (cloud_uuids s) → stays (create_template t n al pb im) s.
Proof.
  intros Ht Ho Hs. unfold create_template. apply wp_bind.
  eapply wp_mono; [by apply choose_template_id_spec|]. intros r s0 (-> & E0 & A0).
  set (i := new_template_id n s) in *.
  lazymatch goal with |- wp ?m s0 _ => change (stays m s0) end.
  stays_step; [by rewrite <-E0|]. apply stays_team; [done..|]. intros x s1 E1 _ A1.
  do 2 stays_step. destruct (existsb _ _); [by stays_step; trace|].
  assert (templates (data s1) = templates (data s)) as Hts
    by (rewrite <-E0; by apply (f_equal templates) in E1).
  do 2 stays_step; [|by stays_step]. apply apart_template; [done|done|by rewrite Hts].
Qed.

Lemma with_alias_team req x y : with_alias req x = Ok y → Template.team_id y = Template.team_id x.
Proof.
  unfold with_alias. destruct (get_str _ _); [|by intros [= ->]].
  destruct (validate_template_name _); simpl; [|done..]. by case_match; intros [= <-].
Qed.

Lemma stays_update_template t i req s :
  t ≠ b → apart (data s) (cloud_uuids s) → stays (update_template t i req) s.
Proof.
  intros Ht Hs. unfold update_template, put_template. apply stays_own_template; [done|]. intros x Hx Ho.
  set (x1 := match jget "public" req ≫= as_bool with Some _ => _ | None => _ end).
  assert (Template.team_id x1 = t) as Hx1 by (subst x1; by case_match).
  assert (∀ d x2, d = data s ∨ d = set_templates (<[i := x1]> (templates (data s))) (data s) →
    Template.team_id x2 = t →
    apart (set_templates (<[i := x2]> (templates d)) d) (cloud_uuids s)) as Hput.
  { intros d x2 [-> | ->] Hx2; simpl; rewrite ?insert_insert_eq.
    all: apply (apart_write (data s)); [done|same_view|done]; [done|congruence|].
    all: eapply owned_by_other; [eassumption|congruence]. }
  stays_step. stays_step; [by apply Hput; [left|]|]. stays_step. stays_step. stays_step; [|by stays_step].
  apply Hput; [by right|]. rewrite <-Hx1. transitivity (Template.team_id a); [by case_match|].
  by eapply with_alias_team.
Qed.

Lemma stays_add_tag t i g s :
  t ≠ b → apart (data s) (cloud_uuids s) → stays (add_template_tag t i g) s.
Proof.
  intros Ht Hs. unfold add_template_tag, put_template. stays_step; [done|].
  apply stays_own_template; [done|]. intros x Hx Ho. do 2 stays_step. stays_step; [|by stays_step].
  apply apart_template; [done| |eapply owned_by_other; [eassumption|congruence]]. simpl. case_match; simpl; congruence.
Qed.

(** A template one may build is one's own or public. *)
Lemma visible_other t y :
  t ≠ b → visible t y = true → String.eqb (Template.team_id y) b && Template.public y = false →
  String.eqb (Template.team_id y) b = false.
Proof.
  intros Ht Hv Ho. apply andb_false_iff in Ho as [Ho|Ho]; [done|]. apply String.eqb_neq. intros Hy.
  unfold visible in Hv. rewrite Hy, Ho in Hv. simpl in Hv. rewrite ?orb_false_r in Hv.
  apply String.eqb_eq in Hv. congruence.
Qed.

Lemma stays_create_build t x r im s :
  t ≠ b → trespasses b (OCreateBuild t x r im) s = false →
  apart (data s) (cloud_uuids s) → stays (create_build t x r im) s.
Proof.
  intros Ht Ho Hs. unfold create_build. apply wp_bind. unfold template. apply wp_bind, wp_read.
  simpl in Ho. destruct (templates (data s) !! x) as [y|] eqn:Hy; [|done].
  destruct (visible t y) eqn:Hvis; [|done].
  assert (String.eqb (Template.team_id y) b = false) as Hyb by (by eapply visible_other).
  apply wp_ret. lazymatch goal with |- wp ?m s _ => change (stays m s) end.
  do 4 stays_step. stays_step; [|by stays_step]. rewrite Hy.
  apply (apart_new (data s) _ _ (cloud_uuids s)); [older Hs| |lia|same_ids].
  destruct (apart_none _ _ Hs) as (_ & _ & _ & Hk & _).
  same_view; [done|done|by rewrite Hk| |by rewrite Hy]. simpl. by apply String.eqb_neq.
Qed.

Lemma stays_update_build t i st l s :
  t ≠ b → trespasses b (OUpdateBuild t i st l) s = false →
  apart (data s) (cloud_uuids s) → stays (update_build t i st l) s.
Proof.
  intros Ht Ho Hs. unfold update_build. stays_step. destruct (of_team _ _ _) as [x|] eqn:Hx; [|done].
  simpl in Ho. rewrite Hx in Ho. apply of_team_Some in Hx as [Hx Hteam]. do 2 stays_step.
  assert (apart (data s0) (cloud_uuids s0)) as A0.
  { trace. apply (apart_write (data s)); [done| |same_ids].
    same_view; [done|simpl; congruence|eapply owned_by_other; [eassumption|congruence]]. }
  apply stays_call; [|intros [] s2 A2; stays_step; [done|by stays_step]].
  apply wp_when; [|done]. intros Hst. rewrite Hst in Ho. apply wp_write. simpl.
  destruct (templates (data s0) !! _) as [y|] eqn:Hy; [|done].
  assert (owned_by Template.team_id b (Some y) = false) as Hn.
  { rewrite <-Hy. revert Ho. by rewrite H2, H0. }
  apply apart_template; [done|by apply String.eqb_neq|by rewrite Hy].
Qed.

Lemma stays_cancel_loop t l c f s :
  t ≠ b → apart (data s) (cloud_uuids s) →
  (∀ i x, (i, x) ∈ l → ∃ y, builds (data s) !! i = Some y ∧ Build.team_id y = Build.team_id x) →
  stays (cancel_loop t l c f) s.
Proof.
  intros Ht. revert c f s. induction l as [|[i x] l IH]; intros c f s Hs Hl; simpl; [done|].
  assert (∀ j y, (j, y) ∈ l → ∃ z, builds (data s) !! j = Some z ∧ Build.team_id z = Build.team_id y) as Hl'
    by (intros; apply Hl; by right).
  destruct (negb _) eqn:Hx; [by apply IH|]. destruct (in_progress _); [|by apply IH].
  bool_to_prop. destruct (Hl i x) as (y & Hy & Hyx); [by left|]. do 2 stays_step. apply IH.
  - trace. apply (apart_write (data s)); [done| |same_ids].
    same_view; [done|simpl; congruence|eapply owned_by_other; [eassumption|congruence]].
  - intros j z Hj. trace. destruct (decide (i = j)) as [->|Hne].
    + destruct (Hl' j z Hj) as (z' & Hz & Hz'). rewrite lookup_insert_eq. eexists; split; [done|].
      simpl. congruence.
    + rewrite lookup_insert_ne by done. by apply Hl'.
Qed.

Lemma run_op_apart o s :
  made_for b o s = false → trespasses b o s = false → apart (data s) (cloud_uuids s) →
  stays (run_op o) s.
Proof.
  intros Hb Ho Hs. assert (∀ t, actor o = Some t → t ≠ b) as Hne.
  { intros t Ha ->. destruct o; simpl in *; simplify_eq/=; by case_bool_decide. }
  destruct o; simpl in *; try specialize (Hne _ eq_refl); [by apply stays_team|..]; try apply stays_drop.
  all: eauto using stays_add_member, stays_authenticate, stays_create_key, stays_update_key,
    stays_delete_key, stays_create_token, stays_delete_token, stays_create_volume,
    stays_delete_volume, stays_put_file, stays_create_template, stays_update_template,
    stays_create_build, stays_update_build, stays_add_tag, stays_create_snapshot,
    stays_create_watcher, stays_remove_watcher.
  - unfold cancel_builds. stays_step. apply stays_call.
    + apply stays_cancel_loop; [done..|]. intros i x Hi. apply elem_of_entries in Hi. eauto.
    + intros cf s1 A1. by repeat stays_step.
Qed.
End isolation.

(** ** Credentials *)

Section credentials.
Context {HOO : HashOrderOk HO}.

Definition key_matches (c : string) (k : ApiKey.t) : bool :=
  verify_digest (ApiKey.salt k) c (ApiKey.digest k).
Definition token_matches (c : string) (k : AccessToken.t) : bool :=
  verify_digest (AccessToken.salt k) c (AccessToken.digest k).
Definition volume_matches (c : string) (v : Volume.t) : bool :=
  verify_digest (Volume.token_salt v) c (Volume.token_digest v).

Definition key_principal (k : ApiKey.t) : Principal.t :=
  Principal.mk (ApiKey.team_id k) (ScopeRecord.into_scope (ApiKey.scope k)) None.

(** Whom a credential stands for: a key, else a token, else a volume whose digest
    it has. *)
Definition stands_for (d : ControlPlaneData) (c : string) (p : Principal.t) : Prop :=
  (∃ i k, api_keys d !! i = Some k ∧ key_matches c k = true ∧ p = key_principal k) ∨
  ((∀ i k, api_keys d !! i = Some k → key_matches c k = false) ∧
   ((∃ i k, access_tokens d !! i = Some k ∧ token_matches c k = true ∧
       p = Principal.mk (AccessToken.team_id k) Scope.Full None) ∨
    ((∀ i k, access_tokens d !! i = Some k → token_matches c k = false) ∧
     ∃ i v, volumes d !! i = Some v ∧ volume_matches c v = true ∧
       p = Principal.mk (Volume.team_id v) Scope.Full (Some (Volume.volume_id v))))).

(** Some record has the digest of this credential. *)
Definition known (d : ControlPlaneData) (c : string) : Prop :=
  (∃ i k, api_keys d !! i = Some k ∧ key_matches c k = true) ∨
  (∃ i k, access_tokens d !! i = Some k ∧ token_matches c k = true) ∨
  (∃ i v, volumes d !! i = Some v ∧ volume_matches c v = true).

Definition used_keys (d : ControlPlaneData) : gmap string ApiKey.t :=
  ApiKey.set_last_used None <$> api_keys d.

Lemma find_entries {A} (p : A → bool) (m : gmap string A) :
  match List.find (λ '(_, x), p x) (entries m) with
  | Some (i, x) => m !! i = Some x ∧ p x = true
  | None => ∀ i x, m !! i = Some x → p x = false
  end.
Proof.
  destruct (List.find _ _) as [[i x]|] eqn:Hf.
  - apply List.find_some in Hf as [Hin Hp]. by apply list_elem_of_In, elem_of_entries in Hin.
  - intros i x Hi. by eapply (List.find_none _ _ Hf (i, x)), list_elem_of_In, elem_of_entries.
Qed.

(** Authentication always answers, tells exactly whom the credential stands for,
    and changes nothing but the time a key was used. *)
Lemma authenticate_spec c s :
  wp (authenticate c) s (λ r s',
    used_keys (data s') = used_keys (data s) ∧
    set_api_keys ∅ (data s') = set_api_keys ∅ (data s) ∧
    match r with
    | Ok (Some p) => stands_for (data s) c p
    | Ok None => ¬ known (data s) c
    | _ => False
    end).
Proof.
  unfold authenticate. apply wp_bind, wp_read.
  pose proof (find_entries (key_matches c) (api_keys (data s))) as Hk.
  unfold key_matches in Hk at 1. destruct (List.find _ (entries (api_keys (data s)))) as [[i k]|].
  - destruct Hk as [Hk Hm]. apply wp_bind, wp_now, wp_bind, wp_write, wp_bind, wp_attempt, wp_persist.
    intros r w Hr _. assert (used_keys (data (set_data (set_api_keys (<[i :=
      ApiKey.set_last_used (Some (cloud_clk (cloud_reads s))) k]> (api_keys (data s))) (data s)) s))
      = used_keys (data s)) as Hu.
    { unfold used_keys. simpl. rewrite fmap_insert. apply insert_id. by rewrite lookup_fmap, Hk. }
    destruct r as [[]|e|]; [| |done]; (apply wp_ret; split_and!; [exact Hu|done|]); left; by exists i, k.
  - apply wp_bind, wp_read. pose proof (find_values (token_matches c) (access_tokens (data s))) as Ht.
    unfold token_matches in Ht at 1. destruct (List.find _ (values (access_tokens (data s)))) as [k|].
    + destruct Ht as (i & Hi & Hm). apply wp_ret. split_and!; [done|done|]. right. split; [done|].
      left. by exists i, k.
    + apply wp_bind, wp_read. pose proof (find_values (volume_matches c) (volumes (data s))) as Hv.
      unfold volume_matches in Hv at 1. destruct (List.find _ (values (volumes (data s)))) as [v|].
      * destruct Hv as (i & Hi & Hm). apply wp_ret. split_and!; [done|done|]. right. split; [done|].
        right. split; [done|]. by exists i, v.
      * apply wp_ret. split_and!; [done|done|].
        intros [(i & k & Hi & Hm)|[(i & k & Hi & Hm)|(i & k & Hi & Hm)]].
        -- by rewrite (Hk i k Hi) in Hm.
        -- by rewrite (Ht i k Hi) in Hm.
        -- by rewrite (Hv i k Hi) in Hm.
Qed.

Lemma wp_audit t a kd i f s Q :
  (∀ r s1, set_audit_log [] (data s1) = set_audit_log [] (data s) → r ≠ Panic → Q r s1) →
  wp (audit t a kd i f) s Q.
Proof.
  intros HQ. unfold audit. apply wp_bind, wp_fresh, wp_bind, wp_now, wp_bind, wp_write, wp_persist.
  intros r w Hr _. by apply HQ.
Qed.
Lemma wp_ensure_team t n s Q :
  (∀ r s1, set_teams ∅ (data s1) = set_teams ∅ (data s) → r ≠ Panic → Q r s1) →
  wp (ensure_team t n) s Q.
Proof.
  intros HQ. unfold ensure_team. destruct (trim_is_empty t); [by apply wp_fail, HQ|].
  apply wp_bind, wp_read. destruct (teams (data s) !! t).
  - apply wp_bind, wp_persist. intros r w Hr _. destruct r; by apply HQ.
  - apply wp_bind, wp_read, wp_bind, wp_now, wp_bind, wp_write, wp_bind, wp_persist.
    intros r w Hr _. destruct r; by apply HQ.
Qed.

Lemma create_api_key_spec t n sc s :
  wp (create_api_key t n sc) s (λ r s', ∀ j, r = Ok j → ∃ id raw k,
    get_str "id" j = Some id ∧ get_str "key" j = Some raw ∧ api_keys (data s') !! id = Some k ∧
    ApiKey.team_id k = t ∧ ApiKey.scope k = sc ∧ key_matches raw k = true).
Proof.
  unfold create_api_key. apply wp_bind, wp_lift. destruct (validate_name _ _); [|done..].
  apply wp_bind, wp_ensure_team. intros [x|e|] s1 _ _; [|done..].
  apply wp_bind, wp_fresh, wp_bind, wp_fresh, wp_bind, wp_fresh, wp_bind, wp_lift.
  destruct (mask_secret _) as [mk|e|]; [|done..].
  apply wp_bind, wp_now, wp_bind, wp_write, wp_bind, wp_audit.
  intros [[]|e|] s2 E2 _; [|done..]. apply wp_bind, wp_persist. intros [[]|e|] w _ _; [|done..].
  apply wp_bind, wp_lift. destruct (mask_json _ _) as [m|e|]; [|done..].
  apply wp_bind, wp_now, wp_ret. intros j [= <-].
  eexists _, _, _. split; [reflexivity|]. split; [reflexivity|].
  apply (f_equal api_keys) in E2. simpl in *. rewrite E2, lookup_insert_eq.
  split_and!; [reflexivity|done|done|]. apply String.eqb_refl.
Qed.

(** Deletion by id, whoever asks: the entry is gone; only the owner is told so. *)
Lemma delete_api_key_spec t id s :
  wp (delete_api_key t id) s (λ r s',
    api_keys (data s') = delete id (api_keys (data s)) ∧
    access_tokens (data s') = access_tokens (data s) ∧ volumes (data s') = volumes (data s) ∧
    match of_team ApiKey.team_id t (api_keys (data s) !! id) with
    | Some _ => r ≠ Panic
    | None => r = Err (ControlPlaneError.NotFound ("API key " +:+ id)) ∧ the_disk s' = the_disk s
    end).
Proof.
  unfold delete_api_key. apply wp_bind, wp_remove.
  destruct (of_team _ _ _) as [k|]; simpl; [|by apply wp_fail].
  apply wp_bind, wp_audit. intros r s1 E1 Hr. assert (api_keys (data s1) = delete id (api_keys (data s))
    ∧ access_tokens (data s1) = access_tokens (data s) ∧ volumes (data s1) = volumes (data s)) as (?&?&?).
  { split_and!; [exact (f_equal api_keys E1)|exact (f_equal access_tokens E1)|exact (f_equal volumes E1)]. }
  destruct r as [[]|e|]; [|done..]. apply wp_persist. by intros.
Qed.
End credentials.
End laws.


(** ** Properties *)

Section properties.
Context {HO : HashOrder} {HOO : HashOrderOk HO} {E : CloudEnv} {EO : CloudEnvOk E} {H : Sha256}.

(** C11: an answered operation survives a restart.  For a control plane kept in a file
    that reads back, whose free-form values (build requests and logs, watcher events,
    audit fields) are ones [serde_json] reads back (no floats, at most 127 levels of
    nesting in the file: [plain]): after any operation that takes over no other value
    ([plain_op]), whatever its outcome and whichever of its file operations failed, the
    data is such data again and the file still reads back (it is never torn); and when an
    operation other than authentication answers, the file holds exactly the data in
    memory, so that a start that finds the file and can read it ([opens]; a start that
    cannot test whether the file is there begins empty) loads that data. *)
Theorem acknowledged_operations_are_durable path o s s' r :
  tmp_path path ≠ path → readable path s → plain_op o = true → run_op o s = (s', r) →
  readable path s' ∧
  (actor o ≠ None → is_ok r = true →
   (∃ b, file (the_disk s') path = Some b ∧ from_slice b = inr (data s')) ∧
   (opens path (the_disk s') → load_data path (the_disk s') = Ok (data s'))).
Proof.
  intros Htmp Hs Hpl Hrun. split.
  - exact (wp_elim _ _ _ _ _ (run_op_safe path Htmp o Hpl s Hs) Hrun).
  - intros Ho Hr. by apply (wp_elim _ _ _ _ _ (run_op_acked path Htmp o Ho Hpl s Hs) Hrun).
Qed.

(** C12: teams are isolated.  An operation that is not made for a team leaves everything
    the control plane keeps for it as it was, whatever the outcome: its name and members,
    its keys with the time each was last used, its tokens, volumes with their files,
    templates, builds, snapshots, watchers and audit records.  Authentication is made for
    the teams one of whose keys has the credential.  So another team can neither build a
    private template nor move a build that is not its own.  The exceptions, in which the
    code does reach a record of the other team, are those of [trespasses]: the deletion
    of a key, token, volume or watcher by an id that is the other team's, a new template
    under the id of one of its templates, a build of one of its public templates, and the
    success of the caller's own build of a template of the other team.  UUIDs stay unused
    before they are drawn. *)
Theorem teams_are_isolated o b s s' r :
  fresh_ids s → made_for b o s = false → trespasses b o s = false → run_op o s = (s', r) →
  team_view b (data s') = team_view b (data s) ∧ fresh_ids s'.
Proof.
  intros Hf Hb Ho Hrun. assert (apart b (data s) (data s) (cloud_uuids s)) as Hs by (by split).
  pose proof (run_op_apart b (data s) o s Hb Ho Hs) as Hst. unfold stays, wp in Hst.
  by rewrite Hrun in Hst.
Qed.

(** Deleting an API key by an id that belongs to another team destroys it: the
    caller is told that there is no such key, yet the key is gone from memory and
    authenticates nobody through the control plane any more (unless another record
    has its digest).  Nothing is written, so the loss reaches the file only with
    the next operation that saves. *)
Theorem foreign_delete_destroys_key t id k c s s' r :
  api_keys (data s) !! id = Some k → ApiKey.team_id k ≠ t →
  (∀ j k', j ≠ id → api_keys (data s) !! j = Some k' → key_matches c k' = false) →
  (∀ j x, access_tokens (data s) !! j = Some x → token_matches c x = false) →
  (∀ j v, volumes (data s) !! j = Some v → volume_matches c v = false) →
  delete_api_key t id s = (s', r) →
  r = Err (ControlPlaneError.NotFound ("API key " +:+ id)) ∧ the_disk s' = the_disk s ∧
  api_keys (data s') !! id = None ∧ (authenticate c s').2 = Ok None.
Proof.
  intros Hk Ht Hkeys Htoks Hvols Hdel. pose proof (delete_api_key_spec t id s) as Hw.
  eapply wp_elim in Hw; [|exact Hdel]. destruct Hw as (Hd & Etok & Evol & Hr).
  rewrite Hk in Hr. simpl in Hr. rewrite (proj2 (String.eqb_neq _ _) Ht) in Hr. destruct Hr as [-> Hdisk].
  split_and!; [done|done|by rewrite Hd, lookup_delete_eq|].
  pose proof (authenticate_spec c s') as Ha. unfold wp in Ha. destruct Ha as (_ & _ & Ha).
  destruct (authenticate c s').2 as [[p|]|e|]; [|done..]. exfalso. unfold stands_for in Ha.
  rewrite Hd, Etok, Evol in Ha.
  destruct Ha as [(j & k' & Hj & Hm & _)|(_ & [(j & x & Hj & Hm & _)|(_ & j & v & Hj & Hm & _)])].
  - destruct (decide (j = id)) as [->|Hne]; [by rewrite lookup_delete_eq in Hj|].
    rewrite lookup_delete_ne in Hj by done. by rewrite (Hkeys j k') in Hm.
  - by rewrite (Htoks j x) in Hm.
  - by rewrite (Hvols j v) in Hm.
Qed.

(** The life of an API key.  A key that was created authenticates at once, as
    its team with its scope; after its team deleted it, it authenticates nobody.
    (Either could fail only if another record had the same digest for it.) *)
Theorem api_key_life t n sc s s1 j :
  create_api_key t n sc s = (s1, Ok j) →
  ∃ id raw, get_str "id" j = Some id ∧ get_str "key" j = Some raw ∧
  let other d := ∃ i k, i ≠ id ∧ api_keys d !! i = Some k ∧ key_matches raw k = true in
  (∃ p, (authenticate raw s1).2 = Ok (Some p) ∧
     (p = Principal.mk t (ScopeRecord.into_scope sc) None ∨ other (data s1))) ∧
  ∀ s2, delete_api_key t id s1 = (s2, Ok ()) →
    (authenticate raw s2).2 = Ok None ∨ other (data s1) ∨
    (∃ i x, access_tokens (data s1) !! i = Some x ∧ token_matches raw x = true) ∨
    (∃ i v, volumes (data s1) !! i = Some v ∧ volume_matches raw v = true).
Proof.
  intros Hc. pose proof (create_api_key_spec t n sc s) as Hw.
  eapply wp_elim in Hw; [|exact Hc]. destruct (Hw j eq_refl) as (id & raw & k & Hid & Hraw & Hk & Ht & Hsc & Hm).
  exists id, raw. split; [done|]. split; [done|]. intros other. split.
  - pose proof (authenticate_spec raw s1) as (_ & _ & Ha). destruct (authenticate raw s1).2 as [[p|]|e|]; [| |done..].
    + exists p. split; [done|]. destruct Ha as [(i & k' & Hi & Hm' & ->)|(Hno & _)].
      * destruct (decide (i = id)) as [->|Hne]; [|right; by exists i, k']. left. unfold key_principal. congruence.
      * by rewrite (Hno id k Hk) in Hm.
    + exfalso. apply Ha. left. eauto.
  - intros s2 Hdel. pose proof (delete_api_key_spec t id s1) as Hw2.
    eapply wp_elim in Hw2; [|exact Hdel]. destruct Hw2 as (Hd & Etok & Evol & _).
    pose proof (authenticate_spec raw s2) as (_ & _ & Ha).
    destruct (authenticate raw s2).2 as [[p|]|e|]; [|by left|done..]. right. unfold stands_for in Ha.
    rewrite Hd, Etok, Evol in Ha.
    destruct Ha as [(i & k' & Hi & Hm' & _)|(_ & [(i & x & Hi & Hm' & _)|(_ & i & v & Hi & Hm' & _)])].
    + left. destruct (decide (i = id)) as [->|Hne]; [by rewrite lookup_delete_eq in Hi|].
      rewrite lookup_delete_ne in Hi by done. by exists i, k'.
    + right; left. eauto.
    + right; right. eauto.
Qed.
End properties.

(** ** Witnesses *)

Module CloudDemo.
Export MemoryCloud.
Definition path : string := "/data/e2b.json".
Definition empty : ControlPlane := cp data_default (Some path) (∅ : disk) 0 0.
(** Team [a] has made a key. *)
Definition with_key : ControlPlane := (run_op (OCreateKey "a" "ci" ScopeRecord.Read) empty).1.
Lemma key_made : run_op (OCreateKey "a" "ci" ScopeRecord.Read) empty = (with_key, Ok ()).
Proof.
  assert ((run_op (OCreateKey "a" "ci" ScopeRecord.Read) empty).2 = Ok ()) as Hr
    by (vm_compute; reflexivity).
  exact (outcome_eta _ _ Hr).
Qed.
Definition key_id : string := uuid 0.
Definition the_key : ApiKey.t :=
  default (ApiKey.mk "" "" "" "" "" "" 0 None ScopeRecord.Read) (api_keys (data with_key) !! key_id).
End CloudDemo.

(** A request nested more deeply than the parser goes, below the three objects of the
    file: the build is saved and answered, and the file no longer opens. *)
Example a_deep_request_closes_the_file :
  let deep := Nat.iter 125 (λ v, JArr [v]) JNull in
  let s := (run_op (OCreateTemplate "a" (Some "t"%string) None false None) CloudDemo.empty).1 in
  let '(s', r) := run_op (OCreateBuild "a" "t" deep None) s in
  r = Ok () ∧
  load_data CloudDemo.path (the_disk s') =
    Err (ControlPlaneError.Persistence "recursion limit exceeded").
Proof. vm_compute. split; reflexivity. Qed.

Lemma acknowledged_operations_are_durable_witness :
  load_data CloudDemo.path (the_disk CloudDemo.with_key) = Ok (data CloudDemo.with_key).
Proof.
  refine (proj2 (proj2 (acknowledged_operations_are_durable CloudDemo.path
    (OCreateKey "a" "ci" ScopeRecord.Read) CloudDemo.empty CloudDemo.with_key (Ok ()) _ _ _
    CloudDemo.key_made) _ _) _).
  - vm_compute. discriminate.
  - split; [done|]. split; [by split_and!|]. intros b. simpl. by rewrite lookup_empty.
  - reflexivity.
  - discriminate.
  - reflexivity.
  - split; [vm_compute; reflexivity|]. eexists. vm_compute. reflexivity.
Defined.

(** Team [b] tries to build the private template of [a]. *)
Lemma teams_are_isolated_witness :
  let op1 := OCreateTemplate "a" (Some "t"%string) None false None in
  let s1 := (run_op op1 CloudDemo.empty).1 in
  let '(s2, r) := run_op (OCreateBuild "b" "t" JNull None) s1 in
  is_ok r = false ∧ is_Some (templates (data s1) !! "t"%string) ∧
  team_view "a" (data s2) = team_view "a" (data s1).
Proof.
  intros op1 s1. destruct (run_op (OCreateBuild "b" "t" JNull None) s1) as [s2 r] eqn:Hrun.
  assert (fresh_ids s1) as Hf.
  { refine (proj2 (teams_are_isolated op1 "b" CloudDemo.empty s1 (run_op op1 CloudDemo.empty).2
      _ _ _ _)); [|reflexivity|vm_compute; reflexivity|by destruct (run_op op1 _)].
    clear. intros n _. unfold ids. simpl. rewrite !dom_empty_L, !union_empty_l_L.
    apply not_elem_of_empty. }
  split_and!.
  - change r with (s2, r).2. rewrite <-Hrun. vm_compute. reflexivity.
  - vm_compute. eexists. reflexivity.
  - refine (proj1 (teams_are_isolated _ "a" s1 s2 r Hf _ _ Hrun)); vm_compute; reflexivity.
Defined.

Lemma foreign_delete_destroys_key_witness :
  api_keys (data (delete_api_key "b" CloudDemo.key_id CloudDemo.with_key).1) !! CloudDemo.key_id = None.
Proof.
  refine (proj1 (proj2 (proj2 (foreign_delete_destroys_key "b" CloudDemo.key_id CloudDemo.the_key "x"
    CloudDemo.with_key (delete_api_key "b" CloudDemo.key_id CloudDemo.with_key).1
    (delete_api_key "b" CloudDemo.key_id CloudDemo.with_key).2 _ _ _ _ _ _)))).
  - vm_compute. reflexivity.
  - vm_compute. discriminate.
  - intros j k' _ Hj. revert j k' Hj. apply (bool_decide_eq_true_1 (map_Forall (λ _ k', _) _)).
    vm_compute. reflexivity.
  - apply (bool_decide_eq_true_1 (map_Forall (λ _ x, _) _)). vm_compute. reflexivity.
  - apply (bool_decide_eq_true_1 (map_Forall (λ _ x, _) _)). vm_compute. reflexivity.
  - by destruct (delete_api_key _ _ _).
Defined.

Lemma api_key_life_witness : ∃ raw p : _,
  (authenticate raw (create_api_key "a" "ci" ScopeRecord.Read CloudDemo.empty).1).2 = Ok (Some p).
Proof.
  assert (is_ok (create_api_key "a" "ci" ScopeRecord.Read CloudDemo.empty).2 = true) as Hok
    by (vm_compute; reflexivity).
  destruct (create_api_key "a" "ci" ScopeRecord.Read CloudDemo.empty) as [s1 [j|e|]] eqn:Hc; [|done..].
  destruct (api_key_life "a" "ci" ScopeRecord.Read CloudDemo.empty s1 j Hc)
    as (id & raw & Hid & Hraw & (p & Hp & _) & _).
  by exists raw, p.
Defined.
