(* ===== verification/CloudVolumes.v ===== *)
(** * The file tree of a volume ([e2b_cloud.rs]: paths, files, listings)

    Normal forms of volume paths, what a file written is read back as, and what
    the listing of a directory contains. *)

From S2P Require Import Prelude Core Proto Digest Json Auth E2bCloud CloudLaws.
Import E2bControlPlane.

(** ** Normal forms *)

(** A name in the tree. *)
Definition plain (c : string) : Prop :=
  c ≠ "" ∧ c ≠ "." ∧ c ≠ ".." ∧ contains_char "/" c = false ∧ contains_char "\" c = false ∧
  contains_char NUL c = false.

(** The path of a list of names. *)
Definition path_of (ps : list string) : string := "/" +:+ join "/" ps.

Definition keeps_component (c : string) : bool := negb (String.eqb c "" || String.eqb c ".").

Lemma normalize_components_ok parts output qs :
  normalize_components parts output = Ok qs →
  qs = output ++ List.filter keeps_component parts ∧ ".."%string ∉ parts.
Proof.
  revert output. induction parts as [|c parts IH]; intros output; simpl.
  - intros [= <-]. split; [by rewrite app_nil_r|apply not_elem_of_nil].
  - unfold keeps_component at 1. destruct (String.eqb c "" || String.eqb c ".") eqn:Hc; simpl.
    + intros (-> & Hn)%IH. split; [done|]. rewrite not_elem_of_cons. split; [|done].
      intros <-. by apply orb_true_iff in Hc as [?|?].
    + destruct (String.eqb c "..") eqn:Hd; [done|]. destruct (contains_char NUL c); [done|].
      intros (-> & Hn)%IH. rewrite <-app_assoc. split; [done|]. rewrite not_elem_of_cons.
      split; [|done]. by apply not_eq_sym, String.eqb_neq.
Qed.

Lemma normalize_components_plain ps output :
  Forall plain ps → normalize_components ps output = Ok (output ++ ps).
Proof.
  intros Hps. revert output. induction Hps as [|c ps Hc Hps IH]; intros output; simpl; [by rewrite app_nil_r|].
  destruct Hc as (H1 & H2 & H3 & _ & _ & H6).
  rewrite (proj2 (String.eqb_neq c "") H1), (proj2 (String.eqb_neq c ".") H2),
    (proj2 (String.eqb_neq c "..") H3), H6. simpl. rewrite IH. by rewrite <-app_assoc.
Qed.

Lemma contains_join c sep ps :
  contains_char c (join sep ps) = false → Forall (λ p, contains_char c p = false) ps.
Proof.
  induction ps as [|p ps IH]; [done|]. destruct ps as [|q ps]; [by repeat constructor|].
  change (join sep (p :: q :: ps)) with (p +:+ sep +:+ join sep (q :: ps)).
  rewrite !contains_char_app. intros [Hp [Hs Hj]%orb_false_iff]%orb_false_iff. constructor; auto.
Qed.
Lemma join_contains c sep ps :
  contains_char c sep = false → Forall (λ p, contains_char c p = false) ps →
  contains_char c (join sep ps) = false.
Proof.
  intros Hs. induction 1 as [|p ps Hp Hps IH]; [done|]. destruct ps as [|q ps]; [done|].
  change (join sep (p :: q :: ps)) with (p +:+ sep +:+ join sep (q :: ps)).
  by rewrite !contains_char_app, Hp, Hs, IH.
Qed.

Section volumes.
Context {HO : HashOrder} {E : CloudEnv} {H : Sha256}.

(** A path is refused iff it has a backslash, a NUL or a component [..]; every
    accepted path is the path of plain names. *)
Lemma normalize_cases p :
  match normalize_volume_path p with
  | Ok q => ∃ ps, q = path_of ps ∧ Forall plain ps
  | Err e => contains_char "\" p = true ∨ contains_char NUL p = true ∨ ".."%string ∈ split "/" p
  | Panic => False
  end.
Proof.
  unfold normalize_volume_path. destruct (contains_char "\" p || contains_char NUL p) eqn:Hc.
  { apply orb_true_iff in Hc as [?|?]; auto. }
  apply orb_false_iff in Hc as [Hb Hn]. destruct (is_empty p) eqn:He; [by exists []|].
  pose proof (join_split "/" p) as Hj. rewrite <-Hj in Hb, Hn. apply contains_join in Hb, Hn.
  pose proof (split_no_sep "/" p) as Hs. rewrite !Forall_forall in *.
  destruct (normalize_components (split "/" p) []) as [qs|e|] eqn:Hq; simpl.
  - apply normalize_components_ok in Hq as [-> Hd]. exists (List.filter keeps_component (split "/" p)).
    split; [done|]. rewrite Forall_forall. intros c [Hin Hk]%elem_of_List_filter. unfold keeps_component in Hk. bool_to_prop.
    split_and!; auto. by intros ->.
  - right; right. clear -Hq Hn. revert Hq. generalize (@nil string). induction (split "/" p) as [|c l IH].
    + done.
    + simpl. intros out. destruct (String.eqb c "" || String.eqb c ".").
      { intros Hq. right. by eapply IH; [intros; apply Hn; by right|]. }
      destruct (String.eqb c "..") eqn:Hd. { intros _. bool_to_prop. subst. by left. }
      rewrite (Hn c) by (by left). intros Hq. right. by eapply IH; [intros; apply Hn; by right|].
  - clear -Hq. revert Hq. generalize (@nil string). induction (split "/" p) as [|c l IH]; intros out; simpl; [done|].
    repeat case_match; try done; apply IH.
Qed.

Lemma normalize_path_of ps : Forall plain ps → normalize_volume_path (path_of ps) = Ok (path_of ps).
Proof.
  intros Hps. assert (∀ c, contains_char c "/" = false → (∀ p, plain p → contains_char c p = false) →
    contains_char c (path_of ps) = false) as Hno.
  { intros c Hc Hp. unfold path_of. rewrite contains_char_app, Hc. simpl.
    apply join_contains; [done|]. eapply Forall_impl; [exact Hps|]. auto. }
  unfold normalize_volume_path. rewrite !Hno; [|done|by intros p (?&?&?&?&?&?)|done|by intros p (?&?&?&?&?&?)].
  assert (split "/" (path_of ps) = "" :: split "/" (join "/" ps)) as Hsp by done.
  change (is_empty (path_of ps)) with false. rewrite Hsp. simpl. destruct ps as [|p ps']; [done|].
  rewrite split_join; [|done|eapply Forall_impl; [exact Hps|]; by intros q (?&?&?&?&?&?)].
  by rewrite normalize_components_plain.
Qed.

(** ** Listings *)

Fixpoint slash (ps : list string) : string :=
  match ps with [] => "" | c :: ps' => "/" +:+ c +:+ slash ps' end.

Lemma path_of_slash ps : ps ≠ [] → path_of ps = slash ps.
Proof.
  unfold path_of. induction ps as [|c ps IH]; [done|]. intros _. destruct ps as [|q ps].
  - simpl. by rewrite string_app_nil_r.
  - change (join "/" (c :: q :: ps)) with (c +:+ "/" +:+ join "/" (q :: ps)). by rewrite IH.
Qed.
Lemma slash_snoc ps c : slash (ps ++ [c]) = slash ps +:+ "/" +:+ c.
Proof.
  induction ps as [|p ps IH]; simpl; [by rewrite string_app_nil_r|].
  rewrite IH. by rewrite !string_app_assoc.
Qed.

Lemma trim_end_app c x y :
  y ≠ ""%string → contains_char c y = false → trim_end_matches c (x +:+ y) = x +:+ y.
Proof.
  intros Hy Hc. assert (trim_end_matches c y = y) as Hty.
  { clear Hy. induction y as [|a y IH]; [done|]. simpl in *. apply orb_false_iff in Hc as [Ha Hc].
    by rewrite Ha, IH. }
  induction x as [|a x IH]; [done|]. change (String a x +:+ y) with (String a (x +:+ y)). simpl.
  rewrite IH. destruct (x +:+ y) eqn:Hxy; [|by rewrite andb_false_r].
  destruct x; simpl in Hxy; [by subst|done].
Qed.

Lemma strip_component p c X Y r :
  contains_char "/" p = false → contains_char "/" c = false →
  (∃ X', X = String "/" X') → (Y = "" ∨ ∃ Y', Y = String "/" Y') →
  strip_prefix (p +:+ X) (c +:+ Y) = Some r ↔ p = c ∧ strip_prefix X Y = Some r.
Proof.
  intros Hp Hc [X' ->] HY. revert c Hc. induction p as [|x p IH]; intros [|a c] Hc.
  - by split; [|intros []].
  - change ("" +:+ String "/" X') with (String "/" X'). change (String a c +:+ Y) with (String a (c +:+ Y)).
    simpl in Hc. apply orb_false_iff in Hc as [Ha _].
    assert (strip_prefix (String "/" X') (String a (c +:+ Y)) = None) as ->; [|by split; [|intros []]].
    unfold strip_prefix. by rewrite Ascii.eqb_sym, Ha.
  - simpl in Hp. apply orb_false_iff in Hp as [Hx _]. split; [|by intros []].
    change (String x p +:+ String "/" X') with (String x (p +:+ String "/" X')).
    destruct HY as [-> | [Y' ->]]; simpl; [done|]. by rewrite Hx.
  - change (String x p +:+ String "/" X') with (String x (p +:+ String "/" X')).
    change (String a c +:+ Y) with (String a (c +:+ Y)).
    simpl in Hp, Hc. apply orb_false_iff in Hp as [_ Hp]. apply orb_false_iff in Hc as [_ Hc].
    assert (strip_prefix (String x (p +:+ String "/" X')) (String a (c +:+ Y))
      = if Ascii.eqb x a then strip_prefix (p +:+ String "/" X') (c +:+ Y) else None) as -> by done.
    destruct (Ascii.eqb x a) eqn:Hxa.
    + apply Ascii.eqb_eq in Hxa as ->. rewrite (IH Hp c Hc). naive_solver.
    + apply Ascii.eqb_neq in Hxa. split; [done|]. by intros [[= ] _].
Qed.

Lemma slash_head ps : slash ps = "" ∨ ∃ y, slash ps = String "/" y.
Proof. destruct ps; [by left|right; by eexists]. Qed.

Lemma strip_slash ps fs r :
  Forall plain ps → Forall plain fs →
  strip_prefix (slash ps +:+ "/") (slash fs) = Some r ↔
  ∃ c rest, fs = ps ++ c :: rest ∧ r = c +:+ slash rest.
Proof.
  intros Hps. revert fs. induction Hps as [|p ps Hp Hps IH]; intros fs Hfs.
  - destruct fs as [|c rest]; simpl; [naive_solver|]. split; [intros [= <-]; eauto|].
    intros (c' & rest' & [= <- <-] & ->). done.
  - destruct Hfs as [|c rest Hc Hrest].
    + simpl. split; [done|]. by intros (? & ? & ? & _).
    + assert (strip_prefix (slash (p :: ps) +:+ "/") (slash (c :: rest))
        = strip_prefix (p +:+ (slash ps +:+ "/")) (c +:+ slash rest)) as ->.
      { simpl. by rewrite string_app_assoc. }
      rewrite strip_component; [|apply Hp|apply Hc| |apply slash_head].
      * rewrite IH by done. split.
        -- intros (-> & c' & rest' & -> & ->). eauto.
        -- intros (c' & rest' & [= <- ->] & ->). eauto.
      * destruct ps; simpl; eauto.
Qed.

Lemma path_of_root ps : Forall plain ps → String.eqb (path_of ps) "/" = bool_decide (ps = []).
Proof.
  intros Hps. destruct Hps as [|c ps (Hc & _)]; [done|]. rewrite bool_decide_false by done.
  apply String.eqb_neq. rewrite path_of_slash by done. simpl. intros [= Hn].
  destruct c; [done|]. done.
Qed.

(** A directory in front of its entries, as both uses of it are written. *)
Lemma dir_prefix ps :
  Forall plain ps →
  (if String.eqb (path_of ps) "/" then "/"%string else trim_end_matches "/" (path_of ps) +:+ "/")
  = slash ps +:+ "/".
Proof.
  intros Hps. rewrite path_of_root by done. case_bool_decide as Hn; [by subst|].
  destruct ps as [|c ps _] using rev_ind; [done|]. apply Forall_app in Hps as [_ Hc].
  apply Forall_singleton in Hc as (Hc & _ & _ & Hs & _).
  rewrite path_of_slash by done. rewrite slash_snoc, <-string_app_assoc. by rewrite trim_end_app.
Qed.

Lemma dir_entry_spec ps fs e :
  Forall plain ps → Forall plain fs →
  dir_entry (path_of ps) (slash ps +:+ "/") (path_of fs) = Some e ↔
  ∃ c rest, fs = ps ++ c :: rest ∧ e = path_of (ps ++ [c]).
Proof.
  intros Hps Hfs. unfold dir_entry.
  assert (∀ c, (if String.eqb (path_of ps) "/" then "/" +:+ c
    else trim_end_matches "/" (path_of ps) +:+ "/" +:+ c) = path_of (ps ++ [c])) as He.
  { intros c. rewrite (path_of_slash (ps ++ [c])) by (by destruct ps). rewrite slash_snoc.
    pose proof (dir_prefix ps Hps) as Hd. rewrite path_of_root in Hd |- * by done.
    case_bool_decide; [by subst|]. rewrite <-!string_app_assoc. by rewrite Hd. }
  destruct (decide (fs = [])) as [->|Hne].
  - split; [|by intros (c & rest & Hf & _); destruct ps]. unfold path_of at 2. simpl.
    destruct Hps as [|p ps (Hp & _) Hps]; simpl; [done|]. by destruct p.
  - rewrite (path_of_slash fs) by done. split.
    + intros (r & Hr & Hf)%bind_Some. apply strip_slash in Hr as (c & rest & -> & ->); [|done..].
      exists c, rest. split; [done|]. apply Forall_app in Hfs as [_ Hc]. apply Forall_cons in Hc as [Hc _].
      revert Hf. assert (head (split "/" (c +:+ slash rest)) = Some c) as ->; simpl.
      { destruct (slash_head rest) as [-> | [y ->]].
        - rewrite string_app_nil_r, split_one; [done|apply Hc].
        - rewrite split_app, split_one; [done|apply Hc]. }
      destruct (is_empty c); [done|]. intros [= <-]. apply He.
    + intros (c & rest & -> & ->). pose proof (strip_slash ps (ps ++ c :: rest) (c +:+ slash rest) Hps Hfs) as Hs.
      rewrite (proj2 Hs) by eauto. simpl. apply Forall_app in Hfs as [_ Hc]. apply Forall_cons in Hc as [Hc _].
      assert (head (split "/" (c +:+ slash rest)) = Some c) as ->; simpl.
      { destruct (slash_head rest) as [-> | [y ->]].
        - rewrite string_app_nil_r, split_one; [done|apply Hc].
        - rewrite split_app, split_one; [done|apply Hc]. }
      destruct Hc as (Hc & _). unfold is_empty. rewrite (proj2 (String.eqb_neq c "") Hc).
      f_equal. apply He.
Qed.

Lemma push_new_spec l acc :
  NoDup acc → NoDup (foldl push_new acc l) ∧ ∀ x, x ∈ foldl push_new acc l ↔ x ∈ acc ∨ x ∈ l.
Proof.
  revert acc. induction l as [|y l IH]; intros acc Hacc; simpl; [by split; [|set_solver]|].
  unfold push_new at 2 4. destruct (existsb (String.eqb y) acc) eqn:Hy.
  - apply existsb_exists in Hy as (z & Hz & ->%String.eqb_eq). apply list_elem_of_In in Hz.
    destruct (IH acc Hacc) as [? Hx]. split; [done|]. intros x. rewrite Hx. set_solver.
  - destruct (IH (acc ++ [y])) as [? Hx].
    { apply NoDup_app. split_and!; [done| |apply NoDup_singleton]. intros x Hx ->%list_elem_of_singleton.
      assert (existsb (String.eqb y) acc = true) as Ht; [|by rewrite Ht in Hy].
      apply existsb_exists. exists y. rewrite <-list_elem_of_In. by rewrite String.eqb_refl. }
    split; [done|]. intros x. rewrite Hx. set_solver.
Qed.

(** Every file of every volume is at the path of plain names. *)
Definition tidy (d : ControlPlaneData) : Prop :=
  ∀ i v f, volumes d !! i = Some v → is_Some (Volume.files v !! f) →
  ∃ fs, f = path_of fs ∧ Forall plain fs.

Lemma put_volume_file_spec t i p c m s :
  wp (put_volume_file t i p c m) s (λ r s', r = Ok () → ∃ q v tm,
    normalize_volume_path p = Ok q ∧ volumes (data s) !! i = Some v ∧ Volume.team_id v = t ∧
    volumes (data s') = <[i := Volume.set_files (<[q := VolumeFile.mk c 420 tm m]> (Volume.files v)) v]>
                          (volumes (data s))).
Proof.
  unfold put_volume_file. apply wp_bind, wp_lift.
  destruct (normalize_volume_path p) as [q|e|] eqn:Hq; [|done..]. apply wp_bind.
  unfold own_volume. apply wp_bind, wp_read.
  destruct (of_team _ _ _) as [v|] eqn:Hv; [|done]. apply of_team_Some in Hv as [Hv Ht].
  apply wp_ret, wp_bind, wp_now, wp_bind, wp_write, wp_persist. intros r w _ _ ->. simpl.
  by eexists q, v, _.
Qed.

(** What a read of a file answers, as a function of the data. *)
Definition file_answer (t i p : string) (d : ControlPlaneData) : res ControlPlaneError.t VolumeFile.t :=
  q ← normalize_volume_path p;
  match of_team Volume.team_id t (volumes d !! i) ≫= λ v, Volume.files v !! q with
  | Some f => Ok f
  | None => Err (ControlPlaneError.NotFound ("volume file " +:+ q))
  end.

Lemma get_volume_file_answer t i p s : get_volume_file t i p s = (s, file_answer t i p (data s)).
Proof.
  unfold get_volume_file, file_answer, mbind, stres_bind, lift. simpl.
  destruct (normalize_volume_path p) as [q|e|]; [|done..]. unfold read_data, gets. simpl.
  by case_match.
Qed.
End volumes.

(** Writing keeps the files at normal paths. *)
Lemma put_keeps_tidy {HO : HashOrder} {E : CloudEnv} t i p c m s s' :
  put_volume_file t i p c m s = (s', Ok ()) → tidy (data s) → tidy (data s').
Proof.
  intros Hput Htidy. pose proof (put_volume_file_spec t i p c m s) as Hw.
  eapply wp_elim in Hw; [|exact Hput]. destruct (Hw eq_refl) as (q0 & v & tm & Hq & Hv & Ht & Hd). clear Hw.
  intros j w f. rewrite Hd. destruct (decide (i = j)) as [->|Hij].
  - rewrite lookup_insert_eq. intros [= <-]. simpl. destruct (decide (q0 = f)) as [->|Hf].
    + intros _. pose proof (normalize_cases p) as Hc. by rewrite Hq in Hc.
    + rewrite lookup_insert_ne by done. by apply (Htidy j v f).
  - rewrite lookup_insert_ne by done. apply Htidy.
Qed.

(** ** Properties *)

(** No path leaves a volume.  A path is accepted unless it contains a backslash,
    a NUL or a component [..]; an accepted path becomes the path of a list of plain
    names (no empty name, no [.] or [..], no slash), and that form is stable:
    normalising it again changes nothing. *)
Theorem volume_paths_are_confined p :
  match normalize_volume_path p with
  | Ok q => (∃ ps, q = path_of ps ∧ Forall plain ps) ∧ normalize_volume_path q = Ok q
  | Err e => contains_char "\" p = true ∨ contains_char NUL p = true ∨ ".."%string ∈ split "/" p
  | Panic => False
  end.
Proof.
  pose proof (normalize_cases p) as Hc. destruct (normalize_volume_path p) as [q|e|]; [|done..].
  destruct Hc as (ps & -> & Hps). split; [eauto|by apply normalize_path_of].
Qed.

Section properties.
Context {HO : HashOrder} {HOO : HashOrderOk HO} {E : CloudEnv} {H : Sha256}.

(** A file that was written is read back: after a successful [put_volume_file]
    every path with the same normal form reads the new content and metadata, every
    other path of the volume and every other volume read what they read before, and
    the files are still at normal paths. *)
Theorem volume_file_round_trip t i p c m s s' :
  put_volume_file t i p c m s = (s', Ok ()) →
  (∃ tm, ∀ q, normalize_volume_path q = normalize_volume_path p →
     (get_volume_file t i q s').2 = Ok (VolumeFile.mk c 420 tm m)) ∧
  (∀ t' j q, (j, normalize_volume_path q) ≠ (i, normalize_volume_path p) →
     (get_volume_file t' j q s').2 = (get_volume_file t' j q s).2) ∧
  (tidy (data s) → tidy (data s')).
Proof.
  intros Hput. pose proof (put_volume_file_spec t i p c m s) as Hw.
  eapply wp_elim in Hw; [|exact Hput]. destruct (Hw eq_refl) as (q0 & v & tm & Hq & Hv & Ht & Hd). clear Hw.
  split_and!.
  - exists tm. intros q Hn. rewrite get_volume_file_answer. simpl. unfold file_answer. rewrite Hn, Hq. simpl.
    rewrite Hd, lookup_insert_eq. simpl. rewrite Ht, String.eqb_refl. simpl. by rewrite lookup_insert_eq.
  - intros t' j q Hne. rewrite !get_volume_file_answer. simpl. unfold file_answer. rewrite Hd.
    destruct (normalize_volume_path q) as [q1|e|]; simpl; [|done..].
    destruct (decide (i = j)) as [->|Hij]; [|by rewrite lookup_insert_ne].
    rewrite lookup_insert_eq, Hv. simpl. destruct (String.eqb _ _); simpl; [|done].
    rewrite lookup_insert_ne; [done|]. intros ->. apply Hne. by rewrite Hq.
  - by eapply put_keeps_tidy.
Qed.

(** Listing a directory of a volume gives its direct children and nothing
    else, each exactly once, in whatever order the map iterates: an entry is
    [dir/name] for every [name] under which some file of the volume lies. *)
Theorem directory_listing_is_exact t i p ps v s :
  tidy (data s) → normalize_volume_path p = Ok (path_of ps) → Forall plain ps →
  volumes (data s) !! i = Some v → Volume.team_id v = t →
  ∃ l, list_volume_files t i p s = (s, Ok l) ∧ NoDup l ∧
  ∀ e, e ∈ l ↔ ∃ c rest, Forall plain (c :: rest) ∧
    is_Some (Volume.files v !! path_of (ps ++ c :: rest)) ∧ e = path_of (ps ++ [c]).
Proof.
  intros Htidy Hp Hps Hv Ht. unfold list_volume_files, mbind, stres_bind, lift. rewrite Hp. cbv beta iota zeta.
  rewrite dir_prefix by done. unfold own_volume, read_data, gets, mbind, stres_bind. rewrite Hv.
  unfold of_team. rewrite Ht, String.eqb_refl. cbv beta iota. eexists. split; [done|].
  match goal with |- NoDup (foldl _ _ ?l) ∧ _ => destruct (push_new_spec l [] (NoDup_nil_2)) as [Hnd Hin] end.
  split; [done|]. intros e. rewrite Hin, list_elem_of_omap. split.
  - intros [Hnil|(f & Hf & He)]; [by apply not_elem_of_nil in Hnil|].
    apply list_elem_of_fmap in Hf as ([f' x] & -> & Hf). apply elem_of_entries in Hf.
    destruct (Htidy i v f' Hv) as (fs & -> & Hfs); [eauto|]. simpl in *.
    apply dir_entry_spec in He as (c & rest & -> & ->); [|done..].
    apply Forall_app in Hfs as [_ Hfs]. eauto 10.
  - intros (c & rest & Hc & [x Hx] & ->). right. exists (path_of (ps ++ c :: rest)). split.
    + apply list_elem_of_fmap. exists (path_of (ps ++ c :: rest), x). by rewrite elem_of_entries.
    + apply dir_entry_spec; [done|by apply Forall_app|]. eauto.
Qed.
End properties.

(** ** Witnesses *)

Module VolumeDemo.
Import CloudDemo.
(** Team [a] makes a volume and writes [/x/y] into it. *)
Definition with_volume : ControlPlane := (create_volume "a" "data" empty).1.
Definition volume : string := uuid 0.
Definition with_file : ControlPlane := (put_volume_file "a" volume "/x/./y" [] ∅ with_volume).1.
Lemma file_written : put_volume_file "a" volume "/x/./y" [] ∅ with_volume = (with_file, Ok ()).
Proof.
  assert ((put_volume_file "a" volume "/x/./y" [] ∅ with_volume).2 = Ok ()) as Hr
    by (vm_compute; reflexivity).
  exact (outcome_eta _ _ Hr).
Qed.
Lemma with_volume_tidy : tidy (data with_volume).
Proof.
  assert (map_Forall (λ _ v, size (Volume.files v) = 0%nat) (volumes (data with_volume))) as Hf
    by (apply (bool_decide_eq_true_1 (map_Forall (λ _ v, size (Volume.files v) = 0%nat) _));
        vm_compute; reflexivity).
  intros i v f Hv [x Hx]. specialize (Hf i v Hv). apply map_size_empty_inv in Hf.
  by rewrite Hf, lookup_empty in Hx.
Qed.
Definition the_volume : Volume.t :=
  default (Volume.mk "" "" "" "" "" "" 0 ∅) (volumes (data with_file) !! volume).
End VolumeDemo.

Lemma volume_file_round_trip_witness :
  ∃ tm, (get_volume_file "a" VolumeDemo.volume "x//y" VolumeDemo.with_file).2
        = Ok (VolumeFile.mk [] 420 tm ∅).
Proof.
  destruct (volume_file_round_trip "a" VolumeDemo.volume "/x/./y" [] ∅ VolumeDemo.with_volume
    VolumeDemo.with_file VolumeDemo.file_written) as [[tm Hg] _].
  exists tm. apply Hg. vm_compute. reflexivity.
Defined.

Lemma directory_listing_is_exact_witness :
  ∃ l, list_volume_files "a" VolumeDemo.volume "/" VolumeDemo.with_file = (VolumeDemo.with_file, Ok l) ∧
  "/x"%string ∈ l.
Proof.
  destruct (directory_listing_is_exact "a" VolumeDemo.volume "/" [] VolumeDemo.the_volume
    VolumeDemo.with_file) as (l & Hl & _ & Hin).
  - exact (put_keeps_tidy _ _ _ _ _ _ _ VolumeDemo.file_written VolumeDemo.with_volume_tidy).
  - vm_compute. reflexivity.
  - constructor.
  - vm_compute. reflexivity.
  - vm_compute. reflexivity.
  - exists l. split; [exact Hl|]. apply Hin. exists "x"%string, ["y"%string]. split_and!.
    + repeat constructor; vm_compute; discriminate.
    + apply (bool_decide_eq_true_1 (is_Some _)). vm_compute. reflexivity.
    + reflexivity.
Defined.
