(* ===== verification/Guest.v ===== *)
(** * The guest agent, as the control plane calls it
    ([crates/clouisle-api/src/agent.rs], [handlers/files.rs])

    The traits [AgentConnector] and [AgentConnection] as one class over an opaque
    guest world, the time limit the control plane puts on calls, and the check of
    guest paths. *)

From S2P Require Import Prelude Core SandboxModel Vmm Proto.

(** [ExecStreamEvent]. *)
Inductive ExecStreamEvent : Type :=
| EvStdout (b : Bytes) | EvStderr (b : Bytes) | EvExit (code : Z) | EvError (message : string).

Class Agent : Type := {
  guest : Type;
  connection : Type;
  connect_and_hello : VmHandle.t → string → guest → guest * outcome connection;
  conn_exec : connection → list string → gmap string string → option string → Z →
    guest → guest * outcome ExecutionResult.t;
  (** A streamed command: the events that came, and how the call ended. *)
  exec_stream : connection → list string → gmap string string → option string → Z →
    guest → guest * (list ExecStreamEvent * outcome ());
  write_file : connection → string → Bytes → Z → guest → guest * outcome ();
  apply_limits : connection → option Z → guest → guest * outcome ();
  read_file : connection → string → guest → guest * outcome Bytes;
  list_dir : connection → string → guest → guest * outcome (list DirEntry.t);
  ping : connection → guest → guest * outcome ();
  (** A long-lived process: its identifier in the guest, then its output until it
      ends (the events that came and how the pump ended). *)
  start_process : connection → list string → gmap string string → option string → Z → bool →
    option PtyConfig.t → guest → guest * outcome string;
  stream_process_events : connection → string →
    guest → guest * (list ExecStreamEvent * outcome ());
  send_stdin : connection → string → Bytes → guest → guest * outcome ();
  close_stdin : connection → string → guest → guest * outcome ();
  send_signal : connection → string → ProcessSignal.t → guest → guest * outcome ();
  resize_pty : connection → string → Z → Z → guest → guest * outcome () }.

(** [exec_stream] as the trait provides it, of [exec]: one chunk per stream that has
    output, then the exit code.  (The connections to a guest and to a node have their
    own.) *)

Definition default_exec_stream {guest : Type} (exec : guest → guest * outcome ExecutionResult.t) (g : guest)
  : guest * (list ExecStreamEvent * outcome ()) :=
  match exec g with
  | (g', inl e) => (g', ([], inl e))
  | (g', inr r) =>
    (g', ((if bool_decide (ExecutionResult.stdout r = []) then []
           else [EvStdout (ExecutionResult.stdout r)])
          ++ (if bool_decide (ExecutionResult.stderr r = []) then []
              else [EvStderr (ExecutionResult.stderr r)])
          ++ [EvExit (ExecutionResult.exit_code r)], inr ()))
  end.

(** [tokio::time::timeout]: the call's outcome, or [None] when the limit (in
    seconds) passed first and the call was dropped where it stood. *)
Class Timeouts : Type := {
  within {W A : Type} : Z → (W → W * outcome A) → W → W * option (outcome A) }.

Class TimeoutsOk (T : Timeouts) : Prop := {
  within_done {W A} n (f : W → W * outcome A) w w' o :
    within n f w = (w', Some o) → f w = (w', o) }.

(** A limit that never passes. *)
Definition patient : Timeouts :=
  {| within W A n f w := let '(w', o) := f w in (w', Some o) |}.

#[global] Instance patient_ok : TimeoutsOk patient.
Proof. split. unfold patient, within. intros W A n f w w' o. by destruct (f w); intros [= -> ->]. Qed.

(** ** [files.rs]: [validate_path]

    On Linux [Path::components] splits at the slashes, and only a component
    [..] is a [ParentDir]; there are no prefixes. *)
Definition validate_path (path : string) : result () :=
  if is_empty path then Err (ClouisleError.validation "path is required")
  else if SandboxSpec.has_dotdot path
  then Err (ClouisleError.validation "path traversal is not allowed")
  else Ok ().

(** [format!("{}/{}", target.trim_end_matches('/'), path.trim_start_matches('/'))],
    or the target itself for an empty path. *)
Definition volume_target (target path : string) : string :=
  let relative := trim_start_matches "/" path in
  if is_empty relative then target
  else trim_end_matches "/" target +:+ "/" +:+ relative.
