(* ===== verification/Processes.v ===== *)
(** * Process sessions and their event streams
    ([crates/clouisle-api/src/state.rs], [handlers/e2b.rs])

    The registry that keeps the sessions of running guest processes, reachable by
    process number and by tag; how a session records and broadcasts its events; and
    the stream a client is given: a replay of the record followed by the broadcast.
    The interleavings of the publisher with a client that joins are explicit
    steps. *)

From S2P Require Import Prelude Core SandboxModel Vmm Proto Json Guest.

(** The codecs: base64 (standard alphabet, padded) and [serde_json::to_vec]. *)
Class Wire : Type := {
  base64_encode : Bytes → string;
  base64_decode : string → string + Bytes;
  to_vec : Json → string + Bytes }.

Class WireOk (W : Wire) : Prop := {
  base64_law b : base64_decode (base64_encode b) = inr b }.

Record ProcessEventRecord : Type := process_event { payload : Bytes; terminal : bool }.

(** A session; [sent] is what went through the broadcast channel, in order. *)
Module ProcessSession.
Record t : Type := mk {
  sandbox_id : string;
  pid : Z;
  config : Json;
  tag : option string;
  guest_id : string;
  pty : bool;
  events : list ProcessEventRecord;
  sent : list ProcessEventRecord }.

(** [publish], the two halves. *)
Definition push_event (e : ProcessEventRecord) (s : t) : t :=
  mk (sandbox_id s) (pid s) (config s) (tag s) (guest_id s) (pty s) (events s ++ [e]) (sent s).
Definition send_event (e : ProcessEventRecord) (s : t) : t :=
  mk (sandbox_id s) (pid s) (config s) (tag s) (guest_id s) (pty s) (events s) (sent s ++ [e]).
Definition publish (e : ProcessEventRecord) (s : t) : t := send_event e (push_event e s).
End ProcessSession.

(** ** The registry

    Sessions are shared: the entries of the table point into [heap]. *)
Record ProcessRegistry : Type := registry {
  heap : list ProcessSession.t;
  keys : gmap string nat }.

Definition no_processes : ProcessRegistry := registry [] ∅.

Definition pid_key (sandbox : string) (pid : Z) : string := sandbox +:+ ":" +:+ show pid.
Definition tag_key (sandbox tag : string) : string := sandbox +:+ ":tag:" +:+ tag.

Section registry.
Context {HO : HashOrder}.

(** [ProcessRegistry::create]: the new session's address. *)
Definition create_session (sandbox : string) (pid : Z) (config : Json) (tag : option string)
    (guest_id : string) (pty : bool) (r : ProcessRegistry) : ProcessRegistry * nat :=
  let i := length (heap r) in
  let ks := <[pid_key sandbox pid := i]> (keys r) in
  (registry (heap r ++ [ProcessSession.mk sandbox pid config tag guest_id pty [] []])
     match tag with Some g => <[tag_key sandbox g := i]> ks | None => ks end, i).

Definition session_at (r : ProcessRegistry) (key : string) : option nat := keys r !! key.
Definition get_session (sandbox : string) (pid : Z) (r : ProcessRegistry) : option nat :=
  session_at r (pid_key sandbox pid).
Definition get_by_tag (sandbox tag : string) (r : ProcessRegistry) : option nat :=
  session_at r (tag_key sandbox tag).

Definition of_sandbox (sandbox : string) (r : ProcessRegistry) (i : nat) : bool :=
  match heap r !! i with
  | Some x => String.eqb (ProcessSession.sandbox_id x) sandbox
  | None => false
  end.

(** [list]: the values of the table, so a tagged session comes twice. *)
Definition list_sessions (sandbox : string) (r : ProcessRegistry) : list nat :=
  List.filter (of_sandbox sandbox r) (values (keys r)).

Definition remove_sandbox (sandbox : string) (r : ProcessRegistry) : ProcessRegistry :=
  registry (heap r) (filter (λ kv, of_sandbox sandbox r kv.2 = false) (keys r)).

Definition publish_at (i : nat) (e : ProcessEventRecord) (r : ProcessRegistry) : ProcessRegistry :=
  registry (alter (ProcessSession.publish e) i (heap r)) (keys r).

(** ** Streams *)

(** What the replay loop of [stream_session] sends: the record up to its first
    terminal event, and whether it met one. *)
Fixpoint replay (l : list ProcessEventRecord) : list ProcessEventRecord * bool :=
  match l with
  | [] => ([], false)
  | e :: l' =>
    if terminal e then ([e], true) else let '(es, b) := replay l' in (e :: es, b)
  end.

(** The replay goes through a channel of 32 before the response that reads it is
    returned: with more to send the future never completes ([Blocked]).  Otherwise
    the client reads the chunks, and the broadcast from position [live] on unless a
    terminal event was replayed. *)
Definition body_capacity : nat := 32.

Inductive StreamStart : Type :=
| Blocked
| Streaming (chunks : list Bytes) (live : option nat).

Definition stream_session (x : ProcessSession.t) : StreamStart :=
  let '(es, ended) := replay (ProcessSession.events x) in
  if (length es <=? body_capacity)%nat
  then Streaming (payload <$> es)
         (if ended then None else Some (length (ProcessSession.sent x)))
  else Blocked.

(** *** [encode_process_event] *)
Context {W : Wire}.

Definition process_data (pty : bool) (field : string) (b : Bytes) : Json :=
  JObj [("event", JObj [("data", JObj [((if pty then "pty" else field),
    JStr (base64_encode b))])])].
Definition process_json (e : ExecStreamEvent) (pty : bool) : Json :=
  match e with
  | EvStdout b => process_data pty "stdout" b
  | EvStderr b => process_data pty "stderr" b
  | EvExit code =>
    JObj [("event", JObj [("end", JObj [("exitCode", JNum code); ("exited", JBool true);
      ("status", JStr ("exit status " +:+ show_signed code))])])]
  | EvError m => JObj [("error", JObj [("message", JStr m)])]
  end.
Definition is_terminal (e : ExecStreamEvent) : bool :=
  match e with EvExit _ | EvError _ => true | _ => false end.

Definition newline : Byte.byte := Byte.x0a.

Definition encode_json (what : string) (end_ : bool) (j : Json) : result ProcessEventRecord :=
  match to_vec j with
  | inl e => Err (ClouisleError.internal (what +:+ e))
  | inr b => Ok (process_event (b ++ [newline]) end_)
  end.
Definition encode_process_event (e : ExecStreamEvent) (pty : bool) : result ProcessEventRecord :=
  encode_json "encode process event: " (is_terminal e) (process_json e pty).
Definition process_start_event (pid : Z) : result ProcessEventRecord :=
  encode_json "encode process start: " false
    (JObj [("event", JObj [("start", JObj [("pid", JNum pid)])])]).

(** The task that pumps the guest's events into a session: up to the first terminal
    one; events that cannot be encoded are skipped.  When the pump of the connection
    failed, an error event follows. *)
Fixpoint pump (i : nat) (pty : bool) (l : list ExecStreamEvent) (r : ProcessRegistry)
  : ProcessRegistry :=
  match l with
  | [] => r
  | e :: l' =>
    let r := match encode_process_event e pty with Ok x => publish_at i x r | _ => r end in
    if is_terminal e then r else pump i pty l' r
  end.
Definition pump_task (i : nat) (pty : bool) (o : list ExecStreamEvent * outcome ())
    (r : ProcessRegistry) : ProcessRegistry :=
  let r := pump i pty o.1 r in
  match o.2 with
  | inl e => match encode_process_event (EvError (ClouisleError.message e)) pty with
             | Ok x => publish_at i x r
             | _ => r
             end
  | inr _ => r
  end.
End registry.

(** ** A client joins while the process writes

    [publish] appends to the record under its lock and sends on the channel after
    releasing it; [snapshot_and_subscribe] copies the record under the lock and
    subscribes after releasing it.  One publisher (the pump) and one client; each
    half is a step.  A receiver that is more than 64 events behind gets an error,
    which ends its loop, as a terminal event does. *)
Definition broadcast_capacity : nat := 64.

Record Joining : Type := joining {
  session : ProcessSession.t;
  unsent : option ProcessEventRecord;         (* recorded, not yet sent *)
  coming : list ProcessEventRecord;           (* what the process still writes *)
  copied : option (list ProcessEventRecord);  (* the copy of the record *)
  joined : option nat;                        (* where the subscription starts *)
  received : list ProcessEventRecord;
  closed : bool }.

Inductive join_step : Joining → Joining → Prop :=
| join_push x e l c j r d :
    join_step (joining x None (e :: l) c j r d)
              (joining (ProcessSession.push_event e x) (Some e) l c j r d)
| join_send x e l c j r d :
    join_step (joining x (Some e) l c j r d)
              (joining (ProcessSession.send_event e x) None l c j r d)
| join_copy x u l r d :
    join_step (joining x u l None None r d)
              (joining x u l (Some (ProcessSession.events x)) None r d)
| join_subscribe x u l c r d :
    join_step (joining x u l (Some c) None r d)
              (joining x u l (Some c) (Some (length (ProcessSession.sent x))) r d)
| join_receive x u l c j r e :
    ProcessSession.sent x !! (j + length r)%nat = Some e →
    (length (ProcessSession.sent x) ≤ j + length r + broadcast_capacity)%nat →
    join_step (joining x u l (Some c) (Some j) r false)
              (joining x u l (Some c) (Some j) (r ++ [e]) (terminal e))
| join_lag x u l c j r :
    (j + length r + broadcast_capacity < length (ProcessSession.sent x))%nat →
    join_step (joining x u l (Some c) (Some j) r false)
              (joining x u l (Some c) (Some j) r true).

(** Before anything is written. *)
Definition join_start (x : ProcessSession.t) (l : list ProcessEventRecord) : Joining :=
  joining x None l None None [] false.

(** The record is what was sent and the event in between; the copy is a part of
    the record from its start; the receiver reads the sent events in order. *)
Record join_inv (s : Joining) : Prop := {
  ji_record : ProcessSession.events (session s)
    = ProcessSession.sent (session s) ++ option_list (unsent s);
  ji_copy c : copied s = Some c → ∃ k, c = take k (ProcessSession.events (session s)) ∧
    (k ≤ length (ProcessSession.events (session s)))%nat ∧
    (k ≤ S (length (ProcessSession.sent (session s))))%nat;
  ji_joined c j : copied s = Some c → joined s = Some j →
    (length c ≤ S j ∧ j ≤ length (ProcessSession.sent (session s)))%nat;
  ji_received j : joined s = Some j →
    received s = take (length (received s)) (drop j (ProcessSession.sent (session s)));
  ji_none : joined s = None → received s = [] }.

Lemma take_of_app {A} n (l k : list A) : (n ≤ length l)%nat → take n (l ++ k) = take n l.
Proof. intros Hn. by rewrite take_app_le. Qed.

Lemma received_more {A} j (r l k : list A) :
  r = take (length r) (drop j l) → r = take (length r) (drop j (l ++ k)).
Proof.
  intros Hr. rewrite drop_app, take_of_app; [done|].
  apply (f_equal length) in Hr. rewrite length_take in Hr. lia.
Qed.

Lemma join_inv_step s s' : join_inv s → join_step s s' → join_inv s'.
Proof.
  intros [Hr Hc Hj Hv Hn] Hs.
  destruct Hs as [x e l c j r d|x e l c j r d|x u l r d|x u l c r d|x u l c j r e He Hl|x u l c j r Hl];
    simpl in *; split; simpl; try done.
  - by rewrite Hr, app_nil_r.
  - intros c' [= ->]. destruct (Hc c' eq_refl) as (k & -> & Hk & Hk'). exists k.
    rewrite take_of_app, length_app by done. split_and!; [done|lia|lia].
  - by rewrite Hr, app_nil_r.
  - intros c' [= ->]. destruct (Hc c' eq_refl) as (k & -> & Hk & Hk'). exists k.
    rewrite length_app. split_and!; [done|lia|lia].
  - intros c' j' Hc' Hj'. destruct (Hj c' j' Hc' Hj'). rewrite length_app. lia.
  - intros j' Hj'. by apply received_more, Hv.
  - intros c [= <-]. exists (length (ProcessSession.events x)). rewrite firstn_all.
    split_and!; [done|lia|]. rewrite Hr, length_app. destruct u; simpl; lia.
  - intros c' j' [= <-] [= <-]. destruct (Hc c eq_refl) as (k & -> & Hk & Hk').
    rewrite length_take. lia.
  - intros j [= <-]. by rewrite Hn.
  - intros j' [= <-]. rewrite length_app, Nat.add_1_r, (take_S_r _ _ e); [by rewrite <-Hv|].
    by rewrite lookup_drop.
Qed.

Lemma join_reachable x l s :
  ProcessSession.events x = ProcessSession.sent x → star join_step (join_start x l) s → join_inv s.
Proof.
  intros Hx Hs. eapply (star_invariant join_step); [intros; by eapply join_inv_step|exact Hs|].
  split; simpl; [by rewrite app_nil_r|done..].
Qed.

(** ** The registry by sandbox *)

(** What happens to a registry. *)
Inductive reg_op : Type :=
| RCreate (sandbox : string) (pid : Z) (config : Json) (tag : option string) (guest : string)
    (pty : bool)
| RRemove (sandbox : string)
| RPublish (i : nat) (e : ProcessEventRecord).

Definition run_reg (r : ProcessRegistry) (o : reg_op) : ProcessRegistry :=
  match o with
  | RCreate sb pid c g gi pty => (create_session sb pid c g gi pty r).1
  | RRemove sb => remove_sandbox sb r
  | RPublish i e => publish_at i e r
  end.

(** Sandbox identifiers are UUIDs, process numbers are unsigned. *)
Definition reg_op_ok (o : reg_op) : Prop :=
  match o with
  | RCreate sb pid _ _ _ _ => contains_char ":" sb = false ∧ 0 ≤ pid
  | _ => True
  end.

(** An entry leads to a session of the sandbox, with the number or the tag, that
    its key names. *)
Definition names (k : string) (x : ProcessSession.t) : Prop :=
  contains_char ":" (ProcessSession.sandbox_id x) = false ∧ 0 ≤ ProcessSession.pid x ∧
  (k = pid_key (ProcessSession.sandbox_id x) (ProcessSession.pid x) ∨
   ∃ g, ProcessSession.tag x = Some g ∧ k = tag_key (ProcessSession.sandbox_id x) g).

Definition registry_ok (r : ProcessRegistry) : Prop :=
  ∀ k i, keys r !! k = Some i → ∃ x, heap r !! i = Some x ∧ names k x.

Lemma registry_ok_run r o : registry_ok r → reg_op_ok o → registry_ok (run_reg r o).
Proof.
  intros Hr Ho k i. destruct o as [sb pid c g gi pty|sb|j e]; simpl.
  - assert (∀ k', keys r !! k' = Some i → ∃ x, (heap r
      ++ [ProcessSession.mk sb pid c g gi pty [] []]) !! i = Some x ∧ names k' x) as Hold.
    { intros k' Hk'. destruct (Hr k' i Hk') as (x & Hx & Hn). exists x.
      split; [by apply lookup_app_l_Some|done]. }
    destruct g as [g|]; rewrite !lookup_insert_Some;
      intros Hk; repeat destruct Hk as [[<- <-]|[_ Hk]]; try (by apply Hold);
      rewrite list_lookup_middle by done; eexists; (split; [done|]); destruct Ho;
      unfold names; simpl; split_and!; eauto.
  - rewrite map_lookup_filter_Some. intros [Hk _]. by apply Hr.
  - intros Hk. destruct (Hr k i Hk) as (x & Hx & Hn). destruct (decide (i = j)) as [->|Hij].
    + exists (ProcessSession.publish e x). by rewrite list_lookup_alter_eq, Hx.
    + exists x. by rewrite list_lookup_alter_ne.
Qed.

(** A key names one sandbox, and a number or a tag in it. *)
Lemma key_sandbox a b x y :
  contains_char ":" a = false → contains_char ":" b = false →
  a +:+ String ":" x = b +:+ String ":" y → a = b ∧ x = y.
Proof.
  intros Ha Hb He. apply (f_equal (split_once ":")) in He.
  rewrite !split_once_app in He by done. by injection He.
Qed.

Lemma show_inj p q : 0 ≤ p → 0 ≤ q → show p = show q → p = q.
Proof.
  intros Hp Hq He. assert (parse_unsigned (Z.max p q) (show p) = Some p) as H1 by (apply parse_show; lia).
  rewrite He, parse_show in H1 by lia. by injection H1.
Qed.

Lemma show_not_tag p g : show p ≠ "tag:" +:+ g.
Proof. unfold show. by destruct (N.to_uint (Z.to_N p)). Qed.

Lemma names_pid sb pid x :
  contains_char ":" sb = false → 0 ≤ pid → names (pid_key sb pid) x →
  ProcessSession.sandbox_id x = sb ∧ ProcessSession.pid x = pid.
Proof.
  intros Hsb Hpid (Hx & Hp & [Hk|(g & _ & Hk)]); apply key_sandbox in Hk as [-> Hk]; try done.
  - split; [done|]. symmetry. by apply show_inj.
  - by apply show_not_tag in Hk.
Qed.

Lemma names_tag sb g x :
  contains_char ":" sb = false → names (tag_key sb g) x →
  ProcessSession.sandbox_id x = sb ∧ ProcessSession.tag x = Some g.
Proof.
  intros Hsb (Hx & Hp & [Hk|(g' & Hg & Hk)]); apply key_sandbox in Hk as [-> Hk]; try done.
  - symmetry in Hk. by apply show_not_tag in Hk.
  - injection Hk as ->. by split.
Qed.

(** How much the replay sends. *)
Lemma replay_length l n :
  (n < length (replay l).1)%nat ↔ is_Some (l !! n) ∧ Forall (λ e, terminal e = false) (take n l).
Proof.
  revert n. induction l as [|e l IH]; intros n; simpl.
  - split; [lia|]. intros [[x Hx] _]. by rewrite lookup_nil in Hx.
  - specialize (IH (pred n)). destruct (replay l) as [es b].
    destruct n as [|n]; [by destruct (terminal e); simpl; split; intros; eauto with lia|].
    simpl in *. rewrite Forall_cons. destruct (terminal e); simpl.
    + split; [lia|]. by intros (_ & ? & _).
    + rewrite <-Nat.succ_lt_mono, IH. naive_solver.
Qed.

(** ** Properties *)

(** A session is reached only from its own sandbox.  Whatever sessions were
    created, published to and removed, a lookup by number finds a session of the
    sandbox asked for with that number, and a lookup by tag one with that tag (so a
    tag cannot stand for a number, and no choice of tags leads into another
    sandbox). *)
Theorem sessions_stay_in_their_sandbox (ops : list reg_op) sb i :
  Forall reg_op_ok ops → contains_char ":" sb = false →
  let r := foldl run_reg no_processes ops in
  (∀ pid, 0 ≤ pid → get_session sb pid r = Some i → ∃ x, heap r !! i = Some x ∧
     ProcessSession.sandbox_id x = sb ∧ ProcessSession.pid x = pid) ∧
  (∀ g, get_by_tag sb g r = Some i → ∃ x, heap r !! i = Some x ∧
     ProcessSession.sandbox_id x = sb ∧ ProcessSession.tag x = Some g).
Proof.
  intros Hops Hsb. cbv zeta.
  assert (registry_ok (foldl run_reg no_processes ops)) as Hr.
  { assert (registry_ok no_processes) as H0 by (by intros k j Hk).
    revert H0. generalize no_processes. induction Hops as [|o l Ho _ IH]; [done|].
    intros r Hr. by apply IH, registry_ok_run. }
  split.
  - intros pid Hpid Hi. apply Hr in Hi as (x & Hx & Hn). exists x. split; [done|]. by apply names_pid.
  - intros g Hi. apply Hr in Hi as (x & Hx & Hn). exists x. split; [done|]. by apply names_tag.
Qed.

(** What a client that joins a running process is shown.  In every interleaving
    of the publisher and the joining client, the replayed copy is the first part of
    the session's record and the live part is a contiguous run of the record from
    the subscription on; the two overlap in at most one event, and when nothing was
    published in between they fit together.  Otherwise the events after the copy and
    before the subscription are lost to the client, the exit event among them. *)
Theorem stream_seam x l s c j :
  ProcessSession.events x = ProcessSession.sent x →
  star join_step (join_start x l) s → copied s = Some c → joined s = Some j →
  let record := ProcessSession.events (session s) in
  c = take (length c) record ∧
  received s = take (length (received s)) (drop j record) ∧
  (length c ≤ S j)%nat ∧
  (length c = j → c ++ received s = take (length c + length (received s)) record).
Proof.
  intros Hx Hs Hc Hj. cbv zeta. pose proof (join_reachable x l s Hx Hs) as [Hr Hcp Hjn Hrv _].
  assert (c = take (length c) (ProcessSession.events (session s))) as Hcp'.
  { destruct (Hcp c Hc) as (k & -> & Hk & _). by rewrite length_take_le. }
  assert (received s = take (length (received s)) (drop j (ProcessSession.events (session s)))) as Hrv'.
  { rewrite Hr. by apply received_more, Hrv. }
  split_and!; [done|done|by apply (Hjn c j)|]. intros Hl.
  rewrite Hcp' at 1. rewrite Hrv' at 1. rewrite Hl. by rewrite take_take_drop.
Qed.

(** A client can join a process that has not ended only while its record is
    short: with 33 or more events and no terminal one among the first 32, the handler
    that replays the record never answers. *)
Theorem long_record_never_streams x :
  stream_session x = Blocked ↔
  (∃ e, ProcessSession.events x !! body_capacity = Some e) ∧
  Forall (λ e, terminal e = false) (take body_capacity (ProcessSession.events x)).
Proof.
  unfold stream_session. pose proof (replay_length (ProcessSession.events x) body_capacity) as Hl.
  destruct (replay _) as [es b]. simpl in Hl. unfold is_Some in Hl. rewrite <-Hl.
  destruct (Nat.leb_spec (length es) body_capacity); split; (done || lia).
Qed.

(** *** Runs *)
Module StreamDemo.
Definition chunk : ProcessEventRecord := process_event [Byte.x61] false.
Definition exit : ProcessEventRecord := process_event [Byte.x62] true.
Definition fresh (es : list ProcessEventRecord) : ProcessSession.t :=
  ProcessSession.mk "sb" 1 JNull None "g" false es es.

(** The exit event is published between the copy and the subscription. *)
Definition lost : Joining :=
  joining (ProcessSession.publish exit (fresh [chunk])) None [] (Some [chunk]) (Some 2%nat) [] false.
Lemma lost_run : star join_step (join_start (fresh [chunk]) [exit]) lost.
Proof.
  eapply star_step; [apply join_copy|]. eapply star_step; [apply join_push|].
  eapply star_step; [apply join_send|]. apply star_one. apply join_subscribe.
Qed.
End StreamDemo.

(** The client has the first chunk only; the exit event will not reach it. *)
Lemma stream_seam_witness :
  received StreamDemo.lost = [] ∧ unsent StreamDemo.lost = None ∧ coming StreamDemo.lost = [] ∧
  [StreamDemo.chunk] = take 1 (ProcessSession.events (session StreamDemo.lost)).
Proof.
  split_and!; [done..|].
  exact (proj1 (stream_seam (StreamDemo.fresh [StreamDemo.chunk]) [StreamDemo.exit] StreamDemo.lost
    [StreamDemo.chunk] 2 eq_refl StreamDemo.lost_run eq_refl eq_refl)).
Defined.

(** Two sandboxes, a tag that looks like a number. *)
Lemma sessions_stay_in_their_sandbox_witness :
  let ops := [RCreate "a" 1 JNull (Some "1") "g" false; RCreate "b" 1 JNull None "h" true] in
  get_by_tag "a" "1" (foldl run_reg no_processes ops) = Some 0%nat ∧
  ∃ x, heap (foldl run_reg no_processes ops) !! 0%nat = Some x ∧
    ProcessSession.sandbox_id x = "a" ∧ ProcessSession.tag x = Some "1".
Proof.
  cbv zeta. split; [vm_compute; reflexivity|].
  refine (proj2 (sessions_stay_in_their_sandbox
    [RCreate "a" 1 JNull (Some "1") "g" false; RCreate "b" 1 JNull None "h" true] "a" 0 _ _) "1" _).
  - repeat constructor; simpl; lia.
  - reflexivity.
  - vm_compute; reflexivity.
Defined.
