(* ===== verification/E2bModel.v ===== *)
(** * Requests and answers of the E2B surface ([crates/clouisle-api/src/e2b.rs])

    What an E2B client asks for as a specification ([to_spec]) and how a sandbox is
    shown to it ([from_sandbox]).  Dates come from chrono: a sum out of range
    panics. *)

From S2P Require Import Prelude Core SandboxModel Vmm Proto Digest Json Store Auth E2bCloud.

Module E2bInitCommand.
Inductive t : Type :=
| Argv (argv : list string)
| Shell (command : string)
| Process (cmd : string) (args : list string) (envs : gmap string string) (cwd : option string).

Definition into_parts (c : t) : list string * gmap string string * option string :=
  match c with
  | Argv argv => (argv, ∅, None)
  | Shell command => (["/bin/sh"; "-lc"; command], ∅, None)
  | Process cmd args envs cwd => (cmd :: args, envs, cwd)
  end.
End E2bInitCommand.

Module E2bAutoResume.
Inductive t : Set := Bool (b : bool) | Config (b : bool).
Definition enabled (a : t) : bool := match a with Bool b | Config b => b end.
End E2bAutoResume.

Module E2bNetwork.
Record t : Set := mk {
  allow_out : list string; deny_out : list string; allow_public_traffic : bool }.
Definition default : t := mk [] [] false.
End E2bNetwork.

Module E2bVolumeMount.
Record t : Set := mk { name : string; path : string }.
End E2bVolumeMount.

Module E2bCreateRequest.
Record t : Type := mk {
  template_id : string;
  timeout : option Z;
  auto_pause : bool;
  auto_pause_memory : bool;
  auto_resume : option E2bAutoResume.t;
  allow_internet_access : option bool;
  network : option E2bNetwork.t;
  metadata : option (gmap string string);
  env_vars : option (gmap string string);
  init_command : option E2bInitCommand.t;
  init_timeout_ms : option Z;
  snapshot_id : option string;
  volume_mounts : list E2bVolumeMount.t;
  secure : bool }.
End E2bCreateRequest.

Module E2bLifecycle.
Record t : Set := mk { auto_resume : bool; on_timeout : string }.
End E2bLifecycle.

Module E2bSandbox.
Record t : Type := mk {
  template_id : string;
  sandbox_id : string;
  client_id : string;
  allow_internet_access : option bool;
  network : E2bNetwork.t;
  lifecycle : E2bLifecycle.t;
  volume_mounts : list E2bVolumeMount.t;
  envd_version : string;
  envd_access_token : option string;
  traffic_access_token : option string;
  domain : option string;
  started_at : option Z;
  end_at : option Z;
  metadata : gmap string string;
  state : string;
  cpu_count : Z;
  memory_mb : Z;
  disk_size_mb : Z }.

Definition set_token (x : t) (token : option string) : t :=
  mk (template_id x) (sandbox_id x) (client_id x) (allow_internet_access x) (network x)
     (lifecycle x) (volume_mounts x) (envd_version x) token (traffic_access_token x) (domain x)
     (started_at x) (end_at x) (metadata x) (state x) (cpu_count x) (memory_mb x)
     (disk_size_mb x).
End E2bSandbox.

(** [env!("CARGO_PKG_VERSION")]. *)
Definition pkg_version : string := "0.1.0".

Definition to_spec (request : E2bCreateRequest.t) (tenant_id : string) : res string SandboxSpec.t :=
  if is_empty (trim (E2bCreateRequest.template_id request)) then Err "templateID is required"
  else
    let auto_resume := match E2bCreateRequest.auto_resume request with
                       | Some a => E2bAutoResume.enabled a | None => false end in
    let auto_pause := E2bCreateRequest.auto_pause request || auto_resume in
    if auto_resume && negb auto_pause then Err "autoResume requires autoPause"
    else
      let network := default E2bNetwork.default (E2bCreateRequest.network request) in
      let enabled := default true (E2bCreateRequest.allow_internet_access request) in
      let '(init_command, init_env, init_cwd) :=
        match E2bCreateRequest.init_command request with
        | Some c => E2bInitCommand.into_parts c
        | None => ([], ∅, None)
        end in
      Ok (SandboxSpec.mk (ImageRef.new (E2bCreateRequest.template_id request)) Resources.default
        (NetworkConfig.mk enabled (E2bNetwork.allow_out network) (E2bNetwork.deny_out network))
        (SandboxSpec.mounts SandboxSpec.default)
        ((λ m, VolumeMountSpec.mk (E2bVolumeMount.name m) (E2bVolumeMount.path m))
           <$> E2bCreateRequest.volume_mounts request)
        (SandboxSpec.secrets SandboxSpec.default)
        (Some (default 15 (E2bCreateRequest.timeout request)))
        (SandboxSpec.start_timeout_secs SandboxSpec.default)
        (default ∅ (E2bCreateRequest.env_vars request)) init_command init_env init_cwd
        (default 30000 (E2bCreateRequest.init_timeout_ms request))
        (default ∅ (E2bCreateRequest.metadata request)) auto_pause
        (E2bCreateRequest.auto_pause_memory request) auto_resume
        (SandboxSpec.node_selector SandboxSpec.default) RestartPolicy.OnFailure (Some tenant_id)).

Definition state_text (st : SandboxStatus.t) : string :=
  match st with
  | SandboxStatus.Pending | SandboxStatus.Starting => "starting"
  | SandboxStatus.Running => "running"
  | SandboxStatus.Paused => "paused"
  | SandboxStatus.Stopping => "stopping"
  | SandboxStatus.Stopped => "killed"
  | SandboxStatus.Error => "error"
  end.

Section views.
Context {C : Chrono}.

(** [t + Duration::seconds(n as i64)]: the sum, or a panic. *)
Definition add_secs {E} (t n : Z) : res E Z :=
  match dt_add_seconds t (as_i64 n) with Some e => Ok e | None => Panic end.

Definition from_sandbox {E} (sb : Sandbox.t) : res E E2bSandbox.t :=
  let sp := Sandbox.spec sb in
  let started_at := default (Sandbox.created_at sb) (Sandbox.ready_at sb) in
  end_at ← match Sandbox.expires_at sb, SandboxSpec.ttl_secs sp with
           | Some e, _ => Ok (Some e)
           | None, Some ttl => e ← add_secs started_at ttl; Ok (Some e)
           | None, None => Ok None
           end;
  Ok (E2bSandbox.mk (ImageRef.reference (SandboxSpec.image sp)) (Sandbox.id sb)
    (default "clouisle" (SandboxSpec.tenant_id sp)) (Some (NetworkConfig.enabled (SandboxSpec.network sp)))
    (E2bNetwork.mk (NetworkConfig.allow_egress (SandboxSpec.network sp))
       (NetworkConfig.deny_egress (SandboxSpec.network sp)) true)
    (E2bLifecycle.mk (SandboxSpec.auto_resume sp) (if SandboxSpec.auto_pause sp then "pause" else "kill"))
    ((λ m, E2bVolumeMount.mk (VolumeMountSpec.name m) (VolumeMountSpec.target m))
       <$> SandboxSpec.volume_mounts sp)
    pkg_version None None None (Some started_at) end_at (SandboxSpec.metadata sp)
    (state_text (Sandbox.status sb)) (Resources.vcpu (SandboxSpec.resources sp))
    (Resources.memory_mb (SandboxSpec.resources sp)) (Resources.disk_mb (SandboxSpec.resources sp))).

Definition expiry_from_now {E} (now timeout : Z) : res E Z := add_secs now timeout.

(** *** As JSON ([#[derive(Serialize)]]) *)
Context {HO : HashOrder} {CE : CloudEnv}.

Definition date_field (name : string) (t : option Z) : list (string * Json) :=
  match t with Some t => [(name, JStr (rfc3339 t))] | None => [] end.

Definition e2b_sandbox_json (x : E2bSandbox.t) : Json :=
  JObj ([("templateID", JStr (E2bSandbox.template_id x));
    ("sandboxID", JStr (E2bSandbox.sandbox_id x));
    ("clientID", JStr (E2bSandbox.client_id x));
    ("allowInternetAccess", jopt JBool (E2bSandbox.allow_internet_access x));
    ("network", JObj [("allowOut", jstrs (E2bNetwork.allow_out (E2bSandbox.network x)));
       ("denyOut", jstrs (E2bNetwork.deny_out (E2bSandbox.network x)));
       ("allowPublicTraffic", JBool (E2bNetwork.allow_public_traffic (E2bSandbox.network x)))]);
    ("lifecycle", JObj [("autoResume", JBool (E2bLifecycle.auto_resume (E2bSandbox.lifecycle x)));
       ("onTimeout", JStr (E2bLifecycle.on_timeout (E2bSandbox.lifecycle x)))]);
    ("volumeMounts", JArr ((λ m, JObj [("name", JStr (E2bVolumeMount.name m));
       ("path", JStr (E2bVolumeMount.path m))]) <$> E2bSandbox.volume_mounts x));
    ("envdVersion", JStr (E2bSandbox.envd_version x));
    ("envdAccessToken", jopt JStr (E2bSandbox.envd_access_token x));
    ("trafficAccessToken", jopt JStr (E2bSandbox.traffic_access_token x));
    ("domain", jopt JStr (E2bSandbox.domain x))]
   ++ date_field "startedAt" (E2bSandbox.started_at x) ++ date_field "endAt" (E2bSandbox.end_at x)
   ++ [("metadata", jmap (entries (E2bSandbox.metadata x)));
    ("state", JStr (E2bSandbox.state x)); ("cpuCount", JNum (E2bSandbox.cpu_count x));
    ("memoryMB", JNum (E2bSandbox.memory_mb x));
    ("diskSizeMB", JNum (E2bSandbox.disk_size_mb x))]).
End views.

(** ** Properties *)

Definition request_timeout (r : E2bCreateRequest.t) : Z := default 15 (E2bCreateRequest.timeout r).
Definition wants_resume (r : E2bCreateRequest.t) : bool :=
  match E2bCreateRequest.auto_resume r with Some a => E2bAutoResume.enabled a | None => false end.

(** A client is shown what it asked for.  A request is refused only for a blank
    template; otherwise the new sandbox is shown with the request's template, tenant,
    volumes, metadata and egress lists, with the pause behaviour it asked for (a
    request to resume implies one to pause) and with the end its timeout gives, unless
    the timeout (as a signed number) leaves chrono's range, and then showing the
    sandbox panics. *)
Theorem request_is_reflected {C : Chrono} (r : E2bCreateRequest.t) (tenant id : string) (now : Z) :
  match to_spec r tenant with
  | Err m => is_empty (trim (E2bCreateRequest.template_id r)) = true ∧ m = "templateID is required"
  | Panic => False
  | Ok sp =>
    is_empty (trim (E2bCreateRequest.template_id r)) = false ∧
    match dt_add_seconds now (as_i64 (request_timeout r)) with
    | None => from_sandbox (E := ClouisleError.t) (Sandbox.new id sp now) = Panic
    | Some e => ∃ v, from_sandbox (E := ClouisleError.t) (Sandbox.new id sp now) = Ok v ∧
      E2bSandbox.template_id v = E2bCreateRequest.template_id r ∧
      E2bSandbox.sandbox_id v = id ∧ E2bSandbox.client_id v = tenant ∧
      E2bSandbox.started_at v = Some now ∧ E2bSandbox.end_at v = Some e ∧
      E2bSandbox.metadata v = default ∅ (E2bCreateRequest.metadata r) ∧
      E2bSandbox.volume_mounts v = E2bCreateRequest.volume_mounts r ∧
      E2bSandbox.allow_internet_access v
        = Some (default true (E2bCreateRequest.allow_internet_access r)) ∧
      E2bNetwork.allow_out (E2bSandbox.network v)
        = E2bNetwork.allow_out (default E2bNetwork.default (E2bCreateRequest.network r)) ∧
      E2bNetwork.deny_out (E2bSandbox.network v)
        = E2bNetwork.deny_out (default E2bNetwork.default (E2bCreateRequest.network r)) ∧
      E2bSandbox.lifecycle v = E2bLifecycle.mk (wants_resume r)
        (if E2bCreateRequest.auto_pause r || wants_resume r then "pause" else "kill") ∧
      E2bSandbox.state v = "starting"
    end
  end.
Proof.
  unfold to_spec. fold (wants_resume r). destruct (is_empty (trim _)) eqn:Ht; [done|].
  replace (wants_resume r && _) with false by (by destruct (wants_resume r), (E2bCreateRequest.auto_pause r)).
  destruct (match E2bCreateRequest.init_command r with Some c => _ | None => _ end) as [[ic ie] iw].
  split; [done|]. unfold from_sandbox, add_secs. simpl. fold (request_timeout r).
  destruct (dt_add_seconds now (as_i64 (request_timeout r))) as [e|]; simpl; [|done].
  eexists. split; [done|]. simpl. split_and!; try done.
  rewrite <-list_fmap_compose. rewrite <-(list_fmap_id (E2bCreateRequest.volume_mounts r)) at 2.
  apply list_fmap_ext. by intros i [].
Qed.
