(* ===== verification/AppState.v ===== *)
(** * Shared state of the control plane ([crates/clouisle-api/src/state.rs])

    [AppState] with the components it owns, the calls a handler makes on them,
    the reservation table whose entries give capacity back when they are dropped,
    and the pool of prepared snapshots.  Each mutex or lock is taken for one
    operation here, as in the source. *)

From S2P Require Import Prelude Core SandboxModel Admission Vmm Pool Proto Guest Digest Dns Net.
From S2P Require Import Store Json Auth E2bCloud Processes.

(** The settings of a deployment, and what it reads from its surroundings: the
    n-th reading of the clock, the hash behind [pool_key], the directories it can
    create and the files it can remove, the administrator's token. *)
Class Deployment {O : Os} : Type := {
  clk : nat → Z;
  key_hash : Z * Z * Z * option Z → Z;
  manage_resources : bool;
  manage_network : bool;
  create_dir_all : string → os_world → os_world * option string;
  remove_file : string → os_world → os_world;
  admin_token : option string }.              (* CLOUISLE_ADMIN_TOKEN *)

(** Readings of the clock are dates. *)
Class ClockOk {O : Os} (D : Deployment) : Prop := { clk_in_range n : in_range (clk n) }.

Record WarmSnapshot : Set := warm_snap {
  snap_key : string;
  paths : SnapshotPaths.t;
  snap_subnet : Z * Z;
  owner : option string }.

(** [ImagePrefetchJob]. *)
Module ImagePrefetchJob.
Record t : Set := mk {
  job_id : string; image : ImageRef.t; tenant_id : string; status : string;
  error : option string }.
Definition set_status (st : string) (e : option string) (j : t) : t :=
  mk (job_id j) (image j) (tenant_id j) st e.
End ImagePrefetchJob.

Section state.
Context {S : Semaphore} {ST : Store} {V : Vmm} {O : Os} {D : Deployment} {A : Agent}
  {H : Sha256} {T : Timeouts} {HO : HashOrder} {CE : CloudEnv}.

(** A spawned job, with what it owns: [run_provision_with_slot] of a create or of
    the reconciler, the body [recover_sandbox] spawns, the restore of a fork; the
    pump of a process session; an image prefetch; a template build. *)
Inductive Task : Type :=
| Provision (sb : Sandbox.t) (r : option Reservation.t) (slot : option PoolSlot.t)
| Recover (sb : Sandbox.t) (r : option Reservation.t)
| Fork (sb : Sandbox.t) (r : option Reservation.t) (snap : SnapshotPaths.t) (subnet : option (Z * Z))
| Pump (i : nat) (pty : bool) (c : connection) (guest_id : string)
| Prefetch (job_id : string) (image : ImageRef.t)
| BuildImage (team : string) (build : Build.t).

Record AppState : Type := app {
  sto : store;
  vm : world;
  pool : ResourcePool.t S;
  warm : Pool.inner;
  warm_slots : gmap string PoolSlot.t;
  reservations : gmap string Reservation.t;
  snapshots : list WarmSnapshot;
  provisioning : gset string;
  net : FirewallManager * os_world;
  gst : guest;
  next_subnet : Z * Z;
  tasks : list Task;
  reads : nat;
  e2b : E2bControlPlane.ControlPlane;
  auth : Authenticator.t;
  e2b_tokens : gmap string (string * string);
  processes : ProcessRegistry;
  next_pid : Z;
  image_jobs : gmap string ImagePrefetchJob.t;
  draining : bool }.

Definition set_sto (v : store) (s : AppState) : AppState :=
  app v (vm s) (pool s) (warm s) (warm_slots s) (reservations s) (snapshots s)
      (provisioning s) (net s) (gst s) (next_subnet s) (tasks s) (reads s) (e2b s)
      (auth s) (e2b_tokens s) (processes s) (next_pid s) (image_jobs s) (draining s).
Definition set_vm (v : world) (s : AppState) : AppState :=
  app (sto s) v (pool s) (warm s) (warm_slots s) (reservations s) (snapshots s)
      (provisioning s) (net s) (gst s) (next_subnet s) (tasks s) (reads s) (e2b s)
      (auth s) (e2b_tokens s) (processes s) (next_pid s) (image_jobs s) (draining s).
Definition set_pool (v : ResourcePool.t S) (s : AppState) : AppState :=
  app (sto s) (vm s) v (warm s) (warm_slots s) (reservations s) (snapshots s)
      (provisioning s) (net s) (gst s) (next_subnet s) (tasks s) (reads s) (e2b s)
      (auth s) (e2b_tokens s) (processes s) (next_pid s) (image_jobs s) (draining s).
Definition set_warm (v : Pool.inner) (s : AppState) : AppState :=
  app (sto s) (vm s) (pool s) v (warm_slots s) (reservations s) (snapshots s)
      (provisioning s) (net s) (gst s) (next_subnet s) (tasks s) (reads s) (e2b s)
      (auth s) (e2b_tokens s) (processes s) (next_pid s) (image_jobs s) (draining s).
Definition set_warm_slots (v : gmap string PoolSlot.t) (s : AppState) : AppState :=
  app (sto s) (vm s) (pool s) (warm s) v (reservations s) (snapshots s) (provisioning s)
      (net s) (gst s) (next_subnet s) (tasks s) (reads s) (e2b s) (auth s)
      (e2b_tokens s) (processes s) (next_pid s) (image_jobs s) (draining s).
Definition set_reservations (v : gmap string Reservation.t) (s : AppState) : AppState :=
  app (sto s) (vm s) (pool s) (warm s) (warm_slots s) v (snapshots s) (provisioning s)
      (net s) (gst s) (next_subnet s) (tasks s) (reads s) (e2b s) (auth s)
      (e2b_tokens s) (processes s) (next_pid s) (image_jobs s) (draining s).
Definition set_snapshots (v : list WarmSnapshot) (s : AppState) : AppState :=
  app (sto s) (vm s) (pool s) (warm s) (warm_slots s) (reservations s) v
      (provisioning s) (net s) (gst s) (next_subnet s) (tasks s) (reads s) (e2b s)
      (auth s) (e2b_tokens s) (processes s) (next_pid s) (image_jobs s) (draining s).
Definition set_provisioning (v : gset string) (s : AppState) : AppState :=
  app (sto s) (vm s) (pool s) (warm s) (warm_slots s) (reservations s) (snapshots s) v
      (net s) (gst s) (next_subnet s) (tasks s) (reads s) (e2b s) (auth s)
      (e2b_tokens s) (processes s) (next_pid s) (image_jobs s) (draining s).
Definition set_net (v : FirewallManager * os_world) (s : AppState) : AppState :=
  app (sto s) (vm s) (pool s) (warm s) (warm_slots s) (reservations s) (snapshots s)
      (provisioning s) v (gst s) (next_subnet s) (tasks s) (reads s) (e2b s) (auth s)
      (e2b_tokens s) (processes s) (next_pid s) (image_jobs s) (draining s).
Definition set_gst (v : guest) (s : AppState) : AppState :=
  app (sto s) (vm s) (pool s) (warm s) (warm_slots s) (reservations s) (snapshots s)
      (provisioning s) (net s) v (next_subnet s) (tasks s) (reads s) (e2b s) (auth s)
      (e2b_tokens s) (processes s) (next_pid s) (image_jobs s) (draining s).
Definition set_next_subnet (v : Z * Z) (s : AppState) : AppState :=
  app (sto s) (vm s) (pool s) (warm s) (warm_slots s) (reservations s) (snapshots s)
      (provisioning s) (net s) (gst s) v (tasks s) (reads s) (e2b s) (auth s)
      (e2b_tokens s) (processes s) (next_pid s) (image_jobs s) (draining s).
Definition set_tasks (v : list Task) (s : AppState) : AppState :=
  app (sto s) (vm s) (pool s) (warm s) (warm_slots s) (reservations s) (snapshots s)
      (provisioning s) (net s) (gst s) (next_subnet s) v (reads s) (e2b s) (auth s)
      (e2b_tokens s) (processes s) (next_pid s) (image_jobs s) (draining s).
Definition set_reads (v : nat) (s : AppState) : AppState :=
  app (sto s) (vm s) (pool s) (warm s) (warm_slots s) (reservations s) (snapshots s)
      (provisioning s) (net s) (gst s) (next_subnet s) (tasks s) v (e2b s) (auth s)
      (e2b_tokens s) (processes s) (next_pid s) (image_jobs s) (draining s).
Definition set_e2b (v : E2bControlPlane.ControlPlane) (s : AppState) : AppState :=
  app (sto s) (vm s) (pool s) (warm s) (warm_slots s) (reservations s) (snapshots s)
      (provisioning s) (net s) (gst s) (next_subnet s) (tasks s) (reads s) v (auth s)
      (e2b_tokens s) (processes s) (next_pid s) (image_jobs s) (draining s).
Definition set_auth (v : Authenticator.t) (s : AppState) : AppState :=
  app (sto s) (vm s) (pool s) (warm s) (warm_slots s) (reservations s) (snapshots s)
      (provisioning s) (net s) (gst s) (next_subnet s) (tasks s) (reads s) (e2b s) v
      (e2b_tokens s) (processes s) (next_pid s) (image_jobs s) (draining s).
Definition set_e2b_tokens (v : gmap string (string * string)) (s : AppState) : AppState :=
  app (sto s) (vm s) (pool s) (warm s) (warm_slots s) (reservations s) (snapshots s)
      (provisioning s) (net s) (gst s) (next_subnet s) (tasks s) (reads s) (e2b s)
      (auth s) v (processes s) (next_pid s) (image_jobs s) (draining s).
Definition set_processes (v : ProcessRegistry) (s : AppState) : AppState :=
  app (sto s) (vm s) (pool s) (warm s) (warm_slots s) (reservations s) (snapshots s)
      (provisioning s) (net s) (gst s) (next_subnet s) (tasks s) (reads s) (e2b s)
      (auth s) (e2b_tokens s) v (next_pid s) (image_jobs s) (draining s).
Definition set_next_pid (v : Z) (s : AppState) : AppState :=
  app (sto s) (vm s) (pool s) (warm s) (warm_slots s) (reservations s) (snapshots s)
      (provisioning s) (net s) (gst s) (next_subnet s) (tasks s) (reads s) (e2b s)
      (auth s) (e2b_tokens s) (processes s) v (image_jobs s) (draining s).
Definition set_image_jobs (v : gmap string ImagePrefetchJob.t) (s : AppState) : AppState :=
  app (sto s) (vm s) (pool s) (warm s) (warm_slots s) (reservations s) (snapshots s)
      (provisioning s) (net s) (gst s) (next_subnet s) (tasks s) (reads s) (e2b s)
      (auth s) (e2b_tokens s) (processes s) (next_pid s) v (draining s).

(** ** Calls *)

Definition handler (A : Type) : Type := stres AppState ClouisleError.t A.

(** [chrono::Utc::now()]. *)
Definition now : handler Z := λ s, (set_reads (Datatypes.S (reads s)) s, Ok (clk (reads s))).

Definition of_outcome {B} (o : outcome B) : result B :=
  match o with inl e => Err e | inr a => Ok a end.

(** A store call and the [From] conversion of its error. *)
Definition store_call {B} (f : store → store * StoreResult B) : handler B := λ s,
  let '(x, r) := f (sto s) in (set_sto x s, map_err StoreError.into r).

(** The same where the caller looks at the error itself. *)
Definition store_try {B} (f : store → store * StoreResult B) : handler (StoreError.t + B) := λ s,
  let '(x, r) := f (sto s) in
  (set_sto x s, match r with Ok b => Ok (inr b) | Err e => Ok (inl e) | Panic => Panic end).

Definition vmm_call {B} (f : world → world * outcome B) : handler B := λ s,
  let '(w, o) := f (vm s) in (set_vm w s, of_outcome o).

Definition guest_call {B} (f : guest → guest * outcome B) : handler B := λ s,
  let '(g, o) := f (gst s) in (set_gst g s, of_outcome o).

(** A guest call whose caller handles the failure itself. *)
Definition guest_run {B} (f : guest → guest * B) : handler B := λ s,
  let '(g, b) := f (gst s) in (set_gst g s, Ok b).

Definition net_call {B} (f : fw B) : handler B := λ s,
  let '(n, r) := f (net s) in (set_net n s, r).

(** A call of the E2B control plane and the [From] conversion of its error. *)
Definition e2b_call_as {B} (conv : ControlPlaneError.t → ClouisleError.t)
    (f : E2bControlPlane.cloud B) : handler B := λ s,
  let '(x, r) := f (e2b s) in (set_e2b x s, map_err conv r).
Definition e2b_call {B} (f : E2bControlPlane.cloud B) : handler B :=
  e2b_call_as ControlPlaneError.into f.
(** The same where the caller looks at the error itself. *)
Definition e2b_try {B} (f : E2bControlPlane.cloud B) : handler (ControlPlaneError.t + B) := λ s,
  let '(x, r) := f (e2b s) in
  (set_e2b x s, match r with Ok b => Ok (inr b) | Err e => Ok (inl e) | Panic => Panic end).

(** [Uuid::now_v7().to_string()]: the identifiers of the process come from one
    source. *)
Definition fresh_uuid : handler string := n ← e2b_call E2bControlPlane.fresh; mret (uuid n).

(** [timeout(secs, call).await] with the error the caller makes of a timeout. *)
Definition timed_vmm {B} (secs : Z) (late : string) (f : world → world * outcome B) : handler B :=
  λ s, let '(w, o) := within secs f (vm s) in
       (set_vm w s, match o with Some r => of_outcome r | None => Err (ClouisleError.timeout late) end).

Definition timed_guest {B} (secs : Z) (late : string) (f : guest → guest * outcome B) : handler B :=
  λ s, let '(g, o) := within secs f (gst s) in
       (set_gst g s, match o with Some r => of_outcome r | None => Err (ClouisleError.timeout late) end).

(** [let _ = call.await;]. *)
Definition quiet {B} (m : handler B) : handler () := _ ← attempt m; mret ().

(** [if let Err(error) = call.await { k(error) }], and a panic unwinds. *)
Definition catch {B} (m : handler B) (k : ClouisleError.t → handler B) : handler B := λ s,
  match m s with (s', Err e) => k e s' | x => x end.

Fixpoint for_each {B} (f : B → handler ()) (l : list B) : handler () :=
  match l with [] => mret () | x :: l' => _ ← f x; for_each f l' end.

(** A loop that pushes a value per item. *)
Fixpoint collect {B C} (f : B → handler C) (l : list B) : handler (list C) :=
  match l with [] => mret [] | x :: l' => y ← f x; ys ← collect f l'; mret (y :: ys) end.

Definition spawn (t : Task) : handler () := modify (λ s, set_tasks (tasks s ++ [t]) s).

(** ** Reservations: dropping one gives its permits back *)

Definition drop_reservation (r : option Reservation.t) (s : AppState) : AppState :=
  match r with Some r => set_pool (ResourcePool.drop (pool s) r) s | None => s end.

Definition insert_reservation (id : string) (r : Reservation.t) (s : AppState) : AppState :=
  drop_reservation (reservations s !! id) (set_reservations (<[id := r]> (reservations s)) s).

Definition remove_reservation (id : string) (s : AppState) : AppState :=
  drop_reservation (reservations s !! id) (set_reservations (delete id (reservations s)) s).

Definition has_reservation (id : string) (s : AppState) : bool :=
  bool_decide (is_Some (reservations s !! id)).

Definition admit_spec (sp : SandboxSpec.t) : handler Reservation.t := λ s,
  let '(p, r) := ResourcePool.admit_ (pool s) sp in (set_pool p s, r).

(** A local [Option<Reservation>] of a function that leaves early is dropped. *)
Definition scoped {B} (r : option Reservation.t) (m : handler B) : handler B := λ s,
  match m s with
  | (s', Ok a) => (s', Ok a)
  | (s', x) => (drop_reservation r s', x)
  end.

(** ** The warm pool and its slots *)

Definition warm_call {B} (f : Pool.inner → Pool.inner * B) : handler B := λ s,
  let '(g, b) := f (warm s) in (set_warm g s, Ok b).

(** A call of the warm pool that works on machines. *)
Definition pool_run {B} (f : Pool.inner * world → Pool.inner * world * B) : handler B := λ s,
  let '((g, w), b) := f (warm s, vm s) in (set_vm w (set_warm g s), Ok b).

Definition acquire_slot (sp : SandboxSpec.t) : handler (option PoolSlot.t) :=
  t ← now; warm_call (Pool.acquire key_hash sp t).

Definition release_slot (slot : PoolSlot.t) : handler (res PoolError.t ()) :=
  t ← now; warm_call (Pool.release slot t).

Definition discard_slot (slot : PoolSlot.t) (s : AppState) : AppState :=
  let '(g, w) := (Pool.discard slot (warm s, vm s)).1 in set_vm w (set_warm g s).

(** [warm_slots.lock().await.remove(id)]. *)
Definition take_warm_slot (id : string) : handler (option PoolSlot.t) := λ s,
  (set_warm_slots (delete id (warm_slots s)) s, Ok (warm_slots s !! id)).

Definition discard_warm_slot (id : string) : handler () :=
  o ← take_warm_slot id;
  match o with Some slot => modify (discard_slot slot) | None => mret () end.

(** ** Prepared snapshots *)

Definition free_for (key : string) (x : WarmSnapshot) : bool :=
  String.eqb (snap_key x) key && bool_decide (owner x = None).

Definition set_owner (o : option string) (x : WarmSnapshot) : WarmSnapshot :=
  warm_snap (snap_key x) (paths x) (snap_subnet x) o.

Definition claim_snapshot (key id : string) : handler (option (SnapshotPaths.t * (Z * Z))) := λ s,
  match List.find (free_for key) (snapshots s) with
  | None => (s, Ok None)
  | Some x =>
    (set_snapshots (update_first (free_for key) (set_owner (Some id)) (snapshots s)) s,
     Ok (Some (paths x, snap_subnet x)))
  end.

Definition release_snapshot (id : string) (s : AppState) : AppState :=
  set_snapshots ((λ x, if bool_decide (owner x = Some id) then set_owner None x else x)
                   <$> snapshots s) s.

(** [subnet_alloc.allocate()]. *)
Definition allocate_subnet : handler (Z * Z) := λ s,
  let '(n, sub) := allocate (next_subnet s) in (set_next_subnet n s, Ok sub).

Definition make_dir (fault : string → ClouisleError.t) (path : string) : handler () := λ s,
  let '(w, o) := create_dir_all path (net s).2 in
  (set_net ((net s).1, w) s, match o with None => Ok () | Some e => Err (fault e) end).
Definition unlink (path : string) : handler () :=
  modify (λ s, set_net ((net s).1, remove_file path (net s).2) s).

(** [warm_snapshot]; [temp_id] is the fresh id of the throw-away machine. *)
Definition warm_snapshot (sp : SandboxSpec.t) (temp_id : string) : handler () :=
  let key := SandboxSpec.pool_key key_hash sp in
  ready ← gets (λ s, existsb (free_for key) (snapshots s));
  if ready : bool then mret () else
  subnet ← allocate_subnet;
  _ ← when manage_network
        (_ ← net_call (create_network_in_subnet temp_id (Some subnet)); mret ());
  handle ← vmm_call (create_in_subnet temp_id sp subnet);
  _ ← vmm_call (start handle);
  _ ← when manage_network (net_call (sys (attach_tap temp_id)));
  hello ← timed_guest 30 "snapshot warm hello timed out" (connect_and_hello handle temp_id);
  _ ← guest_call (ping hello);
  _ ← vmm_call (pause handle);
  let dir := "/data/e2b/snapshots/" +:+ temp_id in
  _ ← make_dir (λ e, ClouisleError.io ("create snapshot dir: " +:+ e)) dir;
  let p := SnapshotPaths.mk (dir +:+ "/state.bin") (dir +:+ "/mem.bin") in
  result ← attempt (vmm_call (snapshot handle SnapshotKind.Full p));
  _ ← quiet (vmm_call (stop handle StopMode.Force));
  _ ← when manage_network
        (quiet (net_call (teardown_sandbox_network temp_id (VmHandle.subnet handle))));
  _ ← lift result;
  modify (λ s, set_snapshots (snapshots s ++ [warm_snap key p subnet None]) s).

(** ** What a call leaves alone

    [frames view m]: whatever the outcome, [m] does not change [view].  Each
    primitive frames every view its own field is not part of; the combinators
    preserve framing, so a handler is framed by walking through it. *)

Definition frames {B W} (view : AppState → W) (m : handler B) : Prop :=
  ∀ s, view (m s).1 = view s.

Section frames.
Context {W : Type} (view : AppState → W).

Lemma frames_ret {B} (b : B) : frames view (mret b).
Proof. by intros s. Qed.
Lemma frames_fail {B} e : frames view (fail (A := B) e).
Proof. by intros s. Qed.
Lemma frames_lift {B} (r : result B) : frames view (lift r).
Proof. by intros s. Qed.
Lemma frames_gets {B} (f : AppState → B) : frames view (gets f).
Proof. by intros s. Qed.
Lemma frames_modify f : (∀ s, view (f s) = view s) → frames view (modify f).
Proof. intros Hf s. apply Hf. Qed.
Lemma frames_bind {B C} (m : handler B) (k : B → handler C) :
  frames view m → (∀ b, frames view (k b)) → frames view (m ≫= k).
Proof.
  intros Hm Hk s. unfold mbind, stres_bind. specialize (Hm s).
  destruct (m s) as [s1 [b|e|]]; simpl in *; [by rewrite Hk|done|done].
Qed.
Lemma frames_attempt {B} (m : handler B) :
  frames view m → frames view (attempt (E := ClouisleError.t) m).
Proof. intros Hm s. specialize (Hm s). unfold attempt. by destruct (m s) as [s1 [b|e|]]. Qed.
Lemma frames_quiet {B} (m : handler B) : frames view m → frames view (quiet m).
Proof. intros Hm. apply frames_bind; [by apply frames_attempt|intros; apply frames_ret]. Qed.
Lemma frames_catch {B} (m : handler B) k :
  frames view m → (∀ e, frames view (k e)) → frames view (catch m k).
Proof.
  intros Hm Hk s. specialize (Hm s). unfold catch.
  destruct (m s) as [s1 [b|e|]]; simpl in *; [done|by rewrite Hk|done].
Qed.
Lemma frames_when b m : frames view m → frames view (when b m).
Proof. intros. destruct b; [done|apply frames_ret]. Qed.
Lemma frames_for_each {B} (f : B → handler ()) l :
  (∀ x, frames view (f x)) → frames view (for_each f l).
Proof.
  intros Hf. induction l; [apply frames_ret|]. by apply frames_bind.
Qed.
Lemma frames_collect {B C} (f : B → handler C) l :
  (∀ x, frames view (f x)) → frames view (collect f l).
Proof.
  intros Hf. induction l; [apply frames_ret|]. apply frames_bind; [done|intros].
  apply frames_bind; [done|intros; apply frames_ret].
Qed.

Lemma frames_now : (∀ x s, view (set_reads x s) = view s) → frames view now.
Proof. intros Hv s. apply Hv. Qed.
Lemma frames_store_call {B} (f : store → store * StoreResult B) :
  (∀ x s, view (set_sto x s) = view s) → frames view (store_call f).
Proof. intros Hv s. unfold store_call. destruct (f (sto s)). apply Hv. Qed.
Lemma frames_store_try {B} (f : store → store * StoreResult B) :
  (∀ x s, view (set_sto x s) = view s) → frames view (store_try f).
Proof. intros Hv s. unfold store_try. destruct (f (sto s)). apply Hv. Qed.
Lemma frames_vmm_call {B} (f : world → world * outcome B) :
  (∀ x s, view (set_vm x s) = view s) → frames view (vmm_call f).
Proof. intros Hv s. unfold vmm_call. destruct (f (vm s)). apply Hv. Qed.
Lemma frames_timed_vmm {B} n l (f : world → world * outcome B) :
  (∀ x s, view (set_vm x s) = view s) → frames view (timed_vmm n l f).
Proof. intros Hv s. unfold timed_vmm. destruct (within n f (vm s)). apply Hv. Qed.
Lemma frames_guest_call {B} (f : guest → guest * outcome B) :
  (∀ x s, view (set_gst x s) = view s) → frames view (guest_call f).
Proof. intros Hv s. unfold guest_call. destruct (f (gst s)). apply Hv. Qed.
Lemma frames_guest_run {B} (f : guest → guest * B) :
  (∀ x s, view (set_gst x s) = view s) → frames view (guest_run f).
Proof. intros Hv s. unfold guest_run. destruct (f (gst s)). apply Hv. Qed.
Lemma frames_pool_run {B} (f : Pool.inner * world → Pool.inner * world * B) :
  (∀ x y s, view (set_vm x (set_warm y s)) = view s) → frames view (pool_run f).
Proof. intros Hv s. unfold pool_run. destruct (f _) as [[g w] b]. apply Hv. Qed.
Lemma frames_timed_guest {B} n l (f : guest → guest * outcome B) :
  (∀ x s, view (set_gst x s) = view s) → frames view (timed_guest n l f).
Proof. intros Hv s. unfold timed_guest. destruct (within n f (gst s)). apply Hv. Qed.
Lemma frames_net_call {B} (f : fw B) :
  (∀ x s, view (set_net x s) = view s) → frames view (net_call f).
Proof. intros Hv s. unfold net_call. destruct (f (net s)). apply Hv. Qed.
Lemma frames_e2b_call_as {B} conv (f : E2bControlPlane.cloud B) :
  (∀ x s, view (set_e2b x s) = view s) → frames view (e2b_call_as conv f).
Proof. intros Hv s. unfold e2b_call_as. destruct (f (e2b s)). apply Hv. Qed.
Lemma frames_e2b_try {B} (f : E2bControlPlane.cloud B) :
  (∀ x s, view (set_e2b x s) = view s) → frames view (e2b_try f).
Proof. intros Hv s. unfold e2b_try. destruct (f (e2b s)). apply Hv. Qed.
Lemma frames_e2b_call {B} (f : E2bControlPlane.cloud B) :
  (∀ x s, view (set_e2b x s) = view s) → frames view (e2b_call f).
Proof. apply frames_e2b_call_as. Qed.
Lemma frames_warm_call {B} (f : Pool.inner → Pool.inner * B) :
  (∀ x s, view (set_warm x s) = view s) → frames view (warm_call f).
Proof. intros Hv s. unfold warm_call. destruct (f (warm s)). apply Hv. Qed.
Lemma frames_take_warm_slot id :
  (∀ x s, view (set_warm_slots x s) = view s) → frames view (take_warm_slot id).
Proof. intros Hv s. apply Hv. Qed.
Lemma frames_discard_slot slot :
  (∀ x y s, view (set_vm x (set_warm y s)) = view s) → frames view (modify (discard_slot slot)).
Proof.
  intros Hv. apply frames_modify. intros s. unfold discard_slot.
  destruct (Pool.discard _ _).1. apply Hv.
Qed.
Lemma frames_claim_snapshot key id :
  (∀ x s, view (set_snapshots x s) = view s) → frames view (claim_snapshot key id).
Proof. intros Hv s. unfold claim_snapshot. destruct (List.find _ _); [apply Hv|done]. Qed.
Lemma frames_admit sp : (∀ x s, view (set_pool x s) = view s) → frames view (admit_spec sp).
Proof. intros Hv s. unfold admit_spec. destruct (ResourcePool.admit_ _ _). apply Hv. Qed.
Lemma frames_drop_reservation r :
  (∀ x s, view (set_pool x s) = view s) → frames view (modify (drop_reservation r)).
Proof. intros Hv. apply frames_modify. intros s. destruct r; [apply Hv|done]. Qed.
Lemma frames_remove_reservation id :
  (∀ x s, view (set_pool x s) = view s) → (∀ x s, view (set_reservations x s) = view s) →
  frames view (modify (remove_reservation id)).
Proof.
  intros Hp Hr. apply frames_modify. intros s. unfold remove_reservation.
  destruct (reservations s !! id); simpl; by rewrite ?Hp, Hr.
Qed.
Lemma frames_insert_reservation id r :
  (∀ x s, view (set_pool x s) = view s) → (∀ x s, view (set_reservations x s) = view s) →
  frames view (modify (insert_reservation id r)).
Proof.
  intros Hp Hr. apply frames_modify. intros s. unfold insert_reservation.
  destruct (reservations s !! id); simpl; by rewrite ?Hp, Hr.
Qed.
Lemma frames_scoped {B} r (m : handler B) :
  (∀ x s, view (set_pool x s) = view s) → frames view m → frames view (scoped r m).
Proof.
  intros Hv Hm s. specialize (Hm s). unfold scoped.
  destruct (m s) as [s1 [b|e|]]; simpl in *; [done|..]; destruct r; simpl; by rewrite ?Hv.
Qed.
Lemma frames_spawn t : (∀ x s, view (set_tasks x s) = view s) → frames view (spawn t).
Proof. intros Hv s. apply Hv. Qed.
Lemma frames_allocate_subnet :
  (∀ x s, view (set_next_subnet x s) = view s) → frames view allocate_subnet.
Proof. intros Hv s. unfold allocate_subnet. destruct (allocate _). apply Hv. Qed.
Lemma frames_make_dir f p : (∀ x s, view (set_net x s) = view s) → frames view (make_dir f p).
Proof. intros Hv s. unfold make_dir. destruct (create_dir_all _ _). apply Hv. Qed.
End frames.

(** ** Triples

    [hoare P m Q]: from a state with [P] the call ends, with outcome [r], in a
    state with [Q r].  [keeps P m R] is the common case: [P] holds again whatever
    the outcome, and a value that is returned satisfies [R]. *)

Definition hoare {B} (P : AppState → Prop) (m : handler B) (Q : result B → AppState → Prop) : Prop :=
  ∀ s, P s → Q (m s).2 (m s).1.

Definition returns {B} (R : B → Prop) (r : result B) : Prop := ∀ b, r = Ok b → R b.

Definition keeps {B} (P : AppState → Prop) (m : handler B) (R : B → Prop) : Prop :=
  hoare P m (λ r s, P s ∧ returns R r).

Section triples.
Lemma hoare_bind {B E} P (m : handler B) (k : B → handler E) Q Q' :
  hoare P m Q → (∀ b, hoare (Q (Ok b)) (k b) Q') →
  (∀ e s, Q (Err e) s → Q' (Err e) s) → (∀ s, Q Panic s → Q' Panic s) →
  hoare P (m ≫= k) Q'.
Proof.
  intros Hm Hk He Hp s Hs. specialize (Hm s Hs). unfold mbind, stres_bind.
  destruct (m s) as [s1 [b|e|]]; simpl in *; [by apply Hk|by apply He|by apply Hp].
Qed.

Lemma hoare_weaken {B} (P P' : AppState → Prop) (m : handler B) (Q Q' : result B → AppState → Prop) :
  hoare P m Q → (∀ s, P' s → P s) → (∀ r s, Q r s → Q' r s) → hoare P' m Q'.
Proof. intros Hm HP HQ s Hs. by apply HQ, Hm, HP. Qed.

Lemma keeps_hoare {B} P (m : handler B) R : keeps P m R → hoare P m (λ _, P).
Proof. intros Hm s Hs. by apply Hm. Qed.

Lemma keeps_weaken {B} P (m : handler B) (R R' : B → Prop) :
  keeps P m R → (∀ b, R b → R' b) → keeps P m R'.
Proof. intros Hm HR s Hs. destruct (Hm s Hs) as [? Hr]. split; [done|]. intros b Hb. eauto. Qed.

Lemma keeps_any {B} P (m : handler B) R : keeps P m R → keeps P m (λ _, True).
Proof. intros. by eapply keeps_weaken. Qed.

Lemma keeps_bind {B E} P (m : handler B) (k : B → handler E) R R' :
  keeps P m R → (∀ b, R b → keeps P (k b) R') → keeps P (m ≫= k) R'.
Proof.
  intros Hm Hk s Hs. destruct (Hm s Hs) as [Hs1 Hr]. unfold mbind, stres_bind.
  destruct (m s) as [s1 [b|e|]]; simpl in *; [by apply Hk; [apply Hr|]|done|done].
Qed.

Lemma keeps_ret {B} P (b : B) (R : B → Prop) : R b → keeps P (mret b) R.
Proof. intros Hb s Hs. split; [done|]. by intros ? [= <-]. Qed.
Lemma keeps_fail {B} P e (R : B → Prop) : keeps P (fail e) R.
Proof. intros s Hs. by split. Qed.
Lemma keeps_lift {B} P (r : result B) (R : B → Prop) : returns R r → keeps P (lift r) R.
Proof. intros Hr s Hs. by split. Qed.
Lemma keeps_gets {B} P (f : AppState → B) : keeps P (gets f) (λ _, True).
Proof. intros s Hs. by split. Qed.
Lemma keeps_modify (P : AppState → Prop) f : (∀ s, P s → P (f s)) → keeps P (modify f) (λ _, True).
Proof. intros Hf s Hs. split; [by apply Hf|done]. Qed.
Lemma keeps_attempt {B} P (m : handler B) R :
  keeps P m R → keeps P (attempt (E := ClouisleError.t) m) (returns R).
Proof.
  intros Hm s Hs. destruct (Hm s Hs) as [Hs1 Hr]. unfold attempt.
  destruct (m s) as [s1 [b|e|]]; simpl in *; split; try done; by intros ? [= <-].
Qed.
Lemma keeps_quiet {B} P (m : handler B) R : keeps P m R → keeps P (quiet m) (λ _, True).
Proof.
  intros Hm. eapply keeps_bind; [by apply keeps_attempt|]. intros. by apply keeps_ret.
Qed.
Lemma keeps_catch {B} P (m : handler B) k R :
  keeps P m R → (∀ e, keeps P (k e) R) → keeps P (catch m k) R.
Proof.
  intros Hm Hk s Hs. destruct (Hm s Hs) as [Hs1 Hr]. unfold catch.
  destruct (m s) as [s1 [b|e|]]; simpl in *; [done|by apply Hk|done].
Qed.
Lemma keeps_when P b m : keeps P m (λ _, True) → keeps P (when b m) (λ _, True).
Proof. intros. destruct b; [done|by apply keeps_ret]. Qed.
Lemma keeps_for_each {B} P (f : B → handler ()) l (R : B → Prop) :
  Forall R l → (∀ x, R x → keeps P (f x) (λ _, True)) → keeps P (for_each f l) (λ _, True).
Proof.
  intros Hl Hf. induction Hl; [by apply keeps_ret|].
  eapply keeps_bind; [by apply Hf|]. done.
Qed.
Lemma keeps_collect {B E} P (f : B → handler E) l (R : B → Prop) :
  Forall R l → (∀ x, R x → keeps P (f x) (λ _, True)) → keeps P (collect f l) (λ _, True).
Proof.
  intros Hl Hf. induction Hl; [by apply keeps_ret|].
  eapply keeps_bind; [by apply Hf|]. intros y _. eapply keeps_bind; [done|]. intros. by apply keeps_ret.
Qed.
Lemma keeps_frames {B W} (view : AppState → W) (P : AppState → Prop) (m : handler B) :
  frames view m → (∀ s s', view s' = view s → P s → P s') → keeps P m (λ _, True).
Proof. intros Hm HP s Hs. split; [|done]. eapply HP; [apply Hm|done]. Qed.
End triples.
End state.

(** Walks through a handler. *)
Ltac frame_step :=
  first
  [ match goal with |- frames _ (match ?x with _ => _ end) => destruct x end
  | match goal with |- frames _ ((match ?x with _ => _ end) _) => destruct x end
  | done
  | apply frames_ret | apply frames_fail | apply frames_lift | apply frames_gets
  | apply frames_bind; [|intros ?] | apply frames_attempt | apply frames_quiet
  | apply frames_catch; [|intros ?] | apply frames_when | apply frames_for_each; intros ?
  | apply frames_collect; intros ?
  | apply frames_now | apply frames_store_call | apply frames_store_try | apply frames_vmm_call | apply frames_timed_vmm
  | apply frames_guest_call | apply frames_guest_run | apply frames_pool_run | apply frames_timed_guest | apply frames_net_call
  | apply frames_e2b_call | apply frames_e2b_call_as | apply frames_e2b_try | apply frames_warm_call
  | apply frames_take_warm_slot | apply frames_discard_slot
  | apply frames_admit | apply frames_drop_reservation | apply frames_remove_reservation
  | apply frames_insert_reservation | apply frames_scoped | apply frames_spawn
  | apply frames_claim_snapshot | apply frames_allocate_subnet | apply frames_make_dir
  | match goal with |- frames _ (modify _) => apply frames_modify; intros ? end ].
Ltac frame := repeat frame_step.
