(* ===== verification/Lifecycle.v ===== *)
(** * Sandbox lifecycle
    ([crates/clouisle-api/src/handlers/sandbox.rs], [state.rs], [main.rs])

    Creation, provisioning, deletion and recovery of a sandbox, the reconciler
    and the reaper of expired sandboxes, as handlers over [AppState].  A handler
    runs to its end before the next one starts; a job it spawns becomes an entry
    of [tasks] and runs later ([run_task]).  The Linux configuration. *)

From S2P Require Import Prelude Core SandboxModel Admission Vmm Pool Proto Guest Digest Dns Net.
From S2P Require Import Store Json Auth E2bCloud Processes AppState.

(** ** Specifications the development back end refuses ([docker_dev.rs]) *)

Definition validate_dev_spec (sp : SandboxSpec.t) : result () :=
  let r := SandboxSpec.resources sp in
  if negb (bool_decide (NetworkConfig.allow_egress (SandboxSpec.network sp) = [])) then
    Err (ClouisleError.validation ("docker-dev backend cannot enforce egress allowlists; "
      +:+ "use network.enabled with empty allow_egress"))
  else if bool_decide (is_Some (Resources.iops r)) || bool_decide (is_Some (Resources.bandwidth_mbps r))
  then Err (ClouisleError.validation
    "docker-dev backend does not support iops or bandwidth_mbps limits")
  else match SandboxSpec.restart_policy sp with
  | RestartPolicy.Never => Ok ()
  | _ => Err (ClouisleError.validation "docker-dev backend supports restart_policy=never only")
  end.

Definition redact_secrets (sb : Sandbox.t) : Sandbox.t :=
  Sandbox.set_spec sb (SandboxSpec.set_secrets (Sandbox.spec sb)
    ((λ x, SecretSpec.mk (SecretSpec.name x) "[REDACTED]") <$> SandboxSpec.secrets (Sandbox.spec sb))).

(** The handle rebuilt from a stored row, as every handler writes it out. *)
Definition stored_handle (id : string) (sb : Sandbox.t) (subnet : option (Z * Z)) : VmHandle.t :=
  let m := Sandbox.vmm_meta sb in
  VmHandle.mk (match VmmMeta.vmm_id m with Some i => i | None => id end)
    (VmmMeta.backend m) (VmmMeta.owner_id m) (VmmMeta.pid m) (VmmMeta.api_socket m)
    (VmmMeta.vsock_socket m) (VmmMeta.vsock_cid m) subnet.

Definition has_machine (sb : Sandbox.t) : bool :=
  bool_decide (is_Some (VmmMeta.vmm_id (Sandbox.vmm_meta sb))).

(** The recovery counter a failed sandbox carries. *)
Definition recovery_attempts (m : VmmMeta.t) : Z :=
  match VmmMeta.extra m !! "recovery_attempts"%string with
  | Some v => match parse_unsigned u8_max v with Some n => n | None => 0 end
  | None => 0
  end.

Section lifecycle.
Context {S : Semaphore} {ST : Store} {V : Vmm} {O : Os} {D : Deployment} {A : Agent}
  {H : Sha256} {T : Timeouts} {C : Chrono} {HO : HashOrder} {CE : CloudEnv}.

(** ** Provisioning *)

Definition mark_failed (id : string) (error : ClouisleError.t) (handle : option VmHandle.t)
  : handler () :=
  t ← now;
  _ ← quiet (store_call (update_sandbox_status_message id SandboxStatus.Error
               (Some (ClouisleError.message error)) t));
  _ ← match handle with
      | Some h => quiet (vmm_call (stop h StopMode.Force))
      | None => mret ()
      end;
  when manage_network (quiet (net_call (teardown_sandbox_network id (handle ≫= VmHandle.subnet)))).

(** [if let Err(error) = m { mark_failed(..); return Err(error); }]. *)
Definition or_fail {B} (id : string) (handle : option VmHandle.t) (m : handler B) : handler B :=
  catch m (λ e, _ ← mark_failed id e handle; fail e).

Definition materialize_secrets (c : connection) (sb : Sandbox.t) : handler () :=
  for_each (λ x, guest_call (write_file c ("/run/secrets/" +:+ SecretSpec.name x)
                   (String.list_byte_of_string (SecretSpec.value x)) 384))
    (SandboxSpec.secrets (Sandbox.spec sb)).

Definition tenant_or_default (sb : Sandbox.t) : string :=
  match SandboxSpec.tenant_id (Sandbox.spec sb) with Some t => t | None => "" end.

(** [volume_by_name(..).map_err(|error| not_found(error.to_string()))]. *)
Definition mounted_volume (sb : Sandbox.t) (m : VolumeMountSpec.t) : handler Volume.t :=
  e2b_call_as (ClouisleError.not_found ∘ ControlPlaneError.display)
    (E2bControlPlane.volume_by_name (tenant_or_default sb) (VolumeMountSpec.name m)).

Definition materialize_volume_mounts (c : connection) (sb : Sandbox.t) : handler () :=
  for_each (λ m,
    _ ← lift (validate_path (VolumeMountSpec.target m));
    v ← mounted_volume sb m;
    for_each (λ '(path, f),
      let target := volume_target (VolumeMountSpec.target m) path in
      _ ← lift (validate_path target);
      guest_call (write_file c target (VolumeFile.content f) (VolumeFile.mode f)))
      (entries (Volume.files v))) (SandboxSpec.volume_mounts (Sandbox.spec sb)).

(** The fast path: with no slot and no explicit snapshot, a prepared one. *)
Definition choose_snapshot (sb : Sandbox.t) (slot : option PoolSlot.t)
    (snap : option SnapshotPaths.t) (subnet : option (Z * Z))
  : handler (option SnapshotPaths.t * option (Z * Z)) :=
  match slot, snap with
  | None, None =>
    o ← claim_snapshot (SandboxSpec.pool_key key_hash (Sandbox.spec sb)) (Sandbox.id sb);
    mret match o with Some (p, sub) => (Some p, Some sub) | None => (None, subnet) end
  | _, _ => mret (snap, subnet)
  end.

Definition obtain_machine (sb : Sandbox.t) (slot : option PoolSlot.t)
    (snap : option SnapshotPaths.t) : handler VmHandle.t :=
  let id := Sandbox.id sb in
  match slot, snap with
  | Some x, _ => mret (PoolSlot.vm_handle x)
  | None, Some p =>
    or_fail id None (timed_vmm 300 "snapshot restore timed out after 300s"
      (restore id (Sandbox.spec sb) p))
  | None, None =>
    or_fail id None (timed_vmm 300 "image and VMM creation timed out after 300s"
      (create id (Sandbox.spec sb)))
  end.

(** The handle and the sandbox after the inherited subnet is recorded. *)
Definition with_subnet (h : VmHandle.t) (sub : option (Z * Z)) : VmHandle.t :=
  match sub with
  | Some ab => VmHandle.mk (VmHandle.id h) (VmHandle.backend h) (VmHandle.owner_id h)
      (VmHandle.pid h) (VmHandle.api_socket h) (VmHandle.vsock_socket h) (VmHandle.vsock_cid h)
      (Some ab)
  | None => h
  end.

Definition meta_of (h : VmHandle.t) (extra : gmap string string) (sub : option (Z * Z)) : VmmMeta.t :=
  VmmMeta.mk (VmHandle.backend h) (VmHandle.owner_id h) (VmHandle.pid h) (VmHandle.api_socket h)
    (VmHandle.vsock_socket h) (VmHandle.vsock_cid h) (Some (VmHandle.id h))
    (match sub with
     | Some ab => <["subnet"%string := VmmMeta.show_subnet ab]> extra
     | None => extra
     end).

Definition record_machine (sb : Sandbox.t) (h : VmHandle.t) : handler () :=
  let id := Sandbox.id sb in
  t ← now;
  _ ← or_fail id (Some h) (store_call (update_sandbox_vmm_meta id (Sandbox.vmm_meta sb) t));
  match VmHandle.owner_id h with
  | Some node =>
    t ← now; or_fail id (Some h) (store_call (update_sandbox_node id (Some node) t))
  | None => mret ()
  end.

Definition setup_network (sb : Sandbox.t) (h : VmHandle.t) (sub : option (Z * Z)) : handler () :=
  let id := Sandbox.id sb in
  let n := SandboxSpec.network (Sandbox.spec sb) in
  let gateway := match sub with
    | Some ab => dotted ab ".1/30"
    | None => gateway_ip id +:+ "/30"
    end in
  let allow := if NetworkConfig.enabled n then NetworkConfig.allow_egress n else [] in
  when manage_network (or_fail id (Some h) (net_call
    (setup_sandbox_network id gateway allow (NetworkConfig.deny_egress n)
       (Resources.bandwidth_mbps (SandboxSpec.resources (Sandbox.spec sb)))))).

(** The command's exit code is an error unless it is zero. *)
Definition init_error (r : ExecutionResult.t) : ClouisleError.t :=
  let text := from_utf8_lossy (ExecutionResult.stderr r) in
  ClouisleError.mk ErrorKind.Vmm
    ("initialization command exited with code " +:+ show_signed (ExecutionResult.exit_code r)
     +:+ (if is_empty text then "" else ": " +:+ trim text)).

Definition run_init (c : connection) (sb : Sandbox.t) (h : VmHandle.t) : handler () :=
  let sp := Sandbox.spec sb in
  if bool_decide (SandboxSpec.init_command sp = []) then mret ()
  else
    or_fail (Sandbox.id sb) (Some h)
      (r ← guest_call (conn_exec c (SandboxSpec.init_command sp)
             (SandboxSpec.init_env sp ∪ SandboxSpec.env sp) (SandboxSpec.init_cwd sp)
             (SandboxSpec.init_timeout_ms sp));
       if ExecutionResult.exit_code r =? 0 then mret () else fail (init_error r)).

Definition prepare_guest (sb : Sandbox.t) (h : VmHandle.t) : handler () :=
  let id := Sandbox.id sb in
  let sp := Sandbox.spec sb in
  c ← or_fail id (Some h)
        (timed_guest (SandboxSpec.start_timeout_secs sp)
           ("sandbox " +:+ id +:+ " agent hello timeout after "
            +:+ show (SandboxSpec.start_timeout_secs sp) +:+ "s")
           (connect_and_hello h id));
  _ ← or_fail id (Some h) (materialize_secrets c sb);
  _ ← quiet (guest_call (apply_limits c (Resources.pids_max (SandboxSpec.resources sp))));
  _ ← or_fail id (Some h) (materialize_volume_mounts c sb);
  run_init c sb h.

(** The end of [provision_sandbox]: the transition, the status, the deadline and
    the recovery counter, each stored on its own. *)
Definition finish_start (sb : Sandbox.t) (h : VmHandle.t) : handler Sandbox.t :=
  let id := Sandbox.id sb in
  t ← now;
  sb ← lift (Sandbox.transition sb SandboxEvent.AgentHello t);
  t ← now;
  _ ← or_fail id (Some h)
        (store_call (update_sandbox_status_message id SandboxStatus.Running None t));
  t ← now;
  _ ← store_call (update_sandbox_expiry id (Sandbox.expires_at sb) t);
  let m := Sandbox.vmm_meta sb in
  let m' := VmmMeta.set_extra m (delete "recovery_attempts"%string (VmmMeta.extra m)) in
  if bool_decide (is_Some (VmmMeta.extra m !! "recovery_attempts"%string)) then
    t ← now;
    _ ← store_call (update_sandbox_vmm_meta id m' t);
    mret (Sandbox.set_vmm_meta sb m')
  else mret sb.

Definition provision_body (sb : Sandbox.t) (slot : option PoolSlot.t)
    (snap : option SnapshotPaths.t) (subnet : option (Z * Z)) : handler Sandbox.t :=
  let id := Sandbox.id sb in
  '(snap, subnet) ← choose_snapshot sb slot snap subnet;
  _ ← when manage_network (or_fail id None
        (_ ← net_call (create_network_in_subnet id subnet); mret ()));
  h ← obtain_machine sb slot snap;
  let h := with_subnet h subnet in
  let sb := Sandbox.set_vmm_meta sb (meta_of h (VmmMeta.extra (Sandbox.vmm_meta sb)) subnet) in
  _ ← record_machine sb h;
  _ ← match slot, snap with
      | None, None => or_fail id (Some h) (vmm_call (start h))
      | _, _ => mret ()
      end;
  _ ← setup_network sb h subnet;
  _ ← prepare_guest sb h;
  finish_start sb h.

Definition provision_sandbox (sb : Sandbox.t) (r : option Reservation.t)
    (slot : option PoolSlot.t) (snap : option SnapshotPaths.t) (subnet : option (Z * Z))
  : handler Sandbox.t :=
  sb' ← scoped r (provision_body sb slot snap subnet);
  _ ← match r with
      | Some r => modify (insert_reservation (Sandbox.id sb) r)
      | None => mret ()
      end;
  mret sb'.

Definition run_provision_with_slot_and_snapshot (sb : Sandbox.t) (r : option Reservation.t)
    (slot : option PoolSlot.t) (snap : option SnapshotPaths.t) (subnet : option (Z * Z))
  : handler Sandbox.t :=
  let id := Sandbox.id sb in
  busy ← gets (λ s, bool_decide (id ∈ provisioning s));
  if busy : bool then
    _ ← discard_warm_slot id;
    _ ← modify (drop_reservation r);
    fail (ClouisleError.invalid_state ("sandbox " +:+ id +:+ " already has a provisioning job"))
  else
    _ ← modify (λ s, set_provisioning ({[id]} ∪ provisioning s) s);
    result ← attempt (provision_sandbox sb r slot snap subnet);
    _ ← when (negb (is_ok result))
          (_ ← modify (remove_reservation id); discard_warm_slot id);
    _ ← modify (λ s, set_provisioning (provisioning s ∖ {[id]}) s);
    lift result.

Definition run_provision_with_slot (sb : Sandbox.t) (r : option Reservation.t)
    (slot : option PoolSlot.t) : handler Sandbox.t :=
  run_provision_with_slot_and_snapshot sb r slot None None.

Definition run_provision (sb : Sandbox.t) (r : option Reservation.t) : handler Sandbox.t :=
  run_provision_with_slot sb r None.

Definition run_provision_from_snapshot (sb : Sandbox.t) (r : option Reservation.t)
    (snap : SnapshotPaths.t) (subnet : option (Z * Z)) : handler Sandbox.t :=
  run_provision_with_slot_and_snapshot sb r None (Some snap) subnet.

(** ** Request handlers *)

Inductive Response : Type :=
| Created (sb : Sandbox.t)
| Accepted (sb : Sandbox.t)
| Found (sb : Sandbox.t)
| NoContent.

(** The warm slot goes to the sandbox's entry, or back when the row cannot be
    written; the reservation is a local until the job owns it. *)
Definition store_new (sb : Sandbox.t) (slot : option PoolSlot.t) : handler () :=
  _ ← catch (store_call (create_sandbox sb))
        (λ e, _ ← match slot with Some x => modify (discard_slot x) | None => mret () end; fail e);
  match slot with
  | Some x => modify (λ s, set_warm_slots (<[Sandbox.id sb := x]> (warm_slots s)) s)
  | None => mret ()
  end.

Definition reserve (sp : SandboxSpec.t) : handler (option Reservation.t) :=
  if manage_resources then r ← admit_spec sp; mret (Some r) else mret None.

Definition image_cached (sp : SandboxSpec.t) (slot : option PoolSlot.t) : handler bool :=
  match slot with
  | Some _ => mret true
  | None => catch (vmm_call (image_cache_hit sp)) (λ _, mret false)
  end.

(** [create_sandbox]; [errors] is the debug text of the validation errors, [id]
    the fresh UUID. *)
Definition create_handler (errors : list ValidationError.t → string) (p : Principal.t)
    (sp : SandboxSpec.t) (sync : bool) (id : string) : handler Response :=
  let sp := SandboxSpec.set_tenant sp (Some (Principal.tenant_id p)) in
  _ ← lift (map_err (λ l, ClouisleError.validation ("invalid spec: " +:+ errors l))
              (SandboxSpec.validate sp));
  _ ← lift (if negb (VmmCapabilities.vsock capabilities)
                && negb (VmmCapabilities.snapshot capabilities)
            then validate_dev_spec sp else Ok ());
  r ← reserve sp;
  '(sb, slot, cached) ← scoped r
    (slot ← acquire_slot sp;
     t ← now;
     t' ← now;
     sb ← lift (Sandbox.transition (Sandbox.new id sp t) SandboxEvent.Start t');
     _ ← store_new sb slot;
     cached ← image_cached sp slot;
     mret (sb, slot, cached));
  if sync && cached then
    running ← run_provision_with_slot sb r slot;
    mret (Created (redact_secrets running))
  else
    _ ← spawn (Provision sb r slot);
    mret (Accepted (redact_secrets sb)).

Definition fetch (id : string) : handler Sandbox.t := t ← now; store_call (get_sandbox id t).

Definition fetch_own (p : Principal.t) (id : string) : handler Sandbox.t :=
  sb ← fetch id;
  _ ← lift (Authenticator.require_tenant p sb);
  mret sb.

Definition get_handler (p : Principal.t) (id : string) : handler Response :=
  sb ← fetch_own p id; mret (Found (redact_secrets sb)).

(** [list_sandboxes]: the status filter, the tenant's rows, one page. *)
Definition list_handler (p : Principal.t) (status : option string) (limit offset : option nat)
  : handler (list Sandbox.t * nat) :=
  st ← lift match status with
    | None => Ok None
    | Some v =>
      match SandboxStatus.of_str v with
      | Some x => Ok (Some x)
      | None => Err (ClouisleError.validation ("unknown sandbox status: " +:+ v))
      end
    end;
  t ← now;
  rows ← store_call (list_sandboxes st t);
  let all := redact_secrets <$> List.filter (λ sb,
    bool_decide (SandboxSpec.tenant_id (Sandbox.spec sb) = Some (Principal.tenant_id p))) rows in
  let total := length all in
  mret (take (Nat.max (default 100%nat limit) 1)
          (drop (Nat.min (default 0%nat offset) total) all), total).

(** A warm machine goes back to the pool, any other machine is stopped.  Deletion
    ignores a failing stop, the reaper tries again at its next tick. *)
Definition retire_machine (id : string) (sb : Sandbox.t) : handler () :=
  slot ← take_warm_slot id;
  match slot with
  | Some x =>
    _ ← when (bool_decide (Sandbox.status sb = SandboxStatus.Paused))
          (quiet (vmm_call (resume (PoolSlot.vm_handle x))));
    _ ← release_slot x;
    mret ()
  | None =>
    when (has_machine sb) (vmm_call (stop (stored_handle id sb None) StopMode.Force))
  end.

Definition teardown_network (id : string) (sb : Sandbox.t) : handler () :=
  when manage_network (quiet (net_call (teardown_sandbox_network id
    (VmmMeta.inherited_subnet (Sandbox.vmm_meta sb))))).

Definition delete_handler (p : Principal.t) (id : string) : handler Response :=
  sb ← fetch_own p id;
  _ ← quiet (retire_machine id sb);
  _ ← store_call (delete_sandbox id);
  _ ← modify (remove_reservation id);
  _ ← modify (release_snapshot id);
  _ ← teardown_network id sb;
  mret NoContent.

Definition still_running (id : string) (sb : Sandbox.t) : handler bool :=
  if bool_decide (Sandbox.status sb = SandboxStatus.Running)
  then catch (vmm_call (probe (stored_handle id sb None))) (λ _, mret false)
  else mret false.

Definition recover_handler (p : Principal.t) (id : string) : handler Response :=
  sb ← fetch_own p id;
  alive ← still_running id sb;
  if alive : bool then mret (Found (redact_secrets sb)) else
  _ ← discard_warm_slot id;
  _ ← teardown_network id sb;
  _ ← when (has_machine sb) (quiet (vmm_call (stop (stored_handle id sb None) StopMode.Force)));
  held ← gets (has_reservation id);
  r ← (if held : bool then mret None else reserve (Sandbox.spec sb));
  sb' ← scoped r
    (t ← now;
     _ ← store_call (update_sandbox_vmm_meta id VmmMeta.default t);
     t ← now;
     _ ← store_call (update_sandbox_status_message id SandboxStatus.Starting None t);
     busy ← gets (λ s, bool_decide (id ∈ provisioning s));
     if busy : bool then fail (ClouisleError.invalid_state "sandbox recovery is already running")
     else
       _ ← modify (λ s, set_provisioning ({[id]} ∪ provisioning s) s);
       fetch id);
  _ ← spawn (Recover sb' r);
  current ← fetch id;
  mret (Accepted (redact_secrets current)).

(** ** The reconciler *)

(** A status written by the reconciler, whose failure is ignored. *)
Definition put_status (id : string) (st : SandboxStatus.t) (m : option string) : handler () :=
  t ← now; quiet (store_call (update_sandbox_status_message id st m t)).

Definition schedule_provision (sb : Sandbox.t) : handler () :=
  busy ← gets (λ s, bool_decide (Sandbox.id sb ∈ provisioning s));
  if busy : bool then mret () else
  held ← gets (has_reservation (Sandbox.id sb));
  if held : bool then spawn (Provision sb None None)
  else
    r ← attempt (reserve (Sandbox.spec sb));
    match r with Ok r => spawn (Provision sb r None) | _ => mret () end.

(** A local active row must hold a reservation; [false] when it cannot. *)
Definition restore_reservation (sb : Sandbox.t) : handler bool :=
  held ← gets (has_reservation (Sandbox.id sb));
  if manage_resources && bool_decide (Sandbox.node_id sb = None)
     && SandboxStatus.is_active (Sandbox.status sb) && negb held
  then
    r ← attempt (admit_spec (Sandbox.spec sb));
    match r with
    | Ok r => _ ← modify (insert_reservation (Sandbox.id sb) r); mret true
    | Err e =>
      _ ← put_status (Sandbox.id sb) SandboxStatus.Error
            (Some ("resource reservation restore failed: " +:+ ClouisleError.display e));
      mret false
    | Panic => mret false
    end
  else mret true.

(** The row's node lost its lease; unknown leases ([None]) condemn nobody. *)
Definition lease_expired (ready : option (gset string)) (sb : Sandbox.t) : bool :=
  SandboxStatus.is_active (Sandbox.status sb) &&
  match Sandbox.node_id sb, ready with
  | Some n, Some l => negb (bool_decide (n ∈ l))
  | _, _ => false
  end.

Definition condemn (sb : Sandbox.t) (message : string) : handler () :=
  _ ← put_status (Sandbox.id sb) SandboxStatus.Error (Some message);
  modify (remove_reservation (Sandbox.id sb)).

Definition probe_guest (h : VmHandle.t) (id : string) (g : guest) : guest * outcome () :=
  match connect_and_hello h id g with
  | (g', inr c) => ping c g'
  | (g', inl e) => (g', inl e)
  end.

(** [timeout(5s, probe)]: [None] is the elapsed limit. *)
Definition guest_probe (h : VmHandle.t) (id : string) : handler (option (outcome ())) := λ s,
  let '(g, o) := within 5 (probe_guest h id) (gst s) in (set_gst g s, Ok o).

Definition check_machine (sb : Sandbox.t) : handler () :=
  let id := Sandbox.id sb in
  let h := stored_handle id sb (VmmMeta.inherited_subnet (Sandbox.vmm_meta sb)) in
  alive ← catch (vmm_call (probe h)) (λ _, mret false);
  if negb alive then condemn sb "persisted sandbox runtime is not reachable"
  else match Sandbox.status sb with
  | SandboxStatus.Starting =>
    o ← guest_probe h id;
    match o with
    | Some (inr _) => put_status id SandboxStatus.Running None
    | _ => mret ()
    end
  | SandboxStatus.Running =>
    o ← guest_probe h id;
    match o with
    | Some (inr _) => mret ()
    | Some (inl e) =>
      condemn sb ("guest probe failed during reconciliation: " +:+ ClouisleError.display e)
    | None => condemn sb "guest probe timed out during reconciliation"
    end
  | _ => mret ()
  end.

(** A failed sandbox is started again at most three times. *)
Definition restart_failed (sb : Sandbox.t) : handler () :=
  let id := Sandbox.id sb in
  let m := Sandbox.vmm_meta sb in
  let n := recovery_attempts m in
  if n <? 3 then
    let m' := VmmMeta.set_extra m
      (<["recovery_attempts"%string := show (n + 1)]> (VmmMeta.extra m)) in
    t ← now;
    r1 ← attempt (store_call (update_sandbox_vmm_meta id m' t));
    if negb (is_ok r1) then mret () else
    t ← now;
    r2 ← attempt (store_call (update_sandbox_status_message id SandboxStatus.Starting None t));
    if negb (is_ok r2) then mret () else
    recovered ← catch (fetch id) (λ _, mret sb);
    schedule_provision recovered
  else mret ().

Definition reconcile_one (ready : option (gset string)) (sb : Sandbox.t) : handler () :=
  reserved ← restore_reservation sb;
  if negb reserved then mret ()
  else if lease_expired ready sb then condemn sb "node heartbeat lease expired"
  else if bool_decide (Sandbox.status sb = SandboxStatus.Starting) && negb (has_machine sb)
  then schedule_provision sb
  else if SandboxStatus.is_active (Sandbox.status sb) && has_machine sb then check_machine sb
  else if bool_decide (Sandbox.status sb = SandboxStatus.Error)
          && negb (bool_decide (SandboxSpec.restart_policy (Sandbox.spec sb) = RestartPolicy.Never))
  then restart_failed sb
  else mret ().

Definition reconcile_sandboxes : handler () :=
  t ← now;
  rows ← attempt (store_call (list_sandboxes None t));
  match rows with
  | Ok rows =>
    t ← now;
    nodes ← attempt (store_call (list_ready_nodes (timestamp_millis t - 15000)));
    let ready := match nodes with
      | Ok l => Some (list_to_set (NodeInfo.node_id ∘ RegisteredNode.info <$> l))
      | _ => None
      end in
    for_each (reconcile_one ready) rows
  | _ => mret ()
  end.

(** ** The reaper of expired sandboxes: one tick *)

Definition expired (t : Z) (sb : Sandbox.t) : bool :=
  match Sandbox.expires_at sb with Some e => e <=? t | None => false end.

Definition auto_pause (sb : Sandbox.t) : handler () :=
  let id := Sandbox.id sb in
  r ← attempt (vmm_call (pause (stored_handle id sb None)));
  if negb (is_ok r) then mret () else
  _ ← put_status id SandboxStatus.Paused None;
  t ← now;
  _ ← quiet (store_call (update_sandbox_expiry id None t));
  when (SandboxSpec.auto_pause_memory (Sandbox.spec sb)) (modify (remove_reservation id)).

Definition expire_one (sb : Sandbox.t) : handler () :=
  let id := Sandbox.id sb in
  if SandboxSpec.auto_pause (Sandbox.spec sb)
     && bool_decide (Sandbox.status sb = SandboxStatus.Running) then auto_pause sb
  else
    r ← attempt (retire_machine id sb);
    if negb (is_ok r) then mret () else
    r ← attempt (store_call (delete_sandbox id));
    if negb (is_ok r) then mret () else
    _ ← modify (remove_reservation id);
    teardown_network id sb.

Definition expiry_tick : handler () :=
  t ← now;
  rows ← attempt (t' ← now; store_call (list_sandboxes None t'));
  match rows with
  | Ok rows => for_each expire_one (List.filter (expired t) rows)
  | _ => mret ()
  end.
End lifecycle.
