(* ===== verification/E2bHandlers.v ===== *)
(** * Handlers of the E2B runtime surface ([crates/clouisle-api/src/handlers/e2b.rs])

    Creation, listing, pause and resume of sandboxes for E2B clients, the access
    tokens of sandboxes, the file system calls and the process calls inside a guest.
    A request that names its sandbox in the [e2b-sandbox-id] header carries that
    header as an argument. *)

From S2P Require Import Prelude Core SandboxModel Admission Vmm Pool Proto Guest Digest Dns Net.
From S2P Require Import Placement Store Json Auth E2bCloud Processes E2bModel AppState Lifecycle.

(** ** Shapes of requests and answers *)

Module E2bPaginationQuery.
Record t : Set := mk {
  next_token : option nat;
  limit : option nat;
  metadata : option string;
  state : option string }.
End E2bPaginationQuery.

(** A page of sandboxes with the headers [x-next-token] and [x-total-running]. *)
Record Listing : Type := listing {
  page_items : list E2bSandbox.t;
  x_next_token : option string;
  x_total_running : option string }.

Module E2bEntryInfo.
Record t : Set := mk { name : string; entry_type : string; path : string; size : Z; mode : Z }.
End E2bEntryInfo.

Module E2bNetworkUpdateRequest.
Record t : Type := mk {
  allow_out : list string;
  allow_internet_access : option bool;
  deny_out : list string;
  rules : option Json }.
End E2bNetworkUpdateRequest.

Module E2bProcessConfig.
Record t : Type := mk {
  cmd : string;
  args : list string;
  envs : gmap string string;
  cwd : option string;
  timeout : option Z;
  tag : option string;
  pty : option PtyConfig.t;
  stdin : bool }.
End E2bProcessConfig.

Module E2bProcessSelector.
Record t : Set := mk { pid : option Z; tag : option string }.
End E2bProcessSelector.

Module E2bProcessInput.
Record t : Set := mk { stdin : option string; pty : option string }.
End E2bProcessInput.

Module E2bSignal.
Inductive t : Set := Name (name : string) | Num (n : Z).
Definition into_signal (s : t) : result ProcessSignal.t :=
  match s with
  | Num n =>
    if n =? 9 then Ok ProcessSignal.Sigkill
    else if n =? 15 then Ok ProcessSignal.Sigterm
    else if n =? 2 then Ok ProcessSignal.Sigint
    else Err (ClouisleError.validation "unsupported signal number")
  | Name name =>
    if String.eqb name "SIGNAL_SIGKILL" then Ok ProcessSignal.Sigkill
    else if String.eqb name "SIGNAL_SIGTERM" then Ok ProcessSignal.Sigterm
    else if String.eqb name "SIGNAL_SIGINT" then Ok ProcessSignal.Sigint
    else Err (ClouisleError.validation ("unsupported signal: " +:+ name))
  end.
End E2bSignal.

(** [rsplit('/').next().unwrap_or_default()]. *)
Definition base_name (path : string) : string := last_component path.

Definition handle_for (sb : Sandbox.t) : VmHandle.t := stored_handle (Sandbox.id sb) sb None.

(** [exec.rs]: [meta_to_handle], with the subnet entry of the metadata, when it parses. *)
Definition meta_to_handle (m : VmmMeta.t) (id : string) : VmHandle.t :=
  VmHandle.mk (default id (VmmMeta.vmm_id m)) (VmmMeta.backend m) (VmmMeta.owner_id m)
    (VmmMeta.pid m) (VmmMeta.api_socket m) (VmmMeta.vsock_socket m) (VmmMeta.vsock_cid m)
    (value ← VmmMeta.extra m !! "subnet"%string;
     '(a, b) ← split_once "." value;
     a' ← parse_unsigned u16_max a;
     b' ← parse_unsigned u16_max b;
     Some (a', b')).

(** [filter(|value| !value.is_empty())] on the header's text. *)
Definition sandbox_id_from_headers (h : header) : result string :=
  match h with
  | Some (Some v) => if is_empty v then Err (ClouisleError.validation "E2b-Sandbox-Id is required")
                     else Ok v
  | _ => Err (ClouisleError.validation "E2b-Sandbox-Id is required")
  end.

(** [u32::from_str_radix(s, 8)] and [format!("{:o}", n)]. *)
Fixpoint octal_digits (s : string) (acc : Z) : option Z :=
  match s with
  | EmptyString => Some acc
  | String a s' =>
    let d := Z.of_N (Ascii.N_of_ascii a) - 48 in
    if (0 <=? d) && (d <=? 7) then octal_digits s' (acc * 8 + d) else None
  end.
Definition parse_octal (s : string) : option Z :=
  let digits := match s with String "+"%char s' => s' | _ => s end in
  if is_empty digits then None
  else match octal_digits digits 0 with
       | Some z => if z <=? u32_max then Some z else None
       | None => None
       end.
Fixpoint show_octal_loop (fuel : nat) (z : Z) (acc : string) : string :=
  match fuel with
  | O => acc
  | Datatypes.S fuel' =>
    let acc := String (Ascii.ascii_of_N (Z.to_N (48 + z mod 8))) acc in
    if z <? 8 then acc else show_octal_loop fuel' (z / 8) acc
  end.
Definition show_octal (z : Z) : string := show_octal_loop 11 z "".

Definition MAX_UPLOAD_BYTES : nat := 52428800.

Section handlers.
Context {S : Semaphore} {ST : Store} {V : Vmm} {O : Os} {D : Deployment} {A : Agent}
  {H : Sha256} {T : Timeouts} {C : Chrono} {HO : HashOrder} {CE : CloudEnv} {W : Wire}.

(** ** Access tokens of sandboxes ([state.rs]) *)

Definition ensure_e2b_access_token (sandbox tenant : string) : handler string :=
  o ← gets (λ s, e2b_tokens s !! sandbox);
  match o with
  | Some (_, token) => mret token
  | None =>
    record ← e2b_call_as (ClouisleError.internal ∘ ControlPlaneError.display)
               (E2bControlPlane.create_access_token tenant ("sandbox-" +:+ sandbox));
    token_id ← lift (ok_or (ClouisleError.internal "access token id missing") (get_str "id" record));
    token ← lift (ok_or (ClouisleError.internal "access token value missing") (get_str "token" record));
    _ ← modify (λ s, set_e2b_tokens (<[sandbox := (token_id, token)]> (e2b_tokens s)) s);
    mret token
  end.

Definition remove_e2b_access_token (sandbox tenant : string) : handler () :=
  o ← gets (λ s, e2b_tokens s !! sandbox);
  match o with
  | Some (token_id, _) =>
    _ ← modify (λ s, set_e2b_tokens (delete sandbox (e2b_tokens s)) s);
    quiet (e2b_call (E2bControlPlane.delete_access_token tenant token_id))
  | None => mret ()
  end.

Definition e2b_response (sb : Sandbox.t) : handler E2bSandbox.t :=
  v ← lift (from_sandbox sb);
  token ← ensure_e2b_access_token (Sandbox.id sb) (tenant_or_default sb);
  mret (E2bSandbox.set_token v (Some token)).

(** ** Sandboxes *)

(** The image of the template; a name that is no template stands for an image when it
    looks like a reference. *)
Definition template_image (tenant template_id : string) (sp : SandboxSpec.t) : handler SandboxSpec.t :=
  o ← e2b_try (E2bControlPlane.template tenant template_id);
  match o with
  | inr x =>
    image ← lift (ok_or (ClouisleError.validation "template has no OCI image reference")
                    (Template.image_reference x));
    mret (SandboxSpec.set_image sp (ImageRef.mk image (ImageRef.digest (SandboxSpec.image sp))))
  | inl (ControlPlaneError.NotFound m) =>
    if contains_char ":" template_id || contains_char "/" template_id
       || contains_char "@" template_id
    then mret sp else fail (ControlPlaneError.into (ControlPlaneError.NotFound m))
  | inl e => fail (ControlPlaneError.into e)
  end.

(** The status and the row of the answer of [create_sandbox], whose JSON body reads
    back. *)
Definition create_response_to_model (r : Response) : Z * option Sandbox.t :=
  match r with
  | Created sb => (201, Some sb)
  | Accepted sb => (202, Some sb)
  | Found sb => (200, Some sb)
  | NoContent => (204, None)
  end.

(** The row of a clone, stored before its job is spawned. *)
Definition store_clone (sp : SandboxSpec.t) (id : string) (r : option Reservation.t)
  : handler Sandbox.t :=
  scoped r
    (t ← now;
     t' ← now;
     sb ← lift (Sandbox.transition (Sandbox.new id sp t) SandboxEvent.Start t');
     _ ← store_call (create_sandbox sb);
     mret sb).

Definition e2b_create (errors : list ValidationError.t → string) (p : Principal.t)
    (request : E2bCreateRequest.t) (id : string) : handler (Z * E2bSandbox.t) :=
  let tenant := Principal.tenant_id p in
  sp ← lift (map_err ClouisleError.validation (to_spec request tenant));
  sp ← template_image tenant (E2bCreateRequest.template_id request) sp;
  match E2bCreateRequest.snapshot_id request with
  | Some snapshot_id =>
    if negb (VmmCapabilities.snapshot capabilities)
    then fail (ClouisleError.invalid_state "snapshot restore is unavailable")
    else
      x ← e2b_call (E2bControlPlane.snapshot tenant snapshot_id);
      r ← reserve sp;
      sb ← store_clone sp id r;
      _ ← spawn (Fork sb r (SnapshotPaths.mk (Snapshot.state_path x) (Snapshot.memory_path x)) None);
      v ← e2b_response sb;
      mret (202, v)
  | None =>
    resp ← create_handler errors p sp true id;
    match create_response_to_model resp with
    | (status, Some sb) => v ← e2b_response sb; mret (status, v)
    | (_, None) => fail (ClouisleError.internal "decode create response: ")
    end
  end.

(** [filter.split('&').filter(non-empty).all(key=value)]. *)
Definition metadata_matches (filter : string) (m : gmap string string) : bool :=
  forallb (λ pair, match split_once "=" pair with
                   | Some (k, v) => match m !! k with Some x => String.eqb x v | None => false end
                   | None => false
                   end)
    (List.filter (λ pair, negb (is_empty pair)) (split "&" filter)).

Definition requested_states (q : E2bPaginationQuery.t) : option (list string) :=
  (λ v, to_ascii_lowercase <$> split "," v) <$> E2bPaginationQuery.state q.

Definition listed (p : Principal.t) (q : E2bPaginationQuery.t) (running_only : bool)
    (sb : Sandbox.t) : bool :=
  bool_decide (SandboxSpec.tenant_id (Sandbox.spec sb) = Some (Principal.tenant_id p))
  && negb (bool_decide (Sandbox.status sb = SandboxStatus.Stopped))
  && (negb running_only || bool_decide (Sandbox.status sb = SandboxStatus.Running))
  && match requested_states q with
     | Some states => existsb (String.eqb (state_text (Sandbox.status sb))) states
     | None => true
     end
  && match E2bPaginationQuery.metadata q with
     | Some f => metadata_matches f (SandboxSpec.metadata (Sandbox.spec sb))
     | None => true
     end.

(** The window of a page over [total] items: where it starts and ends, and the token
    of the next one. *)
Definition page_window (token limit : option nat) (total : nat) : nat * nat * option string :=
  let offset := Nat.min (default 0%nat token) total in
  let limit := Nat.min (Nat.max (default 100%nat limit) 1) 100 in
  let end_ := Nat.min (offset + limit) total in
  (offset, end_, if (end_ <? total)%nat then Some (show (Z.of_nat end_)) else None).

Definition list_inner (p : Principal.t) (q : E2bPaginationQuery.t) (running_only : bool)
  : handler Listing :=
  let running_requested := running_only || match requested_states q with
    | Some states => existsb (String.eqb "running") states | None => false end in
  t ← now;
  rows ← store_call (list_sandboxes None t);
  all ← lift (map_res from_sandbox (List.filter (listed p q running_only) rows));
  let total_running :=
    if running_requested
    then length (List.filter (λ v, String.eqb (E2bSandbox.state v) "running") all) else 0%nat in
  let '(offset, end_, next) := page_window (E2bPaginationQuery.next_token q)
    (E2bPaginationQuery.limit q) (length all) in
  mret (listing (drop offset (take end_ all)) next
    (if running_requested then Some (show (Z.of_nat total_running)) else None)).

Definition e2b_list (p : Principal.t) (q : E2bPaginationQuery.t) : handler Listing :=
  list_inner p q true.
Definition v2_list (p : Principal.t) (q : E2bPaginationQuery.t) : handler Listing :=
  list_inner p q false.

Definition e2b_get (p : Principal.t) (id : string) : handler E2bSandbox.t :=
  sb ← fetch_own p id; e2b_response sb.

Definition e2b_delete (p : Principal.t) (id : string) : handler Response :=
  sb ← fetch_own p id;
  status ← delete_handler p id;
  _ ← remove_e2b_access_token id (tenant_or_default sb);
  _ ← modify (λ s, set_processes (remove_sandbox id (processes s)) s);
  mret status.

(** The reservation a paused sandbox takes again is a local until the guest has
    answered. *)
Definition wake (sb : Sandbox.t) (r : option Reservation.t) : handler () :=
  let id := Sandbox.id sb in
  _ ← scoped r
    (_ ← vmm_call (resume (handle_for sb));
     t ← now;
     _ ← store_call (update_sandbox_status_message id SandboxStatus.Starting None t);
     hello ← timed_guest (SandboxSpec.start_timeout_secs (Sandbox.spec sb))
               "sandbox resume agent hello timed out" (connect_and_hello (handle_for sb) id);
     _ ← guest_call (ping hello);
     t ← now;
     store_call (update_sandbox_status_message id SandboxStatus.Running None t));
  match r with Some r => modify (insert_reservation id r) | None => mret () end.

Definition resume_if_needed (sb : Sandbox.t) (timeout : Z) : handler Sandbox.t :=
  let id := Sandbox.id sb in
  let was_paused := bool_decide (Sandbox.status sb = SandboxStatus.Paused) in
  held ← gets (has_reservation id);
  r ← (if was_paused && manage_resources && negb held
       then r ← admit_spec (Sandbox.spec sb); mret (Some r) else mret None);
  _ ← (if was_paused then wake sb r
       else if bool_decide (Sandbox.status sb = SandboxStatus.Running) then mret ()
       else fail (ClouisleError.invalid_state ("sandbox " +:+ id +:+ " cannot resume from "
              +:+ SandboxStatus.as_str (Sandbox.status sb))));
  t ← now;
  e ← lift (expiry_from_now t timeout);
  t' ← now;
  _ ← store_call (update_sandbox_expiry id (Some e) t');
  fetch id.

(** [connect] and [resume]; no body, or one without a timeout, means 15 seconds. *)
Definition e2b_connect (p : Principal.t) (id : string) (timeout : option Z)
  : handler (Z * E2bSandbox.t) :=
  sb ← fetch_own p id;
  let was_paused := bool_decide (Sandbox.status sb = SandboxStatus.Paused) in
  sb ← resume_if_needed sb (default 15 timeout);
  v ← e2b_response sb;
  mret (if was_paused then 201 else 200, v).

Definition e2b_resume (p : Principal.t) (id : string) (timeout : option Z)
  : handler (Z * E2bSandbox.t) :=
  sb ← fetch_own p id;
  sb ← resume_if_needed sb (default 15 timeout);
  v ← e2b_response sb;
  mret (201, v).

Definition e2b_pause (p : Principal.t) (id : string) : handler Z :=
  sb ← fetch_own p id;
  if bool_decide (Sandbox.status sb = SandboxStatus.Paused) then mret 204
  else if negb (bool_decide (Sandbox.status sb = SandboxStatus.Running))
  then fail (ClouisleError.invalid_state ("sandbox " +:+ id +:+ " is not running"))
  else
    _ ← vmm_call (pause (handle_for sb));
    t ← now;
    _ ← store_call (update_sandbox_status_message id SandboxStatus.Paused None t);
    mret 204.

Definition set_timeout (p : Principal.t) (id : string) (timeout : Z) : handler Z :=
  sb ← fetch_own p id;
  if bool_decide (Sandbox.status sb = SandboxStatus.Running)
     || bool_decide (Sandbox.status sb = SandboxStatus.Paused)
  then
    t ← now;
    e ← lift (expiry_from_now t timeout);
    t' ← now;
    _ ← store_call (update_sandbox_expiry id (Some e) t');
    mret 204
  else fail (ClouisleError.invalid_state ("sandbox " +:+ id +:+ " is not active")).

Definition refresh (p : Principal.t) (id : string) (timeout : Z) : handler Z :=
  set_timeout p id timeout.

Definition network_update (r : E2bNetworkUpdateRequest.t) (n : NetworkConfig.t) : NetworkConfig.t :=
  NetworkConfig.mk (default (NetworkConfig.enabled n) (E2bNetworkUpdateRequest.allow_internet_access r))
    (E2bNetworkUpdateRequest.allow_out r) (E2bNetworkUpdateRequest.deny_out r).

Definition update_network (p : Principal.t) (id : string) (r : E2bNetworkUpdateRequest.t) : handler Z :=
  sb ← fetch_own p id;
  if negb (bool_decide (Sandbox.status sb = SandboxStatus.Running))
  then fail (ClouisleError.invalid_state ("sandbox " +:+ id +:+ " is not running"))
  else if match E2bNetworkUpdateRequest.rules r with Some JNull | None => false | Some _ => true end
  then fail (ClouisleError.validation
               "network transform rules are not supported by the local firewall")
  else
    let sp := Sandbox.spec sb in
    let n := network_update r (SandboxSpec.network sp) in
    t ← now;
    _ ← store_call (update_sandbox_spec id (SandboxSpec.set_network sp n) t);
    _ ← when manage_network (net_call (update_sandbox_network id (NetworkConfig.enabled n)
          (NetworkConfig.allow_egress n) (NetworkConfig.deny_egress n)));
    mret 204.

(** ** Inside the guest *)

Definition resume_for_io (p : Principal.t) (id : string) : handler () :=
  sb ← fetch_own p id;
  when (bool_decide (Sandbox.status sb = SandboxStatus.Paused)
        && SandboxSpec.auto_resume (Sandbox.spec sb))
    (_ ← resume_if_needed sb 15; mret ()).

(** [files.rs]: [get_conn]. *)
Definition get_conn (id : string) (p : Principal.t) : handler connection :=
  sb ← fetch_own p id;
  if negb (Sandbox.is_executable sb)
  then fail (ClouisleError.invalid_state ("sandbox " +:+ id +:+ " is not running (status="
              +:+ SandboxStatus.as_str (Sandbox.status sb) +:+ ")"))
  else guest_call (connect_and_hello (meta_to_handle (Sandbox.vmm_meta sb) id) id).

(** The header, the wake-up and the connection most guest calls start with. *)
Definition guest_of (p : Principal.t) (h : header) : handler (string * connection) :=
  id ← lift (sandbox_id_from_headers h);
  _ ← resume_for_io p id;
  c ← get_conn id p;
  mret (id, c).

Definition e2b_upload_file (p : Principal.t) (h : header) (path : string) (body : Bytes)
  : handler (list E2bEntryInfo.t) :=
  _ ← lift (validate_path path);
  _ ← lift (if (MAX_UPLOAD_BYTES <? length body)%nat
            then Err (ClouisleError.validation "file is too large") else Ok ());
  '(id, c) ← guest_of p h;
  _ ← guest_call (write_file c path body 420);
  mret [E2bEntryInfo.mk (base_name path) "file" path (Z.of_nat (length body)) 420].

Definition e2b_download_file (p : Principal.t) (h : header) (path : string) : handler Bytes :=
  _ ← lift (validate_path path);
  '(id, c) ← guest_of p h;
  guest_call (read_file c path).

Definition entry_path (dir name : string) : string :=
  if String.eqb dir "/" then "/" +:+ name else trim_end_matches "/" dir +:+ "/" +:+ name.

Definition e2b_list_dir (p : Principal.t) (h : header) (path : string)
  : handler (list E2bEntryInfo.t) :=
  _ ← lift (validate_path path);
  '(id, c) ← guest_of p h;
  entries ← guest_call (list_dir c path);
  mret ((λ e, E2bEntryInfo.mk (DirEntry.name e) (if DirEntry.is_dir e then "directory" else "file")
          (entry_path path (DirEntry.name e)) (DirEntry.size e) (DirEntry.mode e)) <$> entries).

Definition exec_filesystem (p : Principal.t) (h : header) (argv : list string)
  : handler ExecutionResult.t :=
  '(id, c) ← guest_of p h;
  guest_call (conn_exec c argv {["LC_ALL" := "C"]} None 30000).

Definition filesystem_entry (path entry_type : string) (size mode : Z) : Json :=
  let name := base_name path in
  JObj [("name", JStr (if is_empty name then "/" else name)); ("type", JStr entry_type);
        ("path", JStr path); ("size", JNum size); ("mode", JNum mode);
        ("permissions", JStr (show_octal mode)); ("owner", JStr ""); ("group", JStr "")].

Definition stat_entry (path : string) (stdout : Bytes) : Json :=
  let fields := split "|" (trim (from_utf8_lossy stdout)) in
  let kind := match fields !! 0%nat with
              | Some k => if contains_str "directory" k then "FILE_TYPE_DIRECTORY" else "FILE_TYPE_FILE"
              | None => "FILE_TYPE_FILE" end in
  let size := default 0 (fields !! 1%nat ≫= parse_unsigned u64_max) in
  let mode := default 420 (parse_octal (default "644" (fields !! 2%nat))) in
  filesystem_entry path kind size mode.

Definition filesystem_stat (p : Principal.t) (h : header) (path : string) : handler Json :=
  _ ← lift (validate_path path);
  r ← exec_filesystem p h ["stat"; "-c"; "%F|%s|%a"; path];
  if negb (ExecutionResult.exit_code r =? 0)
  then fail (ClouisleError.not_found ("path not found: " +:+ path))
  else mret (JObj [("entry", stat_entry path (ExecutionResult.stdout r))]).

(** The other file system calls fail with the command's error text. *)
Definition exec_checked (p : Principal.t) (h : header) (argv : list string) : handler () :=
  r ← exec_filesystem p h argv;
  if negb (ExecutionResult.exit_code r =? 0)
  then fail (ClouisleError.internal (trim (from_utf8_lossy (ExecutionResult.stderr r))))
  else mret ().

Definition filesystem_make_dir (p : Principal.t) (h : header) (path : string) : handler Json :=
  _ ← lift (validate_path path);
  _ ← exec_checked p h ["mkdir"; "-p"; path];
  mret (JObj [("entry", filesystem_entry path "FILE_TYPE_DIRECTORY" 0 493)]).

Definition filesystem_move (p : Principal.t) (h : header) (source destination : string) : handler Json :=
  _ ← lift (validate_path source);
  _ ← lift (validate_path destination);
  _ ← exec_checked p h ["mv"; source; destination];
  mret (JObj [("entry", filesystem_entry destination "FILE_TYPE_FILE" 0 420)]).

Definition filesystem_remove (p : Principal.t) (h : header) (path : string) : handler Z :=
  _ ← lift (validate_path path);
  _ ← exec_checked p h ["rm"; "-rf"; path];
  mret 200.

(** *** Watchers *)

Definition filesystem_create_watcher (p : Principal.t) (h : header) (path : string)
    (recursive include_entry : bool) : handler Json :=
  _ ← lift (validate_path path);
  id ← lift (sandbox_id_from_headers h);
  _ ← fetch_own p id;
  w ← e2b_call (E2bControlPlane.create_watcher (Principal.tenant_id p) id path recursive
        include_entry);
  mret (JObj [("watcherId", JStr (Watcher.watcher_id w))]).

Definition filesystem_get_watcher_events (p : Principal.t) (watcher : string) : handler Json :=
  events ← e2b_call (E2bControlPlane.watcher_events (Principal.tenant_id p) watcher);
  mret (JObj [("events", JArr events)]).

Definition filesystem_remove_watcher (p : Principal.t) (watcher : string) : handler Z :=
  _ ← e2b_call (E2bControlPlane.remove_watcher (Principal.tenant_id p) watcher);
  mret 204.

(** The first line of the stream a watched directory answers with. *)
Definition filesystem_watch_dir (p : Principal.t) (h : header) (path : string)
    (recursive include_entry : bool) : handler Json :=
  w ← filesystem_create_watcher p h path recursive include_entry;
  mret (JObj [("event", JObj [("start", JObj []);
    ("watcherId", JStr (default "" (get_str "watcherId" w)))])]).

(** *** Processes *)

(** [NEXT_PROCESS_ID.fetch_add(1)] wraps at 32 bits. *)
Definition next_process_id : handler Z :=
  n ← gets next_pid;
  _ ← modify (λ s, set_next_pid ((next_pid s + 1) mod 4294967296) s);
  mret n.

Definition register_session (id : string) (pid : Z) (config : Json) (tag : option string)
    (guest_id : string) (pty : bool) : handler nat :=
  x ← gets (λ s, create_session id pid config tag guest_id pty (processes s));
  _ ← modify (set_processes x.1);
  mret x.2.

(** [stream_session] on the session at [i]. *)
Definition stream_at (i : nat) : handler StreamStart :=
  o ← gets (λ s, heap (processes s) !! i);
  mret match o with Some x => stream_session x | None => Blocked end.

Definition pty_json (c : PtyConfig.t) : Json :=
  JObj [("cols", JNum (PtyConfig.cols c)); ("rows", JNum (PtyConfig.rows c))].

Definition process_config_json (c : E2bProcessConfig.t) : Json :=
  JObj [("cmd", JStr (E2bProcessConfig.cmd c)); ("args", jstrs (E2bProcessConfig.args c));
        ("envs", jmap (entries (E2bProcessConfig.envs c)));
        ("cwd", jopt JStr (E2bProcessConfig.cwd c)); ("tag", jopt JStr (E2bProcessConfig.tag c));
        ("pty", jopt pty_json (E2bProcessConfig.pty c));
        ("stdin", JBool (E2bProcessConfig.stdin c))].

(** [stream_process]: the process is started, its session is registered with the start
    event, and the pump becomes a job. *)
Definition stream_process (id : string) (c : connection) (config : E2bProcessConfig.t)
  : handler StreamStart :=
  pid ← next_process_id;
  let pty := bool_decide (is_Some (E2bProcessConfig.pty config)) in
  guest_id ← guest_call (start_process c (E2bProcessConfig.cmd config :: E2bProcessConfig.args config)
               (E2bProcessConfig.envs config) (E2bProcessConfig.cwd config)
               (default 30000 (E2bProcessConfig.timeout config)) (E2bProcessConfig.stdin config)
               (E2bProcessConfig.pty config));
  i ← register_session id pid (process_config_json config) (E2bProcessConfig.tag config)
        guest_id pty;
  start ← lift (process_start_event pid);
  _ ← modify (λ s, set_processes (publish_at i start (processes s)) s);
  response ← stream_at i;
  _ ← spawn (Pump i pty c guest_id);
  mret response.

Definition process_start (p : Principal.t) (h : header) (config : E2bProcessConfig.t)
  : handler StreamStart :=
  id ← lift (sandbox_id_from_headers h);
  _ ← resume_for_io p id;
  if is_empty (trim (E2bProcessConfig.cmd config))
  then fail (ClouisleError.validation "process.cmd is required")
  else
    c ← get_conn id p;
    stream_process id c config.

(** The pump's job: what the guest writes goes to the session. *)
Definition run_pump (i : nat) (pty : bool) (c : connection) (guest_id : string) : handler () :=
  o ← guest_run (stream_process_events c guest_id);
  modify (λ s, set_processes (pump_task i pty o (processes s)) s).

Definition session_json (x : ProcessSession.t) : Json :=
  JObj [("config", ProcessSession.config x); ("pid", JNum (ProcessSession.pid x)); ("tag", JNull)].

Definition process_list (p : Principal.t) (h : header) : handler Json :=
  id ← lift (sandbox_id_from_headers h);
  _ ← fetch_own p id;
  l ← gets (λ s, omap (λ i, heap (processes s) !! i) (list_sessions id (processes s)));
  mret (JObj [("processes", JArr (session_json <$> l))]).

Definition find_session (id : string) (sel : E2bProcessSelector.t) : handler (option nat) :=
  gets (λ s, match E2bProcessSelector.pid sel, E2bProcessSelector.tag sel with
             | Some pid, _ => get_session id pid (processes s)
             | None, Some tag => get_by_tag id tag (processes s)
             | None, None => None
             end).

Definition no_process {B} (id : string) : handler B :=
  fail (ClouisleError.not_found ("process not found in sandbox " +:+ id)).

Definition process_connect (p : Principal.t) (h : header) (sel : E2bProcessSelector.t)
  : handler StreamStart :=
  id ← lift (sandbox_id_from_headers h);
  _ ← resume_for_io p id;
  o ← find_session id sel;
  match o with Some i => stream_at i | None => no_process id end.

Definition resolve_process_session (p : Principal.t) (id : string) (sel : E2bProcessSelector.t)
  : handler ProcessSession.t :=
  _ ← fetch_own p id;
  o ← find_session id sel;
  x ← gets (λ s, o ≫= λ i, heap (processes s) !! i);
  match x with Some x => mret x | None => no_process id end.

(** The header, the wake-up and the session the calls on a process start with. *)
Definition session_of (p : Principal.t) (h : header) (sel : E2bProcessSelector.t)
  : handler (string * ProcessSession.t) :=
  id ← lift (sandbox_id_from_headers h);
  _ ← resume_for_io p id;
  x ← resolve_process_session p id sel;
  mret (id, x).

Definition decode_input (encoded : string) : result Bytes :=
  match base64_decode encoded with
  | inl e => Err (ClouisleError.validation ("input must be base64: " +:+ e))
  | inr b => Ok b
  end.

Definition process_send_input (p : Principal.t) (h : header) (sel : E2bProcessSelector.t)
    (input : E2bProcessInput.t) : handler Json :=
  '(id, x) ← session_of p h sel;
  encoded ← lift (ok_or (ClouisleError.validation "input.stdin or input.pty is required")
    match E2bProcessInput.stdin input with Some v => Some v | None => E2bProcessInput.pty input end);
  chunk ← lift (decode_input encoded);
  c ← get_conn id p;
  _ ← guest_call (send_stdin c (ProcessSession.guest_id x) chunk);
  mret (JObj []).

(** [event.data.input] of the message, and the selector and the text inside it. *)
Definition stream_selector (input : Json) : E2bProcessSelector.t :=
  let process := jget "process" input in
  E2bProcessSelector.mk
    (((process ≫= jget "pid") ≫= as_u64) ≫= λ z, if z <=? u32_max then Some z else None)
    ((process ≫= jget "tag") ≫= as_str).
Definition stream_text (input : Json) : option string :=
  let inner := jget "input" input in
  match inner ≫= jget "stdin" with Some v => Some v | None => inner ≫= jget "pty" end ≫= as_str.

Definition process_stream_input (p : Principal.t) (h : header) (request : Json) : handler Json :=
  input ← lift (ok_or (ClouisleError.validation "expected event.data.input message")
            ((jget "event" request ≫= jget "data") ≫= jget "input"));
  '(id, x) ← session_of p h (stream_selector input);
  encoded ← lift (ok_or (ClouisleError.validation "input.stdin is required") (stream_text input));
  chunk ← lift (decode_input encoded);
  c ← get_conn id p;
  _ ← guest_call (send_stdin c (ProcessSession.guest_id x) chunk);
  mret (JObj []).

Definition process_send_signal (p : Principal.t) (h : header) (sel : E2bProcessSelector.t)
    (signal : E2bSignal.t) : handler Json :=
  '(id, x) ← session_of p h sel;
  signal ← lift (E2bSignal.into_signal signal);
  c ← get_conn id p;
  _ ← guest_call (send_signal c (ProcessSession.guest_id x) signal);
  mret (JObj []).

Definition process_close_stdin (p : Principal.t) (h : header) (sel : E2bProcessSelector.t)
  : handler Json :=
  '(id, x) ← session_of p h sel;
  c ← get_conn id p;
  _ ← guest_call (close_stdin c (ProcessSession.guest_id x));
  mret (JObj []).

Definition process_update (p : Principal.t) (h : header) (sel : E2bProcessSelector.t)
    (size : option (Z * Z)) : handler Json :=
  '(id, x) ← session_of p h sel;
  if negb (ProcessSession.pty x)
  then fail (ClouisleError.validation ("process " +:+ show (ProcessSession.pid x)
              +:+ " is not a PTY session"))
  else match size with
  | None => fail (ClouisleError.validation "pty size is required for update")
  | Some (cols, rows) =>
    c ← get_conn id p;
    _ ← guest_call (resize_pty c (ProcessSession.guest_id x) cols rows);
    mret (JObj [])
  end.

(** *** envd *)

(** [body.get("envVars").as_object()], the string values. *)
Definition env_object (body : Json) : option (gmap string string) :=
  match jget "envVars" body with
  | Some (JObj l) => Some (list_to_map (omap (λ '(k, v), s ← as_str v; Some (k, s)) l))
  | _ => None
  end.

Definition envd_init (p : Principal.t) (h : header) (body : Json) : handler Z :=
  id ← lift (sandbox_id_from_headers h);
  sb ← fetch_own p id;
  _ ← match env_object body with
      | Some env =>
        t ← now;
        store_call (update_sandbox_spec id (SandboxSpec.set_env (Sandbox.spec sb) env) t)
      | None => mret ()
      end;
  mret 204.

Definition envd_envs (p : Principal.t) (h : header) : handler (gmap string string) :=
  id ← lift (sandbox_id_from_headers h);
  sb ← fetch_own p id;
  mret (SandboxSpec.env (Sandbox.spec sb)).

(** [mb * 1024 * 1024] on 64 bits, unchecked in a release build. *)
Definition mb_to_bytes (mb : Z) : Z := mb * 1048576 mod 18446744073709551616.

Definition no_stats : VmStats.t := VmStats.mk None None None None None.
Definition usage_json (sp : SandboxSpec.t) (st : VmStats.t) : list (string * Json) :=
  [("cpuCount", JNum (Resources.vcpu (SandboxSpec.resources sp)));
   ("cpuUsedPct", JFloat (default F64.zero (VmStats.vcpu_usage st)));
   ("memUsed", JNum (mb_to_bytes (default 0 (VmStats.mem_used_mb st))));
   ("memTotal", JNum (mb_to_bytes (Resources.memory_mb (SandboxSpec.resources sp))))].
Definition disk_json (sp : SandboxSpec.t) : list (string * Json) :=
  [("diskUsed", JNum 0); ("diskTotal", JNum (mb_to_bytes (Resources.disk_mb (SandboxSpec.resources sp))))].

Definition machine_stats (sb : Sandbox.t) : handler VmStats.t :=
  catch (vmm_call (stats (handle_for sb))) (λ _, mret no_stats).

Definition envd_metrics (p : Principal.t) (h : header) : handler Json :=
  id ← lift (sandbox_id_from_headers h);
  sb ← fetch_own p id;
  st ← machine_stats sb;
  mret (JObj (usage_json (Sandbox.spec sb) st ++ disk_json (Sandbox.spec sb))).

Definition remove_sources (c : connection) (paths : list string) : handler () :=
  for_each (λ path, quiet (guest_call (conn_exec c ["rm"; "-f"; path] ∅ None 30000))) paths.

Definition envd_compose (p : Principal.t) (h : header) (sources : list string) (destination : string)
  : handler Json :=
  _ ← lift (if bool_decide (sources = []) || is_empty destination
            then Err (ClouisleError.validation "source_paths and destination are required") else Ok ());
  _ ← lift (validate_path destination);
  _ ← for_each (λ path, lift (validate_path path)) sources;
  '(id, c) ← guest_of p h;
  parts ← collect (λ path, guest_call (read_file c path)) sources;
  _ ← guest_call (write_file c destination (concat parts) 420);
  _ ← remove_sources c sources;
  mret (JObj [("path", JStr destination); ("name", JStr (base_name destination));
              ("type", JStr "file")]).
End handlers.
