(* ===== verification/CloudHandlers.v ===== *)
(** * Handlers of the E2B team surface ([crates/clouisle-api/src/handlers/e2b_cloud.rs])

    Teams, keys and tokens, volumes, templates and their builds, snapshots and forks,
    metrics, and the administrator's calls, over the E2B control plane and the shared
    state.  A query string is a map; a header is absent, a text, or a value that is no
    text. *)

From S2P Require Import Prelude Core SandboxModel Admission Vmm Pool Proto Guest Digest Dns Net.
From S2P Require Import Placement Store Json Auth E2bCloud Processes E2bModel AppState Lifecycle E2bHandlers.

Abbreviation query := (gmap string string).

(** An answer: a status, a JSON body, and the header [x-next-token]. *)
Record Reply : Type := reply { reply_status : Z; reply_body : Json; reply_next : option string }.
Definition response (status : Z) (body : Json) : Reply := reply status body None.

(** ** Guards *)

Definition team_header (h : header) (p : Principal.t) : result string :=
  if bool_decide (is_Some (Principal.volume_id p))
  then Err (ClouisleError.mk ErrorKind.Forbidden "volume credential cannot manage team resources")
  else match h with
  | None => Ok (Principal.tenant_id p)
  | Some None => Err (ClouisleError.validation "invalid X-Team-ID")
  | Some (Some requested) =>
    if String.eqb requested (Principal.tenant_id p) then Ok (Principal.tenant_id p)
    else Err (ClouisleError.not_found "team not found")
  end.

Definition require_volume_access (p : Principal.t) (volume_id : string) : result () :=
  match Principal.volume_id p with
  | Some allowed => if String.eqb allowed volume_id then Ok ()
                    else Err (ClouisleError.not_found "volume not found")
  | None => Ok ()
  end.

Definition require_admin (token : option string) (x_admin authorization : header) : result () :=
  let supplied := credential_of <$> header_or x_admin authorization in
  match token with
  | Some t => if bool_decide (supplied = Some t) then Ok ()
              else Err (ClouisleError.mk ErrorKind.Forbidden "admin authentication required")
  | None => Err (ClouisleError.mk ErrorKind.Forbidden "admin authentication required")
  end.

(** [headers.get("x-team-id")] and the team of the path must agree. *)
Definition same_team (h : header) (p : Principal.t) (team : string) : result () :=
  current ← team_header h p;
  if String.eqb current team then Ok () else Err (ClouisleError.not_found "team not found").

(** [&id[..id.len().min(8)]] panics inside a character. *)
Definition team_json (x : Team.t) : result Json :=
  short ← slice_to (Nat.min (String.length (Team.team_id x)) 8) (Team.team_id x);
  Ok (JObj [("teamID", JStr (Team.team_id x)); ("name", JStr (Team.name x));
            ("apiKey", JStr ("team_" +:+ short)); ("isDefault", JBool (Team.is_default x))]).

(** [value.parse::<usize>().ok()]. *)
Definition query_usize (key : string) (q : query) : option nat :=
  Z.to_nat <$> (q !! key ≫= parse_unsigned u64_max).

Definition page {B} (items : list B) (q : query) : list B * option string :=
  let '(offset, end_, next) :=
    page_window (query_usize "nextToken" q) (query_usize "limit" q) (length items) in
  (drop offset (take end_ items), next).

Definition name_field (body : Json) : result string :=
  ok_or (ClouisleError.validation "name is required") (get_str "name" body).

Definition requested_scope (body : Json) : ScopeRecord.t :=
  match get_str "scope" body with
  | Some s => if String.eqb s "read" then ScopeRecord.Read
              else if String.eqb s "admin" then ScopeRecord.Admin else ScopeRecord.Full
  | None => ScopeRecord.Full
  end.

Definition or_else {B} (a b : option B) : option B := match a with Some x => Some x | None => b end.

(** The path of a volume request. *)
Definition query_path (q : query) : string := default "/" (q !! "path").

(** [trim_matches('/')]. *)
Definition trim_slashes (s : string) : string := trim_end_matches "/" (trim_start_matches "/" s).

Section handlers.
Context {S : Semaphore} {ST : Store} {V : Vmm} {O : Os} {D : Deployment} {A : Agent}
  {H : Sha256} {T : Timeouts} {C : Chrono} {HO : HashOrder} {CE : CloudEnv} {W : Wire}.

Definition jdate (t : Z) : Json := JStr (rfc3339 t).

Definition template_json (x : Template.t) (b : option Build.t) : Json :=
  JObj [("templateID", JStr (Template.template_id x));
    ("buildID", JStr (default "" (or_else (Template.latest_build_id x) (Build.build_id <$> b))));
    ("cpuCount", JNum 1); ("memoryMB", JNum 128); ("diskSizeMB", JNum 1024);
    ("public", JBool (Template.public x)); ("aliases", jstrs (Template.aliases x));
    ("names", jstrs (Template.names x)); ("tags", jstrs (Template.tags x));
    ("createdAt", jdate (Template.created_at x)); ("updatedAt", jdate (Template.updated_at x));
    ("createdBy", JNull); ("lastSpawnedAt", JNull); ("spawnCount", JNum 0);
    ("buildCount", JNum (Z.of_nat (length (Template.build_ids x))));
    ("envdVersion", JStr pkg_version);
    ("buildStatus", JStr (default "unknown" (Build.status <$> b)))].

Definition build_json (b : Build.t) : Json :=
  JObj [("buildID", JStr (Build.build_id b)); ("templateID", JStr (Build.template_id b));
    ("status", JStr (Build.status b)); ("createdAt", jdate (Build.created_at b));
    ("updatedAt", jdate (Build.updated_at b))].

Definition snapshot_json (x : Snapshot.t) : Json :=
  JObj [("snapshotID", JStr (Snapshot.snapshot_id x)); ("sandboxID", JStr (Snapshot.sandbox_id x));
    ("names", jstrs (option_list (Snapshot.name x))); ("createdAt", jdate (Snapshot.created_at x))].

(** ** Teams *)

Definition list_teams (p : Principal.t) (h : header) : handler (list Json) :=
  team ← lift (team_header h p);
  l ← e2b_call (E2bControlPlane.list_teams team);
  lift (map_res team_json l).

Definition create_team (p : Principal.t) (body : Json) : handler Reply :=
  name ← lift (name_field body);
  x ← e2b_call (E2bControlPlane.ensure_team (Principal.tenant_id p) (Some name));
  j ← lift (team_json x);
  mret (response 201 j).

Definition team_members (p : Principal.t) (h : header) (team : string) : handler (list Json) :=
  _ ← lift (same_team h p team);
  l ← e2b_call (E2bControlPlane.team_members team);
  mret ((λ m, JObj [("id", JStr (Member.user_id m)); ("email", jopt JStr (Member.email m));
                    ("role", JStr (Member.role m))]) <$> l).

Definition active_of (team : string) (rows : list Sandbox.t) : nat :=
  length (List.filter (λ sb, bool_decide (SandboxSpec.tenant_id (Sandbox.spec sb) = Some team)
                             && SandboxStatus.is_active (Sandbox.status sb)) rows).

(** ["timestamp": Utc::now(), "timestampUnix": Utc::now().timestamp()]. *)
Definition stamps : handler (list (string * Json)) :=
  t ← now;
  t' ← now;
  mret [("timestamp", jdate t); ("timestampUnix", JNum (t' / ns_per_sec))].

Definition team_metrics (p : Principal.t) (h : header) (team : string) : handler (list Json) :=
  _ ← lift (same_team h p team);
  t ← now;
  rows ← store_call (list_sandboxes None t);
  st ← stamps;
  mret [JObj (st ++ [("concurrentSandboxes", JNum (Z.of_nat (active_of team rows)));
                     ("sandboxStartRate", JFloat F64.zero)])].

Definition team_metrics_max (p : Principal.t) (h : header) (team : string) (q : query)
  : handler (list Json) :=
  _ ← lift (same_team h p team);
  metric ← lift (ok_or (ClouisleError.validation "metric is required") (q !! "metric"));
  if negb (String.eqb metric "concurrent_sandboxes" || String.eqb metric "sandbox_start_rate")
  then fail (ClouisleError.validation "unknown metric")
  else
    value ← (if String.eqb metric "concurrent_sandboxes"
             then t ← now;
                  rows ← store_call (list_sandboxes None t);
                  mret (F64.of_Z (Z.of_nat (active_of team rows)))
             else mret F64.zero);
    st ← stamps;
    mret [JObj (st ++ [("value", JFloat value)])].

(** ** Keys and tokens *)

Definition api_keys (p : Principal.t) (h : header) : handler (list Json) :=
  team ← lift (team_header h p);
  e2b_call (E2bControlPlane.list_api_keys team).

(** A created credential is registered with the filter at once. *)
Definition register_created (raw_field team : string) (scope : Scope.t) (created : Json) : handler () :=
  match get_str "id" created, get_str raw_field created with
  | Some id, Some raw =>
    modify (λ s, set_auth (Authenticator.register_with_id id raw team scope (auth s)) s)
  | _, _ => mret ()
  end.
Definition revoke (id : string) : handler () :=
  modify (λ s, set_auth (Authenticator.revoke_id id (auth s)) s).

Definition create_key (p : Principal.t) (h : header) (body : Json) : handler Reply :=
  team ← lift (team_header h p);
  name ← lift (name_field body);
  let scope := requested_scope body in
  created ← e2b_call (E2bControlPlane.create_api_key team name scope);
  _ ← register_created "key" team (ScopeRecord.into_scope scope) created;
  mret (response 201 created).

Definition update_key (p : Principal.t) (h : header) (id : string) (body : Json) : handler Z :=
  team ← lift (team_header h p);
  name ← lift (name_field body);
  _ ← e2b_call (E2bControlPlane.update_api_key team id name);
  mret 200.

Definition delete_key (p : Principal.t) (h : header) (id : string) : handler Z :=
  team ← lift (team_header h p);
  _ ← e2b_call (E2bControlPlane.delete_api_key team id);
  _ ← revoke id;
  mret 204.

Definition create_token (p : Principal.t) (body : Json) : handler Reply :=
  name ← lift (name_field body);
  created ← e2b_call (E2bControlPlane.create_access_token (Principal.tenant_id p) name);
  _ ← register_created "token" (Principal.tenant_id p) Scope.Full created;
  mret (response 201 created).

Definition delete_token (p : Principal.t) (id : string) : handler Z :=
  _ ← e2b_call (E2bControlPlane.delete_access_token (Principal.tenant_id p) id);
  _ ← revoke id;
  mret 204.

(** ** Volumes *)

Definition list_volumes (p : Principal.t) (h : header) : handler (list Json) :=
  team ← lift (team_header h p);
  e2b_call (E2bControlPlane.list_volumes team).

Definition create_volume (p : Principal.t) (h : header) (body : Json) : handler Reply :=
  team ← lift (team_header h p);
  name ← lift (name_field body);
  created ← e2b_call (E2bControlPlane.create_volume team name);
  mret (response 201 created).

Definition get_volume (p : Principal.t) (h : header) (id : string) : handler Json :=
  team ← lift (team_header h p);
  e2b_call (E2bControlPlane.get_volume team id).

Definition delete_volume (p : Principal.t) (h : header) (id : string) : handler Z :=
  team ← lift (team_header h p);
  _ ← e2b_call (E2bControlPlane.delete_volume team id);
  mret 204.

Definition volume_path (p : Principal.t) (id : string) (q : query) : handler Reply :=
  _ ← lift (require_volume_access p id);
  let path := query_path q in
  o ← e2b_try (E2bControlPlane.get_volume_file (Principal.tenant_id p) id path);
  match o with
  | inr f => mret (response 200 (JObj [("name", JStr (base_name path)); ("path", JStr path);
      ("type", JStr "file"); ("size", JNum (Z.of_nat (length (VolumeFile.content f))));
      ("mode", JNum (VolumeFile.mode f)); ("modifiedTime", jdate (VolumeFile.modified_at f));
      ("metadata", jmap (entries (VolumeFile.metadata f)))]))
  | inl (ControlPlaneError.NotFound _) =>
    mret (response 200 (JObj [("name", JStr (base_name (trim_slashes path))); ("path", JStr path);
      ("type", JStr "directory"); ("size", JNum 0); ("mode", JNum 493)]))
  | inl e => fail (ControlPlaneError.into e)
  end.

Definition file_json (path : string) : Json :=
  JObj [("name", JStr (base_name path)); ("path", JStr path); ("type", JStr "file")].

Definition volume_dir (p : Principal.t) (id : string) (q : query) : handler (list Json) :=
  _ ← lift (require_volume_access p id);
  l ← e2b_call (E2bControlPlane.list_volume_files (Principal.tenant_id p) id (query_path q));
  mret (file_json <$> l).

(** The headers [x-metadata-*] of an upload (names are lower case, a value may be no
    text); of two with one name the later counts. *)
Definition upload_metadata (headers : list (string * option string)) : gmap string string :=
  list_to_map (reverse (omap (λ '(k, v),
    n ← strip_prefix "x-metadata-" k; x ← v; Some (n, x)) headers)).

Definition volume_get (p : Principal.t) (id : string) (q : query) : handler Bytes :=
  _ ← lift (require_volume_access p id);
  f ← e2b_call (E2bControlPlane.get_volume_file (Principal.tenant_id p) id (query_path q));
  mret (VolumeFile.content f).

Definition volume_put (p : Principal.t) (headers : list (string * option string)) (id : string)
    (q : query) (body : Bytes) : handler Reply :=
  _ ← lift (require_volume_access p id);
  let path := query_path q in
  _ ← e2b_call (E2bControlPlane.put_volume_file (Principal.tenant_id p) id path body
        (upload_metadata headers));
  mret (response 200 (JArr [JObj [("path", JStr path); ("name", JStr (base_name path));
                                  ("type", JStr "file")]])).

(** ** Templates and builds *)

Definition list_templates (p : Principal.t) (q : query) : handler Reply :=
  l ← e2b_call (E2bControlPlane.list_templates (Principal.tenant_id p));
  let '(items, next) := page ((λ x, template_json x None) <$> l) q in
  mret (reply 200 (JArr items) next).

Definition create_template_v3 (p : Principal.t) (body : Json) : handler Reply :=
  let team := Principal.tenant_id p in
  x ← e2b_call (E2bControlPlane.create_template team
        (or_else (get_str "name" body) (get_str "alias" body)) (get_str "alias" body)
        (default false (jget "public" body ≫= as_bool))
        (or_else (jget "image" body) (jget "fromImage" body) ≫= as_str));
  x ← (if bool_decide (is_Some (jget "tags" body))
       then e2b_call (E2bControlPlane.update_template team (Template.template_id x) body)
       else mret x);
  b ← e2b_call (E2bControlPlane.create_build team (Template.template_id x) body
        (Template.image_reference x));
  _ ← spawn (BuildImage team b);
  mret (response 202 (JObj [("templateID", JStr (Template.template_id x));
    ("buildID", JStr (Build.build_id b)); ("public", JBool (Template.public x));
    ("aliases", jstrs (Template.aliases x)); ("names", jstrs (Template.names x));
    ("tags", jstrs (Template.tags x))])).

Definition create_template_v2 (p : Principal.t) (body : Json) : handler Reply :=
  create_template_v3 p body.

(** [warm_pool.warm(&spec).await.is_some()]. *)
Definition warm_template (sp : SandboxSpec.t) : handler bool :=
  uid ← fresh_uuid;
  t ← now;
  t' ← now;
  slot ← pool_run (Pool.warm key_hash sp uid t t');
  mret (bool_decide (is_Some slot)).

Definition build_image (b : Build.t) : option string :=
  or_else (Build.image_reference b)
    (or_else (get_str "fromImage" (Build.request b)) (get_str "image" (Build.request b))).

Definition build_image_if_possible (team : string) (b : Build.t) : handler Build.t :=
  let id := Build.build_id b in
  current ← e2b_try (E2bControlPlane.build team id);
  let cancelled := match current with
    | inr c => if String.eqb (Build.status c) "cancelled" then Some c else None
    | inl _ => None
    end in
  match cancelled, build_image b with
  | Some c, _ => mret c
  | None, None =>
    e2b_call (E2bControlPlane.update_build team id "failed" (Some (JObj [("message", JStr
      ("template build requires an OCI image reference; " +:+ "Dockerfile builder is not configured"))])))
  | None, Some image =>
    let sp := SandboxSpec.set_image SandboxSpec.default
                (ImageRef.mk image (ImageRef.digest (SandboxSpec.image SandboxSpec.default))) in
    _ ← e2b_call (E2bControlPlane.update_build team id "running" None);
    r ← attempt (vmm_call (prefetch_image sp));
    match r with
    | Ok _ =>
      requested ← (if supports_detached_warm_pool then warm_template sp else mret false);
      e2b_call (E2bControlPlane.update_build team id "succeeded"
        (Some (JObj [("message", JStr "OCI image prepared"); ("warmSlotRequested", JBool requested)])))
    | Err e =>
      e2b_call (E2bControlPlane.update_build team id "failed"
        (Some (JObj [("message", JStr (ClouisleError.message e))])))
    | Panic => lift Panic
    end
  end.

Definition get_template (p : Principal.t) (id : string) : handler Json :=
  let team := Principal.tenant_id p in
  x ← e2b_call (E2bControlPlane.template team id);
  b ← match Template.latest_build_id x with
      | Some i =>
        o ← e2b_try (E2bControlPlane.build team i);
        mret match o with inr b => Some b | inl _ => None end
      | None => mret None
      end;
  mret (template_json x b).

Definition list_template_builds (p : Principal.t) (id : string) : handler (list Json) :=
  let team := Principal.tenant_id p in
  x ← e2b_call (E2bControlPlane.template team id);
  l ← collect (λ i, e2b_try (E2bControlPlane.build team i)) (Template.build_ids x);
  mret (omap (λ o, match o with inr b => Some (build_json b) | inl _ => None end) l).

Definition start_template_build (p : Principal.t) (template_id build_id : string) : handler Z :=
  let team := Principal.tenant_id p in
  b ← e2b_call (E2bControlPlane.build team build_id);
  if negb (String.eqb (Build.template_id b) template_id)
  then fail (ClouisleError.not_found "build not found")
  else
    _ ← spawn (BuildImage team b);
    mret 202.

Definition build_template_v2 (p : Principal.t) (template_id build_id : string) : handler Z :=
  start_template_build p template_id build_id.

Definition get_build_status (p : Principal.t) (build_id : string) : handler Json :=
  b ← e2b_call (E2bControlPlane.build (Principal.tenant_id p) build_id);
  mret (build_json b).

Definition get_build_logs (p : Principal.t) (build_id : string) : handler (list Json) :=
  b ← e2b_call (E2bControlPlane.build (Principal.tenant_id p) build_id);
  mret (Build.logs b).

Fixpoint add_tags (team id : string) (tags : list string) (x : Template.t) : handler Template.t :=
  match tags with
  | [] => mret x
  | g :: tags' =>
    x ← e2b_call (E2bControlPlane.add_template_tag team id g);
    add_tags team id tags' x
  end.

Definition assign_template_tags (p : Principal.t) (body : Json) : handler Json :=
  let team := Principal.tenant_id p in
  id ← lift (ok_or (ClouisleError.validation "templateID is required") (get_str "templateID" body));
  tags ← lift (ok_or (ClouisleError.validation "tags is required") (jget "tags" body ≫= as_array));
  x ← e2b_call (E2bControlPlane.template team id);
  x ← add_tags team id (omap as_str tags) x;
  mret (JObj [("tags", jstrs (Template.tags x))]).

Definition list_template_tags (p : Principal.t) (id : string) : handler Json :=
  x ← e2b_call (E2bControlPlane.template (Principal.tenant_id p) id);
  mret (JObj [("tags", jstrs (Template.tags x))]).

Definition resolve_template_alias (p : Principal.t) (alias : string) : handler Json :=
  l ← e2b_call (E2bControlPlane.list_templates (Principal.tenant_id p));
  x ← lift (ok_or (ClouisleError.not_found "template alias not found")
        (List.find (λ x, existsb (String.eqb alias) (Template.aliases x)
                         || existsb (String.eqb alias) (Template.names x)) l));
  mret (JObj [("templateID", JStr (Template.template_id x)); ("public", JBool (Template.public x))]).

Definition update_template (p : Principal.t) (id : string) (body : Json) : handler Json :=
  x ← e2b_call (E2bControlPlane.update_template (Principal.tenant_id p) id body);
  mret (template_json x None).

Definition template_tag_response (p : Principal.t) : handler Json :=
  _ ← e2b_call (E2bControlPlane.ensure_team (Principal.tenant_id p) None);
  mret (JObj [("templateID", JStr ""); ("public", JBool false)]).

Definition template_build_upload (body : Bytes) : handler Z :=
  if (1073741824 <? Z.of_nat (length body)) then fail (ClouisleError.validation "template upload too large")
  else mret 204.

(** ** Sandboxes of the team *)

(** [get_sandbox] and the comparison of the tenant. *)
Definition team_sandbox (p : Principal.t) (id : string) : handler Sandbox.t :=
  sb ← fetch id;
  if bool_decide (SandboxSpec.tenant_id (Sandbox.spec sb) = Some (Principal.tenant_id p))
  then mret sb else fail (ClouisleError.not_found "sandbox not found").

Definition log_lines (r : ExecutionRecord.t) : list Json :=
  let fields := JObj [("executionID", JStr (ExecutionRecord.id r));
                      ("exitCode", JStr (show_signed (ExecutionRecord.exit_code r)))] in
  let line level b :=
    if bool_decide (b = []) then []
    else let message := JStr (from_utf8_lossy b) in
      [JObj [("timestamp", jdate (ExecutionRecord.finished_at r)); ("level", JStr level);
             ("message", message); ("line", message); ("fields", fields)]] in
  line "info"%string (ExecutionRecord.stdout r) ++ line "error"%string (ExecutionRecord.stderr r).

Definition sandbox_logs (p : Principal.t) (id : string) : handler Json :=
  _ ← team_sandbox p id;
  t ← now;
  records ← store_call (list_executions id t);
  let logs := JArr (records ≫= log_lines) in
  mret (JObj [("logs", logs); ("logEntries", logs)]).

Definition sandbox_metrics (p : Principal.t) (id : string) : handler Json :=
  sb ← team_sandbox p id;
  st ← (if has_machine sb then machine_stats sb else mret no_stats);
  ts ← stamps;
  mret (JObj (ts ++ usage_json (Sandbox.spec sb) st ++ [("memCache", JNum 0)]
              ++ disk_json (Sandbox.spec sb))).

(** The ids of the query that are the team's; an unknown one is left out. *)
Definition metrics_of (p : Principal.t) (id : string) : handler (option (string * Json)) :=
  o ← attempt (team_sandbox p id);
  match o with
  | Ok sb =>
    ts ← stamps;
    mret (Some (id, JObj (ts ++ usage_json (Sandbox.spec sb) no_stats ++ [("memCache", JNum 0)]
                          ++ disk_json (Sandbox.spec sb))))
  | _ => mret None
  end.

Definition list_sandbox_metrics (p : Principal.t) (q : query) : handler Json :=
  let ids := default "" (or_else (q !! "sandboxIDs") (q !! "sandboxIds")) in
  l ← collect (metrics_of p) (List.filter (λ i, negb (is_empty i)) (split "," ids));
  mret (JObj [("sandboxes",
    JObj (entries (list_to_map (reverse (omap id l)) : gmap string Json)))]).

(** ** Snapshots and forks *)

Definition snapshot_root : string := "/data/e2b/snapshots".

(** The machine is paused for the snapshot and resumed after it, whatever came of
    it; its vsock socket file is removed. *)
Definition take_snapshot (sb : Sandbox.t) (file_id : string) : handler SnapshotPaths.t :=
  let h := handle_for sb in
  let root := snapshot_root +:+ "/" +:+ file_id in
  _ ← make_dir (λ e, ClouisleError.internal ("create snapshot directory: " +:+ e)) snapshot_root;
  let paths := SnapshotPaths.mk (root +:+ ".state") (root +:+ ".mem") in
  _ ← vmm_call (pause h);
  _ ← match VmHandle.vsock_socket h with Some f => unlink f | None => mret () end;
  result ← attempt (vmm_call (snapshot h SnapshotKind.Full paths));
  _ ← quiet (vmm_call (resume h));
  _ ← lift result;
  mret paths.

Definition create_snapshot (p : Principal.t) (id : string) (body : Json) : handler Reply :=
  sb ← team_sandbox p id;
  if negb (VmmCapabilities.snapshot capabilities) || negb (has_machine sb)
  then fail (ClouisleError.invalid_state "snapshot is unavailable for this runtime")
  else
    snapshot_id ← fresh_uuid;
    paths ← take_snapshot sb snapshot_id;
    x ← e2b_call (E2bControlPlane.create_snapshot (Principal.tenant_id p) id (get_str "name" body)
          (SnapshotPaths.state_path paths) (SnapshotPaths.mem_path paths));
    mret (response 201 (snapshot_json x)).

Definition list_snapshots (p : Principal.t) (q : query) : handler Reply :=
  l ← e2b_call (E2bControlPlane.list_snapshots (Principal.tenant_id p));
  let values := snapshot_json <$> l in
  let values := match q !! "sandboxID" with
    | Some source => List.filter (λ v, bool_decide (get_str "sandboxID" v = Some source)) values
    | None => values
    end in
  let '(items, next) := page values q in
  mret (reply 200 (JArr items) next).

(** The second and third part of ["10.a.b.0/30"]. *)
Definition parse_subnet (s : string) : option (Z * Z) :=
  let parts := split "." s in
  a ← parts !! 1%nat ≫= parse_unsigned u16_max;
  b ← parts !! 2%nat ≫= parse_unsigned u16_max;
  Some (a, b).

Definition fork_paths (p : Principal.t) (source : Sandbox.t) (body : Json) : handler SnapshotPaths.t :=
  let team := Principal.tenant_id p in
  match get_str "snapshotID" body with
  | Some i =>
    x ← e2b_call (E2bControlPlane.snapshot team i);
    mret (SnapshotPaths.mk (Snapshot.state_path x) (Snapshot.memory_path x))
  | None =>
    file_id ← fresh_uuid;
    paths ← take_snapshot source file_id;
    _ ← e2b_call (E2bControlPlane.create_snapshot team (Sandbox.id source)
          (Some ("fork-" +:+ file_id)) (SnapshotPaths.state_path paths)
          (SnapshotPaths.mem_path paths));
    mret paths
  end.

(** One fork: the row of the clone, and its job; a row that cannot be written gives the
    reservation back and an error entry. *)
Definition fork_one (source : Sandbox.t) (timeout : Z) (paths : SnapshotPaths.t)
    (sub : option (Z * Z)) : handler Json :=
  let sp := SandboxSpec.set_ttl (Sandbox.spec source) (Some timeout) in
  id ← fresh_uuid;
  t ← now;
  let fork := Sandbox.set_status (Sandbox.new id sp t) SandboxStatus.Starting t in
  r ← reserve sp;
  o ← scoped r (store_try (create_sandbox fork));
  match o with
  | inr _ =>
    _ ← spawn (Fork fork r paths sub);
    v ← lift (from_sandbox fork);
    mret (JObj [("sandbox", e2b_sandbox_json v)])
  | inl e =>
    _ ← modify (drop_reservation r);
    mret (JObj [("error", JObj [("code", JStr "INTERNAL");
                                ("message", JStr (StoreError.display e))])])
  end.

Definition fork_count (body : Json) : nat :=
  Z.to_nat (Z.min (Z.max (default 1 (jget "count" body ≫= as_u64)) 1) 100).

Definition fork_sandbox (p : Principal.t) (id : string) (body : Json) : handler (list Json) :=
  source ← team_sandbox p id;
  if negb (VmmCapabilities.snapshot capabilities) || negb (has_machine source)
  then fail (ClouisleError.invalid_state "fork requires an active snapshot-capable runtime")
  else
    paths ← fork_paths p source body;
    let sub := parse_subnet (subnet (Sandbox.id source)) in
    let timeout := default 15 (jget "timeout" body ≫= as_u64) in
    collect (λ _, fork_one source timeout paths sub) (seq 0 (fork_count body)).

(** ** The administrator *)

Definition admin_guard (x_admin authorization : header) : handler () :=
  lift (require_admin admin_token x_admin authorization).

(** One sandbox of the team: [true] when its row was deleted. *)
Definition kill_one (sb : Sandbox.t) : handler bool :=
  let id := Sandbox.id sb in
  slot ← take_warm_slot id;
  _ ← match slot with
      | Some x => modify (discard_slot x)
      | None => when (has_machine sb) (quiet (vmm_call (stop (handle_for sb) StopMode.Force)))
      end;
  _ ← teardown_network id sb;
  o ← attempt (store_call (delete_sandbox id));
  match o with
  | Ok _ => _ ← modify (remove_reservation id); mret true
  | _ => mret false
  end.

Definition admin_kill_team (x_admin authorization : header) (team : string) : handler Json :=
  _ ← admin_guard x_admin authorization;
  t ← now;
  rows ← store_call (list_sandboxes None t);
  l ← collect kill_one (List.filter
        (λ sb, bool_decide (SandboxSpec.tenant_id (Sandbox.spec sb) = Some team)) rows);
  let killed := length (List.filter (λ b, b) l) in
  mret (JObj [("killedCount", JNum (Z.of_nat killed));
              ("failedCount", JNum (Z.of_nat (length l - killed)))]).

Definition admin_create_key (x_admin authorization : header) (team : string) (body : Json)
  : handler Reply :=
  _ ← admin_guard x_admin authorization;
  created ← e2b_call (E2bControlPlane.create_api_key team (default "admin-key" (get_str "name" body))
              ScopeRecord.Full);
  _ ← register_created "key" team Scope.Full created;
  mret (response 201 created).

Definition admin_delete_key (x_admin authorization : header) (team id : string) : handler Z :=
  _ ← admin_guard x_admin authorization;
  _ ← e2b_call (E2bControlPlane.delete_api_key team id);
  _ ← revoke id;
  mret 204.

(** [cancel_builds] and [admin_cancel_builds]. *)
Definition admin_cancel_builds (x_admin authorization : header) (team : string) : handler Json :=
  _ ← admin_guard x_admin authorization;
  '(cancelled, failed) ← e2b_call (E2bControlPlane.cancel_builds team);
  mret (JObj [("cancelledCount", JNum (Z.of_nat cancelled)); ("failedCount", JNum (Z.of_nat failed))]).

(** ** Nodes: what the JSON shows of them is in the records *)

Definition list_nodes : handler (list RegisteredNode.t) :=
  t ← now;
  store_call (list_ready_nodes (timestamp_millis t)).

Definition get_node (id : string) : handler RegisteredNode.t :=
  l ← list_nodes;
  lift (ok_or (ClouisleError.not_found "node not found")
    (List.find (λ n, String.eqb (NodeInfo.node_id (RegisteredNode.info n)) id) l)).
End handlers.
