(* ===== verification/ApiHandlers.v ===== *)
(** * The remaining handlers of the native surface
    ([crates/clouisle-api/src/handlers/{exec,files,images,nodes,health}.rs])

    Command execution with its history, file transfer, image prefetch, the node
    registry and the health probes. *)

From S2P Require Import Prelude Core SandboxModel Admission Vmm Pool Proto Guest Digest Dns Net.
From S2P Require Import Placement Store Json Auth E2bCloud Processes E2bModel AppState Lifecycle E2bHandlers.

Module ExecRequest.
Record t : Type := mk {
  argv : list string;
  env : gmap string string;
  cwd : option string;
  timeout_ms : Z }.
End ExecRequest.

Module ExecResponse.
Record t : Set := mk {
  exec_id : string;
  exit_code : Z;
  stdout : string;
  stderr : string;
  duration_ms : Z;
  timed_out : bool;
  stdout_truncated : bool;
  stderr_truncated : bool }.
End ExecResponse.

(** A server-sent event: its name and its data. *)
Definition sse (e : ExecStreamEvent) : string * string :=
  match e with
  | EvStdout b => ("stdout", from_utf8_lossy b)
  | EvStderr b => ("stderr", from_utf8_lossy b)
  | EvExit code => ("exit", show_signed code)
  | EvError m => ("error", m)
  end.

Section handlers.
Context {S : Semaphore} {ST : Store} {V : Vmm} {O : Os} {D : Deployment} {A : Agent}
  {H : Sha256} {T : Timeouts} {C : Chrono} {HO : HashOrder} {CE : CloudEnv}.

(** ** Execution *)

Definition ensure_executable (id : string) (p : Principal.t) : handler Sandbox.t :=
  sb ← fetch_own p id;
  if negb (Sandbox.is_executable sb)
  then fail (ClouisleError.invalid_state ("sandbox " +:+ id +:+ " is not running (status="
              +:+ SandboxStatus.as_str (Sandbox.status sb) +:+ ")"))
  else mret sb.

(** The specification of a request: the request's variables over the sandbox's. *)
Definition exec_spec (sb : Sandbox.t) (r : ExecRequest.t) : ExecutionSpec.t :=
  ExecutionSpec.mk (ExecRequest.argv r) (ExecRequest.env r ∪ SandboxSpec.env (Sandbox.spec sb))
    (ExecRequest.cwd r) (ExecRequest.timeout_ms r).

Definition exec_sync (p : Principal.t) (id : string) (r : ExecRequest.t) : handler ExecResponse.t :=
  sb ← ensure_executable id p;
  let spec := exec_spec sb r in
  _ ← lift (ExecutionSpec.validate spec);
  c ← guest_call (connect_and_hello (meta_to_handle (Sandbox.vmm_meta sb) id) id);
  x ← guest_call (conn_exec c (ExecutionSpec.argv spec) (ExecutionSpec.env spec)
        (ExecutionSpec.cwd spec) (ExecutionSpec.timeout_ms spec));
  exec_id ← fresh_uuid;
  let '(out, out_cut) := Execution.truncate_output (ExecutionResult.stdout x) in
  let '(err, err_cut) := Execution.truncate_output (ExecutionResult.stderr x) in
  let late := ExecutionResult.exit_code x =? -1 in
  t ← now;
  t' ← now;
  _ ← store_call (save_execution (ExecutionRecord.mk exec_id id spec (ExecutionResult.exit_code x)
        out err t t' late out_cut err_cut None));
  mret (ExecResponse.mk exec_id (ExecutionResult.exit_code x)
    (from_utf8_lossy (ExecutionResult.stdout x)) (from_utf8_lossy (ExecutionResult.stderr x))
    (ExecutionResult.duration_ms x) late out_cut err_cut).

(** The events of a streamed execution, as the client reads them to the end: those that
    came, and a failure of the call as the last one. *)
Definition stream_events (c : connection) (spec : ExecutionSpec.t) : handler (list ExecStreamEvent) :=
  '(l, o) ← guest_run (Guest.exec_stream c (ExecutionSpec.argv spec) (ExecutionSpec.env spec)
              (ExecutionSpec.cwd spec) (ExecutionSpec.timeout_ms spec));
  mret (l ++ match o with inl e => [EvError (ClouisleError.message e)] | inr _ => [] end).

Definition exec_stream (p : Principal.t) (id : string) (r : ExecRequest.t)
  : handler (list (string * string)) :=
  sb ← ensure_executable id p;
  let spec := exec_spec sb r in
  _ ← lift (ExecutionSpec.validate spec);
  c ← guest_call (connect_and_hello (meta_to_handle (Sandbox.vmm_meta sb) id) id);
  l ← stream_events c spec;
  mret (sse <$> l).

Definition list_execution_history (p : Principal.t) (id : string) (limit : option nat)
  : handler (list ExecutionRecord.t) :=
  _ ← fetch_own p id;
  t ← now;
  l ← store_call (list_executions id t);
  mret (take (default 100%nat limit) l).

Definition get_execution_record (p : Principal.t) (id exec_id : string) : handler ExecutionRecord.t :=
  _ ← fetch_own p id;
  t ← now;
  x ← store_call (get_execution exec_id t);
  if negb (String.eqb (ExecutionRecord.sandbox_id x) id)
  then fail (ClouisleError.not_found ("execution " +:+ exec_id +:+ " not in sandbox " +:+ id))
  else mret x.

(** ** Files *)

Definition upload_file (p : Principal.t) (id path : string) (body : Bytes) : handler () :=
  _ ← lift (validate_path path);
  _ ← lift (if (MAX_UPLOAD_BYTES <? length body)%nat
            then Err (ClouisleError.validation ("upload exceeds " +:+ show (Z.of_nat MAX_UPLOAD_BYTES)
                        +:+ " bytes"))
            else Ok ());
  c ← get_conn id p;
  guest_call (write_file c path body 420).

(** The bytes and the file name of the disposition header. *)
Definition download_file (p : Principal.t) (id path : string) : handler (string * Bytes) :=
  _ ← lift (validate_path path);
  c ← get_conn id p;
  b ← guest_call (read_file c path);
  mret (base_name path, b).

Definition list_files (p : Principal.t) (id path : string) : handler (list DirEntry.t) :=
  _ ← lift (validate_path path);
  c ← get_conn id p;
  guest_call (list_dir c path).

(** ** Image prefetch *)

Definition put_job (j : ImagePrefetchJob.t) : handler () :=
  modify (λ s, set_image_jobs (<[ImagePrefetchJob.job_id j := j]> (image_jobs s)) s).
(** [ImageJobRegistry::update]: a job that is not there stays away. *)
Definition update_job (id st : string) (e : option string) : handler () :=
  modify (λ s, set_image_jobs (alter (ImagePrefetchJob.set_status st e) id (image_jobs s)) s).

Definition queue_image (p : Principal.t) (image : ImageRef.t) : handler string :=
  if is_empty (trim (ImageRef.reference image))
  then fail (ClouisleError.validation "image reference is required")
  else
    id ← fresh_uuid;
    _ ← put_job (ImagePrefetchJob.mk id image (Principal.tenant_id p) "queued" None);
    _ ← spawn (Prefetch id image);
    mret id.

(** The first job id and all of them. *)
Definition prefetch_images (p : Principal.t) (image : option ImageRef.t) (images : list ImageRef.t)
  : handler (list string) :=
  let images := images ++ option_list image in
  if bool_decide (images = []) then fail (ClouisleError.validation "image or images is required")
  else collect (queue_image p) images.

(** The job's task. *)
Definition run_prefetch (id : string) (image : ImageRef.t) : handler () :=
  _ ← update_job id "running" None;
  r ← attempt (timed_vmm 300 "image prefetch timed out after 300s"
        (prefetch_image (SandboxSpec.set_image SandboxSpec.default image)));
  match r with
  | Ok _ => update_job id "succeeded" None
  | Err e => update_job id "failed" (Some (ClouisleError.message e))
  | Panic => lift Panic
  end.

Definition get_prefetch_job (p : Principal.t) (id : string) : handler ImagePrefetchJob.t :=
  let missing := ClouisleError.not_found ("image job " +:+ id +:+ " not found") in
  j ← gets (λ s, image_jobs s !! id);
  j ← lift (ok_or missing j);
  if String.eqb (ImagePrefetchJob.tenant_id j) (Principal.tenant_id p) then mret j else fail missing.

(** ** Nodes *)

(** A row the node reports is the node's; an error of the lookup skips it. *)
Definition adopt_row (node id : string) : handler () :=
  o ← attempt (fetch id);
  match o with
  | Ok sb => when (negb (bool_decide (Sandbox.node_id sb = Some node)))
               (t ← now; store_call (update_sandbox_node id (Some node) t))
  | _ => mret ()
  end.

(** A row of the node that the node no longer reports is given up. *)
Definition abandon_row (sb : Sandbox.t) : handler () :=
  t ← now;
  _ ← store_call (update_sandbox_status_message (Sandbox.id sb) SandboxStatus.Error
        (Some "node heartbeat no longer reports this sandbox"%string) t);
  modify (remove_reservation (Sandbox.id sb)).

Definition lost_row (n : RegisteredNode.t) (sb : Sandbox.t) : bool :=
  bool_decide (Sandbox.node_id sb = Some (NodeInfo.node_id (RegisteredNode.info n)))
  && SandboxStatus.is_active (Sandbox.status sb)
  && negb (bool_decide (Sandbox.id sb ∈ RegisteredNode.sandbox_ids n)).

Definition register_node (n : RegisteredNode.t) : handler Z :=
  if is_empty (RegisteredNode.endpoint n)
  then fail (ClouisleError.validation "node endpoint is required")
  else
    _ ← store_call (upsert_node n);
    _ ← for_each (adopt_row (NodeInfo.node_id (RegisteredNode.info n))) (RegisteredNode.sandbox_ids n);
    t ← now;
    rows ← store_call (list_sandboxes None t);
    _ ← for_each abandon_row (List.filter (lost_row n) rows);
    mret 204.

Definition ready_nodes : handler (list RegisteredNode.t) :=
  t ← now;
  store_call (list_ready_nodes (timestamp_millis t - 15000)).

(** ** Health: the status code and the words of the body *)

Definition health (e2b_header : bool) : handler (Z * string) :=
  if e2b_header then mret (204, ""%string)
  else
    t ← now;
    o ← attempt (store_call (list_sandboxes None t));
    mret (if is_ok o then (200, "ok"%string) else (503, "degraded"%string)).

Definition readiness : handler Z :=
  t ← now;
  o ← attempt (store_call (list_sandboxes None t));
  stop ← gets draining;
  mret (if is_ok o && negb stop then 200 else 503).
End handlers.
