(* ===== verification/Sdk.v ===== *)
(** * The Rust client ([sdk/rust/src/lib.rs])

    [Client]: its calls as HTTP requests, the reading of answers and of event streams.
    The HTTP library and the JSON decoder are the class [SdkHttp]; the texts of
    server-sent events are written by axum, the class [SseWriter].  The requests are
    sent to the routes of [Router], the streams come from [ApiHandlers.exec_stream]. *)

From S2P Require Import Prelude Core SandboxModel Vmm Proto Guest Store Auth Router.
From S2P Require Import Admission Pool Digest Dns Net Json E2bCloud Processes E2bModel AppState Lifecycle.
From S2P Require Import E2bHandlers ApiHandlers.

(** ** Types *)

Module Sdk.
(** The statuses the client knows, with the text of [{:?}] in lower case. *)
Module SandboxStatus.
Inductive t : Set := Pending | Starting | Running | Stopping | Stopped | Error.
Definition lower_debug (s : t) : string :=
  match s with
  | Pending => "pending" | Starting => "starting" | Running => "running"
  | Stopping => "stopping" | Stopped => "stopped" | Error => "error"
  end.
(** serde's [snake_case] names. *)
Definition of_name (s : string) : option t :=
  if String.eqb s "pending" then Some Pending else if String.eqb s "starting" then Some Starting
  else if String.eqb s "running" then Some Running else if String.eqb s "stopping" then Some Stopping
  else if String.eqb s "stopped" then Some Stopped else if String.eqb s "error" then Some Error else None.
End SandboxStatus.

Module Resources.
Record t : Set := mk {
  vcpu : Z; memory_mb : Z; disk_mb : Z;
  bandwidth_mbps : option Z; iops : option Z; pids_max : option Z }.
Definition default : t := mk 1 256 512 None None (Some 512).
End Resources.

Module SandboxSpec.
Record t : Type := mk {
  image : ImageRef.t; resources : Resources.t; network : NetworkConfig.t;
  mounts : list MountSpec.t; secrets : list SecretSpec.t;
  ttl_secs : option Z; start_timeout_secs : Z;
  env : gmap string string; node_selector : gmap string string;
  restart_policy : RestartPolicy.t; tenant_id : option string }.
Definition default : t :=
  mk (ImageRef.mk "alpine:latest" None) Resources.default (NetworkConfig.mk true [] []) [] [] None 10 ∅ ∅
    RestartPolicy.Never None.
End SandboxSpec.

Module ExecRequest.
Record t : Type := mk {
  argv : list string; env : gmap string string; cwd : option string; timeout_ms : Z; stream : bool }.
Definition new (argv : list string) : t := mk argv ∅ None 30000 false.
End ExecRequest.

Inductive ExecStreamEvent : Set := Stdout (s : string) | Stderr (s : string) | Exit (code : Z) | ErrorEvent (s : string).

Module SdkError.
Inductive t : Set :=
| Http (status : Z) (body : string) | Request (e : string) | Serde (e : string) | Api (code message : string).
End SdkError.

(** ** HTTP *)

Inductive body : Type :=
| NoBody | SpecBody (s : SandboxSpec.t) | ExecBody (r : ExecRequest.t) | RawBody (b : Bytes).
Record http_request : Type := http {
  q_method : Method; q_path : string; q_query : list (string * string);
  q_authorization : option string; q_body : body }.

Class SdkHttp : Type := {
  net : Type;
  (** The path of the joined URL. *)
  url_join : string → option string;
  (** The exchange fails, or there is a status and a body, which can fail to arrive. *)
  send : http_request → net → net * (string + Z * (string + Bytes));
  body_text : Bytes → string;
  parse_error : string → string }.
Class FromJson (T : Type) : Type := { from_json : string → string + T }.

Section client.
Context {N : SdkHttp} (api_key : string).
Abbreviation sdk := (stres net SdkError.t).

Definition url (path : string) : res SdkError.t string :=
  match url_join path with Some p => Ok p | None => Panic end.
(** The value is parsed with [unwrap]. *)
Definition headers : res SdkError.t (option string) :=
  if is_empty api_key then Ok None
  else match from_str ("Bearer " +:+ api_key) with Some h => Ok (Some h) | None => Panic end.

Definition build_request (m : Method) (path : string) (auth : bool) (query : list (string * string)) (b : body)
  : res SdkError.t http_request :=
  p ← url path;
  h ← (if auth then headers else Ok None);
  Ok (http m p query h b).
Definition exchange (r : http_request) : sdk (Z * (string + Bytes)) := λ n,
  let '(n', a) := send r n in (n', match a with inr x => Ok x | inl e => Err (SdkError.Request e) end).
Definition ask (m : Method) (path : string) (auth : bool) (query : list (string * string)) (b : body)
  : sdk (Z * (string + Bytes)) :=
  r ← lift (build_request m path auth query b); exchange r.

Definition is_success (status : Z) : bool := (200 <=? status) && (status <? 300).
Definition text (x : string + Bytes) : res SdkError.t string :=
  match x with inl e => Err (SdkError.Request e) | inr b => Ok (body_text b) end.
Definition check_response {T} {J : FromJson T} (x : Z * (string + Bytes)) : res SdkError.t T :=
  b ← text x.2;
  if negb (is_success x.1) then Err (SdkError.Http x.1 b)
  else match from_json b with inr t => Ok t | inl e => Err (SdkError.Serde e) end.

Definition get {T} {J : FromJson T} (path : string) : sdk T :=
  x ← ask GET path true [] NoBody; lift (check_response x).
Definition get_no_auth {T} {J : FromJson T} (path : string) : sdk T :=
  x ← ask GET path false [] NoBody; lift (check_response x).
Definition get_with_query {T} {J : FromJson T} (path : string) (q : list (string * string)) : sdk T :=
  x ← ask GET path true q NoBody; lift (check_response x).
Definition post {T} {J : FromJson T} (path : string) (b : body) : sdk T :=
  x ← ask POST path true [] b; lift (check_response x).
Definition post_raw {T} {J : FromJson T} (path file_path : string) (data : Bytes) : sdk T :=
  x ← ask POST path true [("path", file_path)]%string (RawBody data); lift (check_response x).
(** The body is read only of a failure. *)
Definition delete_ (path : string) : sdk () :=
  x ← ask DELETE path true [] NoBody;
  lift (if negb (is_success x.1) then b ← text x.2; Err (SdkError.Http x.1 b) else Ok ()).

(** ** Calls *)

Definition sandbox_path (id : string) : string := "/api/v1/sandboxes/" +:+ id.

Definition create_sandbox {T} {J : FromJson T} (spec : SandboxSpec.t) : sdk T :=
  post "/api/v1/sandboxes" (SpecBody spec).
Definition get_sandbox {T} {J : FromJson T} (id : string) : sdk T := get (sandbox_path id).
Definition list_query (status : option SandboxStatus.t) (limit offset : option Z) : list (string * string) :=
  match status with Some s => [("status"%string, SandboxStatus.lower_debug s)] | None => [] end
  ++ match limit with Some l => [("limit"%string, show l)] | None => [] end
  ++ match offset with Some o => [("offset"%string, show o)] | None => [] end.
Definition list_sandboxes {T} {J : FromJson T} (status : option SandboxStatus.t) (limit offset : option Z) : sdk T :=
  get_with_query "/api/v1/sandboxes" (list_query status limit offset).
Definition delete_sandbox (id : string) : sdk () := delete_ (sandbox_path id).

Definition exec {T} {J : FromJson T} (id : string) (r : ExecRequest.t) : sdk T :=
  post (sandbox_path id +:+ "/exec") (ExecBody r).
Definition exec_cmd {T} {J : FromJson T} (id : string) (argv : list string) (timeout_ms : Z) : sdk T :=
  exec id (ExecRequest.mk argv ∅ None timeout_ms false).

(** [data.parse::<i32>()]. *)
Definition parse_i32 (s : string) : option Z :=
  match s with
  | String "-"%char s' =>
    match s' with
    | String "+"%char _ => None
    | _ => Z.opp <$> parse_unsigned (2 ^ 31) s'
    end
  | _ => parse_unsigned (2 ^ 31 - 1) s
  end.

Definition event_of (name data : string) : res SdkError.t (option ExecStreamEvent) :=
  if String.eqb name "stdout" then Ok (Some (Stdout data))
  else if String.eqb name "stderr" then Ok (Some (Stderr data))
  else if String.eqb name "exit" then
    match parse_i32 data with
    | Some c => Ok (Some (Exit c))
    | None => Err (SdkError.Api "SSE_PARSE" ("invalid exit event: " +:+ parse_error data))
    end
  else if String.eqb name "error" then Ok (Some (ErrorEvent data))
  else Ok None.
(** The loop over the lines: the event that was announced, and the events so far. *)
Fixpoint parse_events (ls : list string) (current : option string) (events : list ExecStreamEvent)
  : res SdkError.t (list ExecStreamEvent) :=
  match ls with
  | [] => Ok events
  | line :: ls' =>
    match strip_prefix "event: " line with
    | Some name => parse_events ls' (Some name) events
    | None =>
      match strip_prefix "data: " line, current with
      | Some data, Some name =>
        e ← event_of name data;
        parse_events ls' None (match e with Some e => events ++ [e] | None => events end)
      | Some _, None => parse_events ls' None events
      | None, _ => parse_events ls' current events
      end
    end
  end.
Definition stream_exec (id : string) (r : ExecRequest.t) : sdk (list ExecStreamEvent) :=
  x ← ask POST (sandbox_path id +:+ "/exec/stream") true [] (ExecBody r);
  lift (b ← text x.2;
        if negb (is_success x.1) then Err (SdkError.Http x.1 b) else parse_events (lines b) None []).

Definition get_execution {T} {J : FromJson T} (id exec_id : string) : sdk T :=
  get (sandbox_path id +:+ "/exec/" +:+ exec_id).
Definition list_executions {T} {J : FromJson T} (id : string) (limit : option Z) : sdk T :=
  get_with_query (sandbox_path id +:+ "/exec")
    match limit with Some l => [("limit"%string, show l)] | None => [] end.

Definition upload_file {T} {J : FromJson T} (id path : string) (data : Bytes) : sdk T :=
  post_raw (sandbox_path id +:+ "/files/upload") path data.
Definition download_file (id path : string) : sdk Bytes :=
  x ← ask GET (sandbox_path id +:+ "/files/download") true [("path", path)]%string NoBody;
  lift (if negb (is_success x.1) then b ← text x.2; Err (SdkError.Http x.1 b)
        else match x.2 with inr b => Ok b | inl e => Err (SdkError.Request e) end).
Definition list_files {T} {J : FromJson T} (id path : string) : sdk T :=
  get_with_query (sandbox_path id +:+ "/files/ls") [("path", path)]%string.

Definition health {T} {J : FromJson T} : sdk T := get_no_auth "/health".
Definition liveness {T} {J : FromJson T} : sdk T := get "/health/live".
Definition readiness {T} {J : FromJson T} : sdk T := get "/health/ready".
(** The status is not looked at. *)
Definition metrics : sdk string := x ← ask GET "/metrics" false [] NoBody; lift (text x.2).
End client.
End Sdk.

(** ** Reading a stream *)

(** Server-sent events as axum writes them: a line for the name, a line for each line
    of the data, an empty line. *)
Class SseWriter : Type := { sse_body : list (string * string) → string }.
Definition unlines (ls : list string) : string := foldr (λ l s, l +:+ String LF s) ""%string ls.
Definition event_lines (e : string * string) : list string :=
  ("event: " +:+ e.1) :: ((λ l, "data: " +:+ l) <$> split LF e.2) ++ [""%string].
Definition CR : ascii := "013"%char.
Class SseWriterOk (W : SseWriter) : Prop := {
  sse_lines l : Forall (λ e : string * string, contains_char CR e.2 = false) l →
    sse_body l = unlines (l ≫= event_lines) }.

(** What the client makes of an event of the control plane. *)
Definition first_line (s : string) : string := default ""%string (head (split LF s)).
Definition read_event (e : ExecStreamEvent) : Sdk.ExecStreamEvent :=
  match e with
  | EvStdout b => Sdk.Stdout (first_line (from_utf8_lossy b))
  | EvStderr b => Sdk.Stderr (first_line (from_utf8_lossy b))
  | EvExit code => Sdk.Exit code
  | EvError m => Sdk.ErrorEvent (first_line m)
  end.
(** No carriage return in the data, and an exit code that is an [i32]. *)
Definition sendable (e : ExecStreamEvent) : Prop :=
  contains_char CR (sse e).2 = false ∧ match e with EvExit c => - 2 ^ 31 ≤ c < 2 ^ 31 | _ => True end.

Lemma split_unlines l : Forall (λ x, contains_char LF x = false) l → split LF (unlines l) = l ++ [""%string].
Proof.
  induction 1 as [|x l Hx _ IH]; [done|]. cbn [unlines foldr]. fold (unlines l).
  rewrite split_app, (split_one _ x), IH by done. done.
Qed.
Lemma strip_cr_id x : contains_char CR x = false → strip_cr x = x.
Proof.
  intros Hx. unfold strip_cr. destruct (rev (String.list_ascii_of_string x)) as [|c r] eqn:Hr; [done|].
  destruct (decide (c = CR)) as [->|Hc].
  - assert (CR ∈ String.list_ascii_of_string x) as Hin.
    { apply list_elem_of_In, in_rev. rewrite Hr. by left. }
    exfalso. clear Hr. induction x as [|a x IH]; [set_solver|]. simpl in Hx. apply orb_false_iff in Hx as [Ha Hx].
    simpl in Hin. apply elem_of_cons in Hin as [<-|Hin]; [by rewrite Ascii.eqb_refl in Ha|by apply IH].
  - destruct c as [[] [] [] [] [] [] [] []]; done.
Qed.
Lemma lines_unlines l :
  Forall (λ x, contains_char LF x = false ∧ contains_char CR x = false) l → lines (unlines l) = l.
Proof.
  intros Hl. unfold lines. rewrite split_unlines by (eapply Forall_impl; [exact Hl|naive_solver]).
  rewrite last_snoc, removelast_last. rewrite <-(list_fmap_id l) at 2. apply list_fmap_ext.
  intros i x Hx. rewrite Forall_lookup in Hl. by apply strip_cr_id, (Hl i).
Qed.


Lemma uint_one_line u :
  contains_char LF (DecimalString.NilZero.string_of_uint u) = false
  ∧ contains_char CR (DecimalString.NilZero.string_of_uint u) = false.
Proof.
  assert (∀ u, contains_char LF (DecimalString.NilEmpty.string_of_uint u) = false
    ∧ contains_char CR (DecimalString.NilEmpty.string_of_uint u) = false) as H
    by (intros v; induction v; simpl; auto).
  destruct u; simpl; auto; apply H.
Qed.
Lemma show_signed_one_line z :
  contains_char LF (show_signed z) = false ∧ contains_char CR (show_signed z) = false.
Proof. unfold show_signed, show. destruct (z <? 0); simpl; apply uint_one_line. Qed.
Lemma parse_i32_show c : - 2 ^ 31 ≤ c < 2 ^ 31 → Sdk.parse_i32 (show_signed c) = Some c.
Proof.
  intros Hc. unfold show_signed. destruct (Z.ltb_spec c 0) as [Hn|Hn].
  - cbn [String.append]. unfold Sdk.parse_i32. pose proof (parse_show (2 ^ 31) (- c) ltac:(lia)) as Hp.
    pose proof (uint_first_not_plus (N.to_uint (Z.to_N (- c)))) as Hd. unfold show in *.
    destruct (DecimalString.NilZero.string_of_uint _) as [|a s]; [by rewrite Hp|].
    destruct (decide (a = "+"%char)) as [->|Ha]; [done|].
    assert (match a with "+"%char => None | _ => Z.opp <$> parse_unsigned (2 ^ 31) (String a s) end
      = Z.opp <$> parse_unsigned (2 ^ 31) (String a s)) as E.
    { destruct a as [[] [] [] [] [] [] [] []]; try done. }
    rewrite E, Hp. simpl. f_equal. lia.
  - pose proof (parse_show (2 ^ 31 - 1) c ltac:(lia)) as Hp. unfold Sdk.parse_i32.
    assert (∀ s, show c ≠ String "-" s) as Hd.
    { unfold show. intros s. by destruct (N.to_uint (Z.to_N c)). }
    destruct (show c) as [|a s]; [done|]. destruct (decide (a = "-"%char)) as [->|Ha]; [by destruct (Hd s)|].
    rewrite <-Hp. by destruct a as [[] [] [] [] [] [] [] []].
Qed.

(** One event of the stream, whatever comes after it. *)
Section reading.
Context {N : Sdk.SdkHttp}.
Lemma skip_data (ls rest : list string) events :
  Sdk.parse_events (((λ l, "data: " +:+ l) <$> ls) ++ rest) None events = Sdk.parse_events rest None events.
Proof. induction ls as [|l ls IH]; [done|]. simpl. exact IH. Qed.
Lemma read_one name data rest events x :
  Sdk.event_of name (first_line data) = Ok (Some x) →
  Sdk.parse_events (event_lines (name, data) ++ rest) None events
  = Sdk.parse_events rest None (events ++ [x]).
Proof.
  intros He. unfold event_lines, first_line in *. cbn [fst snd].
  pose proof (split_nonempty LF data) as Hn. destruct (split LF data) as [|l ls]; [done|].
  simpl in He |- *. rewrite He. simpl. rewrite <-app_assoc, skip_data. done.
Qed.
Lemma first_line_one s : contains_char LF s = false → first_line s = s.
Proof. intros H. unfold first_line. by rewrite split_one. Qed.
Lemma event_read e : sendable e →
  Sdk.event_of (sse e).1 (first_line (sse e).2) = Ok (Some (read_event e)).
Proof.
  intros [_ Hr]. destruct e as [b|b|c|m]; simpl; try done.
  rewrite first_line_one by apply show_signed_one_line. unfold Sdk.event_of. simpl. by rewrite parse_i32_show.
Qed.
Lemma parse_stream l events :
  Forall sendable l →
  Sdk.parse_events ((sse <$> l) ≫= event_lines) None events = Ok (events ++ (read_event <$> l)).
Proof.
  intros Hl. revert events. induction Hl as [|e l He _ IH]; intros events; [by rewrite app_nil_r|].
  cbn [fmap list_fmap mbind list_bind]. rewrite (surjective_pairing (sse e)).
  rewrite (read_one _ _ _ _ (read_event e)) by (by apply event_read). rewrite IH, <-app_assoc. done.
Qed.

(** No line of an event is broken. *)
Lemma data_lines s :
  contains_char CR s = false →
  Forall (λ x, contains_char LF x = false ∧ contains_char CR x = false) (split LF s).
Proof.
  intros Hs. apply Forall_forall. intros x Hx. split.
  { pose proof (split_no_sep LF s) as H. rewrite Forall_forall in H. by apply H. }
  revert x Hx. induction s as [|a s IH]; intros x; simpl.
  - intros ->%list_elem_of_singleton. done.
  - simpl in Hs. apply orb_false_iff in Hs as [Ha Hs]. specialize (IH Hs). destruct (Ascii.eqb a LF).
    + intros [->|Hx]%elem_of_cons; [done|by apply IH].
    + destruct (split LF s) as [|p ps]; [intros ->%list_elem_of_singleton; simpl; by rewrite Ha|].
      intros [->|Hx]%elem_of_cons; [simpl; rewrite Ha; apply IH; by left|]. apply IH. by right.
Qed.
Lemma event_lines_whole e :
  contains_char CR (sse e).2 = false →
  Forall (λ x, contains_char LF x = false ∧ contains_char CR x = false) (event_lines (sse e)).
Proof.
  intros Hc. unfold event_lines. constructor; [by destruct e|]. apply Forall_app. split; [|by repeat constructor].
  apply Forall_fmap. eapply Forall_impl; [by apply data_lines|]. intros x [H1 H2]. done.
Qed.
Lemma stream_lines l :
  Forall sendable l →
  Forall (λ x, contains_char LF x = false ∧ contains_char CR x = false) ((sse <$> l) ≫= event_lines).
Proof.
  induction 1 as [|e l [He _] _ IH]; [constructor|]. cbn [fmap list_fmap mbind list_bind]. apply Forall_app.
  split; [by apply event_lines_whole|done].
Qed.
End reading.

(** C32: The client reads the stream the control plane sends, for commands whose output
    and messages have no carriage return (what axum makes of one is not assumed) and
    whose exit code is an [i32] ([sendable]).  When the answer to [stream_exec] is the
    text of the server-sent events of such a command, the client returns these events, in
    their order, none missing and none twice; the exit code is exact, and of each output
    only the first line is kept: exactly the output when it is one line, as lossy UTF-8
    text. *)
Theorem stream_is_read_back {N : Sdk.SdkHttp} {W : SseWriter} {WO : SseWriterOk W} key id req r n n' b l :
  Sdk.build_request key POST (Sdk.sandbox_path id +:+ "/exec/stream") true [] (Sdk.ExecBody req) = Ok r →
  Sdk.send r n = (n', inr (200, inr b)) → Sdk.body_text b = sse_body (sse <$> l) → Forall sendable l →
  Sdk.stream_exec key id req n = (n', Ok (read_event <$> l)).
Proof.
  intros Hr Hs Hb Hl. unfold Sdk.stream_exec, Sdk.ask, lift, mbind, stres_bind. rewrite Hr.
  unfold Sdk.exchange. rewrite Hs. cbn. rewrite Hb, sse_lines.
  - rewrite lines_unlines by (by apply stream_lines). by rewrite parse_stream.
  - apply Forall_fmap. eapply Forall_impl; [exact Hl|]. by intros e [He _].
Qed.

(** Output of several lines loses all but the first. *)
Example output_is_cut :
  read_event (EvStdout (String.list_byte_of_string ("one" +:+ String LF "two"))) = Sdk.Stdout "one".
Proof. reflexivity. Qed.

(** ** Specifications and statuses *)

(** What [serde_json] makes of the client's specification on the other side: fields by
    name, the defaults of the control plane for those that are not sent. *)
Definition received (s : Sdk.SandboxSpec.t) : SandboxSpec.t :=
  let r := Sdk.SandboxSpec.resources s in
  SandboxSpec.mk (Sdk.SandboxSpec.image s)
    (Resources.mk (Sdk.Resources.vcpu r) (Sdk.Resources.memory_mb r) (Sdk.Resources.disk_mb r)
       (Sdk.Resources.bandwidth_mbps r) (Sdk.Resources.iops r) (Sdk.Resources.pids_max r))
    (Sdk.SandboxSpec.network s) (Sdk.SandboxSpec.mounts s) [] (Sdk.SandboxSpec.secrets s)
    (Sdk.SandboxSpec.ttl_secs s) (Sdk.SandboxSpec.start_timeout_secs s) (Sdk.SandboxSpec.env s)
    [] ∅ None SandboxSpec.default_init_timeout_ms ∅ false true false (Sdk.SandboxSpec.node_selector s)
    (Sdk.SandboxSpec.restart_policy s) (Sdk.SandboxSpec.tenant_id s).

(** The default of the client is the default of the control plane, with a short image
    name, and is accepted. *)
Lemma default_spec_is_accepted :
  received Sdk.SandboxSpec.default = SandboxSpec.set_image SandboxSpec.default (ImageRef.new "alpine:latest")
  ∧ SandboxSpec.validate (received Sdk.SandboxSpec.default) = Ok ().
Proof. split; reflexivity. Qed.

(** The status of a query is understood, and every status but [Paused] is read back. *)
Definition known (s : SandboxStatus.t) : option Sdk.SandboxStatus.t := Sdk.SandboxStatus.of_name (SandboxStatus.as_str s).
Lemma query_status_is_understood s :
  SandboxStatus.of_str (Sdk.SandboxStatus.lower_debug s) ≫= known = Some s.
Proof. by destruct s. Qed.
Lemma paused_is_unknown s : known s = None ↔ s = SandboxStatus.Paused.
Proof. by destruct s. Qed.

(** ** Requests and routes *)

(** A part of a path that a URL carries as it is. *)
Definition plain_char (c : ascii) : bool :=
  let n := Ascii.N_of_ascii c in
  ((48 <=? n) && (n <=? 57) || (65 <=? n) && (n <=? 90) || (97 <=? n) && (n <=? 122))%N
  || existsb (Ascii.eqb c) ["-"; "_"; "."; "~"]%char.
Definition plain_part (s : string) : bool :=
  negb (is_empty s) && forallb plain_char (String.list_ascii_of_string s)
  && negb (String.eqb s ".") && negb (String.eqb s "..").
Class SdkHttpOk (N : Sdk.SdkHttp) : Prop := {
  url_plain path parts : split "/" path = ""%string :: parts → parts ≠ [] → forallb plain_part parts = true →
    Sdk.url_join path = Some path }.

(** A path with parts that are only known not to be some texts. *)
Inductive hole : Set := Is (s : string) | Other (not_ : list string).
Definition fits (h : hole) (s : string) : Prop :=
  match h with Is a => s = a | Other l => s ∉ l ∧ is_empty s = false end.
Definition seg_compatible (g : segment) (h : hole) : bool :=
  match g, h with
  | Lit a, Is b => String.eqb a b
  | Lit a, Other l => negb (bool_decide (a ∈ l))
  | Param _, Is b => negb (is_empty b)
  | Param _, Other _ => true
  end.
Fixpoint compatible (pat : list segment) (hs : list hole) : bool :=
  match pat, hs with
  | [], [] => true
  | g :: pat', h :: hs' => seg_compatible g h && compatible pat' hs'
  | _, _ => false
  end.
Lemma match_compatible hs path pat kv :
  Forall2 fits hs path → match_segments pat path = Some kv → compatible pat hs = true.
Proof.
  intros Hf. revert pat kv. induction Hf as [|h s hs path Hh _ IH]; intros [|[a|x] pat] kv; try done; simpl.
  - destruct (String.eqb_spec a s) as [->|]; [|done]. intros Hm. rewrite (IH _ _ Hm), andb_true_r.
    destruct h as [b|l]; simpl in *; [subst; apply String.eqb_refl|]. apply negb_true_iff, bool_decide_eq_false. naive_solver.
  - destruct (is_empty s) eqn:He; [done|]. destruct (match_segments pat path) as [kv'|] eqn:Hm; [|done].
    intros _. rewrite (IH _ _ Hm), andb_true_r. destruct h; simpl in *; [by subst; rewrite He|done].
Qed.

Section routing.
Context {R : PathRouter} {RO : PathRouterOk R}.
(** [p] is in the table and comes before every other pattern such a path can match. *)
Definition chosen (hs : list hole) (p : string) : bool :=
  bool_decide (p ∈ routes.*1)
  && forallb (λ q, negb (compatible (segments q) hs) || String.eqb q p || more_specific (segments p) (segments q)) routes.*1.
Lemma dispatch_by hs m m0 path p e kv :
  Forall2 fits hs (split "/" path) → chosen hs p = true →
  List.find (λ h, serves h.1 m) (handlers_of p) = Some (m0, e) →
  match_segments (segments p) (split "/" path) = Some kv →
  dispatch m path = Handler e kv.
Proof.
  intros Hf [Hp%bool_decide_eq_true Hu]%andb_true_iff Hh Hm. unfold dispatch.
  destruct (find_complete routes.*1 path p kv Hp Hm) as [[q kv'] Hfind]. rewrite Hfind.
  pose proof (find_sound _ _ _ _ Hfind) as [Hq Hmq]. rewrite forallb_forall in Hu.
  apply list_elem_of_In, Hu in Hq. rewrite (match_compatible hs _ _ _ Hf Hmq) in Hq. simpl in Hq.
  apply orb_true_iff in Hq as [->%String.eqb_eq|Hs].
  - rewrite Hh. unfold match_pattern in Hmq. rewrite Hm in Hmq. by injection Hmq as ->.
  - by rewrite (find_priority _ _ _ _ _ _ Hfind Hp Hm) in Hs.
Qed.
End routing.

(** *** A client with a key *)

Section reach.
Context {R : PathRouter} {RO : PathRouterOk R} {N : Sdk.SdkHttp} {NO : SdkHttpOk N}.
Context (key : string) (admin_token : option string) (e2b_authenticate : string → option Principal.t)
  (auth : Authenticator.t) (p : Principal.t).
(** The key is a header text, is registered and may write. *)
Record may_call : Prop := {
  mc_text : is_empty key = false ∧ from_str ("Bearer " +:+ key) = Some ("Bearer " +:+ key);
  mc_admin : admin_token ≠ Some key;
  mc_key : Authenticator.keys auth !! key = Some p;
  mc_scope : Principal.scope p = Scope.Full ∧ Principal.volume_id p = None }.

(** The call makes one exchange, of this request, and then only reads the answer. *)
Definition sends {T} (c : stres Sdk.net Sdk.SdkError.t T) (r : Sdk.http_request) : Prop :=
  ∃ k, ∀ n, c n = (let '(n', a) := Sdk.send r n in (n', k a)).
Definition as_request (r : Sdk.http_request) : Request :=
  request (Sdk.q_path r) (Sdk.q_method r) (Some <$> Sdk.q_authorization r) None None None.
Definition reaches {T} (c : stres Sdk.net Sdk.SdkError.t T) (e : Endpoint.t) (kv : list (string * string))
    (q : option Principal.t) : Prop :=
  ∃ r, sends c r ∧ ∀ x_request_id fresh,
    (serve admin_token e2b_authenticate auth (as_request r) x_request_id fresh).2 = Handled e kv q.

Lemma sends_ask {T} m path authd query b (k : Z * (string + Bytes) → res Sdk.SdkError.t T) r :
  Sdk.build_request key m path authd query b = Ok r →
  sends (x ← Sdk.ask key m path authd query b; lift (k x)) r.
Proof.
  intros Hr. exists (λ a, match a with inr x => k x | inl e => Err (Sdk.SdkError.Request e) end). intros n.
  unfold Sdk.ask, lift, mbind, stres_bind. rewrite Hr. unfold Sdk.exchange.
  by destruct (Sdk.send r n) as [n' [e|x]].
Qed.

(** A call with the key is served as the key's principal, one without on the probes. *)
Lemma reaches_guarded {T} m path query b (k : Z * (string + Bytes) → res Sdk.SdkError.t T) parts e kv :
  may_call → split "/" path = ""%string :: parts → parts ≠ [] → forallb plain_part parts = true →
  probe_path path = false → dispatch m path = Handler e kv →
  reaches (x ← Sdk.ask key m path true query b; lift (k x)) e kv (Some p).
Proof.
  intros [[Hne Htext] Hadm Hkey [Hsc Hvol]] Hs Hn Hp Hpr Hd.
  exists (Sdk.http m path query (Some ("Bearer " +:+ key)) b). split.
  { apply sends_ask. unfold Sdk.build_request, Sdk.url, Sdk.headers. by rewrite (url_plain path parts), Hne, Htext. }
  intros x f. unfold serve, auth_middleware, as_request. cbn [Auth.path Auth.method Auth.authorization Sdk.q_path Sdk.q_method Sdk.q_authorization fmap option_fmap option_map].
  rewrite Hpr, Hd. unfold is_admin, header_or, no_credential, auth_header.
  cbn [x_admin_token Auth.authorization x_api_key x_access_token]. unfold credential_of. rewrite strip_prefix_app.
  assert (match admin_token with Some token => String.eqb key token | None => false end = false) as Ha.
  { destruct admin_token as [t|]; [|done]. apply String.eqb_neq. congruence. }
  destruct admin_token as [t|]; rewrite ?Ha, ?andb_false_r;
    unfold Authenticator.authenticate; cbn [mbind res_bind ok_or]; rewrite strip_prefix_app; cbn [mbind res_bind ok_or];
    rewrite Hkey; cbn; unfold admit_principal, Authenticator.require_write; rewrite Hvol, Hsc; cbn;
    by destruct (mutating _).
Qed.
Lemma reaches_open {T} pth authd query b (k : Z * (string + Bytes) → res Sdk.SdkError.t T) parts e :
  may_call → split "/" pth = ""%string :: parts → parts ≠ [] → forallb plain_part parts = true →
  probe_path pth = true → dispatch GET pth = Handler e [] →
  reaches (x ← Sdk.ask key GET pth authd query b; lift (k x)) e [] None.
Proof.
  intros [[Hne Htext] _ _ _] Hs Hn Hp Hpr Hd.
  exists (Sdk.http GET pth query (if authd then Some ("Bearer " +:+ key) else None) b). split.
  - apply sends_ask. unfold Sdk.build_request, Sdk.url, Sdk.headers. rewrite (url_plain pth parts) by done.
    destruct authd; cbn [mbind res_bind]; by rewrite ?Hne, ?Htext.
  - intros x f. unfold serve, auth_middleware, as_request. cbn [Auth.path Auth.method Sdk.q_path Sdk.q_method].
    by rewrite Hpr, Hd.
Qed.

(** *** The paths of the client *)

Lemma plain_no_slash s : plain_part s = true → is_empty s = false ∧ contains_char "/" s = false.
Proof.
  unfold plain_part. intros [[[He Hc]%andb_true_iff _]%andb_true_iff _]%andb_true_iff.
  split; [by apply negb_true_iff|]. clear He. induction s as [|a s IH]; [done|]. simpl in Hc |- *.
  apply andb_true_iff in Hc as [Ha Hc]. rewrite (IH Hc), orb_false_r. apply Ascii.eqb_neq. intros ->. done.
Qed.
Lemma sandbox_split id :
  contains_char "/" id = false →
  split "/" (Sdk.sandbox_path id) = [""; "api"; "v1"; "sandboxes"; id]%string.
Proof.
  intros Hs. unfold Sdk.sandbox_path. change ("/api/v1/sandboxes/" +:+ id) with ("/api/v1/sandboxes" +:+ String "/" id).
  by rewrite split_app, (split_one _ id).
Qed.
Lemma below_split id rest :
  contains_char "/" id = false →
  split "/" (Sdk.sandbox_path id +:+ String "/" rest) = [""; "api"; "v1"; "sandboxes"; id]%string ++ split "/" rest.
Proof. intros Hs. by rewrite split_app, sandbox_split. Qed.
Lemma no_probe s : probe_path ("/api/v1/sandboxes" +:+ s) = false.
Proof. unfold probe_path. apply bool_decide_eq_false. rewrite !elem_of_cons. intros H. destruct_or? H; try done. set_solver. Qed.

(** A route below a sandbox. *)
Lemma sandbox_parts id tail :
  plain_part id = true → forallb plain_part tail = true →
  split "/" (join "/" ([""; "api"; "v1"; "sandboxes"; id]%string ++ tail))
  = [""; "api"; "v1"; "sandboxes"; id]%string ++ tail.
Proof.
  intros Hid Ht. destruct (plain_no_slash id Hid) as [He Hs].
  apply split_join; [done|]. repeat (constructor; [done|]). apply Forall_forall. intros y Hy.
  rewrite forallb_forall in Ht. apply list_elem_of_In, Ht, plain_no_slash in Hy. naive_solver.
Qed.

Lemma dispatch_sandbox m m0 id tail pat e :
  plain_part id = true → forallb plain_part tail = true →
  chosen ([Is ""; Is "api"; Is "v1"; Is "sandboxes"; Other []]%string ++ (Is <$> tail)) pat = true →
  List.find (λ h, serves h.1 m) (handlers_of pat) = Some (m0, e) →
  segments pat = [Lit ""; Lit "api"; Lit "v1"; Lit "sandboxes"; Param "id"]%string ++ (Lit <$> tail) →
  dispatch m (join "/" ([""; "api"; "v1"; "sandboxes"; id]%string ++ tail)) = Handler e [("id", id)]%string.
Proof using RO.
  clear key admin_token e2b_authenticate auth p NO N.
  intros Hid Ht Hu Hh Hseg. destruct (plain_no_slash id Hid) as [He Hs].
  eapply dispatch_by; [|exact Hu|exact Hh|]; rewrite (sandbox_parts id tail Hid Ht).
  - apply Forall2_app; [repeat constructor; [set_solver|done]|].
    apply Forall2_fmap_l, Forall_Forall2_diag. by apply Forall_true.
  - rewrite Hseg. cbn. rewrite He. clear. induction tail as [|y tail IH]; [done|]. cbn. rewrite String.eqb_refl.
    exact IH.
Qed.

Lemma reaches_sandbox {T} m m0 id tail pat query b (k : Z * (string + Bytes) → res Sdk.SdkError.t T) e :
  may_call → plain_part id = true → forallb plain_part tail = true →
  chosen ([Is ""; Is "api"; Is "v1"; Is "sandboxes"; Other []]%string ++ (Is <$> tail)) pat = true →
  List.find (λ h, serves h.1 m) (handlers_of pat) = Some (m0, e) →
  segments pat = [Lit ""; Lit "api"; Lit "v1"; Lit "sandboxes"; Param "id"]%string ++ (Lit <$> tail) →
  reaches (x ← Sdk.ask key m (join "/" ([""; "api"; "v1"; "sandboxes"; id]%string ++ tail)) true query b; lift (k x))
    e [("id", id)]%string (Some p).
Proof.
  intros Hmc Hid Ht Hu Hh Hseg.
  eapply reaches_guarded with (parts := ["api"; "v1"; "sandboxes"; id]%string ++ tail);
    [done|by apply sandbox_parts|done|by cbn; rewrite Hid, Ht|apply no_probe|].
  by eapply dispatch_sandbox.
Qed.
End reach.

(** What is left is computed from the table. *)
Ltac by_table := first [assumption | vm_compute; reflexivity].

Section calls.
Context {R : PathRouter} {RO : PathRouterOk R} {N : Sdk.SdkHttp} {NO : SdkHttpOk N} {T : Type} {J : Sdk.FromJson T}.

(** The record of one execution: two parameters. *)
Lemma reaches_execution {A} key admin_token e2b_authenticate auth p id x (k : Z * (string + Bytes) → res Sdk.SdkError.t A) :
  may_call key admin_token auth p → plain_part id = true → plain_part x = true → x ≠ "stream"%string →
  reaches admin_token e2b_authenticate auth
    (y ← Sdk.ask key GET (Sdk.sandbox_path id +:+ "/exec/" +:+ x) true [] Sdk.NoBody; lift (k y))
    Endpoint.exec_get_execution [("id", id); ("exec_id", x)]%string (Some p).
Proof.
  intros Hmc Hid Hx Hn. destruct (plain_no_slash id Hid) as [He Hs]. destruct (plain_no_slash x Hx) as [Hex Hsx].
  assert (split "/" (Sdk.sandbox_path id +:+ "/exec/" +:+ x) = [""; "api"; "v1"; "sandboxes"; id; "exec"; x]%string) as Hsp.
  { change ("/exec/" +:+ x) with (String "/" ("exec" +:+ String "/" x)).
    by rewrite below_split, split_app, (split_one _ x). }
  eapply reaches_guarded with (parts := ["api"; "v1"; "sandboxes"; id; "exec"; x]%string);
    [done|exact Hsp|done|by cbn; rewrite Hid, Hx|apply no_probe|].
  eapply (dispatch_by [Is ""; Is "api"; Is "v1"; Is "sandboxes"; Other []; Is "exec"; Other ["stream"]]%string);
    [|instantiate (1 := "/api/v1/sandboxes/{id}/exec/{exec_id}"%string); vm_compute; reflexivity|reflexivity|].
  - rewrite Hsp. repeat constructor; try done; set_solver.
  - rewrite Hsp. cbn. by rewrite He, Hex.
Qed.

(** The collection itself. *)
Lemma dispatch_collection m m0 e :
  List.find (λ h, serves h.1 m) (handlers_of "/api/v1/sandboxes") = Some (m0, e) →
  dispatch m "/api/v1/sandboxes" = Handler e [].
Proof.
  intros Hh. apply (dispatch_by [Is ""; Is "api"; Is "v1"; Is "sandboxes"]%string m m0 _ "/api/v1/sandboxes");
    [|by_table|exact Hh|by_table].
  change (split "/" "/api/v1/sandboxes") with [""; "api"; "v1"; "sandboxes"]%string. by repeat constructor.
Qed.

Lemma reaches_collection {A} key admin_token e2b_authenticate auth p m m0 query b
    (k : Z * (string + Bytes) → res Sdk.SdkError.t A) e :
  may_call key admin_token auth p →
  List.find (λ h, serves h.1 m) (handlers_of "/api/v1/sandboxes") = Some (m0, e) →
  reaches admin_token e2b_authenticate auth
    (y ← Sdk.ask key m "/api/v1/sandboxes" true query b; lift (k y)) e [] (Some p).
Proof.
  intros Hmc Hh. apply (reaches_guarded _ _ _ _ _ m _ _ _ _ ["api"; "v1"; "sandboxes"]%string); [done|by_table|done|by_table..|].
  by eapply dispatch_collection.
Qed.

(** C31: Every call of the client reaches the handler it is named after.  For a client
    with a registered key that may write, and ids a URL carries as they are, each call
    makes one exchange; the request passes the filter as the principal of the key (the
    probes without one), and the router hands it to the handler of that name with the
    ids as its parameters. *)
Theorem sdk_calls_reach_their_handlers key admin_token e2b_authenticate auth p id x spec status limit offset
    req path data :
  may_call key admin_token auth p → plain_part id = true → plain_part x = true → x ≠ "stream"%string →
  let to {A} (c : stres Sdk.net Sdk.SdkError.t A) := reaches admin_token e2b_authenticate auth c in
  let sandbox := [("id", id)]%string in
  to (Sdk.create_sandbox (T := T) key spec) Endpoint.sandbox_create_sandbox [] (Some p) ∧
  to (Sdk.list_sandboxes (T := T) key status limit offset) Endpoint.sandbox_list_sandboxes [] (Some p) ∧
  to (Sdk.get_sandbox (T := T) key id) Endpoint.sandbox_get_sandbox sandbox (Some p) ∧
  to (Sdk.delete_sandbox key id) Endpoint.sandbox_delete_sandbox sandbox (Some p) ∧
  to (Sdk.exec (T := T) key id req) Endpoint.exec_exec_sync sandbox (Some p) ∧
  to (Sdk.stream_exec key id req) Endpoint.exec_exec_stream sandbox (Some p) ∧
  to (Sdk.list_executions (T := T) key id limit) Endpoint.exec_list_executions sandbox (Some p) ∧
  to (Sdk.get_execution (T := T) key id x) Endpoint.exec_get_execution (sandbox ++ [("exec_id", x)]%string) (Some p) ∧
  to (Sdk.upload_file (T := T) key id path data) Endpoint.files_upload_file sandbox (Some p) ∧
  to (Sdk.download_file key id path) Endpoint.files_download_file sandbox (Some p) ∧
  to (Sdk.list_files (T := T) key id path) Endpoint.files_list_files sandbox (Some p) ∧
  to (Sdk.health (T := T) key) Endpoint.health_health [] None ∧
  to (Sdk.liveness (T := T) key) Endpoint.health_liveness [] None ∧
  to (Sdk.readiness (T := T) key) Endpoint.health_readiness [] None ∧
  to (Sdk.metrics key) Endpoint.health_metrics [] None.
Proof.
  intros Hmc Hid Hx Hn. cbv zeta. split_and!.
  - apply (reaches_collection _ _ _ _ _ POST POST); by_table.
  - apply (reaches_collection _ _ _ _ _ GET GET); by_table.
  - apply (reaches_sandbox key _ _ auth p GET GET id [] "/api/v1/sandboxes/{id}"); by_table.
  - apply (reaches_sandbox key _ _ auth p DELETE DELETE id [] "/api/v1/sandboxes/{id}"); by_table.
  - apply (reaches_sandbox key _ _ auth p POST POST id ["exec"]%string "/api/v1/sandboxes/{id}/exec"); by_table.
  - apply (reaches_sandbox key _ _ auth p POST POST id ["exec"; "stream"]%string "/api/v1/sandboxes/{id}/exec/stream"); by_table.
  - apply (reaches_sandbox key _ _ auth p GET GET id ["exec"]%string "/api/v1/sandboxes/{id}/exec"); by_table.
  - by apply reaches_execution.
  - apply (reaches_sandbox key _ _ auth p POST POST id ["files"; "upload"]%string "/api/v1/sandboxes/{id}/files/upload"); by_table.
  - apply (reaches_sandbox key _ _ auth p GET GET id ["files"; "download"]%string "/api/v1/sandboxes/{id}/files/download"); by_table.
  - apply (reaches_sandbox key _ _ auth p GET GET id ["files"; "ls"]%string "/api/v1/sandboxes/{id}/files/ls"); by_table.
  - eapply reaches_open; [done|reflexivity|done|by_table..|]. apply static_route; by_table.
  - eapply reaches_open; [done|reflexivity|done|by_table..|]. apply static_route; by_table.
  - eapply reaches_open; [done|reflexivity|done|by_table..|]. apply static_route; by_table.
  - eapply reaches_open; [done|reflexivity|done|by_table..|]. apply static_route; by_table.
Qed.
End calls.

(** ** A server that answers with one stream *)

Module SdkDemo.
#[local] Instance writer : SseWriter := {| sse_body l := unlines (l ≫= event_lines) |}.
#[local] Instance writer_ok : SseWriterOk writer.
Proof. by split. Qed.

Definition events : list ExecStreamEvent :=
  [EvStdout (String.list_byte_of_string "hello"); EvStderr []; EvExit (-1)].
Definition stream : Bytes := String.list_byte_of_string (sse_body (sse <$> events)).
#[local] Instance wire : Sdk.SdkHttp := {|
  Sdk.net := nat; Sdk.url_join p := Some p; Sdk.send _ n := (S n, inr (200, inr stream));
  Sdk.body_text := String.string_of_list_byte; Sdk.parse_error _ := "invalid digit found in string"%string |}.
#[local] Instance wire_ok : SdkHttpOk wire.
Proof. by split. Qed.
#[local] Instance raw : Sdk.FromJson string := {| Sdk.from_json := inr |}.

Definition command : Sdk.ExecRequest.t := Sdk.ExecRequest.new ["echo"; "hello"]%string.
Lemma stream_is_read_back_witness :
  Sdk.stream_exec "key" "sb-1" command 0%nat = (1%nat, Ok [Sdk.Stdout "hello"; Sdk.Stderr ""; Sdk.Exit (-1)]).
Proof.
  apply (stream_is_read_back (N := wire) (W := writer) "key" "sb-1" command
    (Sdk.http POST "/api/v1/sandboxes/sb-1/exec/stream" [] (Some "Bearer key"%string) (Sdk.ExecBody command))
    0%nat 1%nat stream events); [reflexivity|reflexivity|vm_compute; reflexivity|].
  repeat constructor; simpl; lia.
Defined.

Definition owner : Principal.t := Principal.mk "tenant" Scope.Full None.
Definition keys : Authenticator.t := Authenticator.register "key" "tenant" Scope.Full Authenticator.new_production.
Lemma sdk_calls_reach_their_handlers_witness :
  reaches None (λ _, None) keys (Sdk.get_sandbox (T := string) "key" "sb-1") Endpoint.sandbox_get_sandbox
    [("id", "sb-1")]%string (Some owner).
Proof.
  assert (may_call "key" None keys owner) as Hmc.
  { split; [split; vm_compute; reflexivity|discriminate|vm_compute; reflexivity|split; reflexivity]. }
  apply (sdk_calls_reach_their_handlers (T := string) "key" None (λ _, None) keys owner "sb-1" "ex-1"
    Sdk.SandboxSpec.default None None None command "/f" [] Hmc eq_refl eq_refl ltac:(discriminate)).
Defined.
End SdkDemo.
