(* ===== verification/Ctl.v ===== *)
(** * The command-line client ([crates/clouislectl/src/{cli,main}.rs])

    Each command is one HTTP request; what comes back is printed as it is. *)

From S2P Require Import Prelude Core Auth Router Json Proto Guest Store SandboxModel Vmm.
From S2P Require Import Admission Pool Digest Dns Net E2bCloud Processes E2bModel AppState Lifecycle.
From S2P Require Import E2bHandlers ApiHandlers Sdk.

Module Ctl.
(** The options every command has. *)
Record Options : Set := options { api : option string; key : option string }.

Inductive Cli : Set :=
| Create (image : string) (vcpu memory_mb : Z) (o : Options)
| List (status : option string) (o : Options)
| Delete (id : string) (o : Options)
| Exec (id : string) (command : list string) (o : Options)
| Health (o : Options).

Definition options_of (c : Cli) : Options :=
  match c with Create _ _ _ o | List _ o | Delete _ o | Exec _ _ o | Health o => o end.
Definition api_url (c : Cli) : string := default "http://127.0.0.1:8080"%string (api (options_of c)).
Definition api_key (c : Cli) : option string := key (options_of c).

Definition auth_header (key : option string) : option (string * string) :=
  (λ k, ("Authorization"%string, "Bearer " +:+ k)) <$> key.

Record Req : Type := req {
  r_method : Method; r_url : string; r_header : option (string * string); r_body : option Json }.

Definition request_of (c : Cli) : Req :=
  let base := api_url c in
  let auth := auth_header (api_key c) in
  match c with
  | Create image vcpu memory_mb _ =>
    req POST (base +:+ "/api/v1/sandboxes") auth
      (Some (JObj [("image", JObj [("reference", JStr image)]);
                   ("resources", JObj [("vcpu", JNum vcpu); ("memory_mb", JNum memory_mb);
                                       ("disk_mb", JNum 512)])]))%string
  | List status _ =>
    req GET (base +:+ "/api/v1/sandboxes"
             +:+ match status with Some s => "?status=" +:+ s | None => ""%string end) auth None
  | Delete id _ => req DELETE (base +:+ "/api/v1/sandboxes/" +:+ id) auth None
  | Exec id command _ =>
    req POST (base +:+ "/api/v1/sandboxes/" +:+ id +:+ "/exec") auth
      (Some (JObj [("argv", jstrs command); ("timeout_ms", JNum 30000); ("stream", JBool false)]))%string
  | Health _ => req GET (base +:+ "/health") None None
  end.

(** What is printed: the body, or the status of a deletion. *)
Inductive Printed : Set := Text | Status.
Definition prints (c : Cli) : Printed := match c with Delete _ _ => Status | _ => Text end.
End Ctl.

Section commands.
Context {R : PathRouter} {RO : PathRouterOk R}.

(** A path below the base URL that routes to a handler. *)
Definition leads_to (r : Ctl.Req) (base path query : string) (e : Endpoint.t) (kv : list (string * string)) : Prop :=
  Ctl.r_url r = base +:+ path +:+ query ∧ dispatch (Ctl.r_method r) path = Handler e kv.

(** Every command is sent below the base URL to the handler it is named after, with the key
    the user gave (but for the health check). *)
Lemma commands_reach_their_handlers c :
  match c with Ctl.Delete id _ | Ctl.Exec id _ _ => plain_part id = true | _ => True end →
  let r := Ctl.request_of c in
  let to := leads_to r (Ctl.api_url c) in
  match c with
  | Ctl.Create _ _ _ _ => to "/api/v1/sandboxes" "" Endpoint.sandbox_create_sandbox []
  | Ctl.List status _ =>
    to "/api/v1/sandboxes" (match status with Some s => "?status=" +:+ s | None => "" end)
      Endpoint.sandbox_list_sandboxes []
  | Ctl.Delete id _ =>
    to ("/api/v1/sandboxes/" +:+ id) "" Endpoint.sandbox_delete_sandbox [("id", id)]
  | Ctl.Exec id _ _ =>
    to ("/api/v1/sandboxes/" +:+ id +:+ "/exec") "" Endpoint.exec_exec_sync [("id", id)]
  | Ctl.Health _ => to "/health" "" Endpoint.health_health []
  end%string ∧
  Ctl.r_header r = match c with Ctl.Health _ => None | _ => Ctl.auth_header (Ctl.api_key c) end.
Proof.
  intros Hc. destruct c as [image v m o|st o|id o|id cmd o|o]; (split; [split|done]); simpl;
    rewrite ?string_app_nil_r; try done.
  - eapply dispatch_collection; by_table.
  - eapply dispatch_collection; by_table.
  - apply (dispatch_sandbox DELETE DELETE id [] "/api/v1/sandboxes/{id}"); by_table.
  - apply (dispatch_sandbox POST POST id ["exec"%string] "/api/v1/sandboxes/{id}/exec"); by_table.
  - apply static_route; by_table.
Qed.
End commands.
