(* ===== verification/Control.v ===== *)
(** * The control plane as a transition system

    Every request the router hands to a handler, as one type; the spawned jobs; and
    the steps of the process: a request, a job, a tick of the reaper, a pass of the
    reconciler, the preparation of a snapshot, a round of the warm pool's background
    task.  A deployment in memory for the witnesses. *)

From S2P Require Import Prelude Core SandboxModel Admission Vmm Pool Proto Guest Digest Dns Net.
From S2P Require Import Store Json Auth E2bCloud Processes E2bModel AppState Lifecycle E2bHandlers.
From S2P Require Import CloudHandlers ApiHandlers.

(** ** Requests on one sandbox *)

Inductive sandbox_request : Type :=
(* the native surface *)
| RGet | RDelete | RRecover
| RExec (r : ExecRequest.t) | RExecStream (r : ExecRequest.t)
| RHistory (limit : option nat) | RExecution (exec_id : string)
| RUpload (path : string) (body : Bytes) | RDownload (path : string) | RLs (path : string)
(* the E2B surface *)
| RE2bGet | RE2bDelete | RConnect (timeout : option Z) | RResume (timeout : option Z) | RPause
| RTimeout (timeout : Z) | RRefresh (timeout : Z) | RNetwork (r : E2bNetworkUpdateRequest.t)
| RLogs | RMetrics | RSnapshot (body : Json) | RFork (body : Json)
(* the calls that name the sandbox in a header *)
| REnvUpload (path : string) (body : Bytes) | REnvDownload (path : string) | REnvLs (path : string)
| RStat (path : string) | RMkdir (path : string) | RMove (source destination : string)
| RRemove (path : string) | RWatch (path : string) (recursive include_entry : bool)
| RWatchDir (path : string) (recursive include_entry : bool)
| RStart (config : E2bProcessConfig.t) | RProcesses | RJoin (sel : E2bProcessSelector.t)
| RInput (sel : E2bProcessSelector.t) (input : E2bProcessInput.t) | RStreamInput (message : Json)
| RSignal (sel : E2bProcessSelector.t) (signal : E2bSignal.t)
| RCloseStdin (sel : E2bProcessSelector.t)
| RResize (sel : E2bProcessSelector.t) (size : option (Z * Z))
| REnvInit (body : Json) | REnvs | REnvMetrics
| RCompose (sources : list string) (destination : string).

(** ** Requests on the team's records *)

Inductive team_request : Type :=
| TTeams (h : header) | TCreateTeam (body : Json) | TMembers (h : header) (team : string)
| TTeamMetrics (h : header) (team : string) | TTeamMetricsMax (h : header) (team : string) (q : query)
| TKeys (h : header) | TCreateKey (h : header) (body : Json)
| TUpdateKey (h : header) (id : string) (body : Json) | TDeleteKey (h : header) (id : string)
| TCreateToken (body : Json) | TDeleteToken (id : string)
| TVolumes (h : header) | TCreateVolume (h : header) (body : Json)
| TGetVolume (h : header) (id : string) | TDeleteVolume (h : header) (id : string)
| TVolumePath (id : string) (q : query) | TVolumeDir (id : string) (q : query)
| TVolumeGet (id : string) (q : query)
| TVolumePut (hs : list (string * option string)) (id : string) (q : query) (body : Bytes)
| TTemplates (q : query) | TCreateTemplate (body : Json) | TGetTemplate (id : string)
| TTemplateBuilds (id : string) | TStartBuild (template build : string)
| TBuildStatus (build : string) | TBuildLogs (build : string) | TAssignTags (body : Json)
| TTemplateTags (id : string) | TAlias (alias : string) | TUpdateTemplate (id : string) (body : Json)
| TTagResponse | TBuildUpload (body : Bytes)
| TSandboxMetrics (q : query) | TSnapshots (q : query)
| TWatcherEvents (watcher : string) | TRemoveWatcher (watcher : string)
| TPrefetch (image : option ImageRef.t) (images : list ImageRef.t) | TPrefetchJob (id : string).

(** ** All requests; an identifier a handler draws itself comes with the request *)

Inductive request : Type :=
| OnSandbox (p : Principal.t) (id : string) (r : sandbox_request)
| OnTeam (p : Principal.t) (r : team_request)
| Create (errors : list ValidationError.t → string) (p : Principal.t) (sp : SandboxSpec.t)
    (sync : bool) (id : string)
| E2bCreate (errors : list ValidationError.t → string) (p : Principal.t)
    (r : E2bCreateRequest.t) (id : string)
| ListSandboxes (p : Principal.t) (status : option string) (limit offset : option nat)
| E2bListSandboxes (p : Principal.t) (q : E2bPaginationQuery.t) (running_only : bool)
| KillTeam (x_admin authorization : header) (team : string)
| AdminCreateKey (x_admin authorization : header) (team : string) (body : Json)
| AdminDeleteKey (x_admin authorization : header) (team id : string)
| CancelBuilds (x_admin authorization : header) (team : string)
| Heartbeat (n : RegisteredNode.t) | ReadyNodes | ListNodes | GetNode (id : string)
| Health (e2b_header : bool) | Readiness.

(** Requests are made of Rust values, so their integers fit their types. *)
Definition request_ok (r : request) : Prop :=
  match r with
  | Create _ _ sp _ _ => Resources.well_typed (SandboxSpec.resources sp)
  | _ => True
  end.

Section control.
Context {S : Semaphore} {ST : Store} {V : Vmm} {O : Os} {D : Deployment} {A : Agent}
  {H : Sha256} {T : Timeouts} {C : Chrono} {HO : HashOrder} {CE : CloudEnv} {W : Wire}.

(** The answer is left out. *)
Definition answer {B} (m : handler B) : handler () := _ ← m; mret ().

Definition serve_sandbox (p : Principal.t) (id : string) (r : sandbox_request) : handler () :=
  let h : header := Some (Some id) in
  match r with
  | RGet => answer (get_handler p id)
  | RDelete => answer (delete_handler p id)
  | RRecover => answer (recover_handler p id)
  | RExec r => answer (exec_sync p id r)
  | RExecStream r => answer (exec_stream p id r)
  | RHistory limit => answer (list_execution_history p id limit)
  | RExecution x => answer (get_execution_record p id x)
  | RUpload path body => upload_file p id path body
  | RDownload path => answer (download_file p id path)
  | RLs path => answer (list_files p id path)
  | RE2bGet => answer (e2b_get p id)
  | RE2bDelete => answer (e2b_delete p id)
  | RConnect t => answer (e2b_connect p id t)
  | RResume t => answer (e2b_resume p id t)
  | RPause => answer (e2b_pause p id)
  | RTimeout t => answer (set_timeout p id t)
  | RRefresh t => answer (refresh p id t)
  | RNetwork r => answer (update_network p id r)
  | RLogs => answer (sandbox_logs p id)
  | RMetrics => answer (sandbox_metrics p id)
  | RSnapshot body => answer (create_snapshot p id body)
  | RFork body => answer (fork_sandbox p id body)
  | REnvUpload path body => answer (e2b_upload_file p h path body)
  | REnvDownload path => answer (e2b_download_file p h path)
  | REnvLs path => answer (e2b_list_dir p h path)
  | RStat path => answer (filesystem_stat p h path)
  | RMkdir path => answer (filesystem_make_dir p h path)
  | RMove a b => answer (filesystem_move p h a b)
  | RRemove path => answer (filesystem_remove p h path)
  | RWatch path r e => answer (filesystem_create_watcher p h path r e)
  | RWatchDir path r e => answer (filesystem_watch_dir p h path r e)
  | RStart c => answer (process_start p h c)
  | RProcesses => answer (process_list p h)
  | RJoin sel => answer (process_connect p h sel)
  | RInput sel i => answer (process_send_input p h sel i)
  | RStreamInput m => answer (process_stream_input p h m)
  | RSignal sel x => answer (process_send_signal p h sel x)
  | RCloseStdin sel => answer (process_close_stdin p h sel)
  | RResize sel x => answer (process_update p h sel x)
  | REnvInit body => answer (envd_init p h body)
  | REnvs => answer (envd_envs p h)
  | REnvMetrics => answer (envd_metrics p h)
  | RCompose l d => answer (envd_compose p h l d)
  end.

Definition serve_team (p : Principal.t) (r : team_request) : handler () :=
  match r with
  | TTeams h => answer (list_teams p h)
  | TCreateTeam b => answer (create_team p b)
  | TMembers h t => answer (team_members p h t)
  | TTeamMetrics h t => answer (team_metrics p h t)
  | TTeamMetricsMax h t q => answer (team_metrics_max p h t q)
  | TKeys h => answer (api_keys p h)
  | TCreateKey h b => answer (create_key p h b)
  | TUpdateKey h i b => answer (update_key p h i b)
  | TDeleteKey h i => answer (delete_key p h i)
  | TCreateToken b => answer (create_token p b)
  | TDeleteToken i => answer (delete_token p i)
  | TVolumes h => answer (list_volumes p h)
  | TCreateVolume h b => answer (create_volume p h b)
  | TGetVolume h i => answer (get_volume p h i)
  | TDeleteVolume h i => answer (delete_volume p h i)
  | TVolumePath i q => answer (volume_path p i q)
  | TVolumeDir i q => answer (volume_dir p i q)
  | TVolumeGet i q => answer (volume_get p i q)
  | TVolumePut hs i q b => answer (volume_put p hs i q b)
  | TTemplates q => answer (list_templates p q)
  | TCreateTemplate b => answer (create_template_v3 p b)
  | TGetTemplate i => answer (get_template p i)
  | TTemplateBuilds i => answer (list_template_builds p i)
  | TStartBuild t b => answer (start_template_build p t b)
  | TBuildStatus b => answer (get_build_status p b)
  | TBuildLogs b => answer (get_build_logs p b)
  | TAssignTags b => answer (assign_template_tags p b)
  | TTemplateTags i => answer (list_template_tags p i)
  | TAlias a => answer (resolve_template_alias p a)
  | TUpdateTemplate i b => answer (update_template p i b)
  | TTagResponse => answer (template_tag_response p)
  | TBuildUpload b => answer (template_build_upload b)
  | TSandboxMetrics q => answer (list_sandbox_metrics p q)
  | TSnapshots q => answer (list_snapshots p q)
  | TWatcherEvents w => answer (filesystem_get_watcher_events p w)
  | TRemoveWatcher w => answer (filesystem_remove_watcher p w)
  | TPrefetch i l => answer (prefetch_images p i l)
  | TPrefetchJob i => answer (get_prefetch_job p i)
  end.

Definition serve (r : request) : handler () :=
  match r with
  | OnSandbox p id r => serve_sandbox p id r
  | OnTeam p r => serve_team p r
  | Create errors p sp sync id => answer (create_handler errors p sp sync id)
  | E2bCreate errors p r id => answer (e2b_create errors p r id)
  | ListSandboxes p st l o => answer (list_handler p st l o)
  | E2bListSandboxes p q running => answer (list_inner p q running)
  | KillTeam x a t => answer (admin_kill_team x a t)
  | AdminCreateKey x a t b => answer (admin_create_key x a t b)
  | AdminDeleteKey x a t i => answer (admin_delete_key x a t i)
  | CancelBuilds x a t => answer (admin_cancel_builds x a t)
  | Heartbeat n => answer (register_node n)
  | ReadyNodes => answer ready_nodes
  | ListNodes => answer list_nodes
  | GetNode i => answer (get_node i)
  | Health b => answer (health b)
  | Readiness => answer readiness
  end.

(** ** Spawned jobs *)

Definition run_task (t : Task) : handler () :=
  match t with
  | Provision sb r slot => quiet (run_provision_with_slot sb r slot)
  | Recover sb r =>
    result ← attempt (provision_sandbox sb r None None None);
    _ ← when (negb (is_ok result)) (modify (remove_reservation (Sandbox.id sb)));
    modify (λ s, set_provisioning (provisioning s ∖ {[Sandbox.id sb]}) s)
  | Fork sb r snap subnet => quiet (run_provision_from_snapshot sb r snap subnet)
  | Pump i pty c guest_id => run_pump i pty c guest_id
  | Prefetch id image => run_prefetch id image
  | BuildImage team b => quiet (build_image_if_possible team b)
  end.

(** ** Steps *)

Inductive step (s : AppState) : AppState → Prop :=
| step_request r : request_ok r → step s (serve r s).1
| step_reconcile : step s (reconcile_sandboxes s).1
| step_expire : step s (expiry_tick s).1
| step_snapshot sp i : step s (warm_snapshot sp i s).1
| step_background order uid t t' t'' g w :
  Pool.tick order uid t t' t'' (warm s, vm s) = (g, w) → step s (set_vm w (set_warm g s))
| step_task pre t post :
  tasks s = pre ++ t :: post → step s (run_task t (set_tasks (pre ++ post) s)).1.

(** The state of a process that has just started over a persisted store. *)
Definition boot (cap : Resources.t) (max min_idle max_idle : Z) (x : store) (w : world)
    (n : os_world) (g : guest) (e : E2bControlPlane.ControlPlane) (a : Authenticator.t) : AppState :=
  app x w (ResourcePool.new cap max) (Pool.new min_idle max_idle) ∅ ∅ [] ∅ (manager_new, n) g
    allocator_new [] 0 e a ∅ no_processes 1 ∅ false.
End control.

(** ** A deployment in memory, for the witnesses *)

Module ControlDemo.
#[global] Instance os : Os := NetDemo.os.
#[global] Instance semaphore : Semaphore := counter_semaphore.
#[global] Instance memory : Store := InMemoryStore.impl.
#[global] Instance machines : Vmm := MemoryVmm.vmm true false.
Export MemoryCloud.
#[global] Instance patience : Timeouts := patient.
#[global] Instance chrono : Chrono := chrono_exact.
(** Codecs for the witnesses: one character per byte. *)
#[global] Instance wire : Wire := {|
  base64_encode b := String.string_of_list_byte b;
  base64_decode t := inr (String.list_byte_of_string t);
  to_vec _ := inr [] |}.

(** Time passes one second per reading (for a million readings); the admission pool and the network are
    managed. *)
#[global] Instance deployment : Deployment := {|
  clk n := 1700000000000000000 + Z.min (Z.of_nat n) 1000000 * ns_per_sec;
  key_hash _ := 7;
  manage_resources := true;
  manage_network := true;
  create_dir_all _ w := (w, None);
  remove_file _ w := w;
  admin_token := Some "root" |}.

(** A guest that answers, unless it is told not to. *)
#[global] Instance agent : Agent := {|
  guest := bool;
  connection := string;
  connect_and_hello _ i g :=
    (g, if g then inr i else inl (ClouisleError.internal "no hello"));
  conn_exec _ _ _ _ _ g := (g, inr (ExecutionResult.mk 0 [] [] 1));
  Guest.exec_stream _ _ _ _ _ := default_exec_stream (λ g, (g, inr (ExecutionResult.mk 0 [] [] 1)));
  write_file _ _ _ _ g := (g, inr ());
  apply_limits _ _ g := (g, inr ());
  read_file _ _ g := (g, inr []);
  list_dir _ _ g := (g, inr []);
  ping _ g := (g, inr ());
  start_process _ _ _ _ _ _ _ g := (g, inr "proc-1"%string);
  stream_process_events _ _ g := (g, ([EvStdout [Byte.x61]; EvExit 0], inr ()));
  send_stdin _ _ _ g := (g, inr ());
  close_stdin _ _ g := (g, inr ());
  send_signal _ _ _ g := (g, inr ());
  resize_pty _ _ _ _ g := (g, inr ()) |}.

Definition cap : Resources.t := Resources.mk 4 4096 8192 None None None.
Definition initial (up : bool) : AppState :=
  boot cap 2 0 300 InMemoryStore.new (MemoryVmm.mk ∅ ∅ : world) ([] : os_world) (up : guest)
    (E2bControlPlane.control_plane_new (∅ : disk)) Authenticator.new_production.
Definition alice : Principal.t := Principal.mk "alice" Scope.Full None.
Definition bob : Principal.t := Principal.mk "bob" Scope.Full None.
Definition errors (_ : list ValidationError.t) : string := "".

#[global] Instance clock_ok : ClockOk deployment.
Proof. split. intros n. unfold in_range, clk. simpl. unfold dt_min, dt_max, ns_per_sec. lia. Qed.
End ControlDemo.
