(* ===== verification/Capacity.v ===== *)
(** * Capacity is conserved across the control plane

    The step relation of the control plane (requests, spawned jobs, the
    reconciler, the reaper, the warm pool's background task) and the invariant
    that ties the admission pool to the reservation table: every permit is either
    in the pool, in the table, or owned by a job that has not run yet. *)

From S2P Require Import Prelude Core SandboxModel Admission Vmm Pool Proto Guest Digest Dns Net.
From S2P Require Import Store Json Auth E2bCloud Processes E2bModel AppState Lifecycle E2bHandlers.
From S2P Require Import CloudHandlers ApiHandlers Control.

(** The integers of a specification fit their types. *)
Definition typed (sb : Sandbox.t) : Prop :=
  Resources.well_typed (SandboxSpec.resources (Sandbox.spec sb)).
(** A row is filed under its own id. *)
Definition row_ok (k : string) (c : Sandbox.t) : Prop := typed c ∧ Sandbox.id c = k.
Definition typed_res (r : Reservation.t) : Prop := Resources.well_typed (Reservation.resources r).

Section capacity.
Context {S : Semaphore} {SO : SemaphoreOk S} {ST : Store} {STO : StoreOk ST} {V : Vmm}
  {O : Os} {D : Deployment} {DO : ClockOk D} {A : Agent} {H : Sha256}
  {HO : HashOrder} {CE : CloudEnv} {W : Wire} {T : Timeouts} {C : Chrono} {CO : ChronoOk C}.

(** ** The rows stay typed *)

Definition rows_ok (s : AppState) : Prop :=
  store_wf (sto s) ∧ map_Forall row_ok (abs (sto s)).

Lemma rows_frames {B} (m : handler B) : frames sto m → keeps rows_ok m (λ _, True).
Proof. intros Hm. eapply keeps_frames; [exact Hm|]. unfold rows_ok. by intros s s' ->. Qed.

Lemma rows_now : keeps rows_ok now in_range.
Proof. intros s Hs. split; [done|]. intros t [= <-]. apply clk_in_range. Qed.

Lemma rows_updates m m' id f r :
  map_Forall row_ok m → (∀ c, Sandbox.spec (f c) = Sandbox.spec c ∧ Sandbox.id (f c) = Sandbox.id c) →
  updates m m' id f r → map_Forall row_ok m'.
Proof.
  intros Hm Hf [[_ ->]|Hu]; [done|]. revert Hu. unfold updated.
  destruct (m !! id) as [c|] eqn:Hc; [|by intros [-> _]].
  intros [-> _]. apply map_Forall_insert_2; [|done].
  unfold row_ok, typed. destruct (Hf c) as [-> ->]. by apply (Hm id).
Qed.

Lemma rows_create sb :
  typed sb → times_in_range sb → keeps rows_ok (store_call (create_sandbox sb)) (λ _, True).
Proof.
  intros Ht Hr s [Hwf Hm]. pose proof (create_law sb (sto s) Hwf Hr) as Hl. unfold store_call.
  destruct (create_sandbox sb (sto s)) as [x r]. destruct Hl as [Hwf' Hl]. split; [|done].
  split; [done|]. simpl. destruct Hl as [[_ ->]|Hl]; [done|]. destruct (abs (sto s) !! Sandbox.id sb).
  - by destruct Hl as [-> _].
  - destruct Hl as [-> _]. by apply map_Forall_insert_2.
Qed.

Lemma rows_get id t : keeps rows_ok (store_call (get_sandbox id t)) typed.
Proof.
  intros s [Hwf Hm]. pose proof (get_law id t (sto s) Hwf) as Hl. unfold store_call.
  destruct (get_sandbox id t (sto s)) as [x r]. destruct Hl as (Hwf' & Ha & Hl).
  split; [split; simpl; [done|by rewrite Ha]|]. simpl.
  destruct Hl as [Hf|Hl]; [by destruct r as [|e|]|]. destruct (abs (sto s) !! id) as [c|] eqn:Hc.
  - destruct Hl as (sb & -> & <- & _). intros b [= <-]. by apply (Hm _ _ Hc).
  - by destruct Hl as [msg ->].
Qed.

Lemma rows_list o t : keeps rows_ok (store_call (list_sandboxes o t)) (Forall typed).
Proof.
  intros s [Hwf Hm]. pose proof (list_law o t (sto s) Hwf) as Hl. unfold store_call.
  destruct (list_sandboxes o t (sto s)) as [x r]. destruct Hl as (Hwf' & Ha & Hl).
  split; [split; simpl; [done|by rewrite Ha]|].
  destruct Hl as [Hf|(l & -> & _ & Hp)]; [by destruct r as [|e|]|]. intros b [= <-].
  apply Forall_forall. intros sb Hsb.
  assert (content sb ∈ (map_to_list (abs (sto s))).*2) as Hin.
  { apply (list_elem_of_fmap_2 content) in Hsb. rewrite Hp in Hsb.
    apply list_elem_of_In, filter_In in Hsb as [Hsb _]. by apply list_elem_of_In. }
  apply list_elem_of_fmap in Hin as ([k c] & Hc & Hk). apply elem_of_map_to_list in Hk.
  specialize (Hm k c Hk) as [Hm _]. simpl in Hc. by rewrite <-Hc in Hm.
Qed.

Lemma rows_status_message id st m t :
  in_range t → keeps rows_ok (store_call (update_sandbox_status_message id st m t)) (λ _, True).
Proof.
  intros Hr s [Hwf Hm]. pose proof (status_message_law id st m t (sto s) Hwf Hr) as Hl.
  unfold store_call. destruct (update_sandbox_status_message _ _ _ _ _) as [x r].
  destruct Hl as [? Hu]. split; [|done]. split; [done|]. by apply (rows_updates _ _ _ _ _ Hm) in Hu.
Qed.

Lemma rows_vmm_meta id v t :
  in_range t → keeps rows_ok (store_call (update_sandbox_vmm_meta id v t)) (λ _, True).
Proof.
  intros Hr s [Hwf Hm]. pose proof (vmm_meta_law id v t (sto s) Hwf Hr) as Hl.
  unfold store_call. destruct (update_sandbox_vmm_meta _ _ _ _) as [x r].
  destruct Hl as [? Hu]. split; [|done]. split; [done|]. by apply (rows_updates _ _ _ _ _ Hm) in Hu.
Qed.

Lemma rows_node id n t :
  in_range t → keeps rows_ok (store_call (update_sandbox_node id n t)) (λ _, True).
Proof.
  intros Hr s [Hwf Hm]. pose proof (node_law id n t (sto s) Hwf Hr) as Hl.
  unfold store_call. destruct (update_sandbox_node _ _ _ _) as [x r].
  destruct Hl as [? Hu]. split; [|done]. split; [done|]. by apply (rows_updates _ _ _ _ _ Hm) in Hu.
Qed.

Lemma rows_expiry id e t :
  in_range t → (∀ x, e = Some x → in_range x) →
  keeps rows_ok (store_call (update_sandbox_expiry id e t)) (λ _, True).
Proof.
  intros Hr He s [Hwf Hm]. pose proof (expiry_law id e t (sto s) Hwf Hr He) as Hl.
  unfold store_call. destruct (update_sandbox_expiry _ _ _ _) as [x r].
  destruct Hl as [? Hu]. split; [|done]. split; [done|]. by apply (rows_updates _ _ _ _ _ Hm) in Hu.
Qed.

Lemma rows_delete id : keeps rows_ok (store_call (delete_sandbox id)) (λ _, True).
Proof.
  intros s [Hwf Hm]. pose proof (delete_law id (sto s) Hwf) as Hl. unfold store_call.
  destruct (delete_sandbox id (sto s)) as [x r]. destruct Hl as [Hwf' Hl]. split; [|done].
  split; [done|]. simpl. destruct Hl as [[_ ->]|Hl]; [done|].
  destruct (abs (sto s) !! id); destruct Hl as [-> _];
    [by apply map_Forall_delete|done].
Qed.

Lemma rows_spec id sp t :
  in_range t → Resources.well_typed (SandboxSpec.resources sp) →
  keeps rows_ok (store_call (update_sandbox_spec id sp t)) (λ _, True).
Proof.
  intros Hr Hsp s [Hwf Hm]. pose proof (spec_law id sp t (sto s) Hwf Hr) as Hl.
  unfold store_call. destruct (update_sandbox_spec _ _ _ _) as [x r].
  destruct Hl as [? Hu]. split; [|done]. split; [done|]. simpl. destruct Hu as [[_ ->]|Hu]; [done|].
  unfold updated in Hu. destruct (abs (sto s) !! id) as [c|] eqn:Hc; destruct Hu as [-> _]; [|done].
  apply map_Forall_insert_2; [|done]. by destruct (Hm _ _ Hc).
Qed.

(** A call that leaves the rows alone. *)
Lemma rows_kept {B} (f : store → store * StoreResult B) :
  (∀ s, store_wf s → let '(s', _) := f s in store_wf s' ∧ abs s' = abs s) →
  keeps rows_ok (store_call f) (λ _, True).
Proof.
  intros Hf s [Hwf Hm]. specialize (Hf (sto s) Hwf). unfold store_call.
  destruct (f (sto s)) as [x r]. destruct Hf as [Hwf' Ha].
  split; [|done]. split; simpl; [done|by rewrite Ha].
Qed.
Lemma rows_ready n : keeps rows_ok (store_call (list_ready_nodes n)) (λ _, True).
Proof. apply rows_kept, ready_nodes_law. Qed.
Lemma rows_upsert n : keeps rows_ok (store_call (upsert_node n)) (λ _, True).
Proof. apply rows_kept, upsert_node_law. Qed.
Lemma rows_save_exec x : keeps rows_ok (store_call (save_execution x)) (λ _, True).
Proof. apply rows_kept, save_execution_law. Qed.
Lemma rows_get_exec i t : keeps rows_ok (store_call (get_execution i t)) (λ _, True).
Proof. apply rows_kept, get_execution_law. Qed.
Lemma rows_list_exec i t : keeps rows_ok (store_call (list_executions i t)) (λ _, True).
Proof. apply rows_kept, list_executions_law. Qed.

(** A create whose caller looks at the error. *)
Lemma rows_create_try sb :
  typed sb → times_in_range sb → keeps rows_ok (store_try (create_sandbox sb)) (λ _, True).
Proof.
  intros Ht Hr s Hs. destruct (rows_create sb Ht Hr s Hs) as [Hk _].
  unfold store_call, store_try in *. by destruct (create_sandbox sb (sto s)) as [x [[]|e|]].
Qed.

(** Walks through a handler: a leaf is a store call with its lemma above, or
    anything that leaves the store alone. *)
Ltac leaf :=
  first
  [ apply rows_now | apply rows_get | apply rows_list | apply rows_delete | apply rows_ready
  | apply rows_upsert | apply rows_save_exec | apply rows_get_exec | apply rows_list_exec
  | apply rows_spec; done
  | apply rows_status_message; done | apply rows_vmm_meta; done | apply rows_node; done
  | apply rows_expiry; by eauto | apply rows_create; by eauto
  | done
  | solve [eauto 2 with rows nocore]
  | apply rows_frames; frame; done ].
Ltac walk :=
  lazymatch goal with
  | |- keeps _ (mbind _ _) _ =>
    first [ eapply keeps_bind; [solve [leaf]|intros ? ?; walk]
          | apply (keeps_bind _ _ _ (λ _, True)); [walk|intros ? _; walk] ]
  | |- keeps _ (mret _) _ => by apply keeps_ret
  | |- keeps _ (fail _) _ => apply keeps_fail
  | |- keeps _ (quiet _) _ => apply (keeps_quiet _ _ (λ _, True)); walk
  | |- keeps _ (catch _ _) _ => apply keeps_catch; [walk|intros ?; walk]
  | |- keeps _ (when _ _) _ => apply keeps_when; walk
  | |- keeps _ (attempt _) _ => apply (keeps_any _ _ (returns (λ _, True))), keeps_attempt; walk
  | |- keeps _ (for_each _ _) _ =>
    apply (keeps_for_each _ _ _ (λ _, True)); [by apply Forall_true|intros ? _; walk]
  | |- keeps _ (collect _ _) _ =>
    apply (keeps_collect _ _ _ (λ _, True)); [by apply Forall_true|intros ? _; walk]
  | |- keeps _ (match ?x with _ => _ end) _ => destruct x eqn:?; walk
  | |- _ => try solve [leaf | eapply keeps_any; leaf]
  end.

Lemma rows_mark_failed id e h : keeps rows_ok (mark_failed id e h) (λ _, True).
Proof. unfold mark_failed. walk. Qed.
Hint Resolve rows_mark_failed : rows.

Lemma rows_or_fail {B} id h (m : handler B) R : keeps rows_ok m R → keeps rows_ok (or_fail id h m) R.
Proof. intros Hm. unfold or_fail. apply keeps_catch; [done|]. intros e. walk. Qed.

Lemma rows_record sb h : keeps rows_ok (record_machine sb h) (λ _, True).
Proof.
  unfold record_machine. eapply keeps_bind; [apply rows_now|intros t Ht].
  eapply keeps_bind; [by apply rows_or_fail, rows_vmm_meta|intros _ _].
  destruct (VmHandle.owner_id h); [|by apply keeps_ret].
  eapply keeps_bind; [apply rows_now|intros t' Ht']. by apply rows_or_fail, rows_node.
Qed.

(** The deadline computed at the guest's hello is a date. *)
Lemma hello_deadline sb t sb' :
  Sandbox.transition sb SandboxEvent.AgentHello t = Ok sb' →
  Sandbox.id sb' = Sandbox.id sb ∧ Sandbox.spec sb' = Sandbox.spec sb ∧
  Sandbox.vmm_meta sb' = Sandbox.vmm_meta sb ∧ Sandbox.status sb' = SandboxStatus.Running ∧
  ∀ x, Sandbox.expires_at sb' = Some x → in_range x.
Proof.
  unfold Sandbox.transition. destruct (Sandbox.status sb); run_res; try done.
  all: destruct (SandboxSpec.ttl_secs (Sandbox.spec sb)); [|intros [= <-]; by split_and!];
    destruct (dt_add_seconds _ _) eqn:He; [|done]; intros [= <-];
    split_and!; [done..|]; intros x [= <-]; by eapply dt_add_range.
Qed.

Lemma rows_finish sb h : keeps rows_ok (finish_start sb h) (λ _, True).
Proof.
  unfold finish_start. eapply keeps_bind; [apply rows_now|intros t Ht].
  eapply (keeps_bind _ _ _ (λ sb', ∀ x, Sandbox.expires_at sb' = Some x → in_range x)).
  { apply keeps_lift. intros sb' Hsb. by eapply hello_deadline. }
  intros sb' Hd. eapply keeps_bind; [apply rows_now|intros t1 Ht1].
  eapply keeps_bind; [by apply rows_or_fail, rows_status_message|intros _ _]. walk.
Qed.

(** Nothing of provisioning but these touches the store. *)
Lemma rows_body sb slot snap sub : keeps rows_ok (provision_body sb slot snap sub) (λ _, True).
Proof.
  unfold provision_body. apply (keeps_bind _ _ _ (λ _, True)).
  { unfold choose_snapshot. apply rows_frames. frame. }
  intros [snap' sub'] _. apply (keeps_bind _ _ _ (λ _, True)).
  { apply keeps_when, rows_or_fail, rows_frames. frame. }
  intros _ _. apply (keeps_bind _ _ _ (λ _, True)).
  { unfold obtain_machine. destruct slot, snap'; try by apply keeps_ret.
    all: apply rows_or_fail, rows_frames; frame. }
  intros h _. eapply keeps_bind; [apply rows_record|intros _ _].
  apply (keeps_bind _ _ _ (λ _, True)).
  { destruct slot, snap'; try by apply keeps_ret. apply rows_or_fail, rows_frames. frame. }
  intros _ _. apply (keeps_bind _ _ _ (λ _, True)).
  { unfold setup_network. apply keeps_when, rows_or_fail, rows_frames. frame. }
  intros _ _. apply (keeps_bind _ _ _ (λ _, True)); [|intros; apply rows_finish].
  unfold prepare_guest, run_init, materialize_secrets, materialize_volume_mounts,
    mounted_volume.
  eapply keeps_bind; [apply rows_or_fail, rows_frames; frame|intros c _].
  eapply keeps_bind; [apply rows_or_fail, rows_frames; frame|intros _ _].
  eapply keeps_bind; [apply rows_frames; frame|intros _ _].
  eapply keeps_bind; [apply rows_or_fail, rows_frames; frame|intros _ _].
  case_bool_decide; [by apply keeps_ret|]. apply rows_or_fail, rows_frames. frame.
Qed.

(** ** The balance of permits *)

Definition res_view (s : AppState) : ResourcePool.t S * gmap string Reservation.t * list Task :=
  (pool s, reservations s, tasks s).

Definition task_res (t : Task) : option Reservation.t :=
  match t with Provision _ r _ => r | Recover _ r => r | Fork _ r _ _ => r | _ => None end.
Definition weight (d : ResourcePool.dim) (r : Reservation.t) : Z :=
  ResourcePool.amount d (Reservation.resources r).
Definition weight_opt (d : ResourcePool.dim) (r : option Reservation.t) : Z :=
  match r with Some r => weight d r | None => 0 end.
Definition typed_opt (r : option Reservation.t) : Prop :=
  match r with Some r => typed_res r | None => True end.

(** [x] is the reservation a running handler holds in a local. *)
Record balanced (cap : Resources.t) (max : Z) (x : option Reservation.t) (s : AppState) : Prop := {
  bal_left d : 0 ≤ ResourcePool.remaining d (pool s);
  bal_table : map_Forall (λ _, typed_res) (reservations s);
  bal_tasks : Forall (λ t, typed_opt (task_res t)) (tasks s);
  bal_local : typed_opt x;
  bal_sum d : ResourcePool.remaining d (pool s) + sum_map (weight d) (reservations s)
    + sum_by (λ t, weight_opt d (task_res t)) (tasks s) + weight_opt d x
    = ResourcePool.limit cap max d }.

Context (cap : Resources.t) (max : Z).
Let bal := balanced cap max.

Lemma bal_frame x s s' : res_view s' = res_view s → bal x s → bal x s'.
Proof. unfold res_view. intros [= Hp Hr Ht] [?????]. split; by rewrite ?Hp, ?Hr, ?Ht. Qed.

Lemma drop_left d p r :
  Resources.well_typed r → 0 ≤ ResourcePool.remaining d p →
  0 ≤ ResourcePool.remaining d (ResourcePool.drop p (Reservation.mk r)).
Proof.
  intros Hr Hp. rewrite ResourcePool.drop_remaining by done.
  apply (ResourcePool.amount_nonneg d) in Hr. lia.
Qed.

Lemma bal_drop x s : bal x s → bal None (drop_reservation x s).
Proof.
  intros [Hl Ht Hk Hx Hs]. destruct x as [[r]|]; [|by split].
  split; [intros; by apply drop_left|done..|]. intros d. specialize (Hs d). simpl in *.
  rewrite ResourcePool.drop_remaining by done. unfold weight in *. simpl in *. lia.
Qed.

(** The entry that leaves the table gives its permits back. *)
Lemma bal_remove x id s : bal x s → bal x (remove_reservation id s).
Proof.
  intros [Hl Ht Hk Hx Hs]. unfold remove_reservation.
  destruct (reservations s !! id) as [[r]|] eqn:Hr.
  - assert (typed_res (Reservation.mk r)) as Hty by (by apply (Ht id)).
    split; simpl; [intros; by apply drop_left|by apply map_Forall_delete|done..|].
    intros d. specialize (Hs d).
    rewrite (sum_map_delete _ _ _ _ Hr) in Hs.
    rewrite ResourcePool.drop_remaining by done.
    change (weight d (Reservation.mk r)) with (ResourcePool.amount d r) in Hs. lia.
  - split; simpl; [done|by apply map_Forall_delete|done..|]. intros d. by rewrite delete_id.
Qed.

Lemma bal_insert id r s : bal (Some r) s → bal None (insert_reservation id r s).
Proof.
  intros Hb. assert (typed_res r) as Hr by apply Hb.
  apply (bal_remove _ id) in Hb. destruct Hb as [Hl Ht Hk Hx Hs].
  unfold insert_reservation, remove_reservation in *.
  destruct (reservations s !! id) as [r'|] eqn:Hi; simpl in *;
    (split; simpl; [done| |done..|]; [|intros d; specialize (Hs d)]).
  1,3: rewrite <-insert_delete_eq; by apply map_Forall_insert_2.
  all: rewrite <-insert_delete_eq, sum_map_insert by apply lookup_delete_eq; lia.
Qed.

Lemma bal_admit sp s :
  Resources.well_typed (SandboxSpec.resources sp) → bal None s →
  match admit_spec sp s with
  | (s', Ok r) => bal (Some r) s'
  | (s', _) => bal None s'
  end.
Proof.
  intros Hty [Hl Ht Hk Hx Hs]. unfold admit_spec.
  pose proof (λ d, ResourcePool.admit_remaining (pool s) sp d Hty) as Hr.
  pose proof (ResourcePool.admit_result (pool s) sp) as Hres.
  destruct (ResourcePool.admit_ (pool s) sp) as [p [r|e|]] eqn:Hadm; simpl in *; [| |done].
  - assert (ResourcePool.fits (pool s) (SandboxSpec.resources sp)) as Hfit.
    { apply ResourcePool.admit_ok_iff. by rewrite Hadm. }
    subst r. split; [intros d; specialize (Hr d); specialize (Hfit d); simpl; lia|done..|].
    intros d. specialize (Hs d). specialize (Hr d). simpl.
    change (weight d _) with (ResourcePool.amount d (SandboxSpec.resources sp)). lia.
  - split; [intros d; specialize (Hr d); specialize (Hl d); simpl; lia|done..|].
    intros d. specialize (Hs d). specialize (Hr d). simpl. lia.
Qed.

Lemma bal_spawn t s : bal (task_res t) s → bal None (set_tasks (tasks s ++ [t]) s).
Proof.
  intros [Hl Ht Hk Hx Hs]. split; simpl; [done|done|by apply Forall_app_2; [|constructor]|done|].
  intros d. specialize (Hs d). rewrite sum_by_app. unfold sum_by in *. csimpl. lia.
Qed.

Lemma bal_take pre t post s :
  tasks s = pre ++ t :: post → bal None s → bal (task_res t) (set_tasks (pre ++ post) s).
Proof.
  intros Htk [Hl Ht Hk Hx Hs]. rewrite Htk in Hk. apply Forall_app in Hk as [Hk1 Hk2].
  apply Forall_cons in Hk2 as [Hk2 Hk3].
  split; simpl; [done|done|by apply Forall_app|done|].
  intros d. specialize (Hs d). rewrite Htk, sum_by_app in Hs. rewrite sum_by_app.
  unfold sum_by in *. csimpl in *. lia.
Qed.

(** ** Handlers conserve capacity *)

Definition inv (x : option Reservation.t) (s : AppState) : Prop := rows_ok s ∧ bal x s.

(** The handler takes over the reservation [x] and hands none back. *)
Definition conserves {B} (x : option Reservation.t) (m : handler B) : Prop :=
  hoare (inv x) m (λ _, inv None).

(** Holding [r] after a success and nothing after a failure. *)
Definition holding {B} (r : B → option Reservation.t) (o : result B) (s : AppState) : Prop :=
  match o with Ok b => inv (r b) s | _ => inv None s end.

Lemma sto_drop r s : sto (drop_reservation r s) = sto s.
Proof. by destruct r. Qed.

Lemma remove_reservation_fields id s :
  let s' := remove_reservation id s in
  sto s' = sto s ∧ vm s' = vm s ∧ warm s' = warm s ∧ warm_slots s' = warm_slots s ∧
  snapshots s' = snapshots s ∧ net s' = net s ∧ reservations s' = delete id (reservations s).
Proof. unfold remove_reservation. by destruct (reservations s !! id). Qed.

Lemma inv_drop x s : inv x s → inv None (drop_reservation x s).
Proof. intros [Hr Hb]. split; [|by apply bal_drop]. unfold rows_ok. by rewrite sto_drop. Qed.

Lemma inv_remove_res x id s : inv x s → inv x (remove_reservation id s).
Proof.
  intros [Hr Hb]. split; [|by apply bal_remove]. unfold rows_ok, remove_reservation.
  by rewrite sto_drop.
Qed.

Lemma inv_insert id r s : inv (Some r) s → inv None (insert_reservation id r s).
Proof.
  intros [Hr Hb]. split; [|by apply bal_insert]. unfold rows_ok, insert_reservation.
  by rewrite sto_drop.
Qed.

Lemma inv_frames {B} x (m : handler B) R : frames res_view m → keeps rows_ok m R → keeps (inv x) m R.
Proof.
  intros Hf Hk s [Hr Hb]. destruct (Hk s Hr). split; [|done]. split; [done|].
  exact (bal_frame _ _ _ (Hf s) Hb).
Qed.

Lemma scoped_holding {B} r (m : handler B) R :
  keeps (inv r) m R → hoare (inv r) (scoped r m) (λ o s, holding (λ _, r) o s ∧ returns R o).
Proof.
  intros Hm s Hs. destruct (Hm s Hs) as [Hi HR]. unfold scoped.
  destruct (m s) as [s1 [b|e|]]; simpl in *; split; try done; by apply inv_drop.
Qed.

Lemma keeps_conserves {B} (m : handler B) : keeps (inv None) m (λ _, True) → conserves None m.
Proof. intros. by eapply keeps_hoare. Qed.

Lemma conserves_keeps {B} (m : handler B) : conserves None m → keeps (inv None) m (λ _, True).
Proof. intros Hm s Hs. split; [by apply Hm|done]. Qed.

Lemma inv_reserve_if (b : bool) sp :
  Resources.well_typed (SandboxSpec.resources sp) →
  hoare (inv None) (if b then r ← admit_spec sp; mret (Some r) else mret None) (holding id).
Proof.
  intros Ht s Hs. destruct b; [|done].
  destruct Hs as [Hr Hb]. pose proof (bal_admit sp s Ht Hb) as Ha.
  unfold mbind, stres_bind. assert (rows_ok (admit_spec sp s).1) as Hr'.
  { unfold admit_spec. by destruct (ResourcePool.admit_ _ _). }
  destruct (admit_spec sp s) as [s1 [r|e|]]; by split.
Qed.

Lemma inv_reserve sp :
  Resources.well_typed (SandboxSpec.resources sp) → hoare (inv None) (reserve sp) (holding id).
Proof. apply inv_reserve_if. Qed.

Lemma discard_warm_inv x i :
  hoare (inv x) (discard_warm_slot i) (λ o s, o = Ok () ∧ inv x s).
Proof.
  intros s Hs. split.
  - unfold discard_warm_slot, mbind, stres_bind. simpl. by destruct (warm_slots s !! i).
  - revert s Hs. eapply keeps_hoare, inv_frames; [|apply rows_frames];
      unfold discard_warm_slot; frame.
Qed.

Lemma body_frames sb slot snap sub : frames res_view (provision_body sb slot snap sub).
Proof.
  unfold provision_body, choose_snapshot, obtain_machine, record_machine, setup_network,
    prepare_guest, run_init, finish_start, materialize_secrets, materialize_volume_mounts, mounted_volume,
    or_fail, mark_failed. frame.
Qed.

Lemma provision_conserves sb r slot snap sub : conserves r (provision_sandbox sb r slot snap sub).
Proof.
  unfold provision_sandbox. eapply hoare_bind.
  - apply scoped_holding, inv_frames; [apply body_frames|apply rows_body].
  - intros sb' s [Hi _]. simpl in Hi. destruct r as [r|]; [|done]. by apply inv_insert.
  - by intros e s [? _].
  - by intros s [? _].
Qed.

Lemma inv_provisioning x f : keeps (inv x) (modify (λ s, set_provisioning (f s) s)) (λ _, True).
Proof. apply keeps_modify. intros s [Hr Hb]. split; [done|]. by apply (bal_frame _ s). Qed.

Lemma conserves_attempt {B} x (m : handler B) :
  conserves x m → conserves x (attempt (E := ClouisleError.t) m).
Proof.
  intros Hm s Hs. specialize (Hm s Hs). unfold attempt. by destruct (m s) as [s1 [b|e|]].
Qed.

Lemma inv_now x : keeps (inv x) now in_range.
Proof. apply inv_frames; [frame|apply rows_now]. Qed.

(** Walks through a handler that holds no reservation. *)
Ltac calm :=
  lazymatch goal with
  | |- keeps _ (mbind _ now) _ => eapply keeps_bind; [apply inv_now|intros ? ?; calm]
  | |- keeps _ (mbind _ _) _ =>
    apply (keeps_bind _ _ _ (λ _, True)); [calm|intros ? _; calm]
  | |- keeps _ (mret _) _ => by apply keeps_ret
  | |- keeps _ (fail _) _ => apply keeps_fail
  | |- keeps _ (lift _) _ => apply keeps_lift; done
  | |- keeps _ (gets _) _ => apply keeps_gets
  | |- keeps _ (when _ _) _ => apply keeps_when; calm
  | |- keeps _ (modify (remove_reservation _)) _ => apply keeps_modify, inv_remove_res
  | |- keeps _ (modify (λ s, set_provisioning _ s)) _ => apply inv_provisioning
  | |- keeps _ (discard_warm_slot _) _ =>
    apply inv_frames; [|apply rows_frames]; unfold discard_warm_slot; frame
  | |- keeps _ (match ?x with _ => _ end) _ => destruct x eqn:?; calm
  | |- keeps _ (for_each _ _) _ =>
    apply (keeps_for_each _ _ _ (λ _, True)); [by apply Forall_true|intros ? _; calm]
  | |- keeps _ (collect _ _) _ =>
    apply (keeps_collect _ _ _ (λ _, True)); [by apply Forall_true|intros ? _; calm]
  | |- _ => try (apply inv_frames; [by frame|first [apply rows_frames; by frame|by walk]])
  end.

Lemma run_provision_conserves sb r slot snap sub :
  conserves r (run_provision_with_slot_and_snapshot sb r slot snap sub).
Proof.
  unfold run_provision_with_slot_and_snapshot. intros s Hs.
  unfold mbind at 1, stres_bind at 1. simpl. case_bool_decide.
  - destruct (discard_warm_inv _ (Sandbox.id sb) s Hs) as [Ho Hi].
    unfold mbind, stres_bind. destruct (discard_warm_slot _ s) as [s1 o]; simpl in *; subst o.
    by apply inv_drop.
  - apply (hoare_bind (inv r) _ _ (λ o s, o = Ok () ∧ inv r s) (λ _, inv None)); [..|done].
    + intros s' Hs'. split; [done|]. by apply inv_provisioning.
    + intros []. eapply (hoare_bind _ _ _ (λ _, inv None)); [| |done..].
      * eapply hoare_weaken; [apply conserves_attempt, provision_conserves|by intros ? []|done].
      * intros o. apply keeps_conserves. calm.
    + by intros ? ? [? ?].
    + by intros ? [? ?].
Qed.

Lemma delete_conserves p id : conserves None (delete_handler p id).
Proof.
  apply keeps_conserves. unfold delete_handler, fetch_own, fetch, retire_machine, release_slot,
    teardown_network. calm.
Qed.

(** Between admission and the job that takes the reservation over. *)
Lemma scoped_then {B E} r (m : handler B) R (k : B → handler E) :
  keeps (inv r) m R → (∀ b, R b → conserves r (k b)) → conserves r (scoped r m ≫= k).
Proof.
  intros Hm Hk. eapply hoare_bind; [by apply scoped_holding| | |].
  - intros b s [Hi Hr]. apply Hk; [|done]. by apply Hr.
  - by intros e s [? _].
  - by intros s [? _].
Qed.

Lemma spawn_conserves t : conserves (task_res t) (spawn t).
Proof. intros s [Hr Hb]. split; [done|]. by apply bal_spawn. Qed.

Lemma conserves_bind {B E} x (m : handler B) (k : B → handler E) :
  conserves x m → (∀ b, conserves None (k b)) → conserves x (m ≫= k).
Proof. intros Hm Hk. by eapply hoare_bind. Qed.

(** A new sandbox starts from its own times. *)
Lemma new_in_range i sp t t' sb :
  in_range t → in_range t' → Resources.well_typed (SandboxSpec.resources sp) →
  Sandbox.transition (Sandbox.new i sp t) SandboxEvent.Start t' = Ok sb →
  typed sb ∧ times_in_range sb.
Proof. intros Ht Ht' Hty [= <-]. split; [done|]. unfold times_in_range. by split_and!. Qed.

Lemma rows_store_new sb slot :
  typed sb → times_in_range sb → keeps rows_ok (store_new sb slot) (λ _, True).
Proof. intros. unfold store_new. walk. Qed.

Lemma create_conserves errors p sp sync i :
  Resources.well_typed (SandboxSpec.resources sp) →
  conserves None (create_handler errors p sp sync i).
Proof.
  intros Hty. unfold create_handler. set (sp' := SandboxSpec.set_tenant _ _).
  assert (Resources.well_typed (SandboxSpec.resources sp')) as Hty' by done.
  apply conserves_bind; [apply keeps_conserves; calm|intros _].
  apply conserves_bind; [apply keeps_conserves; calm|intros _].
  eapply hoare_bind; [by apply inv_reserve| |done..].
  intros r. apply (scoped_then r _ (λ _, True)).
  - apply inv_frames.
    + unfold acquire_slot, store_new, image_cached. frame.
    + eapply keeps_bind; [apply rows_frames; unfold acquire_slot; frame|intros slot _].
      eapply keeps_bind; [apply rows_now|intros t Ht].
      eapply keeps_bind; [apply rows_now|intros t' Ht'].
      eapply (keeps_bind _ _ _ (λ sb, typed sb ∧ times_in_range sb)).
      { apply keeps_lift. intros sb. by apply new_in_range. }
      intros sb [? ?]. eapply keeps_bind; [by apply rows_store_new|intros _ _].
      apply rows_frames. unfold image_cached. frame.
  - intros [[sb slot] cached] _. destruct (sync && cached).
    + apply conserves_bind; [apply run_provision_conserves|intros]. apply keeps_conserves. calm.
    + apply conserves_bind; [apply (spawn_conserves (Provision sb r slot))|intros].
      apply keeps_conserves. calm.
Qed.

Lemma fetch_typed i : keeps rows_ok (fetch i) typed.
Proof. unfold fetch. walk. Qed.

Lemma inv_fetch x i : keeps (inv x) (fetch i) typed.
Proof. apply inv_frames; [unfold fetch; frame|apply fetch_typed]. Qed.

Lemma inv_fetch_own p i : keeps (inv None) (fetch_own p i) typed.
Proof.
  unfold fetch_own. eapply keeps_bind; [apply inv_fetch|intros sb Hsb].
  apply (keeps_bind _ _ _ (λ _, True)); [by apply keeps_lift|intros _ _]. by apply keeps_ret.
Qed.

(** A handler that goes on from a typed row. *)
Lemma conserves_from {B E} (m : handler B) R (k : B → handler E) :
  keeps (inv None) m R → (∀ b, R b → conserves None (k b)) → conserves None (m ≫= k).
Proof.
  intros Hm Hk. eapply hoare_bind; [exact Hm| | |].
  - intros b s [Hi Hr]. apply Hk; [by apply Hr|done].
  - by intros e s [? _].
  - by intros s [? _].
Qed.

Lemma recover_conserves p i : conserves None (recover_handler p i).
Proof.
  unfold recover_handler. eapply conserves_from; [apply inv_fetch_own|intros sb Hsb].
  eapply conserves_from.
  { unfold still_running. apply (inv_frames _ _ (λ _, True)); [frame|apply rows_frames; frame]. }
  intros [] _; [apply keeps_conserves; calm|].
  eapply conserves_from; [calm|intros _ _].
  eapply conserves_from; [unfold teardown_network; calm|intros _ _].
  eapply conserves_from; [calm|intros _ _].
  eapply conserves_from; [calm|intros held _].
  eapply (hoare_bind _ _ _ (holding id)); [| |done..].
  { destruct held; [by intros s Hs|]. by apply inv_reserve. }
  intros r. apply (scoped_then r _ (λ _, True)).
  - eapply keeps_bind; [apply inv_frames; [frame|apply rows_now]|intros t Ht].
    eapply keeps_bind; [apply inv_frames; [frame|by apply rows_vmm_meta]|intros _ _].
    eapply keeps_bind; [apply inv_frames; [frame|apply rows_now]|intros t' Ht'].
    eapply keeps_bind; [apply inv_frames; [frame|by apply rows_status_message]|intros _ _].
    eapply keeps_bind; [apply keeps_gets|intros busy _].
    destruct busy; [apply keeps_fail|].
    eapply keeps_bind; [apply inv_provisioning|intros _ _]. eapply keeps_any, inv_fetch.
  - intros sb' _. apply conserves_bind; [apply (spawn_conserves (Recover sb' r))|intros _].
    eapply conserves_from; [apply inv_fetch|intros]. apply keeps_conserves. calm.
Qed.

(** *** Jobs *)

(** A handler that leaves rows, pool, table and jobs alone. *)
Lemma still_conserves {B} (m : handler B) :
  frames (λ s, (sto s, res_view s)) m → keeps (inv None) m (λ _, True).
Proof.
  intros Hm. eapply keeps_frames; [exact Hm|]. intros s s' [= Hs Hp Hr Ht] [[??] Hb].
  split; [unfold rows_ok; by rewrite Hs|]. apply (bal_frame _ s); [|done].
  unfold res_view. by rewrite Hp, Hr, Ht.
Qed.

Lemma task_conserves t : conserves (task_res t) (run_task t).
Proof.
  destruct t as [sb r slot|sb r|sb r snap sub|i pty c g|i image|team b]; simpl.
  - apply conserves_bind; [|intros; apply keeps_conserves; calm].
    apply conserves_attempt, run_provision_conserves.
  - apply conserves_bind; [apply conserves_attempt, provision_conserves|intros o].
    apply keeps_conserves. calm.
  - apply conserves_bind; [|intros; apply keeps_conserves; calm].
    apply conserves_attempt, run_provision_conserves.
  - apply keeps_conserves, still_conserves. unfold run_pump. frame.
  - apply keeps_conserves, still_conserves. unfold run_prefetch, update_job. frame.
  - apply keeps_conserves, still_conserves.
    unfold build_image_if_possible, warm_template, fresh_uuid. frame.
Qed.

(** *** The reconciler *)

Lemma put_status_inv i st m : keeps (inv None) (put_status i st m) (λ _, True).
Proof. apply inv_frames; [unfold put_status; frame|unfold put_status; walk]. Qed.

Lemma condemn_inv sb m : keeps (inv None) (condemn sb m) (λ _, True).
Proof.
  unfold condemn. eapply keeps_bind; [apply put_status_inv|intros _ _]. calm.
Qed.

Lemma schedule_conserves sb : typed sb → conserves None (schedule_provision sb).
Proof.
  intros Ht. unfold schedule_provision. eapply conserves_from; [calm|intros busy _].
  destruct busy; [apply keeps_conserves; calm|].
  eapply conserves_from; [calm|intros held _].
  destruct held; [apply (spawn_conserves (Provision sb None None))|].
  apply (hoare_bind _ _ _ (λ o s, match o with Ok (Ok r) => inv r s | _ => inv None s end));
    [| |done..].
  - intros s Hs. pose proof (inv_reserve (Sandbox.spec sb) Ht s Hs) as Hr. unfold attempt.
    by destruct (reserve _ s) as [s1 [r|e|]].
  - intros [r|e|]; [apply (spawn_conserves (Provision sb r None))|by intros s Hs..].
Qed.

Lemma restore_conserves sb : typed sb → conserves None (restore_reservation sb).
Proof.
  intros Ht. unfold restore_reservation. eapply conserves_from; [calm|intros held _].
  destruct (manage_resources && _ && _ && _); [|apply keeps_conserves; calm].
  apply (hoare_bind _ _ _ (λ o s, match o with Ok (Ok r) => inv (Some r) s | _ => inv None s end));
    [| |done..].
  - intros s [Hr Hb]. pose proof (bal_admit _ s Ht Hb) as Ha.
    assert (rows_ok (admit_spec (Sandbox.spec sb) s).1) as Hr'.
    { unfold admit_spec. by destruct (ResourcePool.admit_ _ _). }
    unfold attempt. by destruct (admit_spec _ s) as [s1 [r|e|]].
  - intros [r|e|]; [|apply keeps_conserves|by intros s Hs].
    + intros s Hs. simpl. by apply inv_insert.
    + eapply keeps_bind; [apply put_status_inv|intros _ _]. calm.
Qed.

Lemma check_machine_inv sb : keeps (inv None) (check_machine sb) (λ _, True).
Proof.
  unfold check_machine. apply (keeps_bind _ _ _ (λ _, True)).
  { apply inv_frames; [frame|apply rows_frames; frame]. }
  intros alive _. destruct (negb alive); [apply condemn_inv|].
  assert (∀ h, keeps (inv None) (guest_probe h (Sandbox.id sb)) (λ _, True)) as Hg.
  { intros h. apply inv_frames; [|apply rows_frames]; intros s; unfold guest_probe;
      by destruct (within _ _ _). }
  destruct (Sandbox.status sb); try (by apply keeps_ret);
    (eapply keeps_bind; [apply Hg|intros [[e|[]]|] _]);
    first [by apply keeps_ret|apply put_status_inv|apply condemn_inv].
Qed.

Lemma restart_conserves sb : typed sb → conserves None (restart_failed sb).
Proof.
  intros Ht. unfold restart_failed. destruct (_ <? 3); [|apply keeps_conserves; calm].
  eapply conserves_from; [apply inv_frames; [frame|apply rows_now]|intros t Hr].
  eapply conserves_from.
  { apply keeps_attempt, inv_frames; [frame|by apply rows_vmm_meta]. }
  intros r1 _. destruct (negb (is_ok r1)); [apply keeps_conserves; calm|].
  eapply conserves_from; [apply inv_frames; [frame|apply rows_now]|intros t' Hr'].
  eapply conserves_from.
  { apply keeps_attempt, inv_frames; [frame|by apply rows_status_message]. }
  intros r2 _. destruct (negb (is_ok r2)); [apply keeps_conserves; calm|].
  eapply conserves_from; [|intros; by apply schedule_conserves].
  apply keeps_catch; [apply inv_fetch|intros; by apply keeps_ret].
Qed.

Lemma reconcile_one_conserves ready sb : typed sb → conserves None (reconcile_one ready sb).
Proof.
  intros Ht. unfold reconcile_one. apply conserves_bind; [by apply restore_conserves|intros ok].
  destruct (negb ok); [apply keeps_conserves; calm|].
  destruct (lease_expired ready sb); [apply keeps_conserves, condemn_inv|].
  destruct (bool_decide _ && negb _); [by apply schedule_conserves|].
  destruct (_ && has_machine sb); [apply keeps_conserves, check_machine_inv|].
  destruct (bool_decide _ && _); [by apply restart_conserves|apply keeps_conserves; calm].
Qed.

Lemma reconcile_conserves : conserves None reconcile_sandboxes.
Proof.
  unfold reconcile_sandboxes.
  eapply conserves_from; [apply inv_frames; [frame|apply rows_now]|intros t _].
  eapply conserves_from.
  { apply keeps_attempt, inv_frames; [frame|apply rows_list]. }
  intros [rows|e|] Hrows; [|apply keeps_conserves; calm..].
  eapply conserves_from; [apply inv_frames; [frame|apply rows_now]|intros t' _].
  eapply conserves_from; [apply keeps_attempt, inv_frames; [frame|apply rows_ready]|intros nodes _].
  apply keeps_conserves. eapply keeps_for_each; [by apply Hrows|].
  intros sb Hsb. by apply conserves_keeps, reconcile_one_conserves.
Qed.

(** *** The reaper and the prepared snapshots *)

Lemma expire_one_inv sb : keeps (inv None) (expire_one sb) (λ _, True).
Proof.
  unfold expire_one. destruct (_ && _).
  - unfold auto_pause. apply (keeps_bind _ _ _ (λ _, True)); [calm|intros r _].
    destruct (negb _); [calm|]. eapply keeps_bind; [apply put_status_inv|intros _ _].
    eapply keeps_bind; [apply inv_frames; [frame|apply rows_now]|intros t Ht].
    eapply keeps_bind; [|intros; calm].
    eapply keeps_quiet, inv_frames; [frame|by apply rows_expiry].
  - apply (keeps_bind _ _ _ (λ _, True)).
    { unfold retire_machine, release_slot. calm. }
    intros r _. destruct (negb _); [calm|].
    eapply keeps_bind; [apply keeps_attempt, inv_frames; [frame|apply rows_delete]|intros r' _].
    destruct (negb _); [calm|]. unfold teardown_network. calm.
Qed.

Lemma expiry_conserves : conserves None expiry_tick.
Proof.
  apply keeps_conserves. unfold expiry_tick.
  eapply keeps_bind; [apply inv_frames; [frame|apply rows_now]|intros t _].
  apply (keeps_bind _ _ _ (λ _, True)).
  { apply keeps_any with (R := returns (Forall typed)). apply keeps_attempt, inv_frames; [frame|].
    eapply keeps_bind; [apply rows_now|intros]. apply rows_list. }
  intros [rows|e|] _; [|calm..].
  apply (keeps_for_each _ _ _ (λ _, True)); [by apply Forall_true|]. intros. apply expire_one_inv.
Qed.

Lemma warm_snapshot_conserves sp i : conserves None (warm_snapshot sp i).
Proof.
  apply keeps_conserves. unfold warm_snapshot.
  assert (∀ {B} (m : handler B), frames (λ s, (sto s, res_view s)) m →
    keeps (inv None) m (λ _, True)) as Hk.
  { intros B m Hm. eapply keeps_frames; [exact Hm|]. intros s s' [= Hs Hp Hr Ht] [[??] Hb].
    split; [unfold rows_ok; by rewrite Hs|]. apply (bal_frame _ s); [|done].
    unfold res_view. by rewrite Hp, Hr, Ht. }
  apply Hk. frame.
Qed.

(** *** Requests *)

Lemma answer_conserves {B} x (m : handler B) : conserves x m → conserves x (answer m).
Proof. intros Hm. apply conserves_bind; [done|]. by intros b s Hs. Qed.

(** A deadline that was computed is a date. *)
Lemma inv_deadline x t n : keeps (inv x) (lift (expiry_from_now t n)) in_range.
Proof.
  apply keeps_lift. intros e. unfold expiry_from_now, add_secs.
  destruct (dt_add_seconds t (as_i64 n)) eqn:He; [|done]. intros [= <-]. by eapply dt_add_range.
Qed.

Lemma deadline_inv {B} i n (k : handler B) :
  keeps (inv None) k (λ _, True) →
  keeps (inv None) (t ← now; e ← lift (expiry_from_now t n); t' ← now;
    _ ← store_call (update_sandbox_expiry i (Some e) t'); k) (λ _, True).
Proof.
  intros Hk. eapply keeps_bind; [apply inv_now|intros t Ht].
  eapply keeps_bind; [apply inv_deadline|intros e He].
  eapply keeps_bind; [apply inv_now|intros t' Ht'].
  eapply keeps_bind; [|intros; exact Hk].
  apply inv_frames; [frame|]. apply rows_expiry; [done|]. by intros ? [= <-].
Qed.

Lemma wake_conserves sb r : conserves r (wake sb r).
Proof.
  unfold wake. apply (scoped_then r _ (λ _, True)).
  - apply inv_frames; [frame|]. walk.
  - intros _ _. destruct r as [r|]; [|by intros s Hs]. intros s Hs. by apply inv_insert.
Qed.

Lemma resume_conserves sb n : typed sb → conserves None (resume_if_needed sb n).
Proof.
  intros Ht. unfold resume_if_needed. eapply conserves_from; [calm|intros held _].
  eapply (hoare_bind _ _ _ (holding (λ r, if bool_decide (Sandbox.status sb = SandboxStatus.Paused)
    then r else None))); [| |done..].
  { case_bool_decide; [|by intros s Hs]. intros s Hs.
    exact (inv_reserve_if _ _ Ht s Hs). }
  intros r. simpl.
  assert (conserves None (t ← now; e ← lift (expiry_from_now t n); t' ← now;
    _ ← store_call (update_sandbox_expiry (Sandbox.id sb) (Some e) t'); fetch (Sandbox.id sb))) as Hend
    by (apply keeps_conserves, deadline_inv; eapply keeps_any, inv_fetch).
  case_bool_decide.
  - apply conserves_bind; [apply wake_conserves|done].
  - apply conserves_bind; [|done]. case_bool_decide; by intros s Hs.
Qed.

Lemma e2b_response_inv sb : keeps (inv None) (e2b_response sb) (λ _, True).
Proof.
  apply still_conserves. unfold e2b_response, ensure_e2b_access_token. frame.
Qed.

Lemma resume_answer_conserves p i n {B} (k : Sandbox.t → E2bSandbox.t → B) :
  conserves None (sb ← fetch_own p i; sb' ← resume_if_needed sb n; v ← e2b_response sb';
                  mret (k sb v)).
Proof.
  eapply conserves_from; [apply inv_fetch_own|intros sb Hsb].
  apply conserves_bind; [by apply resume_conserves|intros sb'].
  apply conserves_bind; [apply keeps_conserves, e2b_response_inv|intros v]. by intros s Hs.
Qed.

Lemma resume_for_io_conserves p i : conserves None (resume_for_io p i).
Proof.
  unfold resume_for_io. eapply conserves_from; [apply inv_fetch_own|intros sb Hsb].
  destruct (_ && _); [|by intros s Hs]. apply conserves_bind; [by apply resume_conserves|].
  by intros sb' s Hs.
Qed.

Lemma get_conn_inv i p : keeps (inv None) (get_conn i p) (λ _, True).
Proof. unfold get_conn, fetch_own, fetch. calm. Qed.

Lemma guest_of_conserves p h : conserves None (guest_of p h).
Proof.
  unfold guest_of. apply conserves_bind; [apply keeps_conserves; calm|intros i].
  apply conserves_bind; [apply resume_for_io_conserves|intros _].
  apply conserves_bind; [apply keeps_conserves, get_conn_inv|intros c]. by intros s Hs.
Qed.

Lemma session_of_conserves p h sel : conserves None (session_of p h sel).
Proof.
  unfold session_of. apply conserves_bind; [apply keeps_conserves; calm|intros i].
  apply conserves_bind; [apply resume_for_io_conserves|intros _]. apply keeps_conserves.
  unfold resolve_process_session, fetch_own, fetch, find_session, no_process. calm.
Qed.

(** Walks through a handler whose parts conserve capacity. *)
Ltac conserve :=
  lazymatch goal with
  | |- conserves _ (answer _) => apply answer_conserves; conserve
  | |- conserves None (mbind _ now) => eapply conserves_from; [apply inv_now|intros ? ?; conserve]
  | |- conserves None (mbind _ _) => apply conserves_bind; [conserve|intros ?; conserve]
  | |- conserves _ (resume_for_io _ _) => apply resume_for_io_conserves
  | |- conserves _ (guest_of _ _) => apply guest_of_conserves
  | |- conserves _ (session_of _ _ _) => apply session_of_conserves
  | |- conserves _ (spawn ?t) => apply (spawn_conserves t)
  | |- conserves _ (match ?x with _ => _ end) => destruct x eqn:?; conserve
  | |- conserves None _ => apply keeps_conserves; calm
  | |- _ => idtac
  end.

Lemma guest_request_conserves p i r :
  match r with
  | REnvUpload _ _ | REnvDownload _ | REnvLs _ | RStat _ | RMkdir _ | RMove _ _ | RRemove _
  | RStart _ | RJoin _ | RInput _ _ | RStreamInput _ | RSignal _ _ | RCloseStdin _ | RResize _ _
  | RCompose _ _ => conserves None (serve_sandbox p i r)
  | _ => True
  end.
Proof.
  destruct r; try done; simpl;
    unfold e2b_upload_file, e2b_download_file, e2b_list_dir, filesystem_stat, filesystem_make_dir,
      filesystem_move, filesystem_remove, exec_checked, exec_filesystem, process_start, stream_process,
      process_connect, process_send_input, process_stream_input, process_send_signal,
      process_close_stdin, process_update, envd_compose, remove_sources, stream_at, find_session,
      no_process, next_process_id, register_session, get_conn, fetch_own, fetch; conserve.
Qed.

(** A row's specification is replaced by one of the same size. *)
Lemma update_network_conserves p i r : conserves None (update_network p i r).
Proof.
  unfold update_network. eapply conserves_from; [apply inv_fetch_own|intros sb Hsb].
  apply keeps_conserves. case_match; [calm|]. case_match; [calm|].
  eapply keeps_bind; [apply inv_now|intros t Ht].
  eapply keeps_bind; [|intros; calm]. apply inv_frames; [frame|]. by apply rows_spec.
Qed.

Lemma envd_init_conserves p h b : conserves None (envd_init p h b).
Proof.
  unfold envd_init. apply conserves_bind; [apply keeps_conserves; calm|intros i].
  eapply conserves_from; [apply inv_fetch_own|intros sb Hsb]. apply keeps_conserves.
  apply (keeps_bind _ _ _ (λ _, True)); [|intros; calm].
  destruct (env_object b); [|calm]. eapply keeps_bind; [apply inv_now|intros t Ht].
  apply inv_frames; [frame|]. by apply rows_spec.
Qed.

Lemma set_timeout_conserves p i n : conserves None (set_timeout p i n).
Proof.
  unfold set_timeout. eapply conserves_from; [apply inv_fetch_own|intros sb Hsb].
  apply keeps_conserves. case_match; [apply deadline_inv|]; calm.
Qed.

Lemma inv_team_sandbox p i : keeps (inv None) (team_sandbox p i) typed.
Proof.
  unfold team_sandbox. eapply keeps_bind; [apply inv_fetch|intros sb Hsb].
  case_match; [by apply keeps_ret|apply keeps_fail].
Qed.

Lemma take_snapshot_still sb i : keeps (inv None) (take_snapshot sb i) (λ _, True).
Proof. apply still_conserves. unfold take_snapshot, unlink. frame. Qed.

Lemma fork_paths_still p sb b : keeps (inv None) (fork_paths p sb b) (λ _, True).
Proof. apply still_conserves. unfold fork_paths, take_snapshot, unlink, fresh_uuid. frame. Qed.

Lemma starting_in_range i sp t :
  in_range t → Resources.well_typed (SandboxSpec.resources sp) →
  let sb := Sandbox.set_status (Sandbox.new i sp t) SandboxStatus.Starting t in
  typed sb ∧ times_in_range sb.
Proof. intros Ht Hty. split; [done|]. unfold times_in_range. by split_and!. Qed.

Lemma fork_one_conserves sb n paths sub : typed sb → conserves None (fork_one sb n paths sub).
Proof.
  intros Hsb. unfold fork_one.
  eapply conserves_from; [apply still_conserves; unfold fresh_uuid; frame|intros i _].
  eapply conserves_from; [apply inv_now|intros t Ht].
  set (sp := SandboxSpec.set_ttl _ _). destruct (starting_in_range i sp t Ht Hsb).
  eapply hoare_bind; [by apply (inv_reserve sp)| |done..]. intros r. simpl.
  apply (scoped_then r _ (λ _, True)).
  - apply inv_frames; [frame|by apply rows_create_try].
  - intros [e|[]] _.
    + apply conserves_bind; [intros s Hs; by apply inv_drop|intros _]. by intros s Hs.
    + apply conserves_bind; [apply (spawn_conserves (Fork _ r paths sub))|intros _].
      apply keeps_conserves. calm.
Qed.

Lemma fork_conserves p i b : conserves None (fork_sandbox p i b).
Proof.
  unfold fork_sandbox. eapply conserves_from; [apply inv_team_sandbox|intros sb Hsb].
  case_match; [apply keeps_conserves; calm|].
  eapply conserves_from; [apply fork_paths_still|intros paths _].
  apply keeps_conserves, (keeps_collect _ _ _ (λ _, True)); [by apply Forall_true|].
  intros ? _. by apply conserves_keeps, fork_one_conserves.
Qed.

Lemma e2b_delete_conserves p i : conserves None (e2b_delete p i).
Proof.
  unfold e2b_delete. eapply conserves_from; [apply inv_fetch_own|intros sb Hsb].
  apply conserves_bind; [apply delete_conserves|intros ?]. apply keeps_conserves, still_conserves.
  unfold remove_e2b_access_token. frame.
Qed.

Lemma sandbox_request_conserves p i r : conserves None (serve_sandbox p i r).
Proof.
  pose proof (guest_request_conserves p i r) as Hg. destruct r; first [exact Hg | clear Hg; simpl;
    try apply answer_conserves].
  - unfold get_handler, fetch_own, fetch. conserve.
  - apply delete_conserves.
  - apply recover_conserves.
  - unfold exec_sync, ensure_executable, fetch_own, fetch, fresh_uuid. conserve.
  - unfold exec_stream, ensure_executable, stream_events, fetch_own, fetch. conserve.
  - unfold list_execution_history, fetch_own, fetch. conserve.
  - unfold get_execution_record, fetch_own, fetch. conserve.
  - unfold upload_file, get_conn, fetch_own, fetch. conserve.
  - unfold download_file, get_conn, fetch_own, fetch. conserve.
  - unfold list_files, get_conn, fetch_own, fetch. conserve.
  - unfold e2b_get. eapply conserves_from; [apply inv_fetch_own|intros sb _].
    apply keeps_conserves, e2b_response_inv.
  - apply e2b_delete_conserves.
  - apply (resume_answer_conserves p i _ (λ sb v, (if bool_decide (Sandbox.status sb = SandboxStatus.Paused)
      then 201 else 200, v))).
  - apply (resume_answer_conserves p i _ (λ _ v, (201, v))).
  - unfold e2b_pause, fetch_own, fetch. conserve.
  - apply set_timeout_conserves.
  - apply set_timeout_conserves.
  - apply update_network_conserves.
  - unfold sandbox_logs, team_sandbox, fetch. conserve.
  - unfold sandbox_metrics, team_sandbox, fetch, machine_stats, stamps. conserve.
  - unfold create_snapshot, team_sandbox, fetch, fresh_uuid. 
    apply conserves_bind; [conserve|intros sb]. case_match; [conserve|].
    apply conserves_bind; [conserve|intros i']. apply conserves_bind; [|intros; conserve].
    apply keeps_conserves, take_snapshot_still.
  - apply fork_conserves.
  - unfold filesystem_create_watcher, fetch_own, fetch. conserve.
  - unfold filesystem_watch_dir, filesystem_create_watcher, fetch_own, fetch. conserve.
  - unfold process_list, fetch_own, fetch. conserve.
  - apply envd_init_conserves.
  - unfold envd_envs, fetch_own, fetch. conserve.
  - unfold envd_metrics, machine_stats, fetch_own, fetch. conserve.
Qed.

Lemma add_tags_still team i tags x : keeps (inv None) (add_tags team i tags x) (λ _, True).
Proof.
  revert x. induction tags as [|g tags IH]; intros x; simpl; [by apply keeps_ret|].
  eapply keeps_bind; [calm|intros; apply IH].
Qed.

Lemma prefetch_conserves p i l : conserves None (prefetch_images p i l).
Proof.
  unfold prefetch_images. case_bool_decide; [conserve|]. apply keeps_conserves.
  apply (keeps_collect _ _ _ (λ _, True)); [by apply Forall_true|intros x _].
  apply conserves_keeps. unfold queue_image, fresh_uuid, put_job. conserve.
Qed.

Lemma team_request_conserves p r : conserves None (serve_team p r).
Proof.
  destruct r; simpl; apply answer_conserves; try apply prefetch_conserves;
    unfold list_teams, create_team, team_members, team_metrics, team_metrics_max, api_keys, create_key,
      update_key, delete_key, create_token, delete_token, list_volumes, create_volume, get_volume,
      delete_volume, volume_path, volume_dir, volume_get, volume_put, list_templates, get_template,
      list_template_builds, start_template_build, get_build_status, get_build_logs,
      list_template_tags, resolve_template_alias, update_template, template_tag_response,
      template_build_upload, list_sandbox_metrics, metrics_of, list_snapshots, register_created, revoke,
      stamps, team_sandbox, fetch, filesystem_get_watcher_events, filesystem_remove_watcher,
      get_prefetch_job, create_template_v3, assign_template_tags; conserve.
  apply add_tags_still.
Qed.

(** *** Requests on no sandbox in particular *)

Lemma template_image_inv tenant i sp :
  keeps (inv None) (template_image tenant i sp)
    (λ sp', SandboxSpec.resources sp' = SandboxSpec.resources sp).
Proof.
  unfold template_image. apply (keeps_bind _ _ _ (λ _, True)); [calm|intros o _].
  case_match; [case_match|]; try apply keeps_fail.
  - case_match; [by apply keeps_ret|apply keeps_fail].
  - apply (keeps_bind _ _ _ (λ _, True)); [calm|intros im _]. by apply keeps_ret.
Qed.

Lemma to_spec_typed r tenant sp :
  to_spec r tenant = Ok sp → Resources.well_typed (SandboxSpec.resources sp).
Proof.
  unfold to_spec. repeat case_match; intros; simplify_eq; simpl.
  all: unfold Resources.well_typed, in_u16, in_u32, u16_max, u32_max; simpl; lia.
Qed.

Lemma clone_conserves sp i r paths :
  Resources.well_typed (SandboxSpec.resources sp) →
  conserves r (sb ← store_clone sp i r; _ ← spawn (Fork sb r paths None);
               v ← e2b_response sb; mret (202, v)).
Proof.
  intros Hty. unfold store_clone. apply (scoped_then r _ (λ _, True)).
  - apply inv_frames; [frame|].
    eapply keeps_bind; [apply rows_now|intros t Ht].
    eapply keeps_bind; [apply rows_now|intros t' Ht'].
    eapply (keeps_bind _ _ _ (λ sb, typed sb ∧ times_in_range sb)).
    { apply keeps_lift. intros sb. by apply new_in_range. }
    intros sb [? ?]. walk.
  - intros sb _. apply conserves_bind; [apply (spawn_conserves (Fork sb r paths None))|intros _].
    apply conserves_bind; [apply keeps_conserves, e2b_response_inv|intros v]. by intros s Hs.
Qed.

Lemma e2b_create_conserves errors p r i : conserves None (e2b_create errors p r i).
Proof.
  unfold e2b_create. eapply conserves_from.
  { apply (keeps_lift _ _ (λ sp, Resources.well_typed (SandboxSpec.resources sp))). intros sp.
    destruct (to_spec _ _) as [sp'|e|] eqn:Hsp; try done. intros [= <-]. by eapply to_spec_typed. }
  intros sp Hsp. eapply conserves_from; [apply template_image_inv|intros sp' Hsp'].
  cbv beta in Hsp. rewrite <-Hsp' in Hsp. destruct (E2bCreateRequest.snapshot_id r).
  - case_match; [conserve|]. apply conserves_bind; [conserve|intros x].
    eapply hoare_bind; [by apply inv_reserve| |done..]. intros o. by apply clone_conserves.
  - apply conserves_bind; [by apply create_conserves|intros resp].
    repeat case_match; try conserve.
Qed.

Lemma kill_one_inv sb : keeps (inv None) (kill_one sb) (λ _, True).
Proof. unfold kill_one, teardown_network. calm. Qed.

Lemma kill_team_inv x a t : keeps (inv None) (admin_kill_team x a t) (λ _, True).
Proof.
  unfold admin_kill_team, admin_guard. apply (keeps_bind _ _ _ (λ _, True)); [calm|intros _ _].
  eapply keeps_bind; [apply inv_now|intros ? ?]. apply (keeps_bind _ _ _ (λ _, True)); [calm|intros rows _].
  apply (keeps_bind _ _ _ (λ _, True)); [|intros; calm].
  apply (keeps_collect _ _ _ (λ _, True)); [by apply Forall_true|]. intros ? _. apply kill_one_inv.
Qed.

Lemma request_conserves r : request_ok r → conserves None (serve r).
Proof.
  intros Hr. destruct r; simpl; try apply answer_conserves;
    try (by apply create_conserves); try apply e2b_create_conserves;
    try apply sandbox_request_conserves; try apply team_request_conserves;
    unfold list_handler, list_inner, admin_create_key, admin_delete_key, admin_cancel_builds,
      admin_guard, register_created, revoke, register_node, adopt_row, abandon_row, fetch,
      ready_nodes, get_node, list_nodes, health, readiness; conserve.
  apply kill_team_inv.
Qed.

Lemma step_inv s s' : inv None s → step s s' → inv None s'.
Proof.
  intros Hs. destruct 1 as [r Hr| | |sp i|order uid t t' t'' g w Ht|pre t post Ht].
  - by apply request_conserves.
  - by apply reconcile_conserves.
  - by apply expiry_conserves.
  - by apply warm_snapshot_conserves.
  - destruct Hs as [Hr Hb]. split; [done|]. by apply (bal_frame _ s).
  - destruct Hs as [Hr Hb]. apply task_conserves. split; [done|]. by apply bal_take.
Qed.

Lemma boot_inv mi mx x w n g e a :
  Resources.well_typed cap → 0 ≤ max → store_wf x → map_Forall row_ok (abs x) →
  inv None (boot cap max mi mx x w n g e a).
Proof.
  intros (Hc1 & Hc2 & Hc3) Hm Hwf Ht. unfold in_u16, in_u32 in *.
  assert (∀ d, ResourcePool.remaining d (ResourcePool.new cap max) = ResourcePool.limit cap max d) as Hr.
  { intros []; unfold ResourcePool.remaining, ResourcePool.limit; simpl;
      rewrite available_new; simpl; lia. }
  split; [done|]. split; simpl; [|done|by constructor|done|].
  - intros d. rewrite Hr. destruct d; simpl; lia.
  - intros d. rewrite Hr. unfold sum_map, sum_by. rewrite map_fold_empty. simpl. lia.
Qed.
End capacity.

(** ** Properties *)

(** C1: whatever requests, jobs, reaper ticks and reconciler passes a control
    plane goes through after it starts over a persisted store, each dimension's
    permits are, to the unit, either free in the admission pool, held by an entry
    of the reservation table, or owned by a job that has been spawned and not yet
    run; no failure path (a store that fails at any of its calls included), early
    return or panic loses or duplicates a permit, and when the table and the job queue
    are empty the whole capacity is free again. *)
Theorem capacity_conserved {S : Semaphore} {SO : SemaphoreOk S} {ST : Store} {STO : StoreOk ST}
    {V : Vmm} {O : Os} {D : Deployment} {DO : ClockOk D} {A : Agent} {H : Sha256}
    {HO : HashOrder} {CE : CloudEnv} {W : Wire} {T : Timeouts} {C : Chrono} {CO : ChronoOk C} cap max mi mx x w n g e a s :
  Resources.well_typed cap → 0 ≤ max → store_wf x → map_Forall row_ok (abs x) →
  star step (boot cap max mi mx x w n g e a) s →
  ∀ d, 0 ≤ ResourcePool.remaining d (pool s) ∧
    ResourcePool.remaining d (pool s) + sum_map (weight d) (reservations s)
    + sum_by (λ t, weight_opt d (task_res t)) (tasks s) = ResourcePool.limit cap max d ∧
    (reservations s = ∅ → tasks s = [] →
     ResourcePool.remaining d (pool s) = ResourcePool.limit cap max d).
Proof.
  intros Hc Hm Hwf Ht Hs d.
  assert (inv cap max None s) as [_ Hb].
  { eapply (star_invariant step); [intros; by eapply step_inv|exact Hs|by apply boot_inv]. }
  pose proof (bal_left _ _ _ _ Hb d). pose proof (bal_sum _ _ _ _ Hb d) as Hsum. simpl in Hsum.
  split_and!; [done|lia|]. intros Hr Htk. rewrite Hr, Htk in Hsum.
  unfold sum_map, sum_by in Hsum. rewrite map_fold_empty in Hsum. simpl in Hsum. lia.
Qed.

(** An asynchronous and a synchronous create, the job, a deletion. *)
Module CapacityDemo.
Import ControlDemo.
Definition s1 : AppState :=
  (serve (Create errors alice SandboxSpec.default true "sb-1") (initial true)).1.
Definition s2 : AppState :=
  (serve (Create errors bob SandboxSpec.default false "sb-2") s1).1.
Definition s3 : AppState := (serve (OnSandbox alice "sb-1" RDelete) s2).1.

Lemma default_typed : Resources.well_typed (SandboxSpec.resources SandboxSpec.default).
Proof. unfold Resources.well_typed, in_u16, in_u32, u16_max, u32_max. simpl. lia. Qed.
Lemma demo_cap_typed : Resources.well_typed cap.
Proof. unfold Resources.well_typed, in_u16, in_u32, u16_max, u32_max. simpl. lia. Qed.

Lemma run : star step (initial true) s3.
Proof.
  eapply star_step;
    [exact (step_request (initial true) (Create errors alice _ true "sb-1") default_typed)|].
  eapply star_step; [exact (step_request s1 (Create errors bob _ false "sb-2") default_typed)|].
  apply star_one. exact (step_request s2 (OnSandbox alice "sb-1" RDelete) I).
Qed.
End CapacityDemo.

(** After the run one job still owns its vCPU; three of four are free. *)
Lemma capacity_conserved_witness :
  (length (tasks CapacityDemo.s3) = 1%nat ∧
   ResourcePool.remaining ResourcePool.Vcpu (pool CapacityDemo.s3) = 3) ∧
  ResourcePool.remaining ResourcePool.Vcpu (pool CapacityDemo.s3)
  + sum_map (weight ResourcePool.Vcpu) (reservations CapacityDemo.s3)
  + sum_by (λ t, weight_opt ResourcePool.Vcpu (task_res t)) (tasks CapacityDemo.s3) = 4.
Proof.
  split; [vm_compute; by split|].
  refine (proj1 (proj2 (capacity_conserved ControlDemo.cap 2 0 300 InMemoryStore.new
    (MemoryVmm.mk ∅ ∅ : world) ([] : os_world) (true : guest)
    (E2bControlPlane.control_plane_new (∅ : disk)) Authenticator.new_production CapacityDemo.s3
    CapacityDemo.demo_cap_typed _ _ _ CapacityDemo.run ResourcePool.Vcpu))).
  - lia.
  - exact (map_Forall_empty _).
  - change (map_Forall row_ok (content <$> (∅ : gmap string Sandbox.t))).
    rewrite fmap_empty. exact (map_Forall_empty _).
Defined.
