(* ===== verification/Provisioning.v ===== *)
(** * What provisioning guarantees

    The outcome of [provision_sandbox]: a success is a [Running] row with its
    deadline and its machine; a failure is an [Error] row that says why, with the
    machine stopped. *)

From S2P Require Import Prelude Core SandboxModel Admission Vmm Pool Proto Guest Digest Dns Net.
From S2P Require Import Store Json Auth E2bCloud Processes E2bModel AppState Lifecycle E2bHandlers.
From S2P Require Import CloudHandlers ApiHandlers Control Capacity.

Section provisioning.
Context {S : Semaphore} {ST : Store} {STO : StoreOk ST} {V : Vmm} {VO : VmmOk V}
  {O : Os} {D : Deployment} {DO : ClockOk D} {A : Agent} {H : Sha256} {HO : HashOrder} {CE : CloudEnv} {W : Wire}
  {T : Timeouts} {TO : TimeoutsOk T} {C : Chrono} {CO : ChronoOk C}.
Context (id : string).
(** A fact about the recorded machine that provisioning does not disturb. *)
Context (K : VmmMeta.t → Prop).

(** Nothing fails that a failure path itself relies on: the store is up, and a forced stop
    succeeds.  What is said of a failed provisioning is said under this condition; what is
    said of a success needs none. *)
Definition smooth : Prop := StoreUp ST ∧ StopTotal V.

(** The row of the sandbox is there and satisfies [R]; the machines that hold
    resources are among [M]. *)
Definition stored (R : Sandbox.t → Prop) (M : gset string) (s : AppState) : Prop :=
  store_wf (sto s) ∧ (∃ c, abs (sto s) !! id = Some c ∧ R c) ∧ live (vm s) ⊆ M.

Definition failed_with (e : ClouisleError.t) (c : Sandbox.t) : Prop :=
  Sandbox.status c = SandboxStatus.Error ∧
  Sandbox.terminal_message c = Some (ClouisleError.message e).

Definition failed (e : ClouisleError.t) (c : Sandbox.t) : Prop :=
  failed_with e c ∧ K (Sandbox.vmm_meta c).

(** After a call: [Q] on a returned value, [F] on an error; a panic promises
    nothing. *)
Definition ends {B} (Q : B → AppState → Prop) (F : ClouisleError.t → AppState → Prop)
    (o : result B) (s : AppState) : Prop :=
  match o with Ok b => Q b s | Err e => F e s | Panic => True end.

Lemma stored_weaken (R R' : Sandbox.t → Prop) M M' s :
  stored R M s → (∀ c, R c → R' c) → M ⊆ M' → stored R' M' s.
Proof. intros (? & (c & ? & ?) & ?) HR HM. split_and!; [done|eauto|set_solver]. Qed.

Lemma ends_bind {B E} P (m : handler B) (k : B → handler E) Q Q' F :
  hoare P m (ends Q F) → (∀ b, hoare (Q b) (k b) (ends Q' F)) → hoare P (m ≫= k) (ends Q' F).
Proof. intros Hm Hk. by eapply hoare_bind. Qed.

Lemma ends_ret {B} (P : AppState → Prop) (b : B) (Q : B → AppState → Prop) F :
  (∀ s, P s → Q b s) → hoare P (mret b) (ends Q F).
Proof. intros HP s Hs. by apply HP. Qed.

(** A call that leaves the store and the set of machines alone. *)
Lemma ends_frames {B} R M (m : handler B) :
  frames (λ s, (sto s, live (vm s))) m →
  hoare (stored R M) m (ends (λ _, stored R M) (λ _, stored R M)).
Proof.
  intros Hm s Hs. specialize (Hm s). unfold stored in *. injection Hm as H1 H2.
  destruct (m s) as [s1 [b|e|]]; simpl in *; rewrite ?H1, ?H2; done.
Qed.

Lemma now_bind {B} R M (k : Z → handler B) Q :
  (∀ t, in_range t → hoare (stored R M) (k t) Q) → hoare (stored R M) (now ≫= k) Q.
Proof. intros Hk s Hs. apply Hk; [apply clk_in_range|done]. Qed.

(** An update of the row by [g], which does not fault while the store is up. *)
Definition updater (f : store → store * StoreResult ()) (g : Sandbox.t → Sandbox.t) : Prop :=
  (∀ x, store_wf x → let '(x', r) := f x in store_wf x' ∧ updates (abs x) (abs x') id g r) ∧
  (StoreUp ST → ∀ x, store_wf x → ¬ fault (f x).2).
Lemma status_message_updater st m t :
  in_range t → updater (update_sandbox_status_message id st m t) (set_message m ∘ set_status st).
Proof. intros Ht. split; intros; [by apply status_message_law|by apply status_message_up]. Qed.
Lemma vmm_meta_updater v t :
  in_range t → updater (update_sandbox_vmm_meta id v t) (λ c, Sandbox.set_vmm_meta c v).
Proof. intros Ht. split; intros; [by apply vmm_meta_law|by apply vmm_meta_up]. Qed.
Lemma node_updater n t : in_range t → updater (update_sandbox_node id n t) (set_node n).
Proof. intros Ht. split; intros; [by apply node_law|by apply node_up]. Qed.
Lemma expiry_updater e t :
  in_range t → (∀ x, e = Some x → in_range x) →
  updater (update_sandbox_expiry id e t) (set_expiry (timestamp_millis <$> e)).
Proof. intros Ht He. split; intros; [by apply expiry_law|by apply expiry_up]. Qed.

(** An update of the row succeeds, unless the store is not up. *)
Lemma ends_updates (R : Sandbox.t → Prop) M (f : store → store * StoreResult ()) g :
  updater f g →
  hoare (stored R M) (store_call f)
    (ends (λ _, stored (λ c, ∃ c0, c = g c0 ∧ R c0) M) (λ _ _, ¬ smooth)).
Proof.
  intros [Hf Hup] s (Hwf & (c & Hc & HR) & HM). specialize (Hf (sto s) Hwf).
  assert (smooth → ¬ fault (f (sto s)).2) as Hno by (intros [? _]; by apply Hup).
  unfold store_call. destruct (f (sto s)) as [x r]. simpl in Hno.
  destruct Hf as [Hwf' [[Hfl _]|Hu]].
  - destruct r as [|e|]; [done| |done]. simpl. tauto.
  - unfold updated in Hu. rewrite Hc in Hu. destruct Hu as [Ha ->]. simpl.
    split_and!; [done| |done]. exists (g c). simpl. rewrite Ha, lookup_insert_eq. eauto.
Qed.

Lemma quiet_ends {B} P (m : handler B) (Q : AppState → Prop) :
  hoare P m (ends (λ _, Q) (λ _, Q)) → hoare P (quiet m) (ends (λ _, Q) (λ _ _, False)).
Proof.
  intros Hm s Hs. specialize (Hm s Hs). unfold quiet, attempt, mbind, stres_bind.
  by destruct (m s) as [s1 [b|e|]].
Qed.

Lemma weaken_ends {B} P (m : handler B) Q Q' F F' :
  hoare P m (ends Q F) → (∀ b s, Q b s → Q' b s) → (∀ e s, F e s → F' e s) → hoare P m (ends Q' F').
Proof. intros Hm HQ HF s Hs. specialize (Hm s Hs). destruct (m s) as [s1 [b|e|]]; simpl in *; auto. Qed.

Abbreviation around h L := (match h with Some h => {[VmHandle.id h]} ∪ L | None => L end).
Abbreviation keeping R := (∀ c, R c → K (Sandbox.vmm_meta c)).

(** [mark_failed] writes the reason and stops the machine it is given. *)
Lemma mark_failed_ends e h L R :
  smooth → keeping R →
  hoare (stored R (around h L)) (mark_failed id e h)
    (ends (λ _, stored (failed e) L) (λ _ _, False)).
Proof.
  intros Hsm HR. unfold mark_failed. apply now_bind. intros t Ht. eapply ends_bind.
  { apply quiet_ends. eapply weaken_ends.
    - apply (ends_updates _ _ _ (set_message (Some (ClouisleError.message e)) ∘ set_status SandboxStatus.Error)).
      by apply status_message_updater.
    - intros [] s Hs. exact Hs.
    - by intros ? ? []. }
  intros []. eapply ends_bind.
  { instantiate (1 := λ _, stored (failed e) L). destruct h as [h|].
    - apply quiet_ends. intros s (Hwf & (c & Hc & c0 & -> & Hr0) & HM). unfold vmm_call.
      destruct Hsm as [_ Hst0]. pose proof (force_stop_ok h (vm s)) as Hok.
      destruct (stop h StopMode.Force (vm s)) as [w o] eqn:Hst. simpl in Hok. subst o.
      apply stop_live in Hst. simpl. split_and!; [done| |].
      + eexists. split; [done|]. split; [done|exact (HR c0 Hr0)].
      + simpl. rewrite Hst. set_solver.
    - apply ends_ret. intros s Hs. eapply stored_weaken; [exact Hs| |done].
      intros c (c0 & -> & Hr0). split; [done|exact (HR c0 Hr0)]. }
  intros []. destruct manage_network; [|by apply ends_ret].
  apply quiet_ends, ends_frames. frame.
Qed.

Lemma or_fail_ends {B} (m : handler B) h L R R' Q :
  keeping R' →
  hoare (stored R (around h L)) m (ends Q (λ _ s, smooth → stored R' (around h L) s)) →
  hoare (stored R (around h L)) (or_fail id h m) (ends Q (λ e s, smooth → stored (failed e) L s)).
Proof.
  intros HR Hm s Hs. specialize (Hm s Hs). unfold or_fail, catch.
  destruct (m s) as [s1 [b|e|]]; simpl in *; [done| |done].
  assert (smooth → ends (λ _, stored (failed e) L) (λ _ _, False) (mark_failed id e h s1).2
    (mark_failed id e h s1).1) as Hf.
  { intros Hsm. pose proof (mark_failed_ends e h L _ Hsm HR s1 (Hm Hsm)) as Hf.
    by destruct (mark_failed id e h s1). }
  unfold mbind, stres_bind. destruct (mark_failed id e h s1) as [s2 [b|e'|]]; [done|by intros ?%Hf|done].
Qed.

(** A guarded call that touches neither the store nor the machines. *)
Lemma or_fail_frames {B} (m : handler B) h L R :
  keeping R → frames (λ s, (sto s, live (vm s))) m →
  hoare (stored R (around h L)) (or_fail id h m)
    (ends (λ _, stored R (around h L)) (λ e s, smooth → stored (failed e) L s)).
Proof.
  intros HR Hm. eapply or_fail_ends; [exact HR|]. eapply weaken_ends; [by apply ends_frames|done|done].
Qed.

(** ** The phases *)

(** The creation or restoration of the machine ran into its time limit. *)
Definition late (e : ClouisleError.t) : Prop :=
  e = ClouisleError.timeout "image and VMM creation timed out after 300s" ∨
  e = ClouisleError.timeout "snapshot restore timed out after 300s".

(** How a failed provisioning ends while the store is up and machines can be stopped: the
    row says why, and the machine is gone (unless its creation was cut off, when it may
    exist unknown to anyone). *)
Definition fails (L : gset string) (e : ClouisleError.t) (s : AppState) : Prop :=
  smooth →
  store_wf (sto s) ∧ (∃ c, abs (sto s) !! id = Some c ∧ failed e c) ∧ (live (vm s) ⊆ L ∨ late e).

Lemma failed_fails L e s : (smooth → stored (failed e) L s) → fails L e s.
Proof. intros Hs (? & ? & ?)%Hs. split_and!; [done..|by left]. Qed.

(** A creation or restoration with its limit: on success the machine carries the
    sandbox's id. *)
Lemma timed_machine (f : world → world * outcome VmHandle.t) msg L R :
  keeping R → late (ClouisleError.timeout msg) →
  (∀ w w' h, f w = (w', inr h) → VmHandle.id h = id ∧ live w' = {[id]} ∪ live w) →
  (∀ w w' e, f w = (w', inl e) → live w' ⊆ live w) →
  hoare (stored R L) (or_fail id None (timed_vmm 300 msg f))
    (ends (λ h, stored R ({[VmHandle.id h]} ∪ L)) (fails L)).
Proof.
  intros HR Hl Hok Herr s Hs. unfold or_fail, catch, timed_vmm.
  destruct (within 300 f (vm s)) as [w o] eqn:Hw.
  assert (stored R (live w) (set_vm w s)) as Hs' by (destruct Hs as (? & ? & ?); by split_and!).
  destruct o as [[e|h]|]; simpl.
  - apply within_done in Hw. pose proof (λ Hsm, mark_failed_ends e None (live w) R Hsm HR _ Hs') as Hm.
    unfold mbind, stres_bind. destruct (mark_failed id e None (set_vm w s)) as [s2 [u|e'|]]; simpl in *;
      [|by intros ?%Hm|done]. intros (Hm1 & Hm2 & Hm3)%Hm. split_and!; [done..|left].
    apply Herr in Hw. destruct Hs as (_ & _ & ?). set_solver.
  - apply within_done, Hok in Hw as [-> Hw]. destruct Hs as (? & ? & ?).
    split_and!; [done..|]. simpl. set_solver.
  - pose proof (λ Hsm, mark_failed_ends (ClouisleError.timeout msg) None (live w) R Hsm HR _ Hs') as Hm.
    unfold mbind, stres_bind. destruct (mark_failed id _ None (set_vm w s)) as [s2 [u|e'|]]; simpl in *;
      [|by intros ?%Hm|done]. intros (Hm1 & Hm2 & Hm3)%Hm. split_and!; [done..|by right].
Qed.

Lemma obtain_ends sb slot snap L R :
  keeping R → Sandbox.id sb = id →
  hoare (stored R L) (obtain_machine sb slot snap)
    (ends (λ h, stored R ({[VmHandle.id h]} ∪ L)) (fails L)).
Proof.
  intros HR Hid. unfold obtain_machine. rewrite Hid. destruct slot as [x|]; [|destruct snap as [p|]].
  - apply ends_ret. intros s (? & ? & ?). split_and!; [done..|set_solver].
  - apply timed_machine; [done|by right|..].
    + intros w w' h Hr. by apply restore_live in Hr.
    + intros w w' e Hr. by eapply restore_err_live.
  - apply timed_machine; [done|by left|..].
    + intros w w' h Hr. by apply create_live in Hr.
    + intros w w' e Hr. by eapply create_err_live.
Qed.

Definition with_meta (m : VmmMeta.t) (c : Sandbox.t) : Prop := Sandbox.vmm_meta c = m.

(** A guarded update of the row. *)
Lemma or_fail_update h L (R R' : Sandbox.t → Prop) f g :
  updater f g →
  (∀ c, R c → R' (g c)) → keeping R' →
  hoare (stored R ({[VmHandle.id h]} ∪ L)) (or_fail id (Some h) (store_call f))
    (ends (λ _, stored R' ({[VmHandle.id h]} ∪ L)) (fails L)).
Proof.
  intros Hf Hg HR. eapply weaken_ends; [apply (or_fail_ends _ (Some h) _ _ R' _ HR)| |apply failed_fails].
  - eapply weaken_ends; [by apply ends_updates|intros u s Hs; exact Hs|by intros ? ? ? ?].
  - intros u s Hs. eapply stored_weaken; [exact Hs| |done]. intros c (c0 & -> & ?). by apply Hg.
Qed.

Lemma record_ends sb h L :
  K (Sandbox.vmm_meta sb) → Sandbox.id sb = id →
  hoare (stored (λ c, K (Sandbox.vmm_meta c)) ({[VmHandle.id h]} ∪ L)) (record_machine sb h)
    (ends (λ _, stored (with_meta (Sandbox.vmm_meta sb)) ({[VmHandle.id h]} ∪ L)) (fails L)).
Proof.
  intros HK Hid. unfold record_machine. rewrite Hid. apply now_bind. intros t Ht.
  assert (keeping (with_meta (Sandbox.vmm_meta sb))) by (by intros c ->).
  eapply ends_bind.
  - by apply (or_fail_update _ _ _ (with_meta (Sandbox.vmm_meta sb)) _ _ (vmm_meta_updater _ _ Ht)).
  - intros []. destruct (VmHandle.owner_id h) as [n|]; [|by apply ends_ret].
    apply now_bind. intros t' Ht'.
    by apply (or_fail_update _ _ _ _ _ _ (node_updater _ _ Ht')).
Qed.

Lemma finish_ends sb h L :
  K (Sandbox.vmm_meta sb) → Sandbox.id sb = id → Sandbox.status sb = SandboxStatus.Starting →
  hoare (stored (with_meta (Sandbox.vmm_meta sb)) ({[VmHandle.id h]} ∪ L)) (finish_start sb h)
    (ends (λ sb', stored (λ c, Sandbox.status c = SandboxStatus.Running ∧
             Sandbox.terminal_message c = None ∧
             Sandbox.expires_at c = timestamp_millis <$> Sandbox.expires_at sb' ∧
             Sandbox.vmm_meta c = Sandbox.vmm_meta sb') ({[VmHandle.id h]} ∪ L)) (fails L)).
Proof.
  intros HK Hid Hst. unfold finish_start. rewrite Hid. apply now_bind. intros t Ht.
  eapply (ends_bind _ _ _ (λ sb' s, stored (with_meta (Sandbox.vmm_meta sb')) ({[VmHandle.id h]} ∪ L) s
    ∧ K (Sandbox.vmm_meta sb') ∧ ∀ x, Sandbox.expires_at sb' = Some x → in_range x)).
  { intros s Hs. simpl. destruct (Sandbox.transition _ _ _) as [sb'|e|] eqn:Htr; simpl; [|exfalso|done].
    - apply hello_deadline in Htr as (_ & _ & -> & _ & ?). done.
    - unfold Sandbox.transition in Htr. rewrite Hst in Htr. run_res. by repeat case_match. }
  intros sb' s (Hs & HK' & Hx). revert s Hs. apply now_bind. intros t1 Ht1. eapply ends_bind.
  { apply (or_fail_update _ _ _ (λ c, with_meta (Sandbox.vmm_meta sb') c ∧
      Sandbox.status c = SandboxStatus.Running ∧ Sandbox.terminal_message c = None) _ _
      (status_message_updater _ _ _ Ht1)); [done|]. by intros c [-> _]. }
  intros []. apply now_bind. intros t2 Ht2. eapply ends_bind.
  { eapply weaken_ends; [by apply ends_updates, expiry_updater|intros u s Hs; exact Hs|by intros ? ? ? ?]. }
  intros []. case_bool_decide.
  - apply now_bind. intros t3 Ht3. eapply ends_bind.
    { eapply weaken_ends; [by apply ends_updates, vmm_meta_updater|intros u s Hs; exact Hs|by intros ? ? ? ?]. }
    intros []. apply ends_ret. intros s Hs. eapply stored_weaken; [exact Hs| |done].
    intros c (c1 & -> & c2 & -> & ? & ? & ?). done.
  - apply ends_ret. intros s Hs. eapply stored_weaken; [exact Hs| |done].
    intros c (c2 & -> & ? & ? & ?). done.
Qed.

(** What a success stores. *)
Definition running (sb' c : Sandbox.t) : Prop :=
  Sandbox.status c = SandboxStatus.Running ∧ Sandbox.terminal_message c = None ∧
  Sandbox.expires_at c = timestamp_millis <$> Sandbox.expires_at sb' ∧
  Sandbox.vmm_meta c = Sandbox.vmm_meta sb'.

(** A guarded call that leaves the store and the machines alone, with the machine
    [h] running. *)
Lemma guarded {B} (m : handler B) h L R :
  keeping R → frames (λ s, (sto s, live (vm s))) m →
  hoare (stored R ({[VmHandle.id h]} ∪ L)) (or_fail id (Some h) m)
    (ends (λ _, stored R ({[VmHandle.id h]} ∪ L)) (fails L)).
Proof.
  intros HR Hm. eapply weaken_ends; [by apply (or_fail_frames _ (Some h))|done|apply failed_fails].
Qed.

Lemma prepare_ends sb h L R :
  keeping R → Sandbox.id sb = id →
  hoare (stored R ({[VmHandle.id h]} ∪ L)) (prepare_guest sb h)
    (ends (λ _, stored R ({[VmHandle.id h]} ∪ L)) (fails L)).
Proof.
  intros HR Hid. unfold prepare_guest, run_init, materialize_secrets, materialize_volume_mounts, mounted_volume.
  rewrite Hid.
  eapply ends_bind; [apply guarded; [done|frame]|intros c].
  eapply ends_bind; [apply guarded; [done|frame]|intros []].
  eapply ends_bind; [eapply weaken_ends; [apply quiet_ends, ends_frames; frame|done|by intros ? ? []]|intros []].
  eapply ends_bind; [apply guarded; [done|frame]|intros []].
  case_bool_decide; [by apply ends_ret|]. apply guarded; [done|]. frame.
Qed.

Lemma with_subnet_id h sub : VmHandle.id (with_subnet h sub) = VmHandle.id h.
Proof. by destruct sub. Qed.

Lemma choose_ends sb slot snap sub R M :
  hoare (stored R M) (choose_snapshot sb slot snap sub)
    (ends (λ _, stored R M) (λ _ _, False)).
Proof.
  intros s Hs. unfold choose_snapshot. destruct slot, snap; [done..|].
  unfold mbind, stres_bind, claim_snapshot. by destruct (List.find _ _).
Qed.

Lemma body_ends sb slot snap sub L :
  (∀ h sub, K (meta_of h (VmmMeta.extra (Sandbox.vmm_meta sb)) sub)) →
  Sandbox.id sb = id → Sandbox.status sb = SandboxStatus.Starting →
  hoare (stored (λ c, K (Sandbox.vmm_meta c)) L) (provision_body sb slot snap sub)
    (ends (λ sb' s, ∃ h, stored (running sb') ({[VmHandle.id h]} ∪ L) s) (fails L)).
Proof.
  intros HK Hid Hst. unfold provision_body. rewrite Hid.
  eapply ends_bind; [eapply weaken_ends; [apply choose_ends|intros b s Hs; exact Hs|by intros ? ? []]|].
  intros [snap' sub']. eapply ends_bind.
  { instantiate (1 := λ _, stored (λ c, K (Sandbox.vmm_meta c)) L). destruct manage_network; [|by apply ends_ret].
    eapply weaken_ends; [apply (or_fail_frames _ None); [done|frame]|done|apply failed_fails]. }
  intros []. eapply ends_bind; [by apply obtain_ends|]. intros h0. cbv beta.
  set (h := with_subnet h0 sub'). set (sb1 := Sandbox.set_vmm_meta _ _).
  assert (keeping (with_meta (Sandbox.vmm_meta sb1))) as HK1 by (intros c ->; apply HK).
  assert (K (Sandbox.vmm_meta sb1)) as HK2 by apply HK.
  replace (VmHandle.id h0) with (VmHandle.id h) by apply with_subnet_id.
  eapply ends_bind; [by apply (record_ends sb1 h L)|]. intros []. eapply ends_bind.
  { instantiate (1 := λ _, stored (with_meta (Sandbox.vmm_meta sb1)) ({[VmHandle.id h]} ∪ L)).
    destruct slot, snap'; try by apply ends_ret. apply guarded; [done|]. intros s. unfold vmm_call.
    pose proof (start_live h (vm s)) as Hl. destruct (start h (vm s)) as [w o].
    simpl in *. by rewrite Hl. }
  intros []. eapply ends_bind.
  { instantiate (1 := λ _, stored (with_meta (Sandbox.vmm_meta sb1)) ({[VmHandle.id h]} ∪ L)).
    unfold setup_network. destruct manage_network; [|by apply ends_ret].
    rewrite (Hid : Sandbox.id sb1 = id). apply guarded; [done|]. frame. }
  intros []. eapply ends_bind; [by apply prepare_ends|]. intros [].
  eapply weaken_ends; [by apply finish_ends| |done]. intros sb' s Hs. by exists h.
Qed.
End provisioning.

(** The recovery counter is not the entry provisioning writes. *)
Lemma meta_of_attempts h x sub :
  recovery_attempts (meta_of h x sub) =
  recovery_attempts (VmmMeta.mk "" None None None None None None x).
Proof.
  unfold recovery_attempts, meta_of. simpl. destruct sub; [|done].
  by rewrite lookup_insert_ne by done.
Qed.

Section outcome.
Context {S : Semaphore} {ST : Store} {STO : StoreOk ST} {V : Vmm} {VO : VmmOk V}
  {O : Os} {D : Deployment} {DO : ClockOk D} {A : Agent} {H : Sha256} {HO : HashOrder} {CE : CloudEnv} {W : Wire}
  {T : Timeouts} {TO : TimeoutsOk T} {C : Chrono} {CO : ChronoOk C}.

Lemma provision_cases sb r slot snap sub s c :
  store_wf (sto s) → abs (sto s) !! Sandbox.id sb = Some c →
  recovery_attempts (Sandbox.vmm_meta c) = recovery_attempts (Sandbox.vmm_meta sb) →
  Sandbox.status sb = SandboxStatus.Starting →
  match provision_sandbox sb r slot snap sub s with
  | (s', Ok sb') =>
    (∃ c', abs (sto s') !! Sandbox.id sb = Some c' ∧ running sb' c') ∧
    (∀ x, r = Some x → reservations s' !! Sandbox.id sb = Some x)
  | (s', Err e) =>
    fails (Sandbox.id sb)
      (λ m, recovery_attempts m = recovery_attempts (Sandbox.vmm_meta sb)) (live (vm s)) e s'
  | (_, Panic) => True
  end.
Proof.
  intros Hwf Hc Ha Hst. set (K := λ m, recovery_attempts m = recovery_attempts (Sandbox.vmm_meta sb)).
  assert (stored (Sandbox.id sb) (λ c, K (Sandbox.vmm_meta c)) (live (vm s)) s) as Hs
    by (split_and!; eauto).
  pose proof (body_ends (Sandbox.id sb) K sb slot snap sub (live (vm s))
    ltac:(intros; unfold K; by rewrite meta_of_attempts) eq_refl Hst s Hs) as Hb.
  unfold provision_sandbox, scoped, mbind, stres_bind.
  destruct (provision_body sb slot snap sub s) as [s1 [sb'|e|]]; simpl in *; [| |done].
  - destruct Hb as (h & _ & Hrow & _). destruct r as [r|]; simpl; [|by split].
    unfold insert_reservation. split.
    + by rewrite sto_drop.
    + intros x [= <-]. destruct (reservations s1 !! Sandbox.id sb); simpl; apply lookup_insert_eq.
  - by destruct r.
Qed.

(** ** Automatic restarts

    One round: the reconciler restarts the failed sandbox, and the job it spawned
    fails again. *)
Inductive rounds (id : string) : nat → AppState → AppState → Prop :=
| rounds_0 s : rounds id 0 s s
| rounds_S k s s1 s2 s3 ready sb sb' r e :
  abs (sto s) !! id = Some (content sb) → Sandbox.id sb = id →
  Sandbox.status sb = SandboxStatus.Error →
  reconcile_one ready sb s = (s1, Ok ()) → tasks s1 = tasks s ++ [Provision sb' r None] →
  run_provision_with_slot sb' r None (set_tasks (tasks s) s1) = (s2, Err e) →
  rounds id k s2 s3 → rounds id (Datatypes.S k) s s3.

Lemma attempts_nonneg m : 0 ≤ recovery_attempts m.
Proof.
  unfold recovery_attempts. destruct (_ !! _) as [v|]; [|done].
  destruct (parse_unsigned u8_max v) as [n|] eqn:Hp; [|done].
  unfold parse_unsigned in Hp. repeat case_match; by simplify_eq; lia.
Qed.

(** From here on the store is up and machines can be stopped. *)
Context {SU : StoreUp ST} {VT : StopTotal V}.

(** A store update on a row that is there, as a computation. *)
Lemma update_call id (f : store → store * StoreResult ()) g s c :
  (∀ x, store_wf x → let '(x', r) := f x in store_wf x' ∧ updated (abs x) (abs x') id g r) →
  store_wf (sto s) → abs (sto s) !! id = Some c →
  ∃ x, store_call f s = (set_sto x s, Ok ()) ∧ store_wf x ∧ abs x !! id = Some (g c).
Proof.
  intros Hf Hwf Hc. specialize (Hf _ Hwf). unfold store_call. destruct (f (sto s)) as [x r].
  destruct Hf as [Hx Hu]. unfold updated in Hu. rewrite Hc in Hu. destruct Hu as [Ha ->].
  exists x. split_and!; [done..|]. by rewrite Ha, lookup_insert_eq.
Qed.

Lemma schedule_task sb s s1 :
  schedule_provision sb s = (s1, Ok ()) →
  sto s1 = sto s ∧ (tasks s1 = tasks s ∨ ∃ r, tasks s1 = tasks s ++ [Provision sb r None]).
Proof.
  unfold schedule_provision, mbind, stres_bind, spawn, modify. simpl.
  case_bool_decide; [intros [= <-]; auto|]. case_match; [intros [= <-]; eauto|].
  unfold attempt, reserve. destruct manage_resources; [|intros [= <-]; eauto].
  unfold mbind, stres_bind, admit_spec. destruct (ResourcePool.admit_ _ _) as [p [r|e|]]; simpl;
    intros [= <-]; eauto.
Qed.

(** What the reconciler does with a failed row. *)
Lemma reconcile_failed ready sb s :
  Sandbox.status sb = SandboxStatus.Error →
  reconcile_one ready sb s =
  if bool_decide (SandboxSpec.restart_policy (Sandbox.spec sb) = RestartPolicy.Never)
  then (s, Ok ()) else restart_failed sb s.
Proof.
  intros Hst. unfold reconcile_one, restore_reservation, lease_expired, mbind, stres_bind. simpl.
  rewrite Hst. simpl. rewrite andb_false_r. simpl. by case_bool_decide.
Qed.

(** One step of a handler, with the state kept folded. *)
Lemma bind_eq {B E} (m : handler B) (k : B → handler E) s s1 b :
  m s = (s1, Ok b) → (m ≫= k) s = k b s1.
Proof. intros Hm. unfold mbind, stres_bind. by rewrite Hm. Qed.

Definition tick (s : AppState) : AppState := set_reads (Datatypes.S (reads s)) s.
Lemma now_eq s : now s = (tick s, Ok (clk (reads s))).
Proof. done. Qed.

(** What the restart writes before it schedules the job. *)
Definition counted (sb : Sandbox.t) (c : Sandbox.t) : Prop :=
  Sandbox.id c = Sandbox.id sb ∧ Sandbox.status c = SandboxStatus.Starting ∧
  recovery_attempts (Sandbox.vmm_meta c) = recovery_attempts (Sandbox.vmm_meta sb) + 1.

Lemma restart_writes sb s :
  store_wf (sto s) → abs (sto s) !! Sandbox.id sb = Some (content sb) →
  recovery_attempts (Sandbox.vmm_meta sb) < 3 →
  ∃ s2 c, restart_failed sb s =
      (catch (fetch (Sandbox.id sb)) (λ _, mret sb) ≫= schedule_provision) s2 ∧
    store_wf (sto s2) ∧ abs (sto s2) !! Sandbox.id sb = Some c ∧ counted sb c ∧ tasks s2 = tasks s.
Proof.
  intros Hwf Hc Hn. unfold restart_failed. rewrite (proj2 (Z.ltb_lt _ _) Hn).
  rewrite (bind_eq _ _ _ _ _ (now_eq s)). set (m := VmmMeta.set_extra _ _).
  destruct (update_call (Sandbox.id sb) (update_sandbox_vmm_meta (Sandbox.id sb) m (clk (reads s))) _
    (tick s) _ (λ y Hy, vmm_meta_answers _ m _ y Hy (clk_in_range _)) Hwf Hc) as (x & Hx & Hwx & Hax).
  erewrite bind_eq by (unfold attempt; by rewrite Hx). cbn [is_ok negb].
  rewrite (bind_eq _ _ _ _ _ (now_eq _)). set (s1 := set_sto x (tick s)).
  destruct (update_call (Sandbox.id sb) (update_sandbox_status_message (Sandbox.id sb)
    SandboxStatus.Starting None (clk (reads s1))) _ (tick s1) _
    (λ y Hy, status_message_answers _ _ None _ y Hy (clk_in_range _)) Hwx Hax) as (y & Hy & Hwy & Hay).
  erewrite bind_eq by (unfold attempt; by rewrite Hy). cbn [is_ok negb].
  eexists _, _. split; [done|]. split_and!; [exact Hwy|exact Hay| |done].
  split_and!; [done..|]. unfold recovery_attempts, m. simpl.
  rewrite lookup_insert_eq, parse_show; [done|].
  pose proof (attempts_nonneg (Sandbox.vmm_meta sb)). unfold recovery_attempts, u8_max in *. lia.
Qed.

(** A restart that spawns a job has counted it in the row the job works on. *)
Lemma restart_task id ready sb s s1 sb' r :
  store_wf (sto s) → abs (sto s) !! id = Some (content sb) → Sandbox.id sb = id →
  Sandbox.status sb = SandboxStatus.Error →
  reconcile_one ready sb s = (s1, Ok ()) → tasks s1 = tasks s ++ [Provision sb' r None] →
  let n := recovery_attempts (Sandbox.vmm_meta sb) in
  n < 3 ∧ store_wf (sto s1) ∧ abs (sto s1) !! id = Some (content sb') ∧ Sandbox.id sb' = id ∧
  Sandbox.status sb' = SandboxStatus.Starting ∧
  recovery_attempts (Sandbox.vmm_meta sb') = n + 1.
Proof.
  intros Hwf Hc <- Hst Hr Ht n. rewrite reconcile_failed in Hr by done.
  assert (tasks s1 ≠ tasks s) as Hne.
  { rewrite Ht. intros Heq%(f_equal length). rewrite length_app in Heq. simpl in Heq. lia. }
  case_bool_decide; [by injection Hr as <-|].
  destruct (Z.ltb_spec n 3) as [Hn|Hn].
  2: { unfold restart_failed in Hr. fold n in Hr. rewrite (proj2 (Z.ltb_ge _ _) Hn) in Hr.
       by injection Hr as <-. }
  destruct (restart_writes sb s Hwf Hc Hn) as (s2 & c & He & Hwf2 & Hc2 & (Hi & Hs & Ha) & Ht2).
  rewrite He in Hr. clear He. unfold mbind at 1, stres_bind at 1, catch, fetch in Hr.
  rewrite (bind_eq _ _ _ _ _ (now_eq s2)) in Hr. unfold store_call in Hr.
  pose proof (get_answers (Sandbox.id sb) (clk (reads s2)) (sto s2) Hwf2) as Hg.
  change (sto (tick s2)) with (sto s2) in Hr.
  destruct (get_sandbox _ _ (sto s2)) as [z o]. rewrite Hc2 in Hg.
  destruct Hg as (Hwz & Haz & sb1 & -> & Hsb1 & _). cbn [map_err] in Hr.
  apply schedule_task in Hr as [Hsto [Hno|[r' Hyes]]]; [by rewrite Hno in Hne|].
  rewrite Hyes in Ht. change (tasks (set_sto z (tick s2))) with (tasks s2) in Ht. rewrite Ht2 in Ht.
  apply app_inv_head in Ht. injection Ht as <- <-. rewrite Hsto. simpl. rewrite Haz, Hc2, <-Hsb1.
  rewrite <-Hsb1 in Hi, Hs, Ha. by split_and!.
Qed.

(** A job that fails leaves the counter of its row alone. *)
Lemma failed_run sb r s s' e :
  store_wf (sto s) → abs (sto s) !! Sandbox.id sb = Some (content sb) →
  Sandbox.status sb = SandboxStatus.Starting →
  run_provision_with_slot sb r None s = (s', Err e) →
  ∃ c, store_wf (sto s') ∧ abs (sto s') !! Sandbox.id sb = Some c ∧
    recovery_attempts (Sandbox.vmm_meta c) = recovery_attempts (Sandbox.vmm_meta sb).
Proof.
  intros Hwf Hc Hst. unfold run_provision_with_slot, run_provision_with_slot_and_snapshot.
  assert (∀ s0, sto (discard_warm_slot (Sandbox.id sb) s0).1 = sto s0) as Hd.
  { unfold discard_warm_slot. change (frames sto (discard_warm_slot (Sandbox.id sb))).
    unfold discard_warm_slot. frame. }
  unfold mbind, stres_bind. simpl. case_bool_decide.
  - specialize (Hd s). destruct (discard_warm_slot _ s) as [s1 [[]|e1|]]; simpl in *;
      intros [= <- <-]; exists (content sb); rewrite ?sto_drop, Hd; done.
  - set (s0 := set_provisioning _ s).
    pose proof (provision_cases sb r None None None s0 (content sb) Hwf Hc eq_refl Hst) as Hp.
    unfold attempt. destruct (provision_sandbox sb r None None None s0) as [s1 [sb'|e1|]];
      simpl; [done| |done].
    destruct Hp as (Hwf1 & (c' & Hc' & _ & Ha') & _); [by split|].
    specialize (Hd (remove_reservation (Sandbox.id sb) s1)).
    destruct (remove_reservation_fields (Sandbox.id sb) s1) as (E1 & _). rewrite E1 in Hd.
    destruct (discard_warm_slot _ _) as [s2 [[]|e2|]]; simpl in *; intros [= <- <-];
      exists c'; simpl; by rewrite Hd.
Qed.
End outcome.

(** ** Properties *)

Section properties.
Context {S : Semaphore} {ST : Store} {STO : StoreOk ST} {V : Vmm} {VO : VmmOk V}
  {O : Os} {D : Deployment} {DO : ClockOk D} {A : Agent} {H : Sha256} {HO : HashOrder} {CE : CloudEnv} {W : Wire}
  {T : Timeouts} {TO : TimeoutsOk T} {C : Chrono} {CO : ChronoOk C}.


(** From here on the store is up and machines can be stopped. *)
Context {SU : StoreUp ST} {VT : StopTotal V}.

(** C37: a sandbox that keeps failing is not restarted forever: however its jobs
    fail, the reconciler goes through at most three rounds of restart and failure,
    because a failed provisioning keeps the counter the restart stored.  The store is up
    ([StoreUp]) and a forced stop succeeds ([StopTotal]). *)
Theorem recovery_is_bounded id k s s' :
  store_wf (sto s) → rounds id k s s' → (k ≤ 3)%nat.
Proof.
  intros Hwf Hr.
  enough (∀ c, abs (sto s) !! id = Some c → (k = 0)%nat ∨
    Z.of_nat k + recovery_attempts (Sandbox.vmm_meta c) ≤ 3) as Hk.
  { destruct Hr as [|k s s1 s2 s3 ready sb sb' r e Hc]; [lia|].
    destruct (Hk _ Hc) as [?|?]; [lia|].
    pose proof (attempts_nonneg (Sandbox.vmm_meta (content sb))). lia. }
  revert Hwf. induction Hr as [s|k s s1 s2 s3 ready sb sb' r e Hc Hid Hst Hrs Ht Hrun Hr IH];
    intros Hwf c Hc'; [by left|right].
  rewrite Hc in Hc'. injection Hc' as <-. simpl.
  destruct (restart_task id ready sb s s1 sb' r Hwf Hc Hid Hst Hrs Ht) as (Hn & Hwf1 & Hc1 & Hid1 & Hst1 & Ha1).
  enough (∃ c2, store_wf (sto s2) ∧ abs (sto s2) !! id = Some c2 ∧
    recovery_attempts (Sandbox.vmm_meta c2) = recovery_attempts (Sandbox.vmm_meta sb')) as
    (c2 & Hwf2 & Hc2 & Ha2).
  { destruct (IH Hwf2 c2 Hc2) as [->|?]; lia. }
  clear IH Hr. rewrite <-Hid1 in Hc1 |- *. by eapply failed_run; [..|exact Hrun].
Qed.
End properties.

(** A guest that never says hello. *)
Module ProvisionDemo.
Import ControlDemo.
Definition spec : SandboxSpec.t :=
  let d := SandboxSpec.default in
  SandboxSpec.mk (SandboxSpec.image d) (SandboxSpec.resources d) (SandboxSpec.network d) [] [] []
    None 10 ∅ [] ∅ None 30000 ∅ false true false ∅ RestartPolicy.OnFailure None.
Definition accepted : AppState :=
  (create_handler errors alice spec false "sb-1" (initial false)).1.
Definition sb : Sandbox.t :=
  Sandbox.set_status (Sandbox.new "sb-1" (SandboxSpec.set_tenant spec (Some "alice"%string)) (clk 1))
    SandboxStatus.Starting (clk 2).

Lemma provision_initial_inv up : inv cap 2 None (initial up).
Proof.
  apply boot_inv; [apply CapacityDemo.demo_cap_typed|lia|exact (map_Forall_empty _)|].
  change (map_Forall row_ok (content <$> (∅ : gmap string Sandbox.t))).
  rewrite fmap_empty. exact (map_Forall_empty _).
Qed.

Lemma accepted_wf : store_wf (sto accepted).
Proof.
  pose proof (create_conserves cap 2 errors alice spec false "sb-1"
    CapacityDemo.default_typed (initial false) (provision_initial_inv false)) as [[Hwf _] _].
  exact Hwf.
Qed.

Definition row : Sandbox.t :=
  match abs (sto accepted) !! "sb-1"%string with Some c => c | None => sb end.
Lemma accepted_row : abs (sto accepted) !! "sb-1"%string = Some row.
Proof. vm_compute. reflexivity. Qed.

(** The job of the create fails; then the reconciler restarts the sandbox and the
    new job fails as well. *)
Definition first_failure : AppState :=
  (run_task (Provision sb (Some (Reservation.mk (SandboxSpec.resources SandboxSpec.default))) None)
     (set_tasks [] accepted)).1.
Definition broken : Sandbox.t :=
  match InMemoryStore.sandboxes (sto first_failure : InMemoryStore.t) !! "sb-1"%string with
  | Some x => x | None => sb end.
Definition restarted : AppState := (reconcile_one None broken first_failure).1.
Definition job : Sandbox.t * option Reservation.t :=
  match tasks restarted with Provision x r _ :: _ => (x, r) | _ => (sb, None) end.
Definition second_failure : AppState :=
  (run_provision_with_slot job.1 job.2 None (set_tasks (tasks first_failure) restarted)).1.
Definition reason : ClouisleError.t :=
  match (run_provision_with_slot job.1 job.2 None
           (set_tasks (tasks first_failure) restarted)).2 with
  | Err e => e | _ => ClouisleError.internal "" end.

Lemma rows_tasks l s : rows_ok s → rows_ok (set_tasks l s).
Proof. done. Qed.

Lemma accepted_inv :
  inv cap 2 (task_res (Provision sb (Some (Reservation.mk (SandboxSpec.resources SandboxSpec.default))) None))
    (set_tasks [] accepted).
Proof.
  pose proof (create_conserves cap 2 errors alice spec false "sb-1"
    CapacityDemo.default_typed (initial false) (provision_initial_inv false)) as [Hr Hb].
  split; [exact (rows_tasks [] accepted Hr)|].
  refine (bal_take cap 2 [] (Provision sb (Some _) None) [] accepted _ Hb). vm_compute. reflexivity.
Qed.

Lemma first_failure_wf : store_wf (sto first_failure).
Proof.
  pose proof (task_conserves cap 2 (Provision sb (Some (Reservation.mk (SandboxSpec.resources SandboxSpec.default))) None)
    (set_tasks [] accepted) accepted_inv) as [[Hwf _] _].
  exact Hwf.
Qed.

Lemma restart_ok : (reconcile_one None broken first_failure).2 = Ok ().
Proof. vm_compute. reflexivity. Qed.
Lemma second_err :
  (run_provision_with_slot job.1 job.2 None (set_tasks (tasks first_failure) restarted)).2 = Err reason.
Proof. vm_compute. reflexivity. Qed.

Lemma one_round : rounds "sb-1" 1 first_failure second_failure.
Proof.
  refine (rounds_S _ 0 first_failure restarted second_failure second_failure None broken job.1 job.2
    reason _ _ _ (outcome_eta _ _ restart_ok) _ (outcome_eta _ _ second_err) (rounds_0 _ _));
    vm_compute; reflexivity.
Qed.
End ProvisionDemo.

(** A store that fails once: at the write of the deadline, the third write of the job. *)
Module LostDeadline.
Import ControlDemo.
Definition flaky : Store := FaultyStore.impl (S := InMemoryStore.impl).
#[local] Existing Instance flaky.
Definition before : AppState :=
  boot cap 2 0 300 ((InMemoryStore.create_sandbox ProvisionDemo.sb InMemoryStore.new).1, [false; false; true])
    (MemoryVmm.mk ∅ ∅ : world) ([] : os_world) (true : guest)
    (E2bControlPlane.control_plane_new (∅ : disk)) Authenticator.new_production.
Definition after : AppState * result Sandbox.t :=
  provision_sandbox ProvisionDemo.sb None None None None before.

(** The job fails and drops its reservation, but the row stays [Running] and the machine up:
    the write of the deadline is not one of the steps whose error marks the sandbox failed. *)
Lemma a_lost_deadline_leaves_it_running :
  is_ok after.2 = false ∧
  (Sandbox.status <$> InMemoryStore.sandboxes (sto after.1).1 !! "sb-1"%string)
  = Some SandboxStatus.Running ∧
  bool_decide ("sb-1"%string ∈ MemoryVmm.machines (vm after.1)) = true.
Proof. vm_compute. by split_and!. Qed.
End LostDeadline.


Lemma recovery_is_bounded_witness : (1 ≤ 3)%nat.
Proof.
  exact (recovery_is_bounded "sb-1" 1 ProvisionDemo.first_failure ProvisionDemo.second_failure
    ProvisionDemo.first_failure_wf ProvisionDemo.one_round).
Defined.
