(* ===== verification/Handlers.v ===== *)
(** * What the request handlers, the reconciler and the reaper guarantee

    Deletion, listing and tenant isolation; the bound on automatic restarts; the
    leases of prepared snapshots and warm machines; what a panic leaves behind. *)

From S2P Require Import Prelude Core SandboxModel Admission Vmm Pool Proto Guest Digest Dns Net.
From S2P Require Import Store Json Auth E2bCloud Processes E2bModel AppState Lifecycle E2bHandlers.
From S2P Require Import CloudHandlers ApiHandlers Control Capacity.

Section handlers.
Context {S : Semaphore} {ST : Store} {STO : StoreOk ST} {V : Vmm} {VO : VmmOk V} {O : Os}
  {D : Deployment} {DO : ClockOk D} {A : Agent} {H : Sha256} {HO : HashOrder} {CE : CloudEnv} {W : Wire}
  {T : Timeouts} {C : Chrono}.

(** ** The ownership check in front of a handler *)

Definition tenant (c : Sandbox.t) : option string := SandboxSpec.tenant_id (Sandbox.spec c).

(** Everything but the store and the clock. *)
Definition rest (s : AppState) :=
  (vm s, pool s, warm s, warm_slots s, reservations s, snapshots s, provisioning s, net s, gst s,
   next_subnet s, tasks s, e2b s, auth s, e2b_tokens s, processes s, next_pid s, image_jobs s, draining s).

(** The store did not answer. *)
Definition unavailable (e : ClouisleError.t) : Prop :=
  ClouisleError.kind e = ErrorKind.Store ∧ ¬ StoreUp ST.

Lemma fault_unavailable {B} (f : store → store * StoreResult B) x e :
  fault (f x).2 → (f x).2 = Err e → (StoreUp ST → ¬ fault (f x).2) → unavailable (StoreError.into e).
Proof. intros Hf He Hu. split; [|tauto]. rewrite He in Hf. by destruct e. Qed.

Lemma fetch_own_cases p id s :
  store_wf (sto s) →
  let '(s', o) := fetch_own p id s in
  store_wf (sto s') ∧ abs (sto s') = abs (sto s) ∧ rest s' = rest s ∧
  match o with
  | Ok sb => abs (sto s) !! id = Some (content sb) ∧ tenant sb = Some (Principal.tenant_id p) ∧
             times_in_range sb
  | Err e => (ClouisleError.kind e = ErrorKind.NotFound ∧
              ∀ c, abs (sto s) !! id = Some c → tenant c ≠ Some (Principal.tenant_id p)) ∨ unavailable e
  | Panic => False
  end.
Proof.
  intros Hwf. unfold fetch_own, fetch, mbind, stres_bind, now, store_call. simpl.
  pose proof (get_law id (clk (reads s)) (sto s) Hwf) as Hg.
  pose proof (fault_unavailable (get_sandbox id (clk (reads s))) (sto s)) as Hun.
  pose proof (λ SU : StoreUp ST, get_up id (clk (reads s)) (sto s) Hwf) as Hup.
  destruct (get_sandbox id _ (sto s)) as [x r]. destruct Hg as (Hwf' & Ha & [Hf|Hg]).
  { destruct r as [|e|]; [done| |done]. simpl. split_and!; try done. right. by apply Hun. }
  destruct (abs (sto s) !! id) as [c|] eqn:Hc.
  - destruct Hg as (sb & -> & Hsb & Ht). simpl. unfold Authenticator.require_tenant.
    assert (tenant c = tenant sb) as Htn by by rewrite <-Hsb.
    case_bool_decide as Hp; simpl; split_and!; try done.
    + by rewrite Hsb.
    + left. split; [done|]. intros c' [= <-]. by rewrite Htn.
  - destruct Hg as [msg ->]. simpl. split_and!; try done. by left.
Qed.

(** A handler that goes on from its own row, in cases. *)
Lemma own_row {B} p id (k : Sandbox.t → handler B) s (Q : AppState * result B → Prop) :
  store_wf (sto s) →
  (∀ s1 sb, store_wf (sto s1) → abs (sto s1) = abs (sto s) → rest s1 = rest s →
     abs (sto s) !! id = Some (content sb) → tenant sb = Some (Principal.tenant_id p) →
     Q (k sb s1)) →
  (∀ s1 e, abs (sto s1) = abs (sto s) → rest s1 = rest s →
     (ClouisleError.kind e = ErrorKind.NotFound ∧
      ∀ c, abs (sto s) !! id = Some c → tenant c ≠ Some (Principal.tenant_id p)) ∨ unavailable e →
     Q (s1, Err e)) →
  Q ((fetch_own p id ≫= k) s).
Proof.
  intros Hwf Hok Herr. pose proof (fetch_own_cases p id s Hwf) as Hf.
  unfold mbind, stres_bind in *. destruct (fetch_own p id s) as [s1 [sb|e|]].
  - destruct Hf as (? & ? & ? & ? & ? & ?). auto.
  - destruct Hf as (? & ? & ? & ?). auto.
  - by destruct Hf as (_ & _ & _ & []).
Qed.

(** ** Deletion *)

(** Retiring a machine always returns; a leased machine goes back to the warm
    pool, any other one is stopped, if it can be. *)
Lemma retire_ok id sb s :
  let '(s1, o) := quiet (retire_machine id sb) s in
  o = Ok () ∧ sto s1 = sto s ∧ reservations s1 = reservations s ∧ pool s1 = pool s ∧
  snapshots s1 = snapshots s ∧ net s1 = net s ∧ warm_slots s1 = delete id (warm_slots s) ∧
  match warm_slots s !! id with
  | Some x => live (vm s1) = live (vm s) ∧ ∃ t, warm s1 = (Pool.release x t (warm s)).1
  | None => StopTotal V → ∀ m, VmmMeta.vmm_id (Sandbox.vmm_meta sb) = Some m → m ∉ live (vm s1)
  end.
Proof.
  unfold retire_machine, quiet, attempt, mbind, stres_bind. simpl.
  destruct (warm_slots s !! id) as [x|] eqn:Hx.
  - unfold when. case_bool_decide.
    + unfold vmm_call, release_slot, now, warm_call, mbind, stres_bind. simpl.
      pose proof (resume_live (PoolSlot.vm_handle x) (vm s)) as Hr.
      destruct (resume (PoolSlot.vm_handle x) (vm s)) as [w [e|[]]]; simpl in *;
        destruct (Pool.release _ _ _) as [g r] eqn:Hrel; simpl; split_and!; try done;
        eexists; by rewrite Hrel.
    + unfold release_slot, now, warm_call, mbind, stres_bind. simpl.
      destruct (Pool.release _ _ _) as [g r] eqn:Hrel; simpl; split_and!; try done.
      eexists; by rewrite Hrel.
  - unfold when, has_machine. case_bool_decide as Hm; simpl.
    + unfold vmm_call. simpl. destruct Hm as [m Hm].
      pose proof (λ VT : StopTotal V, force_stop_ok (stored_handle id sb None) (vm s)) as Hok.
      destruct (stop _ _ (vm s)) as [w o] eqn:Hst. simpl in Hok.
      destruct o as [e|[]]; simpl; split_and!; try done; intros VT m' Hm'; [by specialize (Hok VT)|].
      apply stop_live in Hst. rewrite Hst. unfold stored_handle. rewrite Hm'. set_solver.
    + split_and!; try done. intros _ m Hm'. rewrite Hm' in Hm. by destruct Hm.
Qed.

Lemma released_snapshots id s x :
  x ∈ snapshots (release_snapshot id s) → owner x ≠ Some id.
Proof.
  simpl. intros (y & -> & Hy)%list_elem_of_fmap. by case_bool_decide.
Qed.

(** Deletion of the caller's own sandbox, once its machine is retired: done, or the store
    did not answer and the row is still there. *)
Lemma delete_tail id sb s1 :
  store_wf (sto s1) → is_Some (abs (sto s1) !! id) →
  let '(s', o) := (store_call (delete_sandbox id) ≫= λ _,
     modify (remove_reservation id) ≫= λ _, modify (release_snapshot id) ≫= λ _,
     teardown_network id sb ≫= λ _, mret NoContent) s1 in
  vm s' = vm s1 ∧ warm s' = warm s1 ∧ warm_slots s' = warm_slots s1 ∧
  match o with
  | Ok _ =>
    abs (sto s') = delete id (abs (sto s1)) ∧ reservations s' = delete id (reservations s1) ∧
    (∀ x, x ∈ snapshots s' → owner x ≠ Some id) ∧
    (manage_network = true → id ∉ nets (net s').1 ∧ dns_proxies (net s').1 !! id = None)
  | Err e => unavailable e ∧ abs (sto s') = abs (sto s1) ∧ rest s' = rest s1
  | Panic => False
  end.
Proof.
  intros Hwf [c Hc]. unfold mbind, stres_bind, store_call.
  pose proof (delete_law id (sto s1) Hwf) as Hd.
  pose proof (fault_unavailable (delete_sandbox id) (sto s1)) as Hun.
  pose proof (λ SU : StoreUp ST, delete_up id (sto s1) Hwf) as Hup.
  destruct (delete_sandbox id (sto s1)) as [x r].
  destruct Hd as (Hwf' & [[Hf Ha]|Hd]).
  { destruct r as [|e|]; [done| |done]. simpl. split_and!; try done. by apply Hun. }
  rewrite Hc in Hd. destruct Hd as (Ha & ->). simpl.
  destruct (remove_reservation_fields id (set_sto x s1)) as (E1 & E2 & E3 & E4 & E5 & E6 & E7).
  set (s2 := remove_reservation id (set_sto x s1)) in *.
  pose proof (released_snapshots id s2) as Hsn. set (s3 := release_snapshot id s2) in *.
  unfold teardown_network, when. destruct manage_network; simpl.
  - unfold quiet, attempt, mbind, stres_bind, net_call.
    destruct (net s3) as [m w] eqn:Hn.
    pose proof (teardown_ok id (VmmMeta.inherited_subnet (Sandbox.vmm_meta sb)) m w) as Ht.
    destruct (teardown_sandbox_network _ _ (m, w)) as [[m' w'] o]. destruct Ht as (-> & Hp & Hnn).
    simpl. rewrite E1, E2, E3, E4, E7. split_and!; try done. intros _. rewrite Hp, Hnn.
    split; [set_solver|apply lookup_delete_eq].
  - rewrite E1, E2, E3, E4, E7. by split_and!.
Qed.

(** ** Leases of prepared snapshots *)

(** Every snapshot that has an owner keeps its place and its owner. *)
Definition leases_kept (s s' : AppState) : Prop :=
  ∀ i x o, snapshots s !! i = Some x → owner x = Some o → snapshots s' !! i = Some x.

Definition evolves {B} (m : handler B) : Prop := ∀ s, leases_kept s (m s).1.

Lemma leases_trans s1 s2 s3 : leases_kept s1 s2 → leases_kept s2 s3 → leases_kept s1 s3.
Proof. unfold leases_kept. eauto. Qed.

Lemma evolves_frames {B} (m : handler B) : frames snapshots m → evolves m.
Proof. intros Hm s i x o Hi Ho. by rewrite Hm. Qed.

Lemma evolves_bind {B E} (m : handler B) (k : B → handler E) :
  evolves m → (∀ b, evolves (k b)) → evolves (m ≫= k).
Proof.
  intros Hm Hk s. specialize (Hm s). unfold mbind, stres_bind.
  destruct (m s) as [s1 [b|e|]]; simpl in *; [|done..].
  exact (leases_trans _ _ _ Hm (Hk b s1)).
Qed.

Lemma evolves_attempt {B} (m : handler B) : evolves m → evolves (attempt (E := ClouisleError.t) m).
Proof. intros Hm s. specialize (Hm s). unfold attempt. by destruct (m s) as [s1 [b|e|]]. Qed.

Lemma evolves_scoped {B} r (m : handler B) : evolves m → evolves (scoped r m).
Proof.
  intros Hm s. specialize (Hm s). unfold scoped.
  destruct (m s) as [s1 [b|e|]]; simpl in *; [done|..]; by destruct r.
Qed.

Lemma evolves_claim key id : evolves (claim_snapshot key id).
Proof.
  intros s i x o Hi Ho. unfold claim_snapshot. destruct (List.find _ _); [|done]. simpl.
  apply lookup_update_first; [done|]. unfold free_for. rewrite Ho.
  by rewrite bool_decide_false, andb_false_r.
Qed.

Lemma provision_evolves sb r slot snap sub : evolves (provision_sandbox sb r slot snap sub).
Proof.
  unfold provision_sandbox. apply evolves_bind; [|intros; apply evolves_frames; frame].
  apply evolves_scoped. unfold provision_body. apply evolves_bind.
  - unfold choose_snapshot. destruct slot, snap; try solve [apply evolves_frames; frame].
    apply evolves_bind; [apply evolves_claim|intros; apply evolves_frames; frame].
  - intros [snap' sub']. apply evolves_frames.
    unfold obtain_machine, record_machine, setup_network, prepare_guest, run_init, finish_start,
      materialize_secrets, materialize_volume_mounts, mounted_volume, or_fail, mark_failed. frame.
Qed.

Lemma run_provision_evolves sb r slot snap sub :
  evolves (run_provision_with_slot_and_snapshot sb r slot snap sub).
Proof.
  unfold run_provision_with_slot_and_snapshot.
  apply evolves_bind; [apply evolves_frames; frame|intros []].
  - apply evolves_frames. unfold discard_warm_slot. frame.
  - apply evolves_bind; [apply evolves_frames; frame|intros _].
    apply evolves_bind; [apply evolves_attempt, provision_evolves|intros o].
    apply evolves_frames. unfold discard_warm_slot. frame.
Qed.

Lemma task_evolves t : evolves (run_task t).
Proof.
  destruct t; simpl.
  - apply evolves_bind; [apply evolves_attempt, run_provision_evolves|].
    intros. apply evolves_frames. frame.
  - apply evolves_bind; [apply evolves_attempt, provision_evolves|].
    intros. apply evolves_frames. frame.
  - apply evolves_bind; [apply evolves_attempt, run_provision_evolves|].
    intros. apply evolves_frames. frame.
  - apply evolves_frames. unfold run_pump. frame.
  - apply evolves_frames. unfold run_prefetch, update_job. frame.
  - apply evolves_frames. unfold build_image_if_possible, warm_template, fresh_uuid. frame.
Qed.

Lemma create_evolves errors p sp sync i : evolves (create_handler errors p sp sync i).
Proof.
  unfold create_handler, reserve, acquire_slot, store_new, image_cached.
  repeat (apply evolves_bind; [apply evolves_frames; frame|intros ?]).
  destruct b2 as [[sb slot] cached]. destruct (sync && cached).
  - apply evolves_bind; [apply run_provision_evolves|intros; apply evolves_frames; frame].
  - apply evolves_frames. frame.
Qed.

Lemma reconcile_frames : frames snapshots reconcile_sandboxes.
Proof.
  unfold reconcile_sandboxes, reconcile_one, restore_reservation, condemn, put_status,
    check_machine, restart_failed, schedule_provision, reserve, fetch. frame.
  all: intros s; unfold guest_probe; by destruct (within _ _ _).
Qed.

Lemma warm_snapshot_evolves sp i : evolves (warm_snapshot sp i).
Proof.
  unfold warm_snapshot. apply evolves_bind; [apply evolves_frames; frame|intros []];
    [apply evolves_frames; frame|].
  repeat (apply evolves_bind; [apply evolves_frames; frame|intros ?]).
  intros s j x o Hj Ho. simpl. by apply lookup_app_l_Some.
Qed.

Lemma delete_snapshots p o s :
  snapshots (delete_handler p o s).1 = snapshots s ∨
  snapshots (delete_handler p o s).1
  = (λ x, if bool_decide (owner x = Some o) then set_owner None x else x) <$> snapshots s.
Proof.
  unfold delete_handler.
  assert (frames snapshots (fetch_own p o)) as Hf by (unfold fetch_own, fetch; frame).
  assert (∀ sb, frames snapshots (quiet (retire_machine o sb) ≫= λ _, store_call (delete_sandbox o)
    ≫= λ _, modify (remove_reservation o))) as Hg
    by (intros; unfold retire_machine, release_slot; frame).
  assert (∀ sb, frames snapshots (teardown_network o sb)) as Ht
    by (intros; unfold teardown_network; frame).
  specialize (Hf s). unfold mbind, stres_bind in *.
  destruct (fetch_own p o s) as [s1 [sb|e|]]; simpl in *; [|by left..].
  specialize (Hg sb s1). unfold frames, mbind, stres_bind in Hg.
  destruct (quiet _ s1) as [s2 [[]|e|]]; simpl in *; [|left; congruence..].
  destruct (store_call _ s2) as [s3 [[]|e|]]; simpl in *; [|left; congruence..].
  specialize (Ht sb (release_snapshot o (remove_reservation o s3))). simpl in Ht.
  destruct (teardown_network _ _ _) as [s4 [[]|e|]]; simpl in *; right; by rewrite Ht, Hg, Hf.
Qed.

(** *** No request but a create or a delete touches a lease *)

Lemma frames_add_tags team i tags x : frames snapshots (add_tags team i tags x).
Proof.
  revert x. induction tags as [|g tags IH]; intros x; simpl; [frame|].
  apply frames_bind; [frame|done].
Qed.

Definition deletes (r : sandbox_request) : bool :=
  match r with RDelete | RE2bDelete => true | _ => false end.

Lemma sandbox_request_frames p i r : deletes r = false → frames snapshots (serve_sandbox p i r).
Proof.
  destruct r; try done; intros _; simpl; unfold answer, get_handler, recover_handler, exec_sync,
    exec_stream, list_execution_history, get_execution_record, upload_file, download_file, list_files,
    e2b_get, e2b_connect, e2b_resume, e2b_pause, refresh, set_timeout, update_network, sandbox_logs,
    sandbox_metrics, create_snapshot, fork_sandbox, fork_one, fork_paths, take_snapshot, unlink,
    e2b_upload_file, e2b_download_file, e2b_list_dir, filesystem_stat, filesystem_make_dir,
    filesystem_move, filesystem_remove, filesystem_watch_dir, filesystem_create_watcher,
    exec_checked, exec_filesystem, process_start, process_list, stream_process,
    process_connect, process_send_input, process_stream_input, process_send_signal,
    process_close_stdin, process_update, envd_init, envd_envs, envd_metrics, envd_compose,
    remove_sources, guest_of, session_of, resume_for_io, resolve_process_session, resume_if_needed,
    wake, e2b_response, ensure_e2b_access_token, stream_at, find_session, no_process,
    next_process_id, register_session, get_conn, ensure_executable, stream_events, machine_stats,
    stamps, team_sandbox, still_running, discard_warm_slot, teardown_network, reserve, fetch_own,
    fetch, fresh_uuid; frame.
Qed.

Lemma team_request_frames p r : frames snapshots (serve_team p r).
Proof.
  destruct r; simpl; unfold answer, list_teams, create_team, team_members, team_metrics,
    team_metrics_max, api_keys, create_key, update_key, delete_key, create_token, delete_token,
    list_volumes, create_volume, get_volume, delete_volume, volume_path, volume_dir, volume_get,
    volume_put, list_templates, get_template, list_template_builds, start_template_build,
    get_build_status, get_build_logs, list_template_tags, resolve_template_alias, update_template,
    template_tag_response, template_build_upload, list_sandbox_metrics, metrics_of, list_snapshots,
    register_created, revoke, stamps, team_sandbox, fetch, filesystem_get_watcher_events,
    filesystem_remove_watcher, get_prefetch_job, create_template_v3, assign_template_tags,
    prefetch_images, queue_image, put_job, fresh_uuid; frame.
  apply frames_add_tags.
Qed.

Lemma e2b_create_evolves errors p r i : evolves (e2b_create errors p r i).
Proof.
  unfold e2b_create. repeat (apply evolves_bind; [apply evolves_frames; unfold template_image; frame|intros ?]).
  destruct (E2bCreateRequest.snapshot_id r).
  - apply evolves_frames. unfold reserve, store_clone, e2b_response, ensure_e2b_access_token. frame.
  - apply evolves_bind; [apply create_evolves|intros resp]. apply evolves_frames.
    unfold e2b_response, ensure_e2b_access_token. frame.
Qed.

Lemma request_leases r :
  evolves (serve r) ∨ ∃ p o x, r = OnSandbox p o x ∧ deletes x = true.
Proof.
  destruct r as [p i r|p r|errors p sp sync i|errors p r i| | | | | | | | | | | |]; simpl.
  5-16: left; apply evolves_frames; unfold answer, list_handler, list_inner, admin_kill_team, kill_one,
    teardown_network, admin_create_key, admin_delete_key, admin_cancel_builds, admin_guard,
    register_created, revoke, register_node, adopt_row, abandon_row, fetch, ready_nodes, get_node,
    list_nodes, health, readiness; frame.
  - destruct (deletes r) eqn:Hd; [eauto 10|left]. by apply evolves_frames, sandbox_request_frames.
  - left. apply evolves_frames, team_request_frames.
  - left. apply evolves_bind; [apply create_evolves|intros; apply evolves_frames; frame].
  - left. apply evolves_bind; [apply e2b_create_evolves|intros; apply evolves_frames; frame].
Qed.

(** Both deletes free the leases of the sandbox, or, when they fail, none. *)
Lemma deletes_snapshots p o x s :
  deletes x = true →
  snapshots (serve (OnSandbox p o x) s).1 = snapshots s ∨
  snapshots (serve (OnSandbox p o x) s).1
  = (λ x, if bool_decide (owner x = Some o) then set_owner None x else x) <$> snapshots s.
Proof.
  destruct x; try done; intros _; simpl; unfold answer.
  - pose proof (delete_snapshots p o s) as Hd. unfold mbind, stres_bind.
    by destruct (delete_handler p o s) as [s1 [?|?|]].
  - unfold e2b_delete.
    assert (frames snapshots (fetch_own p o)) as Hf by (unfold fetch_own, fetch; frame).
    specialize (Hf s). unfold mbind, stres_bind in *.
    destruct (fetch_own p o s) as [s1 [sb|e|]]; simpl in *; [|by left..].
    pose proof (delete_snapshots p o s1) as Hd.
    destruct (delete_handler p o s1) as [s2 [b|e|]]; simpl in *; rewrite Hf in Hd; [|done..].
    assert (frames snapshots (remove_e2b_access_token o (tenant_or_default sb))) as Hr
      by (unfold remove_e2b_access_token; frame).
    specialize (Hr s2). destruct (remove_e2b_access_token _ _ s2) as [s3 [?|?|]]; simpl in *;
      by rewrite Hr.
Qed.

Lemma step_leases s s' :
  step s s' →
  leases_kept s s' ∨ ∃ p o x, deletes x = true ∧ s' = (serve (OnSandbox p o x) s).1.
Proof.
  destruct 1 as [r Hr| | |sp i|order uid t t' t'' g w Ht|pre t post Ht].
  - destruct (request_leases r) as [Hk|(p & o & x & -> & Hx)]; [left; apply Hk|right; eauto 10].
  - left. apply evolves_frames, reconcile_frames.
  - left. apply evolves_frames. unfold expiry_tick, expire_one, auto_pause, put_status, retire_machine,
      release_slot, teardown_network. frame.
  - left. apply warm_snapshot_evolves.
  - left. by intros i x o.
  - left. intros i x o Hi Ho. by eapply task_evolves.
Qed.

(** ** The set of ids with a job *)

Lemma body_provisioning sb r slot snap sub : frames provisioning (provision_sandbox sb r slot snap sub).
Proof.
  unfold provision_sandbox, provision_body, choose_snapshot, obtain_machine, record_machine,
    setup_network, prepare_guest, run_init, finish_start, materialize_secrets,
    materialize_volume_mounts, mounted_volume, or_fail, mark_failed. frame.
Qed.

Lemma discard_no_fail i s s' e : discard_warm_slot i s = (s', e) → e = Ok ().
Proof.
  unfold discard_warm_slot, mbind, stres_bind. simpl. by destruct (warm_slots s !! i); intros [= _ <-].
Qed.

(** A call that leaves the set alone, before a call that looks at it. *)
Lemma busy_bind {B E} id (m : handler B) (k : B → handler E) Q :
  frames provisioning m → (∀ b, hoare (λ s, id ∈ provisioning s) (k b) (λ o _, Q o)) →
  (∀ e, Q (Err e)) → Q Panic → hoare (λ s, id ∈ provisioning s) (m ≫= k) (λ o _, Q o).
Proof.
  intros Hm Hk He Hp. eapply (hoare_bind _ _ _ (λ _ s, id ∈ provisioning s)); [|done|done|done].
  intros s Hs. by rewrite Hm.
Qed.

Lemma scoped_fails {B} P r (m : handler B) :
  hoare P m (λ o _, is_ok o = false) → hoare P (scoped r m) (λ o _, is_ok o = false).
Proof.
  intros Hm s Hs. specialize (Hm s Hs). unfold scoped. by destruct (m s) as [s1 [b|e|]].
Qed.

Definition not_accepted (o : result Response) : Prop := ∀ resp, o = Ok resp → ∃ sb, resp = Found sb.

Lemma recover_busy p id :
  hoare (λ s, id ∈ provisioning s) (recover_handler p id) (λ o _, not_accepted o).
Proof.
  assert (not_accepted Panic ∧ ∀ e, not_accepted (Err e)) as [Hpn He] by (by split).
  unfold recover_handler.
  apply busy_bind; [unfold fetch_own, fetch; frame|intros sb|done..].
  apply busy_bind; [unfold still_running; frame|intros alive|done..].
  destruct alive; [intros s _ resp [= <-]; eauto|].
  apply busy_bind; [unfold discard_warm_slot; frame|intros _|done..].
  apply busy_bind; [unfold teardown_network; frame|intros _|done..].
  apply busy_bind; [frame|intros _|done..].
  apply busy_bind; [frame|intros held|done..].
  apply busy_bind; [unfold reserve; frame|intros r|done..].
  eapply (hoare_bind _ _ _ (λ o _, is_ok o = false)); [|by intros b s Hs|by intros..|by intros].
  apply scoped_fails.
  apply busy_bind; [frame|intros t|done..]. apply busy_bind; [frame|intros _|done..].
  apply busy_bind; [frame|intros t'|done..]. apply busy_bind; [frame|intros _|done..].
  intros s Hs. unfold mbind, stres_bind. simpl. by rewrite bool_decide_true.
Qed.
End handlers.

(** ** Properties *)

Section properties.
Context {S : Semaphore} {ST : Store} {STO : StoreOk ST} {V : Vmm} {VO : VmmOk V} {O : Os}
  {D : Deployment} {DO : ClockOk D} {A : Agent} {H : Sha256} {HO : HashOrder} {CE : CloudEnv} {W : Wire}
  {T : Timeouts} {C : Chrono}.

(** C15: deletion is complete, or it leaves the row.  It succeeds only on a row of the
    caller's tenant; then the row, the reservation, the warm slot, every snapshot lease and
    the network registration of the id are gone, no other row or reservation changes, and a
    machine that was not leased from the warm pool is stopped, provided a forced stop cannot
    fail ([StopTotal], which the Docker and remote backends do not promise; the handler only
    logs the error of the stop).  A sandbox that does not exist or is another tenant's is
    answered with a 404 and nothing changes.  The only other error is that the store does
    not answer: then no row and no reservation changes, but the machine may already have been
    retired. *)
Theorem delete_is_complete p id s :
  store_wf (sto s) →
  match delete_handler p id s with
  | (s', Ok _) =>
    (∃ c, abs (sto s) !! id = Some c ∧ tenant c = Some (Principal.tenant_id p) ∧
       (StopTotal V → warm_slots s !! id = None →
        ∀ m, VmmMeta.vmm_id (Sandbox.vmm_meta c) = Some m → m ∉ live (vm s'))) ∧
    abs (sto s') = delete id (abs (sto s)) ∧ reservations s' = delete id (reservations s) ∧
    warm_slots s' = delete id (warm_slots s) ∧ (∀ x, x ∈ snapshots s' → owner x ≠ Some id) ∧
    (manage_network = true → id ∉ nets (net s').1 ∧ dns_proxies (net s').1 !! id = None)
  | (s', Err e) =>
    abs (sto s') = abs (sto s) ∧ reservations s' = reservations s ∧ snapshots s' = snapshots s ∧
    ((response_status (into_error_response e) = 404 ∧ rest s' = rest s ∧
      ∀ c, abs (sto s) !! id = Some c → tenant c ≠ Some (Principal.tenant_id p)) ∨ unavailable e)
  | (_, Panic) => False
  end.
Proof.
  intros Hwf. unfold delete_handler. apply own_row; [done| |].
  - intros s1 sb Hwf1 Ha Hr Hc Ht. pose proof (retire_ok id sb s1) as Hq.
    unfold mbind at 1, stres_bind at 1. destruct (quiet (retire_machine id sb) s1) as [s2 o].
    destruct Hq as (-> & E1 & E2 & _ & E4 & E5 & E6 & Hm).
    pose proof (delete_tail id sb s2) as Hd. rewrite E1 in Hd. specialize (Hd Hwf1).
    rewrite Ha in Hd. specialize (Hd (mk_is_Some _ _ Hc)).
    destruct ((store_call _ ≫= _) s2) as [s' o]. destruct Hd as (D2 & _ & D4 & Hd).
    injection Hr as Hvm Hp Hw Hws Hres Hsn Hpr Hn Hg Hnx Htk. destruct o as [x|e|]; [| |done].
    + destruct Hd as (D1 & D5 & D6 & D7).
      split_and!; [|done|by rewrite D5, E2, Hres|by rewrite D4, E6, Hws|done|done].
      exists (content sb). split_and!; [done|done|]. intros VT Hnone m Hvid.
      rewrite Hws, Hnone in Hm. rewrite D2. by apply Hm.
    + destruct Hd as (D1 & D5 & D6). injection D6 as _ _ _ _ D6 D7 _.
      split_and!; [done|by rewrite D6, E2|by rewrite D7, E4|by right].
  - intros s1 e Ha Hr He. pose proof Hr as Hr'. injection Hr' as _ _ _ _ Hres Hsn _.
    split_and!; [done..|]. destruct He as [[Hk Hc]|He]; [left|by right].
    unfold into_error_response. by rewrite Hk.
Qed.

Definition redacted (sb : Sandbox.t) : Prop :=
  Forall (λ x, SecretSpec.value x = "[REDACTED]"%string) (SandboxSpec.secrets (Sandbox.spec sb)).

(** The rows a caller owns, with the status it asked for. *)
Definition own_rows (p : Principal.t) (st : option SandboxStatus.t) (m : gmap string Sandbox.t)
  : list Sandbox.t :=
  List.filter (λ c, bool_decide (tenant c = Some (Principal.tenant_id p)))
    (List.filter (with_status st) (map_to_list m).*2).

Lemma redact_ok sb : redacted (redact_secrets sb) ∧ tenant (redact_secrets sb) = tenant sb.
Proof.
  split; [|done]. unfold redacted, redact_secrets. simpl.
  by apply Forall_fmap, Forall_true.
Qed.

Lemma filter_content f g (l : list Sandbox.t) :
  (∀ x, g (content x) = f x) → content <$> List.filter f l = List.filter g (content <$> l).
Proof.
  intros Hfg. induction l as [|x l IH]; [done|]. csimpl. rewrite Hfg.
  destruct (f x); csimpl; by rewrite IH.
Qed.

(** A page over the rows [m]: the total counts the caller's rows with the status
    asked for, the items are a window of them, nobody else's and without secrets. *)
Definition page_ok (p : Principal.t) (status : option string) (limit offset : option nat)
    (m : gmap string Sandbox.t) (o : result (list Sandbox.t * nat)) : Prop :=
  match o with
  | Ok (items, total) => ∃ st own,
      match status with None => st = None | Some v => SandboxStatus.of_str v = st ∧ st ≠ None end ∧
      content <$> own ≡ₚ own_rows p st m ∧ total = length own ∧
      items = take (Nat.max (default 100%nat limit) 1)
                (drop (Nat.min (default 0%nat offset) total) (redact_secrets <$> own)) ∧
      Forall (λ sb, redacted sb ∧ tenant sb = Some (Principal.tenant_id p)) items
  | Err e => (response_status (into_error_response e) = 400 ∧
              ∃ v, status = Some v ∧ SandboxStatus.of_str v = None) ∨ unavailable e
  | Panic => False
  end.

Lemma list_call st t s :
  store_wf (sto s) →
  let '(s', o) := store_call (list_sandboxes st t) s in
  abs (sto s') = abs (sto s) ∧ rest s' = rest s ∧
  ((∃ e, o = Err e ∧ unavailable e) ∨ ∃ l, o = Ok l ∧
   content <$> l ≡ₚ List.filter (with_status st) (map_to_list (abs (sto s))).*2).
Proof.
  intros Hwf. unfold store_call. pose proof (list_law st t (sto s) Hwf) as Hl.
  pose proof (fault_unavailable (list_sandboxes st t) (sto s)) as Hun.
  pose proof (λ SU : StoreUp ST, list_up st t (sto s) Hwf) as Hup.
  destruct (list_sandboxes st t (sto s)) as [x r]. destruct Hl as (_ & Ha & [Hf|(l & -> & _ & Hp)]).
  - destruct r as [|e|]; [done| |done]. split_and!; [done..|left]. eexists. split; [done|]. by apply Hun.
  - split_and!; [done..|eauto].
Qed.

Definition owned_by (p : Principal.t) (sb : Sandbox.t) : bool :=
  bool_decide (SandboxSpec.tenant_id (Sandbox.spec sb) = Some (Principal.tenant_id p)).

Lemma window_own p (l : list Sandbox.t) n k :
  Forall (λ sb, redacted sb ∧ tenant sb = Some (Principal.tenant_id p))
    (take n (drop k (redact_secrets <$> List.filter (owned_by p) l))).
Proof.
  apply Forall_take, Forall_drop, Forall_fmap, Forall_forall. intros sb Hsb.
  apply list_elem_of_In, filter_In in Hsb as [_ Hsb]. apply bool_decide_eq_true in Hsb.
  simpl. destruct (redact_ok sb) as [? ->]. done.
Qed.


(** A prepared snapshot belongs to one sandbox at a time, and only the deletion
    of that sandbox, through either surface, frees it: in every other step of the control
    plane (all other requests, jobs, reconciliation, expiry, preparation of more
    snapshots) a snapshot that has an owner keeps its place and its owner.  In particular
    an expired sandbox, and one an administrator kills with its team, takes its snapshot
    with it. *)
Theorem snapshot_lease_until_delete s s' i x o :
  step s s' → snapshots s !! i = Some x → owner x = Some o →
  snapshots s' !! i = Some x ∨
  ∃ p r, deletes r = true ∧ s' = (serve (OnSandbox p o r) s).1 ∧
    snapshots s' !! i = Some (set_owner None x).
Proof.
  intros Hst Hi Ho. apply step_leases in Hst as [Hk|(p & o' & r & Hr & ->)]; [left; eauto|].
  pose proof (deletes_snapshots p o' r s Hr) as [Hd|Hd].
  - rewrite Hd; by left.
  - rewrite Hd, list_lookup_fmap, Hi. simpl. case_bool_decide as Hc; [|by left].
    right. rewrite Ho in Hc. injection Hc as <-. exists p, r. split_and!; [done..|].
    done.
Qed.

(** Deleting a sandbox that runs on a leased warm machine puts that machine,
    still running and untouched, back among the [Ready] slots of its key; the key
    does not depend on the tenant, so the next create with the same image and size
    gets it whoever asks. *)
Theorem deleted_warm_machine_is_reused p id s s' r x y :
  store_wf (sto s) → delete_handler p id s = (s', Ok r) → warm_slots s !! id = Some x →
  List.find (PoolSlot.has_id (PoolSlot.id x)) (Pool.slots (warm s)) = Some y →
  PoolSlot.state y = SlotState.Acquired →
  live (vm s') = live (vm s) ∧
  (∃ t, Pool.slots (warm s') = update_first (PoolSlot.has_id (PoolSlot.id x))
          (λ z, PoolSlot.set_state z SlotState.Ready t) (Pool.slots (warm s))) ∧
  ∀ sp t1 t2, SandboxSpec.pool_key key_hash (SandboxSpec.set_tenant sp t1)
            = SandboxSpec.pool_key key_hash (SandboxSpec.set_tenant sp t2).
Proof.
  intros Hwf Hdel Hx Hy Hst.
  enough (live (vm s') = live (vm s) ∧ ∃ t, warm s' = (Pool.release x t (warm s)).1) as (Hl & t & Hw).
  { split_and!; [done| |done]. exists t. rewrite Hw. unfold Pool.release. simpl.
    by rewrite Hy, Hst. }
  enough (match delete_handler p id s with
    | (s', Ok _) => live (vm s') = live (vm s) ∧ ∃ t, warm s' = (Pool.release x t (warm s)).1
    | _ => True end) as Hen by (by rewrite Hdel in Hen).
  clear s' Hdel Hy Hst. unfold delete_handler. apply own_row; [done| |done].
  intros s1 sb Hwf1 Ha Hr Hc Ht. pose proof (retire_ok id sb s1) as Hq.
  unfold mbind at 1, stres_bind at 1. destruct (quiet (retire_machine id sb) s1) as [s2 o].
  destruct Hq as (-> & E1 & _ & _ & _ & _ & _ & Hm).
  injection Hr as Hvm Hp Hw Hws Hres Hsn Hpr Hn Hg Hnx Htk. rewrite Hws, Hx in Hm.
  pose proof (delete_tail id sb s2) as Hd. rewrite E1, Ha in Hd.
  specialize (Hd Hwf1 (mk_is_Some _ _ Hc)).
  destruct ((store_call _ ≫= _) s2) as [s' o]. destruct Hd as (D2 & D3 & _).
  destruct o; [|done..]. rewrite D2, D3, <-Hvm, <-Hw. done.
Qed.

(** A provisioning job that panics (as it does for a time to live whose
    deadline is not a date) wedges its sandbox: the id stays in the set of running
    jobs, and as long as it is there every recovery request is refused and the
    reconciler passes the sandbox by. *)
Theorem panic_wedges_sandbox sb r slot s s' :
  Sandbox.id sb ∉ provisioning s → run_provision_with_slot sb r slot s = (s', Panic) →
  Sandbox.id sb ∈ provisioning s' ∧
  ∀ s2, Sandbox.id sb ∈ provisioning s2 →
    schedule_provision sb s2 = (s2, Ok ()) ∧
    ∀ p, not_accepted (recover_handler p (Sandbox.id sb) s2).2.
Proof.
  intros Hni Hrun. split.
  - unfold run_provision_with_slot, run_provision_with_slot_and_snapshot in Hrun.
    unfold mbind at 1, stres_bind at 1 in Hrun. simpl in Hrun.
    rewrite bool_decide_false in Hrun by done. unfold mbind, stres_bind, attempt in Hrun. simpl in Hrun.
    pose proof (body_provisioning sb r slot None None
      (set_provisioning ({[Sandbox.id sb]} ∪ provisioning s) s)) as Hb.
    destruct (provision_sandbox _ _ _ _ _ _) as [s1 [sb'|e|]]; simpl in *.
    + done.
    + destruct (discard_warm_slot _ _) as [s2 o] eqn:Hd. by apply discard_no_fail in Hd as ->.
    + injection Hrun as <-. rewrite Hb. set_solver.
  - intros s2 Hs2. split; [|intros p; by apply recover_busy].
    unfold schedule_provision, mbind, stres_bind. simpl. by rewrite bool_decide_true.
Qed.

(** When the reconciler finds the guest of a [Starting] row alive it promotes
    the row to [Running] without writing a deadline: the stored deadline stays what
    it was, and a row that had none is never expired by the reaper, whatever time
    to live its specification asked for. *)
Theorem promotion_writes_no_deadline {SU : StoreUp ST} sb c s :
  store_wf (sto s) → abs (sto s) !! Sandbox.id sb = Some c →
  Sandbox.status sb = SandboxStatus.Starting →
  let h := stored_handle (Sandbox.id sb) sb (VmmMeta.inherited_subnet (Sandbox.vmm_meta sb)) in
  (probe h (vm s)).2 = inr true →
  (within 5 (probe_guest h (Sandbox.id sb)) (gst s)).2 = Some (inr ()) →
  let '(s', o) := check_machine sb s in
  o = Ok () ∧ ∃ c', abs (sto s') !! Sandbox.id sb = Some c' ∧
  Sandbox.status c' = SandboxStatus.Running ∧ Sandbox.expires_at c' = Sandbox.expires_at c ∧
  (Sandbox.expires_at c = None → ∀ row t, content row = c' → expired t row = false).
Proof.
  intros Hwf Hc Hst h Hp Hg. unfold check_machine. fold h. rewrite Hst.
  unfold mbind, stres_bind, catch, vmm_call. destruct (probe h (vm s)) as [w o]. simpl in Hp. subst o.
  simpl. unfold guest_probe. simpl. destruct (within _ _ (gst s)) as [g o]. simpl in Hg. subst o.
  unfold put_status, quiet, attempt, mbind, stres_bind, now. simpl.
  unfold store_call. simpl. set (t := clk (reads s)).
  pose proof (status_message_answers (Sandbox.id sb) SandboxStatus.Running None t (sto s) Hwf
    (clk_in_range _)) as Hl.
  destruct (update_sandbox_status_message _ _ _ _ _) as [x r]. destruct Hl as [_ Hu].
  unfold updated in Hu. rewrite Hc in Hu. destruct Hu as [Ha ->]. simpl. split; [done|].
  eexists. rewrite Ha, lookup_insert_eq. split_and!; [done..|].
  intros Hn row t' Hrow. unfold expired. apply (f_equal Sandbox.expires_at) in Hrow. simpl in Hrow.
  rewrite Hn in Hrow. by destruct (Sandbox.expires_at row).
Qed.
End properties.

(** ** Witnesses *)

Module HandlerDemo.
Import ControlDemo.
(** Alice's sandbox is running; its row and machine are in memory. *)
Definition running : AppState :=
  (create_handler errors alice SandboxSpec.default true "sb-1" (initial true)).1.

Lemma handlers_initial_inv : inv cap 2 None (initial true).
Proof.
  apply boot_inv; [apply CapacityDemo.demo_cap_typed|lia|exact (map_Forall_empty _)|].
  change (map_Forall row_ok (content <$> (∅ : gmap string Sandbox.t))).
  rewrite fmap_empty. exact (map_Forall_empty _).
Qed.

Lemma running_wf : store_wf (sto running).
Proof.
  pose proof (create_conserves cap 2 errors alice SandboxSpec.default true "sb-1"
    CapacityDemo.default_typed (initial true) handlers_initial_inv) as [[Hwf _] _].
  exact Hwf.
Qed.

(** A snapshot leased by a sandbox that is gone. *)
Definition lease : WarmSnapshot :=
  warm_snap "k" (SnapshotPaths.mk "state" "mem") (10, 10) (Some "sb-0"%string).
Definition leased : AppState := set_snapshots [lease] (initial true).

(** One warm machine, which Alice's create leases. *)
Definition slot : PoolSlot.t :=
  PoolSlot.mk "w-1" (SandboxSpec.pool_key key_hash SandboxSpec.default)
    (MemoryVmm.handle "w-1") SlotState.Ready 0 0.
Definition prewarmed : AppState :=
  set_vm (MemoryVmm.mk {["w-1"%string]} ∅ : world)
    (set_warm (Pool.mk [slot] ∅ 0 300 false) (initial true)).
Definition on_warm : AppState :=
  (create_handler errors alice SandboxSpec.default true "sb-1" prewarmed).1.
Definition taken : PoolSlot.t := default slot (warm_slots on_warm !! "sb-1"%string).

Lemma on_warm_wf : store_wf (sto on_warm).
Proof.
  assert (inv cap 2 None prewarmed) as Hi.
  { destruct handlers_initial_inv as [Hr Hb]. split; [exact Hr|]. by apply (bal_frame cap 2 _ (initial true)). }
  pose proof (create_conserves cap 2 errors alice SandboxSpec.default true "sb-1"
    CapacityDemo.default_typed prewarmed Hi) as [[Hwf _] _].
  exact Hwf.
Qed.

(** A time to live past the end of chrono's calendar. *)
Definition immortal : Sandbox.t :=
  Sandbox.set_status (Sandbox.new "sb-1" (SandboxSpec.set_ttl SandboxSpec.default
    (Some 100000000000000000)) (clk 0)) SandboxStatus.Starting (clk 0).

(** A create whose job has not run, with a machine and a guest that answer. *)
Definition pending : AppState :=
  (create_handler errors alice SandboxSpec.default false "sb-1" (initial true)).1.
Definition up : AppState := set_vm (MemoryVmm.mk {["sb-1"%string]} ∅ : world) pending.
Definition row : Sandbox.t := default immortal (abs (sto pending) !! "sb-1"%string).
Definition starting : Sandbox.t :=
  Sandbox.set_vmm_meta row (VmmMeta.mk "memory" None None None None None (Some "sb-1"%string) ∅).

Lemma pending_wf : store_wf (sto pending).
Proof.
  pose proof (create_conserves cap 2 errors alice SandboxSpec.default false "sb-1"
    CapacityDemo.default_typed (initial true) handlers_initial_inv) as [[Hwf _] _].
  exact Hwf.
Qed.
Lemma sto_set_vm w s : sto (set_vm w s) = sto s.
Proof. done. Qed.
Lemma up_wf : store_wf (sto up).
Proof. unfold up. rewrite sto_set_vm. exact pending_wf. Qed.
Lemma pending_row : abs (sto pending) !! "sb-1"%string = Some row.
Proof. vm_compute. reflexivity. Qed.
Lemma up_row : abs (sto up) !! "sb-1"%string = Some row.
Proof. unfold up. rewrite sto_set_vm. exact pending_row. Qed.
End HandlerDemo.

(** Bob is told there is no such sandbox, and nothing changes. *)
Lemma delete_is_complete_witness :
  is_ok (delete_handler ControlDemo.alice "sb-1" HandlerDemo.running).2 = true ∧
  is_ok (delete_handler ControlDemo.bob "sb-1" HandlerDemo.running).2 = false ∧
  match delete_handler ControlDemo.bob "sb-1" HandlerDemo.running with
  | (s', Err e) => response_status (into_error_response e) = 404
  | _ => False
  end.
Proof.
  split; [vm_compute; reflexivity|]. assert (is_ok
    (delete_handler ControlDemo.bob "sb-1" HandlerDemo.running).2 = false) as Hf
    by (vm_compute; reflexivity).
  split; [exact Hf|].
  pose proof (delete_is_complete ControlDemo.bob "sb-1" HandlerDemo.running HandlerDemo.running_wf) as Hd.
  destruct (delete_handler _ _ _) as [s' [x|e|]]; [done| |done].
  destruct Hd as (_ & _ & _ & [[He _]|[_ Hup]]); [exact He|]. destruct (Hup InMemoryStore.impl_up).
Defined.


Lemma snapshot_lease_until_delete_witness :
  snapshots (expiry_tick HandlerDemo.leased).1 !! 0%nat = Some HandlerDemo.lease ∨
  ∃ p r, deletes r = true ∧
    (expiry_tick HandlerDemo.leased).1 = (serve (OnSandbox p "sb-0" r) HandlerDemo.leased).1 ∧
    snapshots (expiry_tick HandlerDemo.leased).1 !! 0%nat = Some (set_owner None HandlerDemo.lease).
Proof.
  exact (snapshot_lease_until_delete HandlerDemo.leased (expiry_tick HandlerDemo.leased).1 0
    HandlerDemo.lease "sb-0" (step_expire _) eq_refl eq_refl).
Defined.

Lemma deleted_warm_machine_is_reused_witness :
  live (vm (delete_handler ControlDemo.alice "sb-1" HandlerDemo.on_warm).1)
  = live (vm HandlerDemo.on_warm).
Proof.
  refine (proj1 (deleted_warm_machine_is_reused ControlDemo.alice "sb-1" HandlerDemo.on_warm
    (delete_handler ControlDemo.alice "sb-1" HandlerDemo.on_warm).1 NoContent HandlerDemo.taken
    (default HandlerDemo.slot (List.find (PoolSlot.has_id "w-1") (Pool.slots (warm HandlerDemo.on_warm))))
    HandlerDemo.on_warm_wf (outcome_eta _ _ _) _ _ _)); vm_compute; reflexivity.
Defined.

Lemma panic_wedges_sandbox_witness :
  (run_provision_with_slot HandlerDemo.immortal None None HandlerDemo.pending).2 = Panic ∧
  "sb-1"%string ∈ provisioning
    (run_provision_with_slot HandlerDemo.immortal None None HandlerDemo.pending).1.
Proof.
  assert ((run_provision_with_slot HandlerDemo.immortal None None HandlerDemo.pending).2 = Panic) as Hp
    by (vm_compute; reflexivity).
  split; [exact Hp|].
  refine (proj1 (panic_wedges_sandbox HandlerDemo.immortal None None HandlerDemo.pending _ _
    (outcome_eta _ _ Hp))).
  apply (bool_decide_eq_false_1 _). vm_compute. reflexivity.
Defined.

Lemma promotion_writes_no_deadline_witness :
  (check_machine HandlerDemo.starting HandlerDemo.up).2 = Ok ().
Proof.
  pose proof (promotion_writes_no_deadline HandlerDemo.starting HandlerDemo.row HandlerDemo.up
    HandlerDemo.up_wf HandlerDemo.up_row ltac:(vm_compute; reflexivity)
    ltac:(vm_compute; reflexivity) ltac:(vm_compute; reflexivity)) as Hp.
  destruct (check_machine _ _) as [s' o]. exact (proj1 Hp).
Defined.
