(* ===== verification/Requests.v ===== *)
(** * Properties of the request surface

    Tenant isolation over every request that names a sandbox; the rows of the store
    along any run; pages and their tokens; waking a paused sandbox; the
    administrator's removal of a team. *)

From S2P Require Import Prelude Core SandboxModel Admission Vmm Pool Proto Guest Digest Dns Net.
From S2P Require Import Store Json Auth E2bCloud Processes E2bModel AppState Lifecycle E2bHandlers.
From S2P Require Import CloudHandlers ApiHandlers Control Capacity Handlers.

Section isolation.
Context {S : Semaphore} {ST : Store} {STO : StoreOk ST} {V : Vmm} {O : Os}
  {D : Deployment} {A : Agent} {H : Sha256} {HO : HashOrder} {CE : CloudEnv} {W : Wire}
  {T : Timeouts} {C : Chrono}.
Context (p : Principal.t) (id : string).

(** The sandbox is not there, or another tenant's. *)
Definition foreign (s : AppState) : Prop :=
  ∀ c, abs (sto s) !! id = Some c → tenant c ≠ Some (Principal.tenant_id p).

(** The answer to a request that must not reach a sandbox: it is not there, or the request
    is malformed, or the store did not answer. *)
Definition turned_away (e : ClouisleError.t) : Prop :=
  ClouisleError.kind e = ErrorKind.NotFound ∨ ClouisleError.kind e = ErrorKind.Validation
  ∨ unavailable e.

Definition refuses {B} (m : handler B) : Prop := ∀ s,
  store_wf (sto s) → foreign s →
  let '(s', o) := m s in
  abs (sto s') = abs (sto s) ∧ rest s' = rest s ∧ ∃ e, o = Err e ∧ turned_away e.

Lemma refuses_bind {B E} (m : handler B) (k : B → handler E) : refuses m → refuses (m ≫= k).
Proof.
  intros Hm s Hwf Hf. specialize (Hm s Hwf Hf). unfold mbind, stres_bind.
  destruct (m s) as [s1 o]. by destruct Hm as (? & ? & e & -> & ?); eauto.
Qed.

Lemma refuses_fetch_own : refuses (fetch_own p id).
Proof.
  intros s Hwf Hf. pose proof (fetch_own_cases p id s Hwf) as Hc.
  destruct (fetch_own p id s) as [s1 [sb|e|]].
  - destruct Hc as (_ & _ & _ & Hc & Ht & _). by destruct (Hf _ Hc).
  - destruct Hc as (_ & ? & ? & He). split_and!; [done..|]. exists e. split; [done|].
    destruct He as [[? _]|?]; [by left|by right; right].
  - by destruct Hc as (_ & _ & _ & []).
Qed.

Lemma refuses_team_sandbox : refuses (team_sandbox p id).
Proof.
  intros s Hwf Hf. unfold team_sandbox, fetch, mbind, stres_bind, now, store_call. simpl.
  pose proof (get_law id (clk (reads s)) (sto s) Hwf) as Hg.
  pose proof (fault_unavailable (get_sandbox id (clk (reads s))) (sto s)) as Hun.
  pose proof (λ SU : StoreUp ST, get_up id (clk (reads s)) (sto s) Hwf) as Hup.
  destruct (get_sandbox id _ (sto s)) as [x r]. destruct Hg as (Hwf' & Ha & [Hflt|Hg]).
  { destruct r as [|e|]; [done| |done]. simpl. split_and!; [done..|]. eexists. split; [done|].
    right; right. by apply Hun. }
  destruct (abs (sto s) !! id) as [c|] eqn:Hc.
  - destruct Hg as (sb & -> & Hsb & _). simpl. specialize (Hf c Hc). rewrite <-Hsb in Hf.
    rewrite bool_decide_false by exact Hf. simpl. split_and!; [done..|]. eexists. split; [done|by left].
  - destruct Hg as [msg ->]. simpl. split_and!; [done..|]. eexists. split; [done|by left].
Qed.

(** A check of the request that comes first fails with a validation error. *)
Lemma refuses_check {B E} (r : result B) (k : B → handler E) :
  match r with Err e => ClouisleError.kind e = ErrorKind.Validation | Panic => False | _ => True end →
  (∀ b, r = Ok b → refuses (k b)) → refuses (lift r ≫= k).
Proof.
  intros Hr Hk s Hwf Hf. unfold mbind, stres_bind, lift. destruct r as [b|e|]; [by apply Hk| |done].
  split_and!; [done..|]. exists e. split; [done|by right; left].
Qed.

Lemma refuses_path {E} path (k : () → handler E) :
  (∀ b, refuses (k b)) → refuses (lift (validate_path path) ≫= k).
Proof.
  intros Hk. apply refuses_check; [|auto]. unfold validate_path. repeat case_match; by simplify_eq.
Qed.

Lemma refuses_paths {E} l (k : () → handler E) :
  (∀ b, refuses (k b)) → refuses (for_each (λ path, lift (validate_path path)) l ≫= k).
Proof.
  intros Hk. induction l as [|x l IH]; simpl.
  - intros s. apply (Hk ()).
  - intros s Hwf Hf. pose proof (refuses_path x (λ _, for_each (λ path, lift (validate_path path)) l ≫= k)
      (λ _, IH) s Hwf Hf) as Hx.
    unfold mbind, stres_bind in *. by destruct (lift (validate_path x) s) as [s1 [[]|e|]].
Qed.

Lemma refuses_header {E} (k : string → handler E) :
  refuses (k id) → refuses (lift (sandbox_id_from_headers (Some (Some id))) ≫= k).
Proof.
  intros Hk. apply refuses_check; simpl; [by destruct (is_empty id)|].
  destruct (is_empty id); [done|]. by intros b [= <-].
Qed.

(** Walks to the ownership check. *)
Ltac refuse :=
  lazymatch goal with
  | |- refuses (answer _) => apply refuses_bind; refuse
  | |- refuses (fetch_own _ _) => apply refuses_fetch_own
  | |- refuses (team_sandbox _ _) => apply refuses_team_sandbox
  | |- refuses (mbind _ (lift (validate_path _))) => apply refuses_path; intros _; refuse
  | |- refuses (mbind _ (lift (sandbox_id_from_headers _))) => apply refuses_header; refuse
  | |- refuses (mbind _ (lift (ok_or _ ?x))) => apply refuses_check; [by destruct x|intros ? _; refuse]
  | |- refuses (mbind _ (lift (if ?x then _ else _))) =>
    apply refuses_check; [by destruct x|intros ? _; refuse]
  | |- refuses (mbind _ (for_each _ _)) => apply refuses_paths; intros _; refuse
  | |- refuses (mbind _ _) => apply refuses_bind; refuse
  | |- _ => idtac
  end.

(** The requests that come by [GET]. *)
Definition by_get (r : sandbox_request) : bool :=
  match r with
  | RGet | RHistory _ | RExecution _ | RDownload _ | RLs _ | RE2bGet | RLogs | RMetrics
  | REnvDownload _ | REnvs | REnvMetrics => true
  | _ => false
  end.

Lemma request_refused r : refuses (serve_sandbox p id r).
Proof.
  destruct r; simpl; unfold get_handler, delete_handler, recover_handler, exec_sync, exec_stream,
    list_execution_history, get_execution_record, upload_file, download_file, list_files, e2b_get,
    e2b_delete, e2b_connect, e2b_resume, e2b_pause, refresh, set_timeout, update_network,
    sandbox_logs, sandbox_metrics, create_snapshot, fork_sandbox, e2b_upload_file,
    e2b_download_file, e2b_list_dir, filesystem_stat, filesystem_make_dir, filesystem_move,
    filesystem_remove, filesystem_watch_dir, filesystem_create_watcher, exec_checked,
    exec_filesystem, process_start, process_list, process_connect, process_send_input,
    process_stream_input, process_send_signal, process_close_stdin, process_update, envd_init,
    envd_envs, envd_metrics, envd_compose, guest_of, session_of, resume_for_io, get_conn,
    ensure_executable; refuse.
Qed.
End isolation.

(** ** Pages *)

Section pages.
Context {B : Type}.

(** A client that follows the token of every page. *)
Fixpoint follow (fuel : nat) (items : list B) (q : query) : option (list (list B)) :=
  match fuel with
  | O => None
  | Datatypes.S fuel' =>
    let '(l, next) := page items q in
    match next with
    | None => Some [l]
    | Some t => more ← follow fuel' items (<["nextToken" := t]> q); Some (l :: more)
    end
  end.

Lemma query_insert t q : (0 ≤ t)%nat → Z.of_nat t ≤ u64_max →
  query_usize "nextToken" (<["nextToken" := show (Z.of_nat t)]> q) = Some t.
Proof.
  intros _ Ht. unfold query_usize. rewrite lookup_insert_eq. simpl. rewrite parse_show by lia.
  simpl. by rewrite Nat2Z.id.
Qed.

Lemma query_insert_other k t q : k ≠ "nextToken"%string →
  query_usize k (<["nextToken" := t]> q) = query_usize k q.
Proof. intros Hk. unfold query_usize. by rewrite lookup_insert_ne. Qed.

Lemma follow_from items n : ∀ q k,
  Z.of_nat (length items) ≤ u64_max → default 0%nat (query_usize "nextToken" q) = k →
  (k ≤ length items)%nat → (length items - k < n)%nat →
  ∃ pages, follow n items q = Some pages ∧ concat pages = drop k items ∧
    Forall (λ l, length l ≤ 100)%nat pages ∧ ((k < length items)%nat → Forall (λ l, l ≠ []) pages).
Proof.
  induction n as [|n IH]; intros q k Hmax Hk Hle Hn; [lia|]. simpl. unfold page, page_window.
  rewrite Hk. rewrite (Nat.min_l k) by lia.
  set (w := Nat.min (Nat.max (default 100%nat (query_usize "limit" q)) 1) 100).
  assert (1 ≤ w ≤ 100)%nat as Hw by (unfold w; lia).
  destruct (Nat.ltb_spec (Nat.min (k + w) (length items)) (length items)) as [Hlt|Hge].
  - rewrite Nat.min_l by lia.
    destruct (IH (<["nextToken" := show (Z.of_nat (k + w))]> q) (k + w)%nat) as (pages & -> & Hc & Hs & Hne);
      [done|rewrite query_insert by lia; done|lia..|].
    assert (length (drop k (take (k + w) items)) = w) as Hlen
      by (rewrite length_drop, length_take; lia).
    eexists. split_and!; [done| | |].
    + simpl. rewrite Hc. rewrite drop_take_drop by lia. done.
    + constructor; [lia|done].
    + intros _. constructor; [|by apply Hne; lia]. intros Hnil. rewrite Hnil in Hlen. simpl in Hlen. lia.
  - rewrite Nat.min_r, take_ge by lia. eexists. split_and!; [done| | |].
    + simpl. by rewrite app_nil_r.
    + constructor; [rewrite length_drop; lia|done].
    + intros Hlt. constructor; [|done]. intros Hnil. apply (f_equal length) in Hnil.
      rewrite length_drop in Hnil. simpl in Hnil. lia.
Qed.
End pages.

(** ** What holds when a handler answers *)

Section answers.
Context {S : Semaphore} {ST : Store} {STO : StoreOk ST} {V : Vmm} {O : Os}
  {D : Deployment} {DO : ClockOk D} {A : Agent} {H : Sha256} {HO : HashOrder} {CE : CloudEnv} {W : Wire}
  {T : Timeouts} {C : Chrono} {CO : ChronoOk C}.

Definition gives {B} (P : AppState → Prop) (m : handler B) (Q : B → AppState → Prop) : Prop :=
  ∀ s s' b, P s → m s = (s', Ok b) → Q b s'.

Lemma gives_bind {B E} P (m : handler B) (k : B → handler E) Q Q' :
  gives P m Q → (∀ b, gives (Q b) (k b) Q') → gives P (m ≫= k) Q'.
Proof.
  intros Hm Hk s s' b Hs. unfold mbind, stres_bind. destruct (m s) as [s1 [x|e|]] eqn:Hx; try done.
  intros He. eapply Hk; [|exact He]. by eapply Hm.
Qed.

Lemma gives_scoped {B} P r (m : handler B) Q : gives P m Q → gives P (scoped r m) Q.
Proof.
  intros Hm s s' b Hs. unfold scoped. destruct (m s) as [s1 [x|e|]] eqn:Hx; try done.
  intros [= <- <-]. by eapply Hm.
Qed.

(** The row filed under [id] is its own and satisfies [R]; it holds a reservation if [h]. *)
Definition at_row (id : string) (R : Sandbox.t → Prop) (h : bool) (s : AppState) : Prop :=
  store_wf (sto s) ∧ (∃ c, abs (sto s) !! id = Some c ∧ Sandbox.id c = id ∧ R c) ∧
  (h = true → is_Some (reservations s !! id)).

Lemma gives_frames {B} id R h (m : handler B) :
  frames (λ s, (sto s, reservations s)) m → gives (at_row id R h) m (λ _, at_row id R h).
Proof.
  intros Hm s s' b Hs He. specialize (Hm s). rewrite He in Hm. unfold at_row in *. simpl in Hm.
  injection Hm as -> ->. done.
Qed.

Lemma gives_now P : (∀ s n, P s → P (set_reads n s)) → gives P now (λ t s, in_range t ∧ P s).
Proof. intros HP s s' t Hs [= <- <-]. split; [apply clk_in_range|by apply HP]. Qed.

Lemma gives_update id (R R' : Sandbox.t → Prop) h (f : store → store * StoreResult ()) g :
  (∀ x, store_wf x → let '(x', r) := f x in store_wf x' ∧ updates (abs x) (abs x') id g r) →
  (∀ c, Sandbox.id (g c) = Sandbox.id c) → (∀ c, R c → R' (g c)) →
  gives (at_row id R h) (store_call f) (λ _, at_row id R' h).
Proof.
  intros Hf Hg HR s s' b (Hwf & (c & Hc & Hid & Hrow) & Hh) He. specialize (Hf _ Hwf). unfold store_call in He.
  destruct (f (sto s)) as [x r]. destruct Hf as [Hx [[Hflt _]|Hu]];
    [by destruct r as [|e|]|]. unfold updated in Hu. rewrite Hc in Hu.
  destruct Hu as [Ha ->]. injection He as <- <-. split_and!; [done| |done].
  exists (g c). split_and!; [simpl; by rewrite Ha, lookup_insert_eq|by rewrite Hg|by apply HR].
Qed.

Lemma at_row_reads id R h s n : at_row id R h s → at_row id R h (set_reads n s).
Proof. done. Qed.

Lemma gives_put_status {B} id R h st (k : handler B) Q :
  gives (at_row id (λ c, Sandbox.status c = st ∧ Sandbox.terminal_message c = None) h) k Q →
  gives (at_row id R h) (t ← now; _ ← store_call (update_sandbox_status_message id st None t); k) Q.
Proof.
  intros Hk. eapply gives_bind; [apply gives_now, at_row_reads|intros t].
  intros s s' b [Ht Hs]. revert s s' b Hs.
  eapply (gives_bind _ _ _ (λ _, at_row id _ h)); [|intros _; exact Hk].
  eapply gives_update; [intros x Hx; by apply status_message_law|done|]. by intros c _.
Qed.

Definition up (c : Sandbox.t) : Prop :=
  Sandbox.status c = SandboxStatus.Running ∧ Sandbox.terminal_message c = None.
Definition up_until (c : Sandbox.t) : Prop := up c ∧ is_Some (Sandbox.expires_at c).

Lemma wake_up sb r R h :
  gives (at_row (Sandbox.id sb) R h) (wake sb r)
    (λ _, at_row (Sandbox.id sb) up (h || bool_decide (is_Some r))).
Proof.
  unfold wake. eapply gives_bind.
  - apply gives_scoped. eapply gives_bind; [apply gives_frames; frame|intros ?].
    apply gives_put_status.
    eapply gives_bind; [apply gives_frames; frame|intros hello].
    eapply gives_bind; [apply gives_frames; frame|intros ?].
    eapply gives_bind; [apply gives_now, at_row_reads|intros t].
    intros s s' u [Ht Hs]. revert s s' u Hs.
    eapply (gives_update _ _ up); [intros x Hx; by apply status_message_law|done|]. done.
  - intros ? s s' u (Hwf & Hc & Hh). destruct r as [r|]; intros [= <- <-].
    + rewrite orb_true_r. unfold at_row, insert_reservation. split_and!.
      * by rewrite sto_drop.
      * by rewrite sto_drop.
      * intros _. destruct (reservations s !! Sandbox.id sb); simpl; rewrite lookup_insert_eq; by eexists.
    + by rewrite orb_false_r.
Qed.

(** A new deadline, and the row read back. *)
Lemma deadline_read id n h :
  gives (at_row id up h)
    (t ← now; e ← lift (expiry_from_now t n); t' ← now;
     _ ← store_call (update_sandbox_expiry id (Some e) t'); fetch id)
    (λ sb s, at_row id up_until h s ∧ abs (sto s) !! id = Some (content sb)).
Proof.
  eapply gives_bind; [apply gives_now, at_row_reads|intros t].
  intros s s' sb [Ht Hs]. revert s s' sb Hs.
  eapply (gives_bind _ _ _ (λ e s, in_range e ∧ at_row id up h s)).
  { intros s s' e Hs He. unfold lift, expiry_from_now, add_secs in He.
    destruct (dt_add_seconds t (as_i64 n)) eqn:Hd; [|done]. injection He as <- <-.
    split; [by eapply dt_add_range|done]. }
  intros e s s' sb [He Hs]. revert s s' sb Hs.
  eapply gives_bind; [apply gives_now, at_row_reads|intros t'].
  intros s s' sb [Ht' Hs]. revert s s' sb Hs.
  eapply (gives_bind _ _ _ (λ _, at_row id up_until h)).
  { eapply gives_update; [intros x Hx; apply expiry_law; [done..|]; by intros ? [= <-]|done|].
    intros c Hc. split; [done|]. by eexists. }
  intros _ s s' sb Hs. unfold fetch. unfold mbind, stres_bind, now, store_call. simpl.
  destruct Hs as (Hwf & (c & Hc & Hid & Hup) & Hh).
  pose proof (get_law id (clk (reads s)) (sto s) Hwf) as Hg.
  destruct (get_sandbox id _ (sto s)) as [x r]. rewrite Hc in Hg.
  destruct Hg as (Hwf' & Ha & [Hflt|(sb' & -> & Hsb & _)]); [by destruct r|]. intros [= <- <-].
  unfold at_row. simpl. rewrite Ha, Hsb. split; [|done]. split_and!; [done| |done]. by exists c.
Qed.

Lemma resume_gives sb n :
  Sandbox.status sb = SandboxStatus.Paused →
  gives (at_row (Sandbox.id sb) (λ _, True) false) (resume_if_needed sb n)
    (λ sb' s, at_row (Sandbox.id sb) up_until manage_resources s ∧
              abs (sto s) !! Sandbox.id sb = Some (content sb')).
Proof.
  intros Hp. unfold resume_if_needed. rewrite bool_decide_true by done.
  intros s s' sb' Hs. unfold mbind at 1, stres_bind at 1. simpl.
  set (held := has_reservation (Sandbox.id sb) s).
  assert (at_row (Sandbox.id sb) (λ _, True) held s) as Hs'.
  { destruct Hs as (? & ? & _). split_and!; [done..|]. unfold held, has_reservation.
    intros Hh. by apply bool_decide_eq_true in Hh. }
  clear Hs. revert s' sb'. clearbody held. revert s Hs'.
  enough (gives (at_row (Sandbox.id sb) (λ _, True) held)
    (r ← (if manage_resources && negb held then r ← admit_spec (Sandbox.spec sb); mret (Some r)
          else mret None); _ ← wake sb r; t ← now; e ← lift (expiry_from_now t n); t' ← now;
     _ ← store_call (update_sandbox_expiry (Sandbox.id sb) (Some e) t'); fetch (Sandbox.id sb))
    (λ sb' s, at_row (Sandbox.id sb) up_until manage_resources s ∧
              abs (sto s) !! Sandbox.id sb = Some (content sb'))) as Hg
    by (intros s Hs s' sb'; exact (Hg s s' sb' Hs)).
  eapply (gives_bind _ _ _ (λ r s, at_row (Sandbox.id sb) (λ _, True) held s ∧
    (manage_resources = true → held || bool_decide (is_Some r) = true))).
  { intros s s' r Hs. destruct (manage_resources && negb held) eqn:Hm.
    - unfold mbind, stres_bind, admit_spec. destruct (ResourcePool.admit_ _ _) as [q [x|e|]]; try done.
      intros [= <- <-]. split; [done|]. intros _. by rewrite orb_true_r.
    - intros [= <- <-]. split; [done|]. intros Hmr. rewrite Hmr in Hm. by destruct held. }
  intros r s s' sb' [Hs Hr]. revert s s' sb' Hs.
  eapply gives_bind; [apply wake_up|intros u].
  intros s s' sb' Hs He. eapply deadline_read in He; [|exact Hs]. destruct He as [(? & ? & Hh) ?].
  split; [|done]. split_and!; [done..|]. intros Hmr. by apply Hh, Hr.
Qed.

(** The answer describes the row it is made from. *)
Lemma response_view sb s s' v :
  e2b_response sb s = (s', Ok v) →
  sto s' = sto s ∧ reservations s' = reservations s ∧
  E2bSandbox.sandbox_id v = Sandbox.id sb ∧ E2bSandbox.state v = state_text (Sandbox.status sb).
Proof.
  intros He. assert (frames (λ s, (sto s, reservations s)) (e2b_response sb)) as Hfr
    by (unfold e2b_response, ensure_e2b_access_token; frame).
  specialize (Hfr s). rewrite He in Hfr. injection Hfr as Hs Hr. split_and!; [done..| |];
    unfold e2b_response, mbind, stres_bind, lift in He;
    destruct (from_sandbox sb) as [x|e|] eqn:Hx; simpl in He; try done;
    destruct (ensure_e2b_access_token _ _ s) as [s4 [tok|e|]]; try done;
    injection He as _ <-; unfold from_sandbox in Hx;
    destruct (match Sandbox.expires_at sb with Some _ => _ | None => _ end); try done;
    by injection Hx as <-.
Qed.

(** *** The administrator's kill *)

Lemma discard_slot_fields x s :
  let s' := discard_slot x s in
  sto s' = sto s ∧ reservations s' = reservations s ∧ warm_slots s' = warm_slots s.
Proof. unfold discard_slot. destruct ((Pool.discard x (warm s, vm s)).1) as [g w]. done. Qed.

Lemma bind_assoc {B E F} (m : handler B) (n : handler E) (k : handler F) s :
  (m ≫= λ _, n ≫= λ _, k) s = ((m ≫= λ _, n) ≫= λ _, k) s.
Proof. unfold mbind, stres_bind. by destruct (m s) as [s1 [?|?|]]. Qed.

Lemma run_then {B E} (m : handler B) (k : B → handler E) s (P : AppState → result B → Prop)
    (Q : AppState → result E → Prop) :
  (let '(s1, o) := m s in P s1 o) →
  (∀ s1 o, P s1 o → let '(s', r) := match o with
    | Ok b => k b s1 | Err e => (s1, Err e) | Panic => (s1, Panic) end in Q s' r) →
  let '(s', r) := (m ≫= k) s in Q s' r.
Proof. intros Hm Hk. unfold mbind, stres_bind. destruct (m s) as [s1 o]. by apply Hk. Qed.

(** Everything of [kill_one] before the row goes. *)
Lemma kill_machine sb s :
  let '(s', o) := (match warm_slots s !! Sandbox.id sb with
    | Some x => modify (discard_slot x)
    | None => when (has_machine sb) (quiet (vmm_call (stop (handle_for sb) StopMode.Force)))
    end ≫= λ _, teardown_network (Sandbox.id sb) sb)
    (set_warm_slots (delete (Sandbox.id sb) (warm_slots s)) s) in
  o = Ok () ∧ sto s' = sto s ∧ reservations s' = reservations s ∧
  warm_slots s' = delete (Sandbox.id sb) (warm_slots s).
Proof.
  assert (∀ s1, let '(s', o) := teardown_network (Sandbox.id sb) sb s1 in
    o = Ok () ∧ sto s' = sto s1 ∧ reservations s' = reservations s1 ∧ warm_slots s' = warm_slots s1) as Ht.
  { intros s1. unfold teardown_network, when. destruct manage_network; [|done].
    unfold quiet, attempt, mbind, stres_bind, net_call.
    destruct (net s1) as [m w].
    pose proof (teardown_ok (Sandbox.id sb) (VmmMeta.inherited_subnet (Sandbox.vmm_meta sb)) m w) as Hd.
    destruct (teardown_sandbox_network _ _ _) as [[??] o]. by destruct Hd as (-> & _). }
  unfold mbind, stres_bind. destruct (warm_slots s !! Sandbox.id sb) as [x|].
  - simpl. set (s0 := set_warm_slots _ s). destruct (discard_slot_fields x s0) as (E1 & E2 & E3).
    specialize (Ht (discard_slot x s0)). destruct (teardown_network _ _ _) as [s' o].
    destruct Ht as (-> & -> & -> & ->). by rewrite E1, E2, E3.
  - unfold when. destruct (has_machine sb); simpl.
    + unfold quiet, attempt, vmm_call, mbind, stres_bind. set (s0 := set_warm_slots _ s).
      destruct (stop _ _ (vm s0)) as [w [e|[]]]; simpl; specialize (Ht (set_vm w s0));
        destruct (teardown_network _ _ _) as [s' o]; by destruct Ht as (-> & -> & -> & ->).
    + set (s0 := set_warm_slots _ s). specialize (Ht s0). destruct (teardown_network _ _ _) as [s' o].
      by destruct Ht as (-> & -> & -> & ->).
Qed.

Lemma kill_one_ok {SU : StoreUp ST} sb s :
  store_wf (sto s) → is_Some (abs (sto s) !! Sandbox.id sb) →
  let '(s', o) := kill_one sb s in
  o = Ok true ∧ store_wf (sto s') ∧ abs (sto s') = delete (Sandbox.id sb) (abs (sto s)) ∧
  reservations s' = delete (Sandbox.id sb) (reservations s) ∧
  warm_slots s' = delete (Sandbox.id sb) (warm_slots s).
Proof.
  intros Hwf [c Hc]. unfold kill_one. unfold mbind at 1, stres_bind at 1. simpl.
  rewrite bind_assoc. apply (run_then _ _ _ _ _ (kill_machine sb s)).
  intros s2 o (-> & Hs & Hr & Hw). unfold mbind, stres_bind.
  unfold attempt, store_call. pose proof (delete_answers (Sandbox.id sb) (sto s2)) as Hd.
  rewrite Hs in Hd |- *. specialize (Hd Hwf). destruct (delete_sandbox _ (sto s)) as [x r].
  rewrite Hc in Hd. destruct Hd as (Hwf' & Ha & ->). simpl.
  destruct (remove_reservation_fields (Sandbox.id sb) (set_sto x s2)) as (E1 & _ & _ & E4 & _ & _ & E7).
  rewrite E1, E4, E7. simpl. by rewrite Hr, Hw.
Qed.

Lemma kill_all {SU : StoreUp ST} l : ∀ s,
  store_wf (sto s) → NoDup (Sandbox.id <$> l) → Forall (λ sb, is_Some (abs (sto s) !! Sandbox.id sb)) l →
  let '(s', o) := collect kill_one l s in
  o = Ok (replicate (length l) true) ∧ store_wf (sto s') ∧
  ∀ i, let gone := bool_decide (i ∈ Sandbox.id <$> l) in
    abs (sto s') !! i = (if gone then None else abs (sto s) !! i) ∧
    reservations s' !! i = (if gone then None else reservations s !! i) ∧
    warm_slots s' !! i = (if gone then None else warm_slots s !! i).
Proof.
  induction l as [|sb l IH]; intros s Hwf Hnd Hall; simpl.
  - split_and!; [done..|]. by intros i.
  - apply NoDup_cons in Hnd as [Hni Hnd]. apply Forall_cons in Hall as [Hsb Hall].
    pose proof (kill_one_ok sb s Hwf Hsb) as Hk. unfold mbind, stres_bind.
    destruct (kill_one sb s) as [s1 o]. destruct Hk as (-> & Hwf1 & Ha & Hr & Hw).
    assert (Forall (λ x, is_Some (abs (sto s1) !! Sandbox.id x)) l) as Hall1.
    { rewrite Ha. apply Forall_forall. intros x Hx. rewrite Forall_forall in Hall.
      rewrite lookup_delete_ne; [by apply Hall|]. intros Heq. apply Hni. rewrite Heq.
      by apply list_elem_of_fmap_2. }
    specialize (IH s1 Hwf1 Hnd Hall1). destruct (collect kill_one l s1) as [s2 o].
    destruct IH as (-> & Hwf2 & IH). simpl. split_and!; [done..|]. intros i.
    destruct (IH i) as (-> & -> & ->). rewrite Ha, Hr, Hw.
    destruct (decide (i = Sandbox.id sb)) as [->|Hne].
    + rewrite (bool_decide_true (_ ∈ _ :: _)) by apply list_elem_of_here.
      rewrite !lookup_delete_eq. by destruct (bool_decide _).
    + rewrite !lookup_delete_ne by done.
      by rewrite (bool_decide_ext (i ∈ Sandbox.id sb :: _) (i ∈ Sandbox.id <$> l))
        by (rewrite elem_of_cons; naive_solver).
Qed.
End answers.

(** ** The rows of a team *)

Section team_rows.
Context {S : Semaphore} {ST : Store} {STO : StoreOk ST} {V : Vmm} {O : Os}
  {D : Deployment} {DO : ClockOk D} {A : Agent} {H : Sha256} {HO : HashOrder} {CE : CloudEnv} {W : Wire}
  {T : Timeouts} {C : Chrono} {CO : ChronoOk C}.

Definition of_team (team : string) (sb : Sandbox.t) : bool :=
  bool_decide (SandboxSpec.tenant_id (Sandbox.spec sb) = Some team).

(** A listing holds every row once, under its key. *)
Lemma listed_ids (m : gmap string Sandbox.t) (l : list Sandbox.t) :
  map_Forall row_ok m → content <$> l ≡ₚ (map_to_list m).*2 →
  Sandbox.id <$> l ≡ₚ (map_to_list m).*1.
Proof.
  intros Hm Hp. assert (Sandbox.id <$> l = Sandbox.id <$> (content <$> l)) as ->
    by (rewrite <-list_fmap_compose; by apply list_fmap_ext).
  rewrite Hp, <-list_fmap_compose. apply Permutation_refl', list_fmap_ext.
  intros i [k c] Hk%list_elem_of_lookup_2. apply elem_of_map_to_list in Hk. by destruct (Hm k c Hk).
Qed.

Lemma row_of_listed (m : gmap string Sandbox.t) (l : list Sandbox.t) sb :
  map_Forall row_ok m → content <$> l ≡ₚ (map_to_list m).*2 → sb ∈ l →
  m !! Sandbox.id sb = Some (content sb).
Proof.
  intros Hm Hp Hsb. apply (list_elem_of_fmap_2 content) in Hsb. rewrite Hp in Hsb.
  apply list_elem_of_fmap in Hsb as ([k c] & Hc & Hk). apply elem_of_map_to_list in Hk.
  destruct (Hm k c Hk) as [_ Hid]. simpl in Hc. rewrite Hc. subst c. by rewrite <-Hid in Hk.
Qed.

Lemma listed_of_row (m : gmap string Sandbox.t) (l : list Sandbox.t) i c :
  map_Forall row_ok m → content <$> l ≡ₚ (map_to_list m).*2 → m !! i = Some c →
  ∃ sb, sb ∈ l ∧ content sb = c ∧ Sandbox.id sb = i.
Proof.
  intros Hm Hp Hi. assert (c ∈ content <$> l) as Hc.
  { rewrite Hp. apply list_elem_of_fmap. exists (i, c). split; [done|]. by apply elem_of_map_to_list. }
  apply list_elem_of_fmap in Hc as (sb & -> & Hsb). exists sb. split_and!; [done..|].
  by destruct (Hm i _ Hi).
Qed.

Lemma team_ids team (m : gmap string Sandbox.t) (l : list Sandbox.t) :
  map_Forall row_ok m → content <$> l ≡ₚ (map_to_list m).*2 →
  let ids := Sandbox.id <$> List.filter (of_team team) l in
  NoDup ids ∧ ∀ i, i ∈ ids ↔ ∃ c, m !! i = Some c ∧ tenant c = Some team.
Proof.
  intros Hm Hp. split.
  - apply (sublist_NoDup _ (Sandbox.id <$> l)).
    + rewrite (listed_ids m l Hm Hp). apply NoDup_fst_map_to_list.
    + clear. induction l as [|x l IH]; simpl; [done|].
      destruct (of_team team x); by constructor.
  - intros i. rewrite list_elem_of_fmap. split.
    + intros (sb & -> & Hsb). apply list_elem_of_In, filter_In in Hsb as [Hsb Ht].
      apply list_elem_of_In in Hsb. exists (content sb). split; [by eapply row_of_listed|].
      by apply bool_decide_eq_true in Ht.
    + intros (c & Hc & Ht). destruct (listed_of_row m l i c Hm Hp Hc) as (sb & Hsb & <- & <-).
      exists sb. split; [done|]. apply list_elem_of_In, filter_In.
      split; [by apply list_elem_of_In|by apply bool_decide_eq_true].
Qed.

(** The size of what is left, by counting the ids that went. *)
Lemma removed_count team (m m' : gmap string Sandbox.t) (l : list Sandbox.t) :
  NoDup (Sandbox.id <$> l) →
  (∀ i, i ∈ Sandbox.id <$> l ↔ ∃ c, m !! i = Some c ∧ tenant c = Some team) →
  m' = filter (λ '(_, c), tenant c ≠ Some team) m →
  length l = (size m - size m')%nat.
Proof.
  intros Hnd Hin ->. rewrite <-(length_fmap Sandbox.id l).
  assert (dom (filter (λ '(_, c), tenant c ≠ Some team) m) = dom m ∖ list_to_set (Sandbox.id <$> l)) as Hd.
  { apply set_eq. intros i. rewrite elem_of_difference, elem_of_list_to_set, Hin, !elem_of_dom. split.
    - intros [c (Hc & Ht)%map_lookup_filter_Some]. split; [by eexists|]. intros (c' & Hc' & Ht').
      congruence.
    - intros [[c Hc] Hn]. exists c. apply map_lookup_filter_Some. split; [done|]. naive_solver. }
  rewrite <-!size_dom, Hd, size_difference.
  - rewrite size_list_to_set by done.
    assert (size (list_to_set (Sandbox.id <$> l) : gset string) ≤ size (dom m))%nat as Hle.
    { apply subseteq_size. intros i. rewrite elem_of_list_to_set, Hin, elem_of_dom.
      intros (c & ? & _). by eexists. }
    rewrite size_list_to_set in Hle by done. lia.
  - intros i. rewrite elem_of_list_to_set, Hin, elem_of_dom. intros (c & ? & _). by eexists.
Qed.

Lemma kill_team_rows {SU : StoreUp ST} team l s :
  store_wf (sto s) → map_Forall row_ok (abs (sto s)) →
  content <$> l ≡ₚ (map_to_list (abs (sto s))).*2 →
  let '(s', o) := collect kill_one (List.filter (of_team team) l) s in
  abs (sto s') = filter (λ '(_, c), tenant c ≠ Some team) (abs (sto s)) ∧
  (∀ i, let gone := bool_decide (is_Some (abs (sto s) !! i) ∧ abs (sto s') !! i = None) in
     reservations s' !! i = (if gone then None else reservations s !! i) ∧
     warm_slots s' !! i = (if gone then None else warm_slots s !! i)) ∧
  o = Ok (replicate (size (abs (sto s)) - size (abs (sto s'))) true).
Proof.
  intros Hwf Hrows Hp. destruct (team_ids team _ l Hrows Hp) as [Hnd Hin].
  assert (Forall (λ sb, is_Some (abs (sto s) !! Sandbox.id sb)) (List.filter (of_team team) l)) as Hall.
  { apply Forall_forall. intros sb Hsb. apply (list_elem_of_fmap_2 Sandbox.id) in Hsb.
    apply Hin in Hsb as (c & Hc & _). by eexists. }
  pose proof (kill_all _ s Hwf Hnd Hall) as Hk. destruct (collect _ _ s) as [s' o].
  destruct Hk as (-> & _ & Hk).
  assert (abs (sto s') = filter (λ '(_, c), tenant c ≠ Some team) (abs (sto s))) as Ha.
  { apply map_eq. intros i. destruct (Hk i) as [-> _]. apply option_eq. intros c.
    rewrite map_lookup_filter_Some. case_bool_decide as Hi; rewrite Hin in Hi; naive_solver. }
  split_and!; [done| |by rewrite <-(removed_count team _ _ _ Hnd Hin Ha)].
  intros i. destruct (Hk i) as (-> & -> & ->).
  enough (∀ g : bool, g = bool_decide (i ∈ Sandbox.id <$> List.filter (of_team team) l) →
    bool_decide (is_Some (abs (sto s) !! i) ∧ (if g then None else abs (sto s) !! i) = None) = g)
    as Hg by (by rewrite (Hg _ eq_refl)).
  intros [] Hg; symmetry in Hg; [apply bool_decide_eq_true in Hg|apply bool_decide_eq_false in Hg];
    rewrite Hin in Hg; [apply bool_decide_eq_true|apply bool_decide_eq_false].
  - destruct Hg as (c & Hc & _). split; [by eexists|done].
  - intros [[c Hc] Hn]. by rewrite Hn in Hc.
Qed.

Lemma all_statuses (l : list Sandbox.t) : List.filter (with_status None) l = l.
Proof. induction l as [|x l IH]; simpl; [done|]. by rewrite IH. Qed.

Lemma count_true n : length (List.filter (λ b, b) (replicate n true)) = n.
Proof. induction n as [|n IH]; simpl; [done|]. by rewrite IH. Qed.
End team_rows.

(** ** Properties *)

Section properties.
Context {S : Semaphore} {ST : Store} {STO : StoreOk ST} {V : Vmm} {O : Os}
  {D : Deployment} {DO : ClockOk D} {A : Agent} {H : Sha256} {HO : HashOrder} {CE : CloudEnv} {W : Wire}
  {T : Timeouts} {C : Chrono} {CO : ChronoOk C}.

(** C13: a request that names a sandbox which does not exist or is another tenant's changes
    nothing.  For each of the requests that name one sandbox, on the native surface, the
    E2B surface and the calls that carry the id in a header, no row of the store changes,
    and nothing else of the shared state does: no machine, guest, reservation, snapshot,
    network, token, process session or job.  A request that does not come by [GET] is also
    answered with an error: the sandbox is not there, the request is malformed, or the
    store did not answer.  Requests that name no sandbox are outside of the statement (the
    registration of a node, for one, settles rows of every tenant). *)
Theorem foreign_sandbox_is_untouched p id r s :
  store_wf (sto s) → foreign p id s →
  let '(s', o) := serve (OnSandbox p id r) s in
  abs (sto s') = abs (sto s) ∧ rest s' = rest s ∧
  (by_get r = false → ∃ e, o = Err e ∧ turned_away e).
Proof.
  intros Hwf Hf. pose proof (request_refused p id r s Hwf Hf) as Hr. simpl.
  destruct (serve_sandbox p id r s) as [s' o]. by destruct Hr as (? & ? & ?).
Qed.

(** C39: waking a paused sandbox.  When [resume] answers, the stored row is [Running] with
    no error text and has a deadline, the sandbox holds a reservation of the admission
    pool (where the process manages resources), and the answer describes this sandbox as
    running. *)
Theorem resume_restores p id timeout s s' st v c :
  rows_ok s → abs (sto s) !! id = Some c → Sandbox.status c = SandboxStatus.Paused →
  e2b_resume p id timeout s = (s', Ok (st, v)) →
  (∃ c', abs (sto s') !! id = Some c' ∧ up_until c') ∧
  (manage_resources = true → is_Some (reservations s' !! id)) ∧
  E2bSandbox.sandbox_id v = id ∧ E2bSandbox.state v = "running"%string.
Proof.
  intros [Hwf Hrows] Hc Hst. unfold e2b_resume.
  pose proof (fetch_own_cases p id s Hwf) as Hf. unfold mbind at 1, stres_bind at 1.
  destruct (fetch_own p id s) as [s1 [sb|e|]]; [|done..].
  destruct Hf as (Hwf1 & Ha1 & Hr1 & Hsb & Ht & _).
  assert (Sandbox.id sb = id) as Hid by (by destruct (Hrows _ _ Hsb)).
  assert (Sandbox.status sb = SandboxStatus.Paused) as Hps by 
    (rewrite Hsb in Hc; injection Hc as Hc; by rewrite <-Hc in Hst).
  intros He.
  assert (at_row (Sandbox.id sb) up_until manage_resources s' ∧
    E2bSandbox.sandbox_id v = id ∧ E2bSandbox.state v = "running"%string) as [(_ & (c' & Hc' & _ & Hu') & ?) [??]];
    [|rewrite <-Hid in *; split_and!; by eauto].
  revert s1 s' st v Hwf1 Ha1 Hr1 He. intros s1 s' st v Hwf1 Ha1 _ He.
  assert (at_row (Sandbox.id sb) (λ _, True) false s1) as Hat.
  { split_and!; [done| |done]. rewrite Ha1, Hid. by exists (content sb). }
  unfold mbind at 1, stres_bind at 1 in He.
  destruct (resume_if_needed sb _ s1) as [s2 [sb2|e|]] eqn:Hres; [|done..].
  destruct (resume_gives sb _ Hps _ _ _ Hat Hres) as [Hup Hrow].
  unfold mbind, stres_bind in He.
  destruct (e2b_response sb2 s2) as [s3 [w|e|]] eqn:Hresp; [|done..]. injection He as <- _ <-.
  destruct (response_view _ _ _ _ Hresp) as (Hs3 & Hr3 & -> & ->).
  destruct Hup as (Hwf2 & (c2 & Hc2 & Hid2 & Hu) & Hh). rewrite Hc2 in Hrow. injection Hrow as ->.
  unfold at_row. rewrite Hs3, Hr3. split_and!; [done|by exists (content sb2)|done| |].
  - by rewrite <-Hid, <-Hid2.
  - destruct Hu as [[Hrun _] _]. simpl in Hrun. by rewrite Hrun.
Qed.

(** An administrator's kill removes a team and only the team.  Without the
    administrator's token the call is refused and changes nothing; with it, and a store
    that is up, it always succeeds: the rows that are left are exactly the rows of the other tenants,
    unchanged, the ids that went hold no reservation and no warm machine any more while
    all others keep theirs, and the answer counts the rows that went, with no
    failures. *)
Theorem kill_removes_the_team {SU : StoreUp ST} x a team s :
  rows_ok s →
  let '(s', o) := admin_kill_team x a team s in
  match require_admin admin_token x a with
  | Ok _ =>
    abs (sto s') = filter (λ '(_, c), tenant c ≠ Some team) (abs (sto s)) ∧
    (∀ i, let gone := bool_decide (is_Some (abs (sto s) !! i) ∧ abs (sto s') !! i = None) in
       reservations s' !! i = (if gone then None else reservations s !! i) ∧
       warm_slots s' !! i = (if gone then None else warm_slots s !! i)) ∧
    o = Ok (JObj [("killedCount", JNum (Z.of_nat (size (abs (sto s)) - size (abs (sto s')))));
                  ("failedCount", JNum 0)])
  | Err e => s' = s ∧ o = Err e ∧ ClouisleError.kind e = ErrorKind.Forbidden
  | Panic => False
  end.
Proof.
  intros [Hwf Hrows]. unfold admin_kill_team, admin_guard. unfold mbind at 1, stres_bind at 1, lift.
  destruct (require_admin admin_token x a) as [[]|e|] eqn:Hg.
  2,3: unfold require_admin in Hg; repeat case_match; by simplify_eq.
  unfold mbind at 1, stres_bind at 1. simpl. unfold mbind at 1, stres_bind at 1, store_call. simpl.
  pose proof (list_answers None (clk (reads s)) (sto s) Hwf) as Hl.
  destruct (list_sandboxes None _ (sto s)) as [y r]. destruct Hl as (Hwf' & Ha & l & -> & _ & Hp).
  simpl. rewrite all_statuses, <-Ha in Hp. rewrite <-Ha in Hrows.
  pose proof (kill_team_rows team l (set_sto y (set_reads (Datatypes.S (reads s)) s)) Hwf' Hrows Hp) as Hk.
  unfold mbind, stres_bind. unfold of_team in Hk. destruct (collect _ _ _) as [s' o].
  simpl in Hk. rewrite Ha in Hk. destruct Hk as (Hab & Hi & ->).
  rewrite count_true, length_replicate, Nat.sub_diag. by split_and!.
Qed.
End properties.

(** C40: types are kept.  Whatever requests, jobs, reaper ticks and reconciler passes a
    control plane goes through after it starts over a persisted store, every row of the
    store is filed under its own id and has a vCPU count that fits 16 bits and memory and
    disk sizes that fit 32 bits, and so does every reservation in the table and every one
    owned by a job, so that no admission or release of it overflows. *)
Theorem stored_values_stay_typed {S : Semaphore} {SO : SemaphoreOk S} {ST : Store} {STO : StoreOk ST}
    {V : Vmm} {O : Os} {D : Deployment} {DO : ClockOk D} {A : Agent} {H : Sha256}
    {HO : HashOrder} {CE : CloudEnv} {W : Wire} {T : Timeouts} {C : Chrono} {CO : ChronoOk C}
    cap max mi mx x w n g e a s :
  Resources.well_typed cap → 0 ≤ max → store_wf x → map_Forall row_ok (abs x) →
  star step (boot cap max mi mx x w n g e a) s →
  map_Forall row_ok (abs (sto s)) ∧ map_Forall (λ _, typed_res) (reservations s) ∧
  Forall (λ t, typed_opt (task_res t)) (tasks s).
Proof.
  intros Hc Hm Hwf Ht Hs.
  assert (inv cap max None s) as [[_ Hr] [_ Hres Htk _ _]].
  { eapply (star_invariant step); [intros; by eapply step_inv|exact Hs|by apply boot_inv]. }
  done.
Qed.

(** Pages.  A client that starts without a token and follows the token of each answer
    gets to the last page, after at most one request per item and one more; the pages put
    together are all the items, each once and in order; no page has more than a hundred
    items whatever limit was asked for, and none is empty unless there is nothing at
    all. *)
Theorem pages_enumerate {B : Type} (items : list B) (q : query) :
  Z.of_nat (length items) ≤ u64_max → q !! "nextToken"%string = None →
  ∃ pages, follow (Datatypes.S (length items)) items q = Some pages ∧ concat pages = items ∧
    Forall (λ l, length l ≤ 100)%nat pages ∧ (items ≠ [] → Forall (λ l, l ≠ []) pages).
Proof.
  intros Hmax Hq.
  destruct (follow_from items (Datatypes.S (length items)) q 0) as (pages & Hp & Hc & Hl & Hn);
    [done|unfold query_usize; by rewrite Hq|lia..|].
  exists pages. split_and!; [done|done|done|]. intros Hi. apply Hn. destruct items; [done|simpl; lia].
Qed.

(** ** Witnesses *)

Module RequestDemo.
Import ControlDemo.
(** Alice's sandbox is up, then paused. *)
Definition made : AppState := (serve (Create errors alice SandboxSpec.default true "sb-1") (initial true)).1.
Definition paused : AppState := (serve (OnSandbox alice "sb-1" RPause) made).1.
Definition answer_of {B} (o : result B) (d : B) : B := match o with Ok b => b | _ => d end.
Definition resumed : AppState * result (Z * E2bSandbox.t) := e2b_resume alice "sb-1" (Some 60) paused.

Lemma made_run : star step (initial true) made.
Proof.
  apply star_one. exact (step_request (initial true) (Create errors alice _ true "sb-1")
    CapacityDemo.default_typed).
Qed.
Lemma paused_run : star step (initial true) paused.
Proof.
  eapply star_step; [exact (step_request (initial true) (Create errors alice _ true "sb-1")
    CapacityDemo.default_typed)|].
  apply star_one. exact (step_request made (OnSandbox alice "sb-1" RPause) I).
Qed.

Lemma reached_rows s : star step (initial true) s → rows_ok s.
Proof.
  intros Hs. enough (inv cap 2 None s) as [? _] by done.
  eapply (star_invariant step); [intros; by eapply step_inv|exact Hs|].
  exact HandlerDemo.handlers_initial_inv.
Qed.

Definition row_at (s : AppState) (i : string) : Sandbox.t :=
  default (Sandbox.new "" SandboxSpec.default 0) (abs (sto s) !! i).
End RequestDemo.

(** Bob asks to run a command in Alice's sandbox. *)
Lemma foreign_sandbox_is_untouched_witness :
  let '(s', o) := serve (OnSandbox ControlDemo.bob "sb-1" (RRemove "/")) RequestDemo.made in
  abs (sto s') = abs (sto RequestDemo.made) ∧ rest s' = rest RequestDemo.made ∧
  (by_get (RRemove "/") = false → ∃ e, o = Err e ∧ turned_away e).
Proof.
  apply (foreign_sandbox_is_untouched ControlDemo.bob "sb-1" (RRemove "/") RequestDemo.made).
  - exact (proj1 (RequestDemo.reached_rows _ RequestDemo.made_run)).
  - intros c Hc.
    assert (tenant (RequestDemo.row_at RequestDemo.made "sb-1") = Some "alice"%string) as Ht
      by (vm_compute; reflexivity).
    unfold RequestDemo.row_at in Ht. rewrite Hc in Ht. simpl in Ht. rewrite Ht. discriminate.
Defined.

Lemma resume_restores_witness :
  is_ok RequestDemo.resumed.2 = true ∧
  is_Some (reservations RequestDemo.resumed.1 !! "sb-1"%string).
Proof.
  assert (is_ok RequestDemo.resumed.2 = true) as Hok by (vm_compute; reflexivity).
  split; [exact Hok|].
  destruct RequestDemo.resumed as [s' [[st v]|e|]] eqn:Hr; [|discriminate..].
  refine (proj1 (proj2 (resume_restores ControlDemo.alice "sb-1" (Some 60) RequestDemo.paused s' st v
    (RequestDemo.row_at RequestDemo.paused "sb-1") (RequestDemo.reached_rows _ RequestDemo.paused_run)
    _ _ Hr)) _); vm_compute; reflexivity.
Defined.

(** The administrator kills Alice's team. *)
Lemma kill_removes_the_team_witness :
  (admin_kill_team (Some (Some "root"%string)) None "alice" RequestDemo.made).2
  = Ok (JObj [("killedCount"%string, JNum 1); ("failedCount"%string, JNum 0)]) ∧
  abs (sto (admin_kill_team (Some (Some "root"%string)) None "alice" RequestDemo.made).1)
  = filter (λ '(_, c), tenant c ≠ Some "alice"%string) (abs (sto RequestDemo.made)).
Proof.
  split; [vm_compute; reflexivity|].
  pose proof (kill_removes_the_team (Some (Some "root"%string)) None "alice" RequestDemo.made
    (RequestDemo.reached_rows _ RequestDemo.made_run)) as Hk.
  assert (require_admin admin_token (Some (Some "root"%string)) None = Ok ()) as Hg
    by (vm_compute; reflexivity).
  rewrite Hg in Hk.
  destruct (admin_kill_team _ _ _ _) as [s' o]. exact (proj1 Hk).
Defined.

Lemma stored_values_stay_typed_witness :
  size (reservations RequestDemo.made) = 1%nat ∧
  map_Forall row_ok (abs (sto RequestDemo.made)) ∧
  map_Forall (λ _, typed_res) (reservations RequestDemo.made) ∧
  Forall (λ t, typed_opt (task_res t)) (tasks RequestDemo.made).
Proof.
  split; [vm_compute; reflexivity|].
  refine (stored_values_stay_typed ControlDemo.cap 2 0 300 InMemoryStore.new
    (MemoryVmm.mk ∅ ∅ : world) ([] : os_world) (true : guest)
    (E2bControlPlane.control_plane_new (∅ : disk)) Authenticator.new_production RequestDemo.made
    CapacityDemo.demo_cap_typed _ _ _ RequestDemo.made_run).
  - lia.
  - exact (map_Forall_empty _).
  - change (map_Forall row_ok (content <$> (∅ : gmap string Sandbox.t))).
    rewrite fmap_empty. exact (map_Forall_empty _).
Defined.

(** Seven items, three to a page. *)
Lemma pages_enumerate_witness :
  follow 8 (seq 0 7) {["limit"%string := "3"%string]} = Some [[0; 1; 2]; [3; 4; 5]; [6]]%nat ∧
  ∃ pages, follow 8 (seq 0 7) {["limit"%string := "3"%string]} = Some pages ∧
    concat pages = seq 0 7 ∧ Forall (λ l, length l ≤ 100)%nat pages ∧
    (seq 0 7 ≠ [] → Forall (λ l, l ≠ []) pages).
Proof.
  split; [vm_compute; reflexivity|].
  apply (pages_enumerate (seq 0 7) {["limit"%string := "3"%string]}); [vm_compute; discriminate|].
  vm_compute. reflexivity.
Defined.
