(* ===== verification/Startup.v ===== *)
(** * Starting the control plane ([crates/clouisle-api/src/main.rs],
    [AppState::host_capacity] of [state.rs])

    What the command line selects (the store, the machines, the way to the guests,
    which resources are managed here), what the host offers, and the reservations
    that are taken again for the sandboxes an earlier run left active. *)

From S2P Require Import Prelude Core SandboxModel Admission Vmm Pool Proto Guest Digest Dns Net.
From S2P Require Import Firecracker Store Json Auth E2bCloud Processes E2bModel AppState Lifecycle.
From S2P Require Import E2bHandlers CloudHandlers ApiHandlers Control Capacity Requests.

(** ** The command line *)

Module Cli.
Record t : Set := mk {
  addr : string;
  db : string;
  kernel : string;
  images_dir : string;
  api_socket_dir : string;
  backend : string;
  node_endpoint : option string;
  cluster_scheduling : bool }.

(** The values of the flags that are not given. *)
Definition default : t :=
  mk "0.0.0.0:8080" "clouisle.db" "/opt/clouisle/vmlinux" "/opt/clouisle/images"
    "/run/clouisle/firecracker" "firecracker" None false.
End Cli.

Inductive StoreKind : Set := Postgres (url : string) | Sqlite (path : string).
Inductive VmmKind : Type :=
| ScheduledNodeVmm
| GrpcNodeVmm (endpoint : string)
| DockerDevVmm
| FirecrackerVmm (config : FirecrackerConfig).
Inductive AgentKind : Set :=
| GrpcAgentConnector (endpoint : string)
| DockerDevAgentConnector
| VsockAgentConnector.

(** What [main] puts together on Linux. *)
Record Launch : Type := launch {
  l_store : StoreKind;
  l_vmm : VmmKind;
  l_agent : AgentKind;
  l_e2b_path : string;
  l_warm_min_idle : Z;
  l_manage_resources : bool;
  l_manage_network : bool }.

Definition is_postgres (db : string) : bool :=
  starts_with "postgres://" db || starts_with "postgresql://" db.
Definition store_kind (c : Cli.t) : StoreKind :=
  if is_postgres (Cli.db c) then Postgres (Cli.db c) else Sqlite (Cli.db c).
Definition e2b_path (c : Cli.t) : string :=
  if is_postgres (Cli.db c) then "/data/e2b-control.json" else Cli.db c +:+ ".e2b.json".

(** The two checks before anything is opened. *)
Definition check_cli (c : Cli.t) : string + () :=
  let backend := Cli.backend c in
  if negb (String.eqb backend "firecracker") && negb (String.eqb backend "docker-dev") then
    inl ("unknown backend `" +:+ backend +:+ "` (expected firecracker or docker-dev)")
  else if String.eqb backend "docker-dev"
          && (bool_decide (is_Some (Cli.node_endpoint c)) || Cli.cluster_scheduling c) then
    inl "--backend docker-dev conflicts with --node-endpoint / --cluster-scheduling"%string
  else inr ().

Definition local_config (c : Cli.t) : FirecrackerConfig :=
  let d := default_config in
  fc_config (firecracker_bin d) (jailer_bin d) (Cli.kernel c) (Cli.api_socket_dir c)
    (use_jailer d) (enable_seccomp d) (Cli.images_dir c) (rootfs_work_dir d).

(** [docker] is what [DockerDevVmm::new] answers. *)
Definition vmm_kind (c : Cli.t) (docker : string + ()) : string + VmmKind :=
  if Cli.cluster_scheduling c then inr ScheduledNodeVmm
  else match Cli.node_endpoint c with
  | Some e => inr (GrpcNodeVmm e)
  | None =>
    if String.eqb (Cli.backend c) "docker-dev" then
      match docker with
      | inr _ => inr DockerDevVmm
      | inl e => inl ("docker-dev backend unavailable: " +:+ e)
      end
    else inr (FirecrackerVmm (local_config c))
  end.
Definition agent_kind (c : Cli.t) : AgentKind :=
  if Cli.cluster_scheduling c then GrpcAgentConnector ""
  else match Cli.node_endpoint c with
  | Some e => GrpcAgentConnector e
  | None =>
    if String.eqb (Cli.backend c) "docker-dev" then DockerDevAgentConnector else VsockAgentConnector
  end.

Definition manages_resources (c : Cli.t) : bool :=
  bool_decide (Cli.node_endpoint c = None) && negb (Cli.cluster_scheduling c).
Definition manages_network (c : Cli.t) : bool :=
  bool_decide (Cli.node_endpoint c = None) && negb (Cli.cluster_scheduling c)
  && negb (String.eqb (Cli.backend c) "docker-dev").

(** [CLOUISLE_WARM_POOL_MIN_IDLE]. *)
Definition warm_min_idle (var : option string) : Z := default 0 (var ≫= parse_unsigned u64_max).

(** [main] up to the first request, without what opening the store, the keys and the
    E2B file can answer. *)
Definition prepare (c : Cli.t) (docker : string + ()) (idle : option string) : string + Launch :=
  match check_cli c with
  | inl e => inl e
  | inr _ =>
    match vmm_kind c docker with
    | inl e => inl e
    | inr v =>
      inr (launch (store_kind c) v (agent_kind c) (e2b_path c) (warm_min_idle idle)
             (manages_resources c) (manages_network c))
    end
  end.

(** ** What the host offers *)

(** The contents of [/proc/cpuinfo] and [/proc/meminfo], when they can be read. *)
Definition processors (cpuinfo : option string) : Z :=
  Z.max (match cpuinfo with
         | Some s => as_u16 (Z.of_nat (length (List.filter (starts_with "processor") (lines s))))
         | None => 4
         end) 1.
Definition memory_kb (meminfo : option string) : Z :=
  default (8 * 1024 * 1024)
    (s ← meminfo;
     l ← List.find (starts_with "MemTotal") (lines s);
     v ← split_whitespace l !! 1%nat;
     parse_unsigned u64_max v).
Definition host_capacity (cpuinfo meminfo : option string) : Resources.t :=
  let d := Resources.default in
  Resources.mk (processors cpuinfo) (as_u32 (memory_kb meminfo / 1024)) (100 * 1024)
    (Resources.bandwidth_mbps d) (Resources.iops d) (Resources.pids_max d).

(** ** Reservations of an earlier run *)

Section start.
Context {S : Semaphore} {ST : Store} {V : Vmm} {O : Os} {D : Deployment} {A : Agent} {H : Sha256}
  {HO : HashOrder} {CE : CloudEnv}.

(** A sandbox that no longer fits is logged and left without a reservation. *)
Definition restore_one (sb : Sandbox.t) : handler () :=
  r ← attempt (admit_spec (Sandbox.spec sb));
  match r with
  | Ok r => modify (insert_reservation (Sandbox.id sb) r)
  | Err _ => mret ()
  | Panic => lift Panic
  end.

Definition is_active (sb : Sandbox.t) : bool := SandboxStatus.is_active (Sandbox.status sb).
Definition restore_reservations : handler () :=
  when manage_resources
    (t ← now;
     rows ← store_call (list_sandboxes None t);
     for_each restore_one (List.filter is_active rows)).

(** The state the first request meets: 200 sandboxes at most, idle warm machines kept for
    300 seconds. *)
Definition start_control_plane (cpuinfo meminfo idle : option string) (x : store) (w : world)
    (n : os_world) (g : guest) (e : E2bControlPlane.ControlPlane) (a : Authenticator.t)
    : AppState * result () :=
  restore_reservations
    (boot (host_capacity cpuinfo meminfo) 200 (warm_min_idle idle) 300 x w n g e a).

(** [shutdown_signal]: the flag the readiness probe reads. *)
Definition shutdown_signal : handler () := modify (λ s,
  app (sto s) (vm s) (pool s) (warm s) (warm_slots s) (reservations s) (snapshots s) (provisioning s)
    (net s) (gst s) (next_subnet s) (tasks s) (reads s) (e2b s) (auth s) (e2b_tokens s) (processes s)
    (next_pid s) (image_jobs s) true).
End start.

(** ** Lemmas *)

Lemma host_capacity_typed cpuinfo meminfo : Resources.well_typed (host_capacity cpuinfo meminfo).
Proof.
  unfold Resources.well_typed, in_u16, in_u32, u16_max, u32_max, host_capacity, processors, as_u16, as_u32.
  cbn [Resources.vcpu Resources.memory_mb Resources.disk_mb].
  pose proof (Z.mod_pos_bound (memory_kb meminfo / 1024) 4294967296).
  destruct cpuinfo as [s|]; [|lia].
  pose proof (Z.mod_pos_bound
    (Z.of_nat (length (List.filter (starts_with "processor") (lines s)))) 65536). lia.
Qed.

(** Which machines run on this host, and which connector reaches their guests. *)
Definition local_vmm (v : VmmKind) : bool :=
  match v with DockerDevVmm | FirecrackerVmm _ => true | _ => false end.
Definition own_network (v : VmmKind) : bool :=
  match v with FirecrackerVmm _ => true | _ => false end.
Definition connector_of (v : VmmKind) : AgentKind :=
  match v with
  | ScheduledNodeVmm => GrpcAgentConnector ""
  | GrpcNodeVmm e => GrpcAgentConnector e
  | DockerDevVmm => DockerDevAgentConnector
  | FirecrackerVmm _ => VsockAgentConnector
  end.

(** Whatever flags are accepted, the parts fit together: permits are kept for the machines
    of this host and only for them, namespaces and packet filters for its micro-VMs, and
    the guests are reached the way their machines are made. *)
Lemma launch_is_coherent c docker idle l :
  prepare c docker idle = inr l →
  l_manage_resources l = local_vmm (l_vmm l) ∧
  l_manage_network l = own_network (l_vmm l) ∧
  l_agent l = connector_of (l_vmm l) ∧
  (l_vmm l = DockerDevVmm → docker = inr ()).
Proof.
  unfold prepare. destruct (check_cli c) as [|[]] eqn:Hc; [done|].
  unfold check_cli in Hc. unfold vmm_kind, agent_kind, manages_resources, manages_network.
  destruct (String.eqb_spec (Cli.backend c) "docker-dev") as [Hb|Hb];
    destruct (Cli.node_endpoint c) as [e|], (Cli.cluster_scheduling c), docker as [|[]];
    simpl in *; rewrite ?andb_true_r, ?andb_false_r in *; simpl in *;
    intros Hl; simplify_eq; simpl; try done; rewrite Hb in Hc; done.
Qed.

Section laws.
Context {S : Semaphore} {SO : SemaphoreOk S} {ST : Store} {STO : StoreOk ST} {V : Vmm}
  {O : Os} {D : Deployment} {DO : ClockOk D} {A : Agent} {H : Sha256}
  {HO : HashOrder} {CE : CloudEnv} {W : Wire} {T : Timeouts} {C : Chrono} {CO : ChronoOk C}.
Context (cap : Resources.t) (max : Z).
Let inv := Capacity.inv cap max.

(** What a sandbox takes from a dimension, and the reservation that holds it. *)
Definition need (d : ResourcePool.dim) (sb : Sandbox.t) : Z :=
  ResourcePool.amount d (SandboxSpec.resources (Sandbox.spec sb)).
Definition its_reservation (sb : Sandbox.t) : Reservation.t :=
  Reservation.mk (SandboxSpec.resources (Sandbox.spec sb)).
Definition no_room (sb : Sandbox.t) (s : AppState) : Prop :=
  ∃ d, ResourcePool.remaining d (pool s) < need d sb.

Lemma restore_one_spec sb s :
  inv None s → typed sb → reservations s !! Sandbox.id sb = None →
  ∃ s', restore_one sb s = (s', Ok ()) ∧ inv None s' ∧
    ((ResourcePool.fits (pool s) (SandboxSpec.resources (Sandbox.spec sb)) ∧
      reservations s' = <[Sandbox.id sb := its_reservation sb]> (reservations s) ∧
      (∀ d, ResourcePool.remaining d (pool s') = ResourcePool.remaining d (pool s) - need d sb))
     ∨ (no_room sb s ∧ reservations s' = reservations s ∧
      (∀ d, ResourcePool.remaining d (pool s') = ResourcePool.remaining d (pool s)))).
Proof.
  intros [Hi Hbal] Ht Hn. unfold restore_one, attempt, mbind, stres_bind, handler.
  pose proof (bal_admit cap max (Sandbox.spec sb) s Ht Hbal) as Hb. unfold admit_spec in *. simpl in *.
  pose proof (λ d, ResourcePool.admit_remaining (pool s) (Sandbox.spec sb) d Ht) as Hr.
  pose proof (ResourcePool.admit_result (pool s) (Sandbox.spec sb)) as Hres.
  pose proof (ResourcePool.admit_ok_iff (pool s) (Sandbox.spec sb)) as Hok.
  destruct (ResourcePool.admit_ (pool s) (Sandbox.spec sb)) as [p [r|e|]]; simpl in *; [| |done].
  - subst r. eexists. split; [reflexivity|]. split; [|left; split; [by apply Hok|]].
    + split; [|by apply bal_insert]. unfold insert_reservation. simpl. by rewrite Hn.
    + unfold insert_reservation. simpl. rewrite Hn. by split.
  - eexists. split; [reflexivity|]. split; [by split|]. right. split; [|split; [done|]].
    + destruct (ResourcePool.exceeding_dim (pool s) (SandboxSpec.resources (Sandbox.spec sb)))
        as [?|Hf]; [done|]. apply Hok in Hf. discriminate.
    + intros d. rewrite Hr. lia.
Qed.

(** What the loop over [l] leaves behind. *)
Record restored (l : list Sandbox.t) (s s' : AppState) : Prop := {
  re_inv : inv None s';
  re_less d : ResourcePool.remaining d (pool s') ≤ ResourcePool.remaining d (pool s);
  re_only id r : reservations s' !! id = Some r →
    reservations s !! id = Some r ∨ ∃ sb, sb ∈ l ∧ Sandbox.id sb = id ∧ r = its_reservation sb;
  re_kept id r : reservations s !! id = Some r → reservations s' !! id = Some r;
  re_each sb : sb ∈ l → reservations s' !! Sandbox.id sb = Some (its_reservation sb) ∨ no_room sb s';
  re_all : (∀ d, sum_by (need d) l ≤ ResourcePool.remaining d (pool s)) →
    ∀ sb, sb ∈ l → reservations s' !! Sandbox.id sb = Some (its_reservation sb) }.

Lemma sum_need_nonneg d l : Forall typed l → 0 ≤ sum_by (need d) l.
Proof.
  induction 1 as [|sb l Ht _ IH]; [done|]. change (0 ≤ need d sb + sum_by (need d) l).
  pose proof (ResourcePool.amount_nonneg d _ Ht). unfold need at 1. lia.
Qed.

Lemma restored_cons sb l s s1 s' :
  typed sb → Forall typed l → reservations s !! Sandbox.id sb = None →
  ((ResourcePool.fits (pool s) (SandboxSpec.resources (Sandbox.spec sb)) ∧
    reservations s1 = <[Sandbox.id sb := its_reservation sb]> (reservations s) ∧
    (∀ d, ResourcePool.remaining d (pool s1) = ResourcePool.remaining d (pool s) - need d sb))
   ∨ (no_room sb s ∧ reservations s1 = reservations s ∧
    (∀ d, ResourcePool.remaining d (pool s1) = ResourcePool.remaining d (pool s)))) →
  restored l s1 s' → restored (sb :: l) s s'.
Proof.
  intros Ht Hts Hn Hcase [R1 R2 R3 R4 R5 R6].
  pose proof (λ d, ResourcePool.amount_nonneg d _ Ht) as Hp.
  assert (∀ d, ResourcePool.remaining d (pool s1) ≤ ResourcePool.remaining d (pool s)) as Hle.
  { intros d. specialize (Hp d). unfold need in Hcase. destruct Hcase as [(_ & _ & ->)|(_ & _ & ->)]; lia. }
  split; [done| | | | |].
  - intros d. specialize (R2 d). specialize (Hle d). lia.
  - intros id r Hr. apply R3 in Hr as [Hr|(b & Hb & He)]; [|right; exists b; set_solver].
    destruct Hcase as [(_ & Hc & _)|(_ & Hc & _)]; rewrite Hc in Hr; [|by left].
    apply lookup_insert_Some in Hr as [[<- <-]|[_ Hr]]; [|by left]. right. exists sb. set_solver.
  - intros id r Hr. apply R4. destruct Hcase as [(_ & -> & _)|(_ & -> & _)]; [|done].
    rewrite lookup_insert_ne; [done|]. intros <-. by rewrite Hn in Hr.
  - intros b [->|Hb]%elem_of_cons; [|by apply R5].
    destruct Hcase as [(_ & Hc & _)|((d & Hd) & _ & _)].
    + left. apply R4. by rewrite Hc, lookup_insert_eq.
    + right. exists d. specialize (R2 d). specialize (Hle d). lia.
  - intros Hs.
    assert (∀ d, need d sb + sum_by (need d) l ≤ ResourcePool.remaining d (pool s)) as Hs' by exact Hs.
    pose proof (λ d, sum_need_nonneg d l Hts) as Hl.
    destruct Hcase as [(_ & Hc & Hrem)|((d & Hd) & _)]; [|specialize (Hs' d); specialize (Hl d); lia].
    intros b [->|Hb]%elem_of_cons; [apply R4; by rewrite Hc, lookup_insert_eq|].
    apply R6; [|done]. intros d. rewrite Hrem. specialize (Hs' d). lia.
Qed.

Lemma restore_loop l : ∀ s,
  inv None s → Forall typed l → NoDup (Sandbox.id <$> l) →
  Forall (λ sb, reservations s !! Sandbox.id sb = None) l →
  ∃ s', for_each restore_one l s = (s', Ok ()) ∧ restored l s s'.
Proof.
  induction l as [|sb l IH]; intros s Hi Ht Hd Hn.
  { exists s. split; [done|]. split; [done|lia|by left|done|set_solver..]. }
  apply Forall_cons in Ht as [Ht Hts]. apply Forall_cons in Hn as [Hn Hns].
  rewrite fmap_cons in Hd. apply NoDup_cons in Hd as [Hx Hd].
  destruct (restore_one_spec sb s Hi Ht Hn) as (s1 & Hs1 & Hi1 & Hcase).
  assert (Forall (λ sb, reservations s1 !! Sandbox.id sb = None) l) as Hn1.
  { apply Forall_forall. intros b Hb. rewrite Forall_forall in Hns.
    destruct Hcase as [(_ & -> & _)|(_ & -> & _)]; [|by apply Hns].
    rewrite lookup_insert_ne; [by apply Hns|]. intros He. apply Hx. rewrite He.
    by apply list_elem_of_fmap_2. }
  destruct (IH s1 Hi1 Hts Hd Hn1) as (s' & Hs' & [R1 R2 R3 R4 R5 R6]).
  exists s'. split. { cbn [for_each]. unfold mbind, stres_bind. by rewrite Hs1. }
  eapply restored_cons; [done..|]. by split.
Qed.

(** The rows that stand for a sandbox that is meant to be up. *)
Definition active_rows (m : abstract) : list Sandbox.t :=
  List.filter is_active (map_to_list m).*2.

Lemma active_content l : List.filter is_active (content <$> l) = content <$> List.filter is_active l.
Proof.
  induction l as [|sb l IH]; [done|]. rewrite fmap_cons. cbn [List.filter].
  change (is_active (content sb)) with (is_active sb).
  destruct (is_active sb); rewrite ?fmap_cons; by f_equal.
Qed.
Lemma sum_need_content d l : sum_by (need d) (content <$> l) = sum_by (need d) l.
Proof. unfold sum_by. by rewrite <-list_fmap_compose. Qed.

Lemma restored_view l s s1 s' : pool s1 = pool s → reservations s1 = reservations s →
  restored l s1 s' → restored l s s'.
Proof. intros Hp Hr [R1 R2 R3 R4 R5 R6]. rewrite ?Hp, ?Hr in *. by split. Qed.

Lemma restore_one_frames sb : frames sto (restore_one sb).
Proof.
  unfold restore_one. apply frames_bind; [apply frames_attempt; by apply frames_admit|].
  intros [r|e|]; [|apply frames_ret|apply frames_lift].
  apply frames_modify. intros s. unfold insert_reservation. by rewrite sto_drop.
Qed.

Lemma active_listed l (m : abstract) : map_Forall row_ok m →
  content <$> l ≡ₚ (map_to_list m).*2 →
  content <$> List.filter is_active l ≡ₚ active_rows m ∧
  Forall typed (List.filter is_active l) ∧ NoDup (Sandbox.id <$> List.filter is_active l).
Proof.
  intros Hm Hl.
  assert (NoDup (Sandbox.id <$> l)) as Hd by (rewrite (listed_ids m l Hm Hl); apply NoDup_fst_map_to_list).
  split_and!.
  - unfold active_rows. rewrite <-active_content. by rewrite Hl.
  - apply Forall_forall. intros sb Hsb.
    apply list_elem_of_In, filter_In in Hsb as [Hsb%list_elem_of_In _].
    apply (Hm _ _ (row_of_listed m l sb Hm Hl Hsb)).
  - clear -Hd. induction l as [|sb l IH]; [done|]. rewrite fmap_cons in Hd. apply NoDup_cons in Hd as [Hx Hd].
    simpl. destruct (is_active sb); [|by apply IH]. rewrite fmap_cons. apply NoDup_cons. split; [|by apply IH].
    intros (b & Hb & Hin)%list_elem_of_fmap. apply Hx. rewrite Hb. apply list_elem_of_fmap_2.
    by apply list_elem_of_In, filter_In in Hin as [?%list_elem_of_In _].
Qed.

Lemma restore_rows s : manage_resources = true → inv None s → reservations s = ∅ →
  (∃ s' e, restore_reservations s = (s', Err e) ∧ ¬ StoreUp ST) ∨
  ∃ l s', restore_reservations s = (s', Ok ()) ∧ abs (sto s') = abs (sto s) ∧
    content <$> l ≡ₚ active_rows (abs (sto s)) ∧ restored l s s'.
Proof.
  intros Hm [[Hwf Hrow] Hb] He. unfold restore_reservations, now, store_call, mbind, stres_bind. rewrite Hm. simpl.
  pose proof (list_law None (clk (reads s)) (sto s) Hwf) as Hl.
  pose proof (λ SU : StoreUp ST, list_up None (clk (reads s)) (sto s) Hwf) as Hup.
  destruct (list_sandboxes None (clk (reads s)) (sto s)) as [x r].
  destruct Hl as (Hwf' & Ha & [Hflt|(rows & -> & _ & Hp)]); simpl.
  { left. destruct r as [|e|]; [done| |done]. simpl. eexists _, _. split; [done|]. tauto. }
  right.
  rewrite all_statuses in Hp. destruct (active_listed rows _ Hrow Hp) as (Hact & Hty & Hnd).
  set (s1 := set_sto _ _).
  destruct (restore_loop (List.filter is_active rows) s1) as (s' & Hs' & Hres); [|done..| |].
  - split; [split; simpl; [done|by rewrite Ha]|eapply bal_frame; [|exact Hb]; reflexivity].
  - apply Forall_true. intros sb. unfold s1. simpl. by rewrite He.
  - exists (List.filter is_active rows), s'. split_and!; [done| |done|by apply (restored_view _ _ s1)].
    pose proof (frames_for_each sto restore_one (List.filter is_active rows) restore_one_frames s1) as Hf.
    rewrite Hs' in Hf. simpl in Hf. by rewrite Hf.
Qed.

(** An active row of the store is restored from, and every row restored from is one. *)
Lemma rows_of_active l (m : abstract) :
  map_Forall row_ok m → content <$> l ≡ₚ active_rows m →
  (∀ sb, sb ∈ l → m !! Sandbox.id sb = Some (content sb) ∧ is_active (content sb) = true) ∧
  (∀ id c, m !! id = Some c → is_active c = true → ∃ sb, sb ∈ l ∧ content sb = c ∧ Sandbox.id sb = id).
Proof.
  intros Hm Hl. split.
  - intros sb Hsb. apply (list_elem_of_fmap_2 content) in Hsb. rewrite Hl in Hsb.
    apply list_elem_of_In, filter_In in Hsb as [Hsb%list_elem_of_In Hac]. split; [|done].
    apply list_elem_of_fmap in Hsb as ([k c] & Hc & Hk). apply elem_of_map_to_list in Hk.
    destruct (Hm k c Hk) as [_ Hid]. simpl in Hc. rewrite Hc. subst c. by rewrite <-Hid in Hk.
  - intros id c Hc Hac. assert (c ∈ content <$> l) as Hx.
    { rewrite Hl. apply list_elem_of_In, filter_In. split; [|done]. apply list_elem_of_In, list_elem_of_fmap.
      exists (id, c). split; [done|]. by apply elem_of_map_to_list. }
    apply list_elem_of_fmap in Hx as (sb & -> & Hsb). exists sb. split_and!; [done..|].
    by destruct (Hm id _ Hc).
Qed.

Lemma boot_left mi mx x w n g e a d : Resources.well_typed cap → 0 ≤ max →
  ResourcePool.remaining d (pool (boot cap max mi mx x w n g e a)) = ResourcePool.limit cap max d.
Proof.
  intros (Hc1 & Hc2 & Hc3) Hm. unfold in_u16, in_u32 in *. unfold boot. simpl.
  destruct d; unfold ResourcePool.remaining, ResourcePool.limit; simpl; rewrite available_new; simpl; lia.
Qed.
End laws.

(** ** Properties *)

(** C2: a control plane that starts again over the store of an earlier run takes the
    permits of the sandboxes that are still active before it serves anything.  For a store
    whose active rows are all of this host (no row names a node, as the comment over the
    loop in [main.rs] means it; the loop itself does not look, see
    [a_remote_row_is_admitted]): the process ends because the store could not be read, or
    every reservation in the table belongs to an active row and holds what its
    specification asks for; an active row without one is a row there is no room for; when
    the host has room for all of them (whatever the order the rows come in), all of them
    have their reservation.  From there on, whatever requests, jobs, reaper ticks and
    reconciler passes follow, no permit is lost or held twice. *)
Theorem restart_restores_capacity {S : Semaphore} {SO : SemaphoreOk S} {ST : Store} {STO : StoreOk ST}
    {V : Vmm} {O : Os} {D : Deployment} {DO : ClockOk D} {A : Agent} {H : Sha256}
    {HO : HashOrder} {CE : CloudEnv} {W : Wire} {T : Timeouts} {C : Chrono} {CO : ChronoOk C}
    cpuinfo meminfo idle x w n g e a :
  manage_resources = true → store_wf x → map_Forall row_ok (abs x) →
  (∀ id c, abs x !! id = Some c → is_active c = true → Sandbox.node_id c = None) →
  let cap := host_capacity cpuinfo meminfo in
  let '(s, r) := start_control_plane cpuinfo meminfo idle x w n g e a in
  is_ok r = false ∧ ¬ StoreUp ST ∨
  r = Ok () ∧ abs (sto s) = abs x ∧
  (∀ id v, reservations s !! id = Some v → ∃ c, abs x !! id = Some c ∧ is_active c = true ∧ v = its_reservation c) ∧
  (∀ id c, abs x !! id = Some c → is_active c = true →
    reservations s !! id = Some (its_reservation c) ∨ no_room c s) ∧
  ((∀ d, sum_by (need d) (active_rows (abs x)) ≤ ResourcePool.limit cap 200 d) →
    ∀ id c, abs x !! id = Some c → is_active c = true → reservations s !! id = Some (its_reservation c)) ∧
  (∀ s' d, star step s s' →
    0 ≤ ResourcePool.remaining d (pool s') ∧
    ResourcePool.remaining d (pool s') + sum_map (weight d) (reservations s')
    + sum_by (λ t, weight_opt d (task_res t)) (tasks s') = ResourcePool.limit cap 200 d).
Proof.
  intros Hm Hwf Hrow _ cap. unfold start_control_plane.
  pose proof (boot_inv cap 200 (warm_min_idle idle) 300 x w n g e a (host_capacity_typed _ _)) as Hb.
  set (s0 := boot _ _ _ _ _ _ _ _ _ _) in *.
  destruct (restore_rows cap 200 s0 Hm) as [(s & er & -> & Hup)|(l & s & -> & Ha & Hl & [R1 R2 R3 R4 R5 R6])];
    [by apply Hb|done|by left|right].
  change (abs (sto s0)) with (abs x) in *. change (reservations s0) with (∅ : gmap string Reservation.t) in R3.
  destruct (rows_of_active l (abs x) Hrow Hl) as [Hin Hout].
  split_and!; [done|done| | | |].
  - intros id v Hv. apply R3 in Hv as [Hv|(sb & Hsb & <- & ->)]; [by rewrite lookup_empty in Hv|].
    exists (content sb). by destruct (Hin sb Hsb).
  - intros id c Hc Hac. destruct (Hout id c Hc Hac) as (sb & Hsb & <- & <-).
    exact (R5 sb Hsb).
  - intros Hfit id c Hc Hac. destruct (Hout id c Hc Hac) as (sb & Hsb & <- & <-).
    refine (R6 _ sb Hsb).
    intros d. rewrite <-sum_need_content, (sum_by_perm _ _ _ Hl).
    unfold s0. rewrite boot_left by (lia || apply host_capacity_typed). apply Hfit.
  - intros s' d Hs. assert (Capacity.inv cap 200 None s') as [_ Hbal].
    { eapply (star_invariant step); [intros; by eapply step_inv|exact Hs|done]. }
    pose proof (bal_left _ _ _ _ Hbal d). pose proof (bal_sum _ _ _ _ Hbal d) as Hsum. simpl in Hsum.
    split; [done|lia].
Qed.

(** A store an earlier run left: one sandbox runs, one has ended. *)
Module StartupDemo.
Import ControlDemo.
Definition row (id : string) (st : SandboxStatus.t) : Sandbox.t :=
  Sandbox.mk id SandboxSpec.default st 0 0 None None VmmMeta.default None None.
Definition left_behind : InMemoryStore.t :=
  InMemoryStore.mk {["sb-1"%string := row "sb-1" SandboxStatus.Running;
                     "sb-2"%string := row "sb-2" SandboxStatus.Stopped]} ∅ ∅.
Definition meminfo : string := "MemTotal:        2097152 kB" +:+ String LF "MemFree: 1024 kB".
Definition cpuinfo : string := "processor : 0" +:+ String LF "processor : 1".
Definition started : AppState * result () :=
  start_control_plane (Some cpuinfo) (Some meminfo) None left_behind (MemoryVmm.mk ∅ ∅ : world)
    ([] : os_world) (true : guest) (E2bControlPlane.control_plane_new (∅ : disk))
    Authenticator.new_production.

Lemma left_row_in_range id st : times_in_range (row id st).
Proof. unfold times_in_range, in_range, dt_min, dt_max, ns_per_sec. simpl. split_and!; (lia || done). Qed.
Lemma left_behind_wf : store_wf (left_behind : store).
Proof.
  change (map_Forall (λ _, times_in_range) (InMemoryStore.sandboxes left_behind)).
  apply map_Forall_insert_2; [apply left_row_in_range|]. apply map_Forall_singleton, left_row_in_range.
Qed.
Lemma left_behind_rows : map_Forall row_ok (abs (left_behind : store)).
Proof.
  change (map_Forall row_ok (content <$> InMemoryStore.sandboxes left_behind)).
  unfold left_behind. simpl. rewrite fmap_insert, map_fmap_singleton.
  apply map_Forall_insert_2; [|apply map_Forall_singleton];
    (split; [exact CapacityDemo.default_typed|done]).
Qed.
Lemma left_behind_local id c :
  abs (left_behind : store) !! id = Some c → is_active c = true → Sandbox.node_id c = None.
Proof.
  intros Hc _. apply lookup_fmap_Some in Hc as (sb & <- & Hsb).
  unfold left_behind in Hsb. simpl in Hsb. apply lookup_insert_Some in Hsb as [[_ <-]|[_ Hsb]]; [done|].
  apply lookup_singleton_Some in Hsb as [_ <-]. done.
Qed.

(** A row of a remote node takes permits of this host all the same, although its node keeps
    a pool of its own. *)
Definition remote : InMemoryStore.t :=
  InMemoryStore.mk {["sb-1"%string :=
    set_node (Some "node-1"%string) (row "sb-1" SandboxStatus.Running)]} ∅ ∅.
Lemma a_remote_row_is_admitted :
  dom (reservations (start_control_plane (Some cpuinfo) (Some meminfo) None remote
    (MemoryVmm.mk ∅ ∅ : world) ([] : os_world) (true : guest)
    (E2bControlPlane.control_plane_new (∅ : disk)) Authenticator.new_production).1) = {["sb-1"%string]}.
Proof. vm_compute. reflexivity. Qed.
End StartupDemo.

(** Two processors, of which the running sandbox has one again. *)
Lemma restart_restores_capacity_witness :
  host_capacity (Some StartupDemo.cpuinfo) (Some StartupDemo.meminfo)
  = Resources.mk 2 2048 102400 None None (Some 512) ∧
  dom (reservations StartupDemo.started.1) = {["sb-1"%string]} ∧
  ResourcePool.remaining ResourcePool.Vcpu (pool StartupDemo.started.1) = 1 ∧
  StartupDemo.started.2 = Ok () ∧
  ResourcePool.remaining ResourcePool.Vcpu (pool StartupDemo.started.1)
  + sum_map (weight ResourcePool.Vcpu) (reservations StartupDemo.started.1)
  + sum_by (λ t, weight_opt ResourcePool.Vcpu (task_res t)) (tasks StartupDemo.started.1) = 2.
Proof.
  split; [vm_compute; reflexivity|]. split; [vm_compute; reflexivity|].
  split; [vm_compute; reflexivity|].
  pose proof (restart_restores_capacity (Some StartupDemo.cpuinfo) (Some StartupDemo.meminfo) None
    StartupDemo.left_behind (MemoryVmm.mk ∅ ∅ : world) ([] : os_world) (true : guest)
    (E2bControlPlane.control_plane_new (∅ : disk)) Authenticator.new_production
    eq_refl StartupDemo.left_behind_wf StartupDemo.left_behind_rows StartupDemo.left_behind_local) as Hp.
  unfold StartupDemo.started.
  destruct (start_control_plane _ _ _ _ _ _ _ _ _) as [s r]. destruct Hp as [[_ Hup]|(Hr & _ & _ & _ & _ & Hstar)];
    [destruct (Hup InMemoryStore.impl_up)|].
  split; [exact Hr|]. exact (proj2 (Hstar s ResourcePool.Vcpu (star_refl _ s))).
Defined.
