(* ===== verification/NodeRegistry.v ===== *)
(** * A node's report and the rows of the store ([upsert_node] of
    [crates/clouisle-api/src/handlers/nodes.rs])

    What a heartbeat does to the rows: those the node reports become the node's, those
    of the node it no longer reports are given up, and nothing else changes. *)

From S2P Require Import Prelude Core SandboxModel Admission Vmm Pool Proto Guest Digest Dns Net.
From S2P Require Import Store Json Auth E2bCloud Processes E2bModel AppState Lifecycle E2bHandlers.
From S2P Require Import CloudHandlers ApiHandlers Control Capacity Requests.

(** The rows a report names, and the rows it gives up. *)
Definition on_ids (f : Sandbox.t → Sandbox.t) (ids : list string) (c : Sandbox.t) : Sandbox.t :=
  if bool_decide (Sandbox.id c ∈ ids) then f c else c.
Definition given_up (c : Sandbox.t) : Sandbox.t :=
  set_message (Some "node heartbeat no longer reports this sandbox"%string)
    (set_status SandboxStatus.Error c).
Definition settled (n : RegisteredNode.t) (c : Sandbox.t) : Sandbox.t :=
  if bool_decide (Sandbox.id c ∈ RegisteredNode.sandbox_ids n)
  then set_node (Some (NodeInfo.node_id (RegisteredNode.info n))) c
  else if lost_row n c then given_up c else c.

Lemma updates_fmap m m' i f r : map_Forall row_ok m → is_Some (m !! i) → updated m m' i f r →
  r = Ok () ∧ m' = (λ c, if bool_decide (Sandbox.id c = i) then f c else c) <$> m.
Proof.
  intros Hk [c Hc]. unfold updated. rewrite Hc. intros [-> ->]. split; [done|].
  apply map_eq. intros j. rewrite lookup_fmap. destruct (decide (i = j)) as [<-|Hj].
  - rewrite lookup_insert_eq, Hc. simpl. by rewrite bool_decide_true by exact (proj2 (Hk _ _ Hc)).
  - rewrite lookup_insert_ne by done. destruct (m !! j) as [d|] eqn:Hd; [|done]. simpl.
    rewrite bool_decide_false; [done|]. destruct (Hk _ _ Hd). naive_solver.
Qed.

Lemma row_ok_fmap (f : Sandbox.t → Sandbox.t) (m : abstract) :
  (∀ c, Sandbox.spec (f c) = Sandbox.spec c ∧ Sandbox.id (f c) = Sandbox.id c) →
  map_Forall row_ok m → map_Forall row_ok (f <$> m).
Proof.
  intros Hf Hk i c. rewrite lookup_fmap. destruct (m !! i) as [d|] eqn:Hd; intros [= <-].
  unfold row_ok, typed. destruct (Hf d) as [-> ->]. exact (Hk _ _ Hd).
Qed.
Lemma fmap_rows_id (f : Sandbox.t → Sandbox.t) (m : abstract) :
  map_Forall (λ _ c, f c = c) m → f <$> m = m.
Proof.
  intros Hf. apply map_eq. intros i. rewrite lookup_fmap. destruct (m !! i) as [c|] eqn:Hc; [|done].
  simpl. by rewrite (Hf _ _ Hc).
Qed.
Lemma fmap_twice (f g h : Sandbox.t → Sandbox.t) (m : abstract) :
  (∀ c, g (f c) = h c) → g <$> (f <$> m) = h <$> m.
Proof. intros Hg. rewrite <-map_fmap_compose. apply map_fmap_ext. intros. apply Hg. Qed.

Lemma if_bool_decide_ext {B} (P Q : Prop) `{!Decision P, !Decision Q} (x y : B) :
  (P ↔ Q) → (if bool_decide P then x else y) = (if bool_decide Q then x else y).
Proof. intros HPQ. by rewrite (bool_decide_ext _ _ HPQ). Qed.

Lemma on_ids_cons f i ids c :
  (∀ c, Sandbox.id (f c) = Sandbox.id c) → (∀ c, f (f c) = f c) →
  on_ids f ids (on_ids f [i] c) = on_ids f (i :: ids) c.
Proof.
  intros Hid Hf. unfold on_ids. destruct (decide (Sandbox.id c = i)) as [<-|Hi].
  - rewrite !(bool_decide_true (_ ∈ _ :: _)) by set_solver. case_bool_decide; by rewrite ?Hf.
  - rewrite (bool_decide_false (_ ∈ [_])) by set_solver. apply if_bool_decide_ext. set_solver.
Qed.

Section registry.
Context {S : Semaphore} {ST : Store} {STO : StoreOk ST} {V : Vmm}
  {O : Os} {D : Deployment} {DO : ClockOk D} {A : Agent} {H : Sha256}
  {HO : HashOrder} {CE : CloudEnv}.

(** *** Whatever the store does: each row is as it was or settled *)

Section midway.
Context (n : RegisteredNode.t) (s0 : AppState) (Hs0 : rows_ok s0).

Record midway (s : AppState) : Prop := {
  mid_ok : rows_ok s;
  mid_dom : dom (abs (sto s)) = dom (abs (sto s0));
  mid_row i c : abs (sto s0) !! i = Some c →
    abs (sto s) !! i = Some c ∨ abs (sto s) !! i = Some (settled n c);
  mid_res i : AppState.reservations s !! i = AppState.reservations s0 !! i ∨
    AppState.reservations s !! i = None ∧
    ∃ c, abs (sto s0) !! i = Some c ∧ lost_row n c = true ∧ abs (sto s) !! i = Some (settled n c) }.

Lemma midway_frame s s' :
  abs (sto s') = abs (sto s) → store_wf (sto s') → AppState.reservations s' = AppState.reservations s →
  midway s → midway s'.
Proof.
  intros Ha Hwf Hr [[_ H1] H2 H3 H4]. split; [split; [done|]| | |]; by rewrite ?Ha, ?Hr.
Qed.
Lemma midway_frames {B} (m : handler B) : frames (λ s, (sto s, AppState.reservations s)) m →
  keeps midway m (λ _, True).
Proof.
  intros Hm. eapply keeps_frames; [exact Hm|]. intros s s' [= H1 H2] Hs.
  apply (midway_frame s); rewrite ?H1, ?H2; try done. apply Hs.
Qed.

(** One row is written, to what it is to become. *)
Lemma midway_insert s x i c c' :
  midway s → abs (sto s0) !! i = Some c → abs (sto s) !! i = Some c' → store_wf x →
  abs x = <[i := settled n c]> (abs (sto s)) → midway (set_sto x s).
Proof.
  intros [[Hwf H1] H2 H3 H4] Hc Hc' Hx Ha. split; simpl; rewrite ?Ha.
  - split; simpl; [done|]. rewrite Ha. apply map_Forall_insert_2; [|done].
    destruct (proj2 Hs0 i c Hc) as [Ht Hid]. unfold row_ok, settled, typed. repeat case_match; done.
  - rewrite dom_insert_L, <-H2. apply (elem_of_dom_2 (D := gset string)) in Hc'. set_solver.
  - intros j d Hd. destruct (decide (i = j)) as [<-|Hj].
    + rewrite lookup_insert_eq. right. congruence.
    + rewrite lookup_insert_ne by done. by apply H3.
  - intros j. destruct (H4 j) as [?|(? & d & Hd & Hl & Hr)]; [by left|right].
    split; [done|]. exists d. split_and!; [done..|]. destruct (decide (i = j)) as [<-|Hj].
    + rewrite lookup_insert_eq. congruence.
    + by rewrite lookup_insert_ne.
Qed.

Lemma midway_node i t :
  i ∈ RegisteredNode.sandbox_ids n → in_range t →
  keeps midway (store_call (update_sandbox_node i (Some (NodeInfo.node_id (RegisteredNode.info n))) t))
    (λ _, True).
Proof.
  intros Hi Ht s Hs. pose proof (node_law i (Some (NodeInfo.node_id (RegisteredNode.info n))) t
    (sto s) (proj1 (mid_ok _ Hs)) Ht) as Hl.
  unfold store_call. destruct (update_sandbox_node _ _ _ _) as [x r]. destruct Hl as [Hwf Hu].
  split; [|done]. simpl. destruct Hu as [[_ Ha]|Hu]; [by apply (midway_frame s)|].
  unfold updated in Hu. destruct (abs (sto s) !! i) as [c'|] eqn:Hc';
    [|destruct Hu as [Ha _]; by apply (midway_frame s)].
  destruct Hu as [Ha _].
  assert (is_Some (abs (sto s0) !! i)) as [c Hc].
  { apply elem_of_dom. rewrite <-(mid_dom _ Hs). by apply elem_of_dom_2 in Hc'. }
  eapply (midway_insert s x i c c'); [done..|]. rewrite Ha. f_equal.
  assert (settled n c = set_node (Some (NodeInfo.node_id (RegisteredNode.info n))) c) as Hst.
  { unfold settled. destruct (proj2 Hs0 i c Hc) as [_ ->]. by rewrite bool_decide_true. }
  destruct (mid_row _ Hs i c Hc) as [Hr|Hr]; rewrite Hr in Hc'; injection Hc' as <-; by rewrite Hst.
Qed.

Lemma settled_lost c : lost_row n c = true → settled n c = given_up c.
Proof.
  intros Hl. unfold settled. rewrite Hl. case_bool_decide as Hi; [|done].
  unfold lost_row in Hl. by rewrite (bool_decide_true _ Hi), andb_false_r in Hl.
Qed.
Lemma lost_settled c : lost_row n (settled n c) = true → lost_row n c = true.
Proof.
  unfold settled. case_bool_decide as Hi.
  - unfold lost_row at 1. simpl. by rewrite (bool_decide_true _ Hi), andb_false_r.
  - destruct (lost_row n c) eqn:Hl; [done|]. by rewrite Hl.
Qed.

(** A row that is listed and not reported was so from the start. *)
Definition truly_lost (sb : Sandbox.t) : Prop :=
  ∃ c, abs (sto s0) !! Sandbox.id sb = Some c ∧ lost_row n c = true.

Lemma midway_list t : keeps midway (store_call (list_sandboxes None t))
  (λ rows, Forall truly_lost (List.filter (lost_row n) rows)).
Proof.
  intros s Hs. destruct (mid_ok _ Hs) as [Hwf Hm]. pose proof (list_law None t (sto s) Hwf) as Hl.
  unfold store_call. destruct (list_sandboxes None t (sto s)) as [x r]. destruct Hl as (Hwf' & Ha & Hl).
  split; [by apply (midway_frame s)|]. destruct Hl as [Hf|(rows & -> & _ & Hp)]; [by destruct r|].
  intros b [= <-]. rewrite all_statuses in Hp. apply Forall_forall.
  intros sb [Hsb%list_elem_of_In Hlost]%list_elem_of_In%filter_In.
  pose proof (row_of_listed _ _ _ Hm Hp Hsb) as Hrow.
  assert (is_Some (abs (sto s0) !! Sandbox.id sb)) as [c Hc].
  { apply elem_of_dom. rewrite <-(mid_dom _ Hs). by apply elem_of_dom_2 in Hrow. }
  exists c. split; [done|]. change (lost_row n (content sb) = true) in Hlost.
  destruct (mid_row _ Hs _ _ Hc) as [Hr|Hr]; rewrite Hrow in Hr; injection Hr as Hr;
    rewrite Hr in Hlost; [done|by apply lost_settled].
Qed.

Lemma midway_abandon sb : truly_lost sb → keeps midway (abandon_row sb) (λ _, True).
Proof.
  intros (c & Hc & Hlost). unfold abandon_row. intros s Hs. split; [|done].
  unfold mbind, stres_bind, now, store_call. simpl.
  pose proof (status_message_law (Sandbox.id sb) SandboxStatus.Error
    (Some "node heartbeat no longer reports this sandbox"%string) (clk (reads s)) (sto s)
    (proj1 (mid_ok _ Hs)) (clk_in_range _)) as Hl.
  destruct (update_sandbox_status_message _ _ _ _ _) as [x r]. destruct Hl as [Hwf Hu].
  destruct Hu as [[Hf Ha]|Hu]; [destruct r; [done| |done]; by apply (midway_frame s)|].
  pose proof (settled_lost c Hlost) as Hst.
  assert (∃ c', abs (sto s) !! Sandbox.id sb = Some c' ∧ given_up c' = settled n c) as (c' & Hc' & Hg).
  { destruct (mid_row _ Hs _ _ Hc) as [Hr|Hr]; eexists; (split; [exact Hr|]); by rewrite Hst. }
  unfold updated in Hu. rewrite Hc' in Hu. destruct Hu as [Ha ->]. simpl.
  assert (midway (set_sto x (set_reads (Datatypes.S (reads s)) s))) as Hs1.
  { apply (midway_insert (set_reads (Datatypes.S (reads s)) s) x (Sandbox.id sb) c c'); try done;
      [by apply (midway_frame s); try apply Hs|]. rewrite Ha. by rewrite <-Hg. }
  destruct (remove_reservation_fields (Sandbox.id sb) (set_sto x (set_reads (Datatypes.S (reads s)) s)))
    as (Hst1 & _ & _ & _ & _ & _ & Hres).
  destruct Hs1 as [H1 H2 H3 H4]. split; unfold rows_ok; rewrite ?Hst1; try done.
  intros i. rewrite ?Hst1, Hres. destruct (decide (i = Sandbox.id sb)) as [->|Hi].
  - rewrite lookup_delete_eq. right. split; [done|]. exists c. split_and!; [done..|]. simpl.
    rewrite Ha, lookup_insert_eq. by rewrite <-Hg.
  - rewrite lookup_delete_ne by done. apply H4.
Qed.

Lemma midway_adopt i : i ∈ RegisteredNode.sandbox_ids n →
  keeps midway (adopt_row (NodeInfo.node_id (RegisteredNode.info n)) i) (λ _, True).
Proof.
  intros Hi. unfold adopt_row, fetch. eapply keeps_bind.
  { apply keeps_attempt. eapply keeps_bind; [apply midway_frames; frame|intros t _].
    intros s Hs. pose proof (get_law i t (sto s) (proj1 (mid_ok _ Hs))) as Hl. unfold store_call.
    destruct (get_sandbox i t (sto s)) as [x r]. destruct Hl as (Hwf & Ha & _).
    split; [by apply (midway_frame s)|]. by instantiate (1 := λ _, True). }
  intros [sb|e|] _; try (by apply keeps_ret). apply keeps_when.
  eapply (keeps_bind _ _ _ in_range); [|intros t Ht; by apply midway_node].
  intros s Hs. split; [by apply (midway_frame s); try apply Hs|]. intros t [= <-]. apply clk_in_range.
Qed.

(** However the store behaves, and whatever the answer. *)
Lemma register_midway : keeps midway (register_node n) (λ _, True).
Proof.
  unfold register_node. destruct (is_empty _); [apply keeps_fail|].
  apply (keeps_bind _ _ _ (λ _, True)).
  { intros s Hs. pose proof (upsert_node_law n (sto s) (proj1 (mid_ok _ Hs))) as Hl. unfold store_call.
    destruct (upsert_node n (sto s)) as [x r]. destruct Hl as [Hwf Ha]. split; [|done].
    by apply (midway_frame s). }
  intros _ _. apply (keeps_bind _ _ _ (λ _, True)).
  { eapply keeps_for_each; [apply Forall_forall; intros i Hi; exact Hi|]. apply midway_adopt. }
  intros _ _. apply (keeps_bind _ _ _ (λ _, True)); [apply midway_frames; frame|intros t _].
  eapply keeps_bind; [apply midway_list|intros rows Hrows].
  apply (keeps_bind _ _ _ (λ _, True)); [|intros; by apply keeps_ret].
  eapply keeps_for_each; [exact Hrows|]. apply midway_abandon.
Qed.

Lemma midway_start : midway s0.
Proof. split; [done|done|by left|by left]. Qed.
End midway.

(** *** A store that is up *)

Context {SU : StoreUp ST}.

(** [m] ends with the rows changed by [f], the reservations by [g]. *)
Definition rewrites {B} (m : handler B) (s : AppState) (b : B) (f : Sandbox.t → Sandbox.t)
    (g : gmap string Reservation.t → gmap string Reservation.t) : Prop :=
  ∃ s', m s = (s', Ok b) ∧ rows_ok s' ∧ abs (sto s') = f <$> abs (sto s) ∧
    reservations s' = g (reservations s).

Lemma adopt_row_spec node i s :
  rows_ok s → rewrites (adopt_row node i) s () (on_ids (set_node (Some node)) [i]) id.
Proof.
  intros [Hwf Hk]. unfold rewrites, adopt_row, fetch, now, store_call, attempt, mbind, stres_bind. simpl.
  pose proof (get_answers i (clk (reads s)) (sto s) Hwf) as Hg.
  destruct (get_sandbox i (clk (reads s)) (sto s)) as [x r]. destruct Hg as (Hwf1 & Ha1 & Hg).
  destruct (abs (sto s) !! i) as [c|] eqn:Hc.
  - destruct Hg as (sb & -> & Hcs & _). simpl.
    assert (Sandbox.node_id sb = Sandbox.node_id c) as Hn by (by rewrite <-Hcs).
    destruct (decide (Sandbox.node_id sb = Some node)) as [He|He].
    + rewrite ?bool_decide_true by done. simpl. eexists. split; [reflexivity|].
      split; [split; simpl; [done|by rewrite Ha1]|]. split; [|done]. simpl. rewrite Ha1.
      symmetry. apply fmap_rows_id. intros k d Hd. unfold on_ids. case_bool_decide as Hi; [|done].
      apply list_elem_of_singleton in Hi. destruct (Hk _ _ Hd) as [_ Hkd].
      rewrite <-Hkd, Hi in Hd. simplify_eq.
      unfold set_node, content. simpl. by rewrite He.
    + rewrite ?bool_decide_false by done. unfold when. simpl.
      pose proof (node_answers i (Some node) (clk (Datatypes.S (reads s))) x Hwf1 (clk_in_range _)) as Hu.
      destruct (update_sandbox_node i (Some node) (clk (Datatypes.S (reads s))) x) as [x2 r2].
      destruct Hu as [Hwf2 Hu]. rewrite Ha1 in Hu.
      apply updates_fmap in Hu as [-> Hm]; [|done|by exists c]. simpl.
      eexists. split; [reflexivity|]. split; [split; simpl; [done|]|split; [|done]]; simpl; rewrite Hm.
      * apply row_ok_fmap; [|done]. intros d. by case_bool_decide.
      * apply map_fmap_ext. intros k d _. unfold on_ids. apply if_bool_decide_ext.
        by rewrite list_elem_of_singleton.
  - destruct Hg as [msg ->]. simpl. eexists. split; [reflexivity|].
    split; [split; simpl; [done|by rewrite Ha1]|]. split; [|done]. simpl. rewrite Ha1.
    symmetry. apply fmap_rows_id. intros k d Hd. unfold on_ids. case_bool_decide as Hi; [|done].
    apply list_elem_of_singleton in Hi. destruct (Hk _ _ Hd) as [_ Hkd].
    by rewrite <-Hkd, Hi, Hc in Hd.
Qed.

Lemma rewrites_bind {B E} (m : handler B) (k : B → handler E) s b e f f' f'' g g' g'' :
  rewrites m s b f g → (∀ s', rows_ok s' → rewrites (k b) s' e f' g') →
  (∀ c, f' (f c) = f'' c) → (∀ r, g' (g r) = g'' r) →
  rewrites (m ≫= k) s e f'' g''.
Proof.
  intros (s1 & Hm & Hs1 & Ha1 & Hr1) Hk Hf Hg. destruct (Hk s1 Hs1) as (s2 & Hk2 & Hs2 & Ha2 & Hr2).
  exists s2. split; [unfold mbind, stres_bind; by rewrite Hm|]. split; [done|].
  split; [rewrite Ha2, Ha1; by apply fmap_twice|by rewrite Hr2, Hr1].
Qed.

Lemma adopt_rows_spec node ids : ∀ s,
  rows_ok s → rewrites (for_each (adopt_row node) ids) s () (on_ids (set_node (Some node)) ids) (λ r, r).
Proof.
  induction ids as [|i ids IH]; intros s Hs.
  - exists s. split; [done|]. split; [done|]. split; [|done]. symmetry. by apply map_fmap_id.
  - cbn [for_each]. eapply rewrites_bind; [by apply adopt_row_spec|intros s' Hs'; by apply IH| |done].
    intros c. by apply on_ids_cons.
Qed.

Lemma abandon_row_spec sb s : rows_ok s → is_Some (abs (sto s) !! Sandbox.id sb) →
  rewrites (abandon_row sb) s () (on_ids given_up [Sandbox.id sb]) (delete (Sandbox.id sb)).
Proof.
  intros [Hwf Hk] Hrow. unfold rewrites, abandon_row, now, store_call, mbind, stres_bind. simpl.
  pose proof (status_message_answers (Sandbox.id sb) SandboxStatus.Error
    (Some "node heartbeat no longer reports this sandbox"%string) (clk (reads s)) (sto s) Hwf (clk_in_range _)) as Hu.
  destruct (update_sandbox_status_message _ _ _ _ _) as [x r]. destruct Hu as [Hwf1 Hu].
  apply updates_fmap in Hu as [-> Hm]; [|done..]. simpl.
  eexists. split; [reflexivity|]. set (s1 := set_sto _ _).
  destruct (remove_reservation_fields (Sandbox.id sb) s1) as (Hst & _ & _ & _ & _ & _ & Hres).
  unfold rows_ok. rewrite Hst, Hres. unfold s1. simpl. rewrite Hm. split; [split; [done|]|split; [|done]].
  - apply row_ok_fmap; [|done]. intros d. by case_bool_decide.
  - apply map_fmap_ext. intros k d _. unfold on_ids. apply if_bool_decide_ext.
    by rewrite list_elem_of_singleton.
Qed.

Lemma abandon_rows_spec l : ∀ s,
  rows_ok s → Forall (λ sb, is_Some (abs (sto s) !! Sandbox.id sb)) l →
  rewrites (for_each abandon_row l) s () (on_ids given_up (Sandbox.id <$> l))
    (λ r, foldl (λ r i, delete i r) r (Sandbox.id <$> l)).
Proof.
  induction l as [|sb l IH]; intros s Hs Hl.
  - exists s. split; [done|]. split; [done|]. split; [|done]. symmetry. by apply map_fmap_id.
  - apply Forall_cons in Hl as [Hsb Hl].
    destruct (abandon_row_spec sb s Hs Hsb) as (s1 & Hm & Hs1 & Ha1 & Hr1).
    destruct (IH s1 Hs1) as (s2 & Hk2 & Hs2 & Ha2 & Hr2).
    { eapply Forall_impl; [exact Hl|]. intros b Hb. by rewrite Ha1, lookup_fmap, fmap_is_Some. }
    exists s2. cbn [for_each]. split; [unfold mbind, stres_bind; by rewrite Hm|]. split; [done|].
    rewrite fmap_cons. split; [|by rewrite Hr2, Hr1].
    rewrite Ha2, Ha1. apply fmap_twice. intros c. by apply on_ids_cons.
Qed.

Lemma lookup_deletes {B} ids : ∀ (r : gmap string B) i,
  foldl (λ r i, delete i r) r ids !! i = if bool_decide (i ∈ ids) then None else r !! i.
Proof.
  induction ids as [|j ids IH]; intros r i; [done|]. simpl. rewrite IH.
  destruct (decide (i = j)) as [->|Hj].
  - rewrite (bool_decide_true (_ ∈ _ :: _)) by set_solver. rewrite lookup_delete_eq. by case_bool_decide.
  - rewrite lookup_delete_ne by done. apply if_bool_decide_ext. set_solver.
Qed.

(** The rows a report gives up, by their ids. *)
Lemma lost_ids n (m : abstract) l c i :
  map_Forall row_ok m → content <$> l ≡ₚ (map_to_list m).*2 → m !! i = Some c →
  i ∈ Sandbox.id <$> List.filter (lost_row n) l ↔ lost_row n c = true.
Proof.
  intros Hm Hp Hc. rewrite list_elem_of_fmap. split.
  - intros (sb & -> & [Hsb%list_elem_of_In Hlost]%list_elem_of_In%filter_In).
    rewrite (row_of_listed m l sb Hm Hp Hsb) in Hc. by simplify_eq.
  - intros Hlost. destruct (listed_of_row m l i c Hm Hp Hc) as (sb & Hsb & <- & Hid). exists sb.
    split; [done|]. apply list_elem_of_In, filter_In. split; [by apply list_elem_of_In|done].
Qed.

(** [m] answers [204] with the rows the report no longer names given up. *)
Definition swept (n : RegisteredNode.t) (s s' : AppState) : Prop :=
  rows_ok s' ∧
  abs (sto s') = (λ c, if lost_row n c then given_up c else c) <$> abs (sto s) ∧
  ∀ i, reservations s' !! i =
    if lost_row n <$> abs (sto s) !! i is Some true then None else reservations s !! i.

Lemma sweep_spec n s : rows_ok s →
  ∃ s', (t ← now;
         rows ← store_call (list_sandboxes None t);
         _ ← for_each abandon_row (List.filter (lost_row n) rows);
         mret (M := stres AppState ClouisleError.t) 204) s = (s', Ok 204) ∧ swept n s s'.
Proof.
  intros [Hwf Hm]. unfold now, store_call, mbind, stres_bind. simpl.
  pose proof (list_answers None (clk (reads s)) (sto s) Hwf) as Hl.
  destruct (list_sandboxes None (clk (reads s)) (sto s)) as [x r].
  destruct Hl as (Hwf' & Ha & rows & -> & _ & Hp). rewrite all_statuses in Hp. simpl.
  set (s1 := set_sto _ _).
  destruct (abandon_rows_spec (List.filter (lost_row n) rows) s1) as (s' & Hs' & Hok & Habs & Hres).
  { split; simpl; [done|by rewrite Ha]. }
  { apply Forall_forall. intros sb [Hsb%list_elem_of_In _]%list_elem_of_In%filter_In. simpl.
    rewrite Ha. eexists. by eapply row_of_listed. }
  exists s'. rewrite Hs'. split; [done|]. split; [done|]. split.
  - rewrite Habs. simpl. rewrite Ha. apply map_fmap_ext. intros i c Hc. unfold on_ids.
    destruct (Hm i c Hc) as [_ Hid]. subst i. pose proof (lost_ids n _ _ _ _ Hm Hp Hc) as Hi.
    case_bool_decide; destruct (lost_row n c); naive_solver.
  - intros i. rewrite Hres, lookup_deletes. simpl. destruct (abs (sto s) !! i) as [c|] eqn:Hc; simpl.
    + pose proof (lost_ids n _ _ _ _ Hm Hp Hc) as Hi.
      case_bool_decide; destruct (lost_row n c); naive_solver.
    + rewrite bool_decide_false; [done|].
      intros (sb & -> & [Hsb%list_elem_of_In _]%list_elem_of_In%filter_In)%list_elem_of_fmap.
      by rewrite (row_of_listed _ _ _ Hm Hp Hsb) in Hc.
Qed.

Lemma lost_adopted n c :
  let ids := RegisteredNode.sandbox_ids n in
  let c' := on_ids (set_node (Some (NodeInfo.node_id (RegisteredNode.info n)))) ids c in
  lost_row n c' = lost_row n c ∧ (if lost_row n c' then given_up c' else c') = settled n c.
Proof.
  simpl. unfold settled, on_ids. case_bool_decide as Hi; [|done]. unfold lost_row. simpl.
  rewrite (bool_decide_true (_ ∈ _)) by done. by rewrite !andb_false_r.
Qed.

(** An answered report rewrites the rows as [settled] says and drops the reservations of
    the rows it gives up; a report that is refused changes neither. *)
Lemma register_settles n s :
  rows_ok s →
  let '(s', r) := register_node n s in
  match r with
  | Ok code => code = 204 ∧ rows_ok s' ∧ abs (sto s') = settled n <$> abs (sto s) ∧
    ∀ i, reservations s' !! i =
      if lost_row n <$> abs (sto s) !! i is Some true then None else reservations s !! i
  | _ => abs (sto s') = abs (sto s) ∧ reservations s' = reservations s
  end.
Proof.
  intros [Hwf Hm]. unfold register_node. destruct (is_empty (RegisteredNode.endpoint n)); [done|].
  set (rest := λ _ : (), _). unfold mbind at 1, stres_bind at 1, store_call.
  pose proof (upsert_node_law n (sto s) Hwf) as Hu.
  destruct (upsert_node n (sto s)) as [x r]. destruct Hu as [Hwf1 Ha1].
  destruct r as [[]|e|]; cbn [map_err]; [|done..]. set (s1 := set_sto x s).
  destruct (adopt_rows_spec (NodeInfo.node_id (RegisteredNode.info n)) (RegisteredNode.sandbox_ids n) s1)
    as (s2 & Hs2 & Hok2 & Ha2 & Hr2); [by split; simpl; [|rewrite Ha1]|].
  destruct (sweep_spec n s2 Hok2) as (s3 & Hs3 & Hok3 & Ha3 & Hr3).
  assert (rest () s1 = (s3, Ok 204)) as ->.
  { unfold rest. unfold mbind at 1, stres_bind at 1. by rewrite Hs2. }
  change (abs (sto s1)) with (abs x) in Ha2. rewrite Ha1 in Ha2.
  split_and!; [done..| |].
  - rewrite Ha3, Ha2. apply fmap_twice. intros c. apply lost_adopted.
  - intros i. rewrite Hr3, Ha2, lookup_fmap, Hr2. destruct (abs (sto s) !! i) as [c|]; [|done]. simpl.
    by destruct (lost_adopted n c) as [-> _].
Qed.
End registry.
