(* ===== verification/GuestAgent.v ===== *)
(** * The agent inside the guest ([crates/clouisle-agent/src/{serve,limits,init}.rs])

    PID 1 of a sandbox: it reads frames from the host, runs commands, keeps the
    processes it was asked to start in a registry, moves bytes between them and the
    host, and reads and writes files.

    The operating system is the class [GuestOs] over an opaque world.  A connection
    is served frame by frame; what the code spawns (the pump of a process, its two
    readers, a kill timer) becomes an entry of [tasks] and runs in any order. *)

From S2P Require Import Prelude Core SandboxModel Proto Net.

(** ** The operating system of a guest *)

Inductive stdio (fd : Type) : Type := Inherit | Null | Piped | FromFd (d : fd).
Arguments Inherit {fd}. Arguments Null {fd}. Arguments Piped {fd}. Arguments FromFd {fd} d.

(** [tokio::process::Command], with [process_group(0)] and the [setsid] of
    [pre_exec]. *)
Record command (fd : Type) : Type := Command {
  argv : list string; env : gmap string string; cwd : option string;
  c_stdin : stdio fd; c_stdout : stdio fd; c_stderr : stdio fd;
  own_group : bool; own_session : bool }.
Arguments Command {fd}. Arguments argv {fd}. Arguments env {fd}. Arguments cwd {fd}.
Arguments c_stdin {fd}. Arguments c_stdout {fd}. Arguments c_stderr {fd}.
Arguments own_group {fd}. Arguments own_session {fd}.

(** [fs::Metadata]: [modified] is in seconds since the epoch, where the platform
    knows it. *)
Record metadata : Set := Metadata { m_len : Z; m_mode : Z; modified : option Z; m_is_dir : bool }.

(** An entry of a directory: its name, lossily decoded, and what [stat] says. *)
Record dir_item : Set := DirItem { file_name : string; item_metadata : string + metadata }.

(** What [mount] can answer. *)
Inductive mounted : Set := Mounted | MountBusy | MountFailed (e : string).

(** [read] on the master side of a terminal, once it was said to be readable. *)
Inductive master_read : Type := MasterChunk (b : Bytes) | MasterWouldBlock | MasterFailed.

(** [std::io::Result]: the text of the error, or the value. *)
Abbreviation io A := (string + A)%type.

Class GuestOs : Type := {
  os : Type; child : Type; fd : Type;
  (** Files. *)
  fs_create_dir_all : string → os → os * io ();
  fs_write : string → Bytes → os → os * io ();
  fs_set_mode : string → Z → os → os * io ();
  fs_read : string → os → io Bytes;
  fs_read_to_string : string → os → io string;
  fs_read_dir : string → os → io (list (io dir_item));
  fs_remove_file : string → os → os * io ();
  fs_mount : string → string → string → os → os * mounted;
  own_pid : os → Z;
  (** Processes.  [proc_wait_within] is [None] when the limit passed first.
      [proc_exited]: the process has ended, so that waiting for it returns.
      [proc_drain] is what both pipes carry up to their end, [None] when some
      process keeps one of them open for ever. *)
  proc_spawn : command fd → os → os * io child;
  child_id : child → option Z;
  proc_exited : child → os → bool;
  proc_wait : child → os → os * io (option Z);
  proc_wait_within : Z → child → os → os * option (io (option Z));
  proc_kill : child → os → os;
  proc_drain : child → os → option (os * (Bytes * Bytes));
  (** [libc::kill]: [None], or the error with its kind being [NotFound]. *)
  sys_kill : Z → Z → os → os * option (bool * string);
  stdin_write : child → Bytes → os → os * io ();
  stdin_close : child → os → os;
  read_stdout : child → os → os * io Bytes;
  read_stderr : child → os → os * io Bytes;
  (** Terminals. *)
  openpty : Z → Z → os → os * io (fd * fd);
  fd_getfl : fd → os → option Z;
  fd_setfl : fd → Z → os → os * bool;
  fd_dup : fd → os → os * io fd;
  fd_close : fd → os → os;
  fd_watch : fd → os → bool;
  fd_winsize : fd → Z → Z → os → os * io ();
  master_recv : fd → os → os * master_read;
  (** The derived [Debug] of a frame. *)
  debug_frame : Frame.t → string }.

(** [as i32] of an unsigned 32-bit number. *)
Definition as_i32 (z : Z) : Z := let m := z mod 4294967296 in if m <? 2147483648 then m else m - 4294967296.
Definition O_NONBLOCK : Z := 2048.
Definition SIGKILL : Z := 9.

(** ** Paths *)

(** [Path::parent] on Linux, on the text: components are separated by slashes,
    empty ones and dots do not count, except a leading dot of a relative path. *)
Definition counts (first : bool) (seg : string) : bool :=
  negb (is_empty seg) && (negb (String.eqb seg ".") || first).
Fixpoint trim_tail (first : bool) (segs : list string) : list string :=
  match segs with
  | [] => []
  | x :: segs' =>
    match trim_tail false segs' with
    | [] => if counts first x then [x] else []
    | t => x :: t
    end
  end.
Definition path_parent (path : string) : option string :=
  let root := starts_with "/" path in
  let body := if root then tail (split "/" path) else split "/" path in
  match rev (trim_tail (negb root) body) with
  | [] => None
  | _ :: rest =>
    Some ((if root then "/" else "") +:+ join "/" (trim_tail (negb root) (rev rest)))
  end.

Example parents :
  (path_parent <$> ["/a/b"; "/a"; "/"; "a"; "/a/./b/"; "./a"; "//a"; "."; "a/."]%string)
  = [Some "/a"; Some "/"; None; Some ""; Some "/a"; Some "."; Some "/"; Some ""; Some ""]%string.
Proof. reflexivity. Qed.

Module Serve.

(** [guest_path]: on Linux a path has no prefix component, and [..] is a component
    wherever it stands. *)
Definition guest_path (path : string) : res string string :=
  if is_empty path then Err "path is required"%string
  else if SandboxSpec.has_dotdot path
  then Err ("path traversal is not allowed: " +:+ path)
  else Ok path.

Module AgentError.
Inductive t : Set :=
| Protocol (e : CodecError.t) | Io (e : string) | Command (e : string) | InvalidRequest (e : string).
End AgentError.

Section agent.
Context {G : GuestOs} {P : Postcard}.

Abbreviation sys := (stres os string).

(** A system call with [map_err] on its error; a call that only reads. *)
Definition call {A} (what : string → string) (op : os → os * io A) : sys A := λ w,
  let '(w', r) := op w in (w', match r with inl e => Err (what e) | inr a => Ok a end).
Definition ask {A} (what : string → string) (op : os → io A) : sys A :=
  call what (λ w, (w, op w)).
Definition after (what e : string) : string := what +:+ ": " +:+ e.

(** ** Files *)

Definition write_file (path : string) (mode : Z) (content : Bytes) : sys Frame.t :=
  target ← lift (guest_path path);
  _ ← match path_parent target with
      | Some parent => call (after "create parent directory") (fs_create_dir_all parent)
      | None => mret ()
      end;
  _ ← call (after ("write " +:+ path)) (fs_write target content);
  _ ← call (after ("chmod " +:+ path)) (fs_set_mode target mode);
  mret (Frame.WriteFileResult path).

(** [content[start..end]], on a machine whose [usize] has 64 bits. *)
Definition read_file (path : string) (offset length : Z) : sys Frame.t :=
  target ← lift (guest_path path);
  content ← ask (after ("read " +:+ path)) (fs_read target);
  let len := Z.of_nat (List.length content) in
  if len <? offset then fail ("offset beyond end of file: " +:+ path)
  else
    let end_ := Z.min (Z.min u64_max (offset + length)) len in
    mret (Frame.ReadFileResult path
      (take (Z.to_nat end_ - Z.to_nat offset) (drop (Z.to_nat offset) content))).

Definition mtime_of (m : metadata) : Z :=
  match modified m with
  | Some secs => if 0 <=? secs then as_i64 secs else 0
  | None => 0
  end.

Definition dir_entry (item : io dir_item) : res string DirEntry.t :=
  match item with
  | inl e => Err (after "read directory entry" e)
  | inr entry =>
    match item_metadata entry with
    | inl e => Err (after "stat entry" e)
    | inr m => Ok (DirEntry.mk (file_name entry) (m_len m) (m_mode m) (mtime_of m) (m_is_dir m))
    end
  end.

Definition list_dir (path : string) : sys Frame.t :=
  target ← lift (guest_path path);
  items ← ask (after ("list " +:+ path)) (fs_read_dir target);
  entries ← lift (map_res dir_entry items);
  mret (Frame.ListDirResult entries).

(** ** [limits.rs] *)

Definition text (s : string) : Bytes := String.list_byte_of_string s.

Definition os_write (path content what : string) : sys () :=
  call (after what) (fs_write path (text content)).
Definition os_create_dir (path : string) : sys () :=
  call (after ("create " +:+ path)) (fs_create_dir_all path).
Definition os_mount (source target what : string) : sys () := λ w,
  let '(w', m) := fs_mount source target source w in
  (w', match m with
       | Mounted | MountBusy => Ok ()
       | MountFailed e => Err (after ("mount " +:+ what) e)
       end).

(** [str::lines]: split at line feeds (a trailing one starts no line; a carriage
    return before it does not change how a line starts). *)
Definition ensure_cgroup2 : sys () :=
  proc_cgroup ← ask (after "read cgroup") (fs_read_to_string "/proc/self/cgroup");
  if existsb (starts_with "0::") (split "010" proc_cgroup) then mret ()
  else
    _ ← os_create_dir "/sys/fs/cgroup";
    os_mount "cgroup2" "/sys/fs/cgroup" "cgroup2".

Definition apply_pids_max (pids_max : option Z) : sys () :=
  match pids_max with
  | None => mret ()
  | Some max =>
    _ ← ensure_cgroup2;
    _ ← os_write "/sys/fs/cgroup/cgroup.subtree_control" "+pids" "enable pids controller";
    _ ← os_create_dir "/sys/fs/cgroup/clouisle";
    _ ← os_write "/sys/fs/cgroup/clouisle/pids.max" (show max) "write pids.max";
    pid ← gets own_pid;
    os_write "/sys/fs/cgroup/clouisle/cgroup.procs" (show pid) "move agent into cgroup"
  end.

(** ** Commands that run to their end *)

Definition output_frames (id : string) (code : Z) (stdout stderr : Bytes) : list Frame.t :=
  (if bool_decide (stdout = []) then [] else [Frame.Stdout id stdout])
  ++ (if bool_decide (stderr = []) then [] else [Frame.Stderr id stderr])
  ++ [Frame.Exited id code].

(** [libc::kill(-(pid as i32), SIGKILL)], the result ignored. *)
Definition kill_group (pid : Z) (w : os) : os := (sys_kill (- as_i32 pid) SIGKILL w).1.

(** [run_exec]; [None] when it waits for the pipes for ever. *)
Definition run_exec (id : string) (cmd : list string) (env : gmap string string)
    (cwd : option string) (timeout_ms : Z) (w : os) : os * option (list Frame.t) :=
  match cmd with
  | [] => (w, Some [Frame.Exited id (-1)])
  | _ :: _ =>
    match proc_spawn (Command cmd env cwd Inherit Piped Piped true false) w with
    | (w1, inr c) =>
      let finish code w2 :=
        match proc_drain c w2 with
        | Some (w3, (stdout, stderr)) => (w3, Some (output_frames id code stdout stderr))
        | None => (w2, None)
        end in
      match proc_wait_within timeout_ms c w1 with
      | (w2, Some (inr status)) => finish (default (-1) status) w2
      | (w2, Some (inl e)) => (w2, Some [Frame.Error ("wait failed: " +:+ e) 3])
      | (w2, None) =>
        let w3 := match child_id c with Some pid => kill_group pid w2 | None => w2 end in
        finish (-1) (proc_wait c (proc_kill c w3)).1
      end
    | (w1, inl e) => (w1, Some [Frame.Error ("spawn failed: " +:+ e) 3])
    end
  end.

(** ** Processes that keep running *)

(** The write end of a child's standard input: none was kept, or a cell that
    [close_stdin] empties. *)
Inductive stdin_cell : Type := NoStdin | StdinOpen (c : child) | StdinClosed.

Record RunningProcess : Type := Running {
  pid : Z; stdin : stdin_cell; pty_master : option fd }.

Definition set_nonblocking (d : fd) : sys () := λ w,
  match fd_getfl d w with
  | None => (w, Err "fcntl F_GETFL failed"%string)
  | Some flags =>
    match fd_setfl d (Z.lor flags O_NONBLOCK) w with
    | (w', true) => (w', Ok ())
    | (w', false) => (w', Err "fcntl F_SETFL O_NONBLOCK failed"%string)
    end
  end.

Definition open_pty (cols rows : Z) : sys (fd * fd) :=
  call (after "openpty failed") (openpty cols rows).

(** Leaving a scope closes the descriptors it owns, and keeps the outcome. *)
Definition closing {A} (ds : list fd) (m : sys A) : sys A := λ w,
  let '(w', r) := m w in (foldl (λ w d, fd_close d w) w' ds, r).

(** On an error the descriptors owned so far are closed. *)
Definition or_close {A} (ds : list fd) (m : sys A) : sys A := λ w,
  match m w with
  | (w', Ok a) => (w', Ok a)
  | (w', r) => (foldl (λ w d, fd_close d w) w' ds, r)
  end.

Definition spawn (cmd : list string) (c : command fd) : sys child :=
  call (after ("spawn " +:+ default "" (head cmd))) (proc_spawn c).

(** [spawn_interactive].  With a terminal the three slave descriptors belong to the
    command and are closed with it; without one and with [stdin_open] the write end
    of the pipe is kept. *)
Definition spawn_interactive (cmd : list string) (env : gmap string string)
    (cwd : option string) (stdin_open : bool) (pty : option PtyConfig.t)
  : sys (RunningProcess * child) :=
  match cmd with
  | [] => fail "argv is required"%string
  | _ :: _ =>
    match pty with
    | Some cfg =>
      '(master, slave) ← open_pty (PtyConfig.cols cfg) (PtyConfig.rows cfg);
      _ ← or_close [slave; master] (set_nonblocking master);
      slave_in ← or_close [slave; master] (call (after "clone pty slave") (fd_dup slave));
      slave_out ← or_close [slave_in; slave; master]
                    (call (after "clone pty slave") (fd_dup slave));
      c ← closing [slave_in; slave_out; slave]
            (or_close [master]
              (spawn cmd (Command cmd env cwd (FromFd slave_in) (FromFd slave_out)
                            (FromFd slave) false true)));
      mret (Running (default 0 (child_id c)) NoStdin (Some master), c)
    | None =>
      c ← spawn cmd (Command cmd env cwd (if stdin_open then Piped else Null)
                       Piped Piped true false);
      mret (Running (default 0 (child_id c)) (if stdin_open then StdinOpen c else NoStdin) None, c)
    end
  end.

(** ** The agent

    [input] is what a connection still has to deliver, [sent] what was written to
    it; [gone] is the error that writing gives once the host is gone. *)

Record wire : Type := Wire { input : Bytes; sent : Bytes; gone : option string }.

Inductive task : Type :=
| KillTimer (pid : Z)
| Pump (id : string) (handle : RunningProcess) (c : child) (conn : nat)
| PumpPty (id : string) (handle : RunningProcess) (master : fd) (c : child) (conn : nat)
| ReadOut (id : string) (c : child) (conn : nat)
| ReadErr (id : string) (c : child) (conn : nat)
| AwaitExit (id : string) (handle : RunningProcess) (c : child) (conn : nat).

Record agent : Type := Agent {
  world : os;
  processes : gmap string RunningProcess;
  conns : gmap nat wire;
  tasks : list task }.

Definition set_world (w : os) (a : agent) : agent := Agent w (processes a) (conns a) (tasks a).
Definition set_processes (ps : gmap string RunningProcess) (a : agent) : agent :=
  Agent (world a) ps (conns a) (tasks a).
Definition set_conns (cs : gmap nat wire) (a : agent) : agent :=
  Agent (world a) (processes a) cs (tasks a).
Definition set_tasks (ts : list task) (a : agent) : agent :=
  Agent (world a) (processes a) (conns a) ts.

(** Why the service of a connection ends: an error, or it waits for ever. *)
Inductive stop : Type := Failed (e : AgentError.t) | Waits.
Abbreviation srv := (stres agent stop).

(** [write_frame(&mut *writer.lock().await, frame)]: the lock covers the frame. *)
Definition send (conn : nat) (f : Frame.t) (a : agent) : agent * res CodecError.t () :=
  match conns a !! conn with
  | None => (a, Err (CodecError.Io "not connected"))
  | Some c =>
    match gone c with
    | Some e => (a, Err (CodecError.Io e))
    | None =>
      let '(w, r) := write_frame (sent c) f in
      (set_conns (<[conn := Wire (input c) w None]> (conns a)) a, r)
    end
  end.

Definition respond (conn : nat) (f : Frame.t) : srv () := λ a,
  let '(a', r) := send conn f a in (a', map_err (λ e, Failed (AgentError.Protocol e)) r).

Fixpoint respond_all (conn : nat) (fs : list Frame.t) : srv () :=
  match fs with
  | [] => mret ()
  | f :: fs' => _ ← respond conn f; respond_all conn fs'
  end.

(** A call of the operating system, its outcome kept. *)
Definition on_os {A} (m : sys A) : srv (res string A) := λ a,
  let '(w, r) := m (world a) in (set_world w a, Ok r).

Definition lookup_process (id : string) : srv (option RunningProcess) :=
  gets (λ a, processes a !! id).

Definition not_found (id : string) : res string () := Err ("process " +:+ id +:+ " not found").

Definition send_stdin (id : string) (chunk : Bytes) : srv (res string ()) :=
  handle ← lookup_process id;
  match handle with
  | None => mret (not_found id)
  | Some handle =>
    match stdin handle with
    | NoStdin => mret (Err ("process " +:+ id +:+ " has no open stdin"))
    | StdinClosed => mret (Err ("process " +:+ id +:+ " stdin is closed"))
    | StdinOpen c => on_os (call (after ("write stdin " +:+ id)) (stdin_write c chunk))
    end
  end.

Definition close_stdin (id : string) : srv (res string ()) :=
  handle ← lookup_process id;
  match handle with
  | None => mret (not_found id)
  | Some handle =>
    match stdin handle with
    | StdinOpen c =>
      _ ← modify (λ a, set_processes
            (<[id := Running (pid handle) StdinClosed (pty_master handle)]> (processes a))
            (set_world (stdin_close c (world a)) a));
      mret (Ok ())
    | _ => mret (Ok ())
    end
  end.

(** [libc::kill(-(pid as i32), signal)]; an error of the kind [NotFound] is none. *)
Definition signal_group (pid signal : Z) : sys () := λ w,
  match sys_kill (- as_i32 pid) signal w with
  | (w', None) | (w', Some (true, _)) => (w', Ok ())
  | (w', Some (false, e)) => (w', Err (after ("kill " +:+ show pid) e))
  end.

Definition send_signal (id : string) (signal : ProcessSignal.t) : srv (res string ()) :=
  handle ← lookup_process id;
  match handle with
  | None => mret (not_found id)
  | Some handle => on_os (signal_group (pid handle) (ProcessSignal.as_i32 signal))
  end.

Definition resize_pty (id : string) (cols rows : Z) : srv (res string ()) :=
  handle ← lookup_process id;
  match handle with
  | None => mret (not_found id)
  | Some handle =>
    match pty_master handle with
    | None => mret (Err ("process " +:+ id +:+ " has no pty"))
    | Some master => on_os (call (after "TIOCSWINSZ failed") (fd_winsize master cols rows))
    end
  end.

(** ** One frame of a connection *)

(** The answer to a control frame. *)
Definition acknowledge (conn : nat) (r : res string ()) : srv () :=
  match r with
  | Ok _ => respond conn Frame.ControlOk
  | Err message => respond conn (Frame.Error message 3)
  | Panic => lift Panic
  end.

(** The answer to a frame about files. *)
Definition answer (conn : nat) (r : res string Frame.t) : srv () :=
  match r with
  | Ok frame => respond_all conn [frame]
  | Err message => respond_all conn [Frame.Error message 3]
  | Panic => lift Panic
  end.

Definition add_task (t : task) : srv () := modify (λ a, set_tasks (tasks a ++ [t]) a).

Definition agent_version : string := "0.1.0".

(** The body of the loop of [serve_loop].  The registry's mutex is never poisoned:
    no section under it panics. *)
Definition serve_frame (conn : nat) (frame : Frame.t) : srv () :=
  match frame with
  | Frame.ApplyLimits pids_max _ =>
    r ← on_os (apply_pids_max pids_max); acknowledge conn r
  | Frame.ExecReq id cmd env cwd timeout_ms =>
    responses ← (λ a, let '(w, r) := run_exec id cmd env cwd timeout_ms (world a) in
                   (set_world w a, match r with Some fs => Ok fs | None => Err Waits end));
    respond_all conn responses
  | Frame.ProcessStart id cmd env cwd timeout_ms stdin pty =>
    r ← on_os (spawn_interactive cmd env cwd stdin pty);
    match r with
    | Ok (handle, c) =>
      _ ← modify (λ a, set_processes (<[id := handle]> (processes a)) a);
      _ ← respond conn (Frame.ProcessStarted id (pid handle));
      _ ← when (0 <? timeout_ms) (add_task (KillTimer (pid handle)));
      add_task (Pump id handle c conn)
    | Err message => respond conn (Frame.Error message 3)
    | Panic => lift Panic
    end
  | Frame.Stdin id chunk => r ← send_stdin id chunk; acknowledge conn r
  | Frame.StdinEof id => r ← close_stdin id; acknowledge conn r
  | Frame.Signal id signal => r ← send_signal id signal; acknowledge conn r
  | Frame.Resize id cols rows => r ← resize_pty id cols rows; acknowledge conn r
  | Frame.WriteFile path mode content => r ← on_os (write_file path mode content); answer conn r
  | Frame.ReadFile path offset length => r ← on_os (read_file path offset length); answer conn r
  | Frame.ListDir path => r ← on_os (list_dir path); answer conn r
  | Frame.Ping => respond conn Frame.Pong
  | Frame.Hello _ => respond conn (Frame.Hello agent_version)
  | other => respond conn (Frame.Error ("unsupported frame: " +:+ debug_frame other) 4)
  end.

(** [serve_loop] on the bytes the host sends before it closes its side.  A frame
    takes at least its header from the input, whose length bounds the rounds. *)
Fixpoint serve_rounds (fuel : nat) (conn : nat) (inp : Bytes) : srv () :=
  match fuel with
  | O => lift Panic
  | S fuel =>
    match read_frame inp with
    | (rest, Ok frame) => _ ← serve_frame conn frame; serve_rounds fuel conn rest
    | (_, Err e) => fail (Failed (AgentError.Protocol e))
    | (_, Panic) => lift Panic
    end
  end.
Definition serve_loop (conn : nat) (inp : Bytes) : srv () :=
  serve_rounds (S (length inp)) conn inp.

(** ** Spawned tasks *)

(** One step of a task, up to its next suspension: the agent after it and what is
    left to run.  A reader that has nothing to read is not run; the task that waits for
    a process stays as it is until that has ended. *)
Definition pump_chunk (conn : nat) (f : Frame.t) (again : task) (a : agent) : agent * list task :=
  match send conn f a with
  | (a', Ok _) => (a', [again])
  | (a', _) => (a', [])
  end.

Definition drop_handle (handle : RunningProcess) (w : os) : os :=
  let w1 := match stdin handle with StdinOpen c => stdin_close c w | _ => w end in
  match pty_master handle with Some d => fd_close d w1 | None => w1 end.

(** [status.code().unwrap_or(-1)], and [-1] for an error. *)
Definition exit_code (r : io (option Z)) : Z :=
  match r with inr (Some code) => code | _ => -1 end.

(** [AsyncFdReadyGuard::try_io] answers [Err(TryIoError)] when the closure would block,
    never [Ok(Err(_))] with that kind: the arm [Err(_) => break] is taken, and a terminal
    that was said to be readable and is not ends the pump like an error does. *)
Definition run_task (t : task) (a : agent) : agent * list task :=
  match t with
  | KillTimer pid => (set_world (kill_group pid (world a)) a, [])
  | Pump id handle c conn =>
    match pty_master handle with
    | Some master =>
      match fd_dup master (world a) with
      | (w, inr clone) =>
        let w1 := (set_nonblocking clone w).1 in
        if fd_watch clone w1 then (set_world w1 a, [PumpPty id handle clone c conn])
        else (set_world (fd_close clone w1) a, [AwaitExit id handle c conn])
      | (w, inl _) => (set_world w a, [])
      end
    | None => (a, [ReadOut id c conn; ReadErr id c conn; AwaitExit id handle c conn])
    end
  | PumpPty id handle clone c conn =>
    let leave w := (set_world (fd_close clone w) a, [AwaitExit id handle c conn]) in
    match master_recv clone (world a) with
    | (w, MasterChunk []) => leave w
    | (w, MasterChunk chunk) =>
      match send conn (Frame.Stdout id chunk) (set_world w a) with
      | (a', Ok _) => (a', [t])
      | (a', _) => (set_world (fd_close clone (world a')) a', [AwaitExit id handle c conn])
      end
    | (w, MasterWouldBlock) | (w, MasterFailed) => leave w
    end
  | ReadOut id c conn =>
    match read_stdout c (world a) with
    | (w, inr []) | (w, inl _) => (set_world w a, [])
    | (w, inr chunk) => pump_chunk conn (Frame.Stdout id chunk) t (set_world w a)
    end
  | ReadErr id c conn =>
    match read_stderr c (world a) with
    | (w, inr []) | (w, inl _) => (set_world w a, [])
    | (w, inr chunk) => pump_chunk conn (Frame.Stderr id chunk) t (set_world w a)
    end
  | AwaitExit id handle c conn =>
    if proc_exited c (world a) then
      let '(w, r) := proc_wait c (world a) in
      let a1 := set_processes (delete id (processes a)) (set_world w a) in
      let '(a2, _) := send conn (Frame.Exited id (exit_code r)) a1 in
      (set_world (drop_handle handle (world a2)) a2, [])
    else (a, [t])
  end.

(** ** The agent as a transition system: connections come, send and go, their
    frames are served, tasks run, in any order.  (A connection whose loop has ended
    may be served further here: there are more runs than the program has.) *)

Definition task_step (i : nat) (a : agent) : option agent :=
  match tasks a !! i with
  | None => None
  | Some t =>
    let '(a', more) := run_task t a in
    Some (set_tasks (take i (tasks a') ++ more ++ drop (S i) (tasks a')) a')
  end.

Inductive event : Type :=
| Accept (conn : nat)
| Arrive (conn : nat) (b : Bytes)
| HangUp (conn : nat) (e : string)
| ServeFrame (conn : nat) (frame : Frame.t) (rest : Bytes)
| RunTask (i : nat).

Definition put_wire (conn : nat) (c : wire) (a : agent) : agent :=
  set_conns (<[conn := c]> (conns a)) a.

Inductive step : event → agent → agent → Prop :=
| step_accept a conn :
    conns a !! conn = None → step (Accept conn) a (put_wire conn (Wire [] [] None) a)
| step_arrive a conn c b :
    conns a !! conn = Some c →
    step (Arrive conn b) a (put_wire conn (Wire (input c ++ b) (sent c) (gone c)) a)
| step_hang_up a conn c e :
    conns a !! conn = Some c →
    step (HangUp conn e) a (put_wire conn (Wire (input c) (sent c) (Some e)) a)
| step_serve a conn c frame rest :
    conns a !! conn = Some c → read_frame (input c) = (rest, Ok frame) →
    step (ServeFrame conn frame rest) a
      (serve_frame conn frame (put_wire conn (Wire rest (sent c) (gone c)) a)).1
| step_task a i a' : task_step i a = Some a' → step (RunTask i) a a'.

(** ** Lemmas *)

Lemma send_open conn f a i s b :
  conns a !! conn = Some (Wire i s None) → encode_frame f = Ok b →
  send conn f a = (set_conns (<[conn := Wire i (s ++ b) None]> (conns a)) a, Ok ()).
Proof. intros Hc He. unfold send. rewrite Hc. simpl. unfold write_frame. by rewrite He. Qed.

Lemma respond_open conn f a i s b :
  conns a !! conn = Some (Wire i s None) → encode_frame f = Ok b →
  respond conn f a = (set_conns (<[conn := Wire i (s ++ b) None]> (conns a)) a, Ok ()).
Proof. intros Hc He. unfold respond. by rewrite (send_open _ _ _ _ _ _ Hc He). Qed.

Lemma run_exec_shape id cmd env cwd t w w' fs :
  run_exec id cmd env cwd t w = (w', Some fs) →
  (∃ e, fs = [Frame.Error e 3]) ∨ ∃ code out err, fs = output_frames id code out err.
Proof.
  unfold run_exec. destruct cmd as [|x cmd]; [intros [= _ <-]; right; by exists (-1), [], []|].
  destruct (proc_spawn _ w) as [w1 [e|c]]; [intros [= _ <-]; eauto|].
  destruct (proc_wait_within t c w1) as [w2 [[e|status]|]]; [intros [= _ <-]; eauto|..];
    (destruct (proc_drain c _) as [[w3 [out err]]|]; [|done]); intros [= _ <-]; eauto.
Qed.

(** The bytes of a list of frames. *)
Definition encoded (fs : list Frame.t) (b : Bytes) : Prop := write_frames [] fs = (b, Ok ()).

Lemma encoded_cons f fs b :
  encoded (f :: fs) b ↔ ∃ b1 b2, b = b1 ++ b2 ∧ encode_frame f = Ok b1 ∧ encoded fs b2.
Proof.
  unfold encoded. simpl. unfold write_frame at 1. split.
  - destruct (encode_frame f) as [b1| |]; [|done..]. simpl.
    intros (b2 & -> & Hb)%write_frames_stream. eauto.
  - intros (b1 & b2 & -> & -> & Hb). simpl.
    assert (∀ fs v w w', write_frames w fs = (w', Ok ()) → write_frames (v ++ w) fs = (v ++ w', Ok ()))
      as Hgen; [|by rewrite <-(Hgen fs b1 [] b2 Hb), app_nil_r].
    clear. intros fs v. induction fs as [|f fs IH]; intros w w'; simpl; [by intros [= ->]|].
    unfold write_frame. destruct (encode_frame f); [|done..].
    rewrite <-app_assoc. apply IH.
Qed.

Lemma encoded_nil b : encoded [] b ↔ b = [].
Proof. unfold encoded. simpl. split; [by intros [= <-]|by intros ->]. Qed.

Lemma respond_all_open conn fs a i s b :
  conns a !! conn = Some (Wire i s None) → encoded fs b →
  respond_all conn fs a = (set_conns (<[conn := Wire i (s ++ b) None]> (conns a)) a, Ok ()).
Proof.
  revert a s b. induction fs as [|f fs IH]; intros a s b Hc.
  - rewrite encoded_nil. intros ->. rewrite app_nil_r, insert_id by done. by destruct a.
  - rewrite encoded_cons. intros (b1 & b2 & -> & He & Hb). simpl.
    erewrite bind_ok; [|by apply respond_open].
    erewrite IH; [|by simpl; rewrite lookup_insert_eq|done].
    unfold set_conns. simpl. by rewrite insert_insert_eq, app_assoc.
Qed.

(** The frames of a stream, served one after the other until it ends. *)
Fixpoint serve_all (conn : nat) (fs : list Frame.t) : srv () :=
  match fs with
  | [] => fail (Failed (AgentError.Protocol (CodecError.Io "early eof")))
  | f :: fs' => _ ← serve_frame conn f; serve_all conn fs'
  end.

Lemma bind_ext {S E A B} (m : stres S E A) (f g : A → stres S E B) s :
  (∀ a s', f a s' = g a s') → (m ≫= f) s = (m ≫= g) s.
Proof. intros H. unfold mbind, stres_bind. destruct (m s) as [s1 [x|e|]]; [apply H|done..]. Qed.

Lemma serve_rounds_stream `{!PostcardOk P} fuel conn fs inp a :
  encoded fs inp → Forall fits_header fs → (length inp < fuel)%nat →
  serve_rounds fuel conn inp a = serve_all conn fs a.
Proof.
  intros He Hfit. revert fuel inp a He.
  induction Hfit as [|f fs Hf _ IH]; intros [|fuel] inp a He Hl; try lia.
  - apply encoded_nil in He as ->. done.
  - apply encoded_cons in He as (b1 & b2 & -> & He1 & He2). cbn [serve_rounds serve_all].
    rewrite (read_encoded f b1 b2 He1 (Hf b1 He1)). apply bind_ext. intros _ a'.
    apply IH; [done|]. pose proof (encode_decode f b1 [] He1 (Hf b1 He1)) as Hd.
    apply decode_consumed in Hd. rewrite length_app in Hl. simpl in Hd. lia.
Qed.

(** Reading a frame makes the input shorter. *)
Lemma read_frame_shorter inp rest f :
  read_frame inp = (rest, Ok f) → (length rest < length inp)%nat.
Proof.
  unfold read_frame, read_exact, FRAME_HEADER_LEN.
  destruct (4 <=? length inp)%nat eqn:Hl; [|done]. apply Nat.leb_le in Hl.
  destruct inp as [|b0 [|b1 [|b2 [|b3 inp]]]]; simpl in *; try lia. rewrite ?take_0, ?drop_0.
  destruct (Z.to_nat _ <=? length inp)%nat; [|done].
  destruct (decode_frame_once _) as [[[g m]|]| |]; [|done..]. intros [= <- _].
  rewrite length_drop. lia.
Qed.

Lemma serve_rounds_fuel f1 f2 conn inp a :
  (length inp < f1)%nat → (length inp < f2)%nat →
  serve_rounds f1 conn inp a = serve_rounds f2 conn inp a.
Proof.
  revert f2 inp a. induction f1 as [|f1 IH]; intros [|f2] inp a H1 H2; try lia. simpl.
  destruct (read_frame inp) as [rest [f|e|]] eqn:Hr; try done.
  apply read_frame_shorter in Hr. apply bind_ext. intros _ a'. apply IH; lia.
Qed.
End agent.
End Serve.
