(* ===== verification/GuestSessions.v ===== *)
(** * The processes of a guest agent, from start to exit

    Over every interleaving of connections and tasks: the registry holds exactly the
    processes that a pump watches, and the descriptors of terminals are closed
    with them. *)

From S2P Require Import Prelude Core SandboxModel Proto Net GuestAgent.
Import Serve.

(** ** Descriptors

    [fds] is the set of descriptors of terminals the agent has open.  [openpty] and
    [dup] give new ones, [close] takes one away, and nothing else changes them. *)

Class FdsOk (G : GuestOs) : Type := {
  fd_dec :: EqDecision fd;
  fd_count :: Countable fd;
  fds : os → gset fd;
  fds_openpty x y w w' m s : openpty x y w = (w', inr (m, s)) →
    m ∉ fds w ∧ s ∉ fds w ∧ m ≠ s ∧ fds w' = {[m; s]} ∪ fds w;
  fds_openpty_err x y w w' e : openpty x y w = (w', inl e) → fds w' = fds w;
  fds_dup d w w' d' : fd_dup d w = (w', inr d') → d' ∉ fds w ∧ fds w' = {[d']} ∪ fds w;
  fds_dup_err d w w' e : fd_dup d w = (w', inl e) → fds w' = fds w;
  fds_close d w : fds (fd_close d w) = fds w ∖ {[d]};
  fds_create_dir p w : fds (fs_create_dir_all p w).1 = fds w;
  fds_write p b w : fds (fs_write p b w).1 = fds w;
  fds_set_mode p m w : fds (fs_set_mode p m w).1 = fds w;
  fds_mount s t k w : fds (fs_mount s t k w).1 = fds w;
  fds_spawn c w : fds (proc_spawn c w).1 = fds w;
  fds_wait c w : fds (proc_wait c w).1 = fds w;
  fds_wait_within t c w : fds (proc_wait_within t c w).1 = fds w;
  fds_kill_child c w : fds (proc_kill c w) = fds w;
  fds_drain c w w' r : proc_drain c w = Some (w', r) → fds w' = fds w;
  fds_kill p s w : fds (sys_kill p s w).1 = fds w;
  fds_stdin c b w : fds (stdin_write c b w).1 = fds w;
  fds_stdin_close c w : fds (stdin_close c w) = fds w;
  fds_read_out c w : fds (read_stdout c w).1 = fds w;
  fds_read_err c w : fds (read_stderr c w).1 = fds w;
  fds_setfl d f w : fds (fd_setfl d f w).1 = fds w;
  fds_winsize d x y w : fds (fd_winsize d x y w).1 = fds w;
  fds_master d w : fds (master_recv d w).1 = fds w }.

(** A process that has ended stays ended, whatever the agent does with descriptors. *)
Class ExitOk (G : GuestOs) : Prop := {
  exited_dup c d w : proc_exited c w = true → proc_exited c (fd_dup d w).1 = true;
  exited_setfl c d f w : proc_exited c w = true → proc_exited c (fd_setfl d f w).1 = true;
  exited_recv c d w : proc_exited c w = true → proc_exited c (master_recv d w).1 = true;
  exited_close c d w : proc_exited c w = true → proc_exited c (fd_close d w) = true }.

Section sessions.
Context {G : GuestOs} {P : Postcard} {F : FdsOk G}.

(** ** Calls that open and close nothing *)

Definition unopening {E A} (m : stres os E A) : Prop := ∀ w, fds (m w).1 = fds w.

Lemma unopening_bind {E A B} (m : stres os E A) (k : A → stres os E B) :
  unopening m → (∀ a, unopening (k a)) → unopening (m ≫= k).
Proof.
  intros Hm Hk w. unfold mbind, stres_bind. specialize (Hm w).
  destruct (m w) as [w1 [a|e|]]; simpl in *; [|done..]. by rewrite (Hk a w1).
Qed.
Lemma unopening_ret {E A} (a : A) : unopening (E := E) (mret a). Proof. done. Qed.
Lemma unopening_fail {E A} (e : E) : unopening (A := A) (fail e). Proof. done. Qed.
Lemma unopening_lift {E A} (r : res E A) : unopening (lift r). Proof. done. Qed.
Lemma unopening_gets {E A} (f : os → A) : unopening (E := E) (gets f). Proof. done. Qed.
Lemma unopening_call {A} what (op : os → os * (string + A)) :
  (∀ w, fds (op w).1 = fds w) → unopening (call what op).
Proof. intros Ho w. specialize (Ho w). unfold call. by destruct (op w). Qed.
Lemma unopening_ask {A} what (op : os → string + A) : unopening (ask what op).
Proof. by apply unopening_call. Qed.

Hint Resolve unopening_bind unopening_ret unopening_fail unopening_lift unopening_gets unopening_call unopening_ask
  fds_create_dir fds_write fds_set_mode fds_stdin fds_winsize fds_spawn : sessions.

Lemma unopening_mount s t what : unopening (os_mount s t what).
Proof. intros w. unfold os_mount. pose proof (fds_mount s t s w). by destruct (fs_mount s t s w). Qed.

Lemma unopening_files path mode content :
  unopening (write_file path mode content).
Proof.
  unfold write_file. apply unopening_bind; [auto with sessions|]. intros t.
  apply unopening_bind; [destruct (path_parent t); auto with sessions|]. auto 8 with sessions.
Qed.
Lemma unopening_read path offset length : unopening (read_file path offset length).
Proof.
  unfold read_file. apply unopening_bind; [auto with sessions|]. intros t.
  apply unopening_bind; [auto with sessions|]. intros c. case_match; auto with sessions.
Qed.
Lemma unopening_list path : unopening (list_dir path).
Proof. unfold list_dir. auto 8 with sessions. Qed.

Lemma unopening_limits o : unopening (apply_pids_max o).
Proof.
  unfold apply_pids_max, os_write, os_create_dir. destruct o as [max|]; [|done].
  apply unopening_bind; [|auto 12 with sessions]. unfold ensure_cgroup2, os_create_dir.
  apply unopening_bind; [auto with sessions|]. intros c. case_match; [done|].
  apply unopening_bind; [auto with sessions|]. intros _. apply unopening_mount.
Qed.

Lemma unopening_nonblocking d : unopening (set_nonblocking d).
Proof.
  intros w. unfold set_nonblocking. destruct (fd_getfl d w) as [fl|]; [|done].
  pose proof (fds_setfl d (Z.lor fl O_NONBLOCK) w). by destruct (fd_setfl _ _ _) as [w' []].
Qed.

Lemma unopening_signal pid s : unopening (signal_group pid s).
Proof.
  intros w. unfold signal_group. pose proof (fds_kill (- as_i32 pid) s w).
  by destruct (sys_kill _ _ _) as [w' [[[] e]|]].
Qed.

Lemma unopening_exec id cmd env cwd t w : fds (run_exec id cmd env cwd t w).1 = fds w.
Proof.
  unfold run_exec. destruct cmd as [|x cmd]; [done|].
  pose proof (fds_spawn (Command (x :: cmd) env cwd Inherit Piped Piped true false) w) as Hs.
  destruct (proc_spawn _ w) as [w1 [e|c]]; [done|]. simpl in Hs. rewrite <-Hs.
  assert (∀ code w2, fds w2 = fds w1 → fds (match proc_drain c w2 with
    | Some (w3, (out, err)) => (w3, Some (output_frames id code out err))
    | None => (w2, None) end).1 = fds w1) as Hfin.
  { intros code w2 Hw. destruct (proc_drain c w2) as [[w3 [out err]]|] eqn:Hd; [|done].
    simpl. by rewrite (fds_drain _ _ _ _ Hd). }
  pose proof (fds_wait_within t c w1) as Hw.
  destruct (proc_wait_within t c w1) as [w2 [[e|st]|]]; [done|by apply Hfin|].
  apply Hfin. simpl in Hw. rewrite fds_wait, fds_kill_child, <-Hw.
  destruct (child_id c); [|done]. unfold kill_group. by rewrite fds_kill.
Qed.

(** ** Starting a process *)

Lemma fds_close_all ds w :
  fds (foldl (λ w d, fd_close d w) w ds) = fds w ∖ list_to_set ds.
Proof.
  revert w. induction ds as [|d ds IH]; intros w; simpl; [set_solver|].
  rewrite IH, fds_close. set_solver.
Qed.

Lemma fds_or_close {A} ds (m : stres os string A) w w' r :
  unopening m → or_close ds m w = (w', r) →
  (∃ a, r = Ok a ∧ fds w' = fds w) ∨
  ((∀ a, r ≠ Ok a) ∧ fds w' = fds w ∖ list_to_set ds).
Proof.
  intros Hm. unfold or_close. specialize (Hm w). destruct (m w) as [w1 [a|e|]]; simpl in *;
    intros [= <- <-]; [left; eauto|right; split; [done|]..]; by rewrite fds_close_all, Hm.
Qed.

Lemma fds_dup_or_close ds d w w' r :
  or_close ds (call (after "clone pty slave") (fd_dup d)) w = (w', r) →
  (∃ d', r = Ok d' ∧ d' ∉ fds w ∧ fds w' = {[d']} ∪ fds w) ∨
  ((∀ a, r ≠ Ok a) ∧ fds w' = fds w ∖ list_to_set ds).
Proof.
  unfold or_close, call. destruct (fd_dup d w) as [w1 [e|d']] eqn:Hd; intros [= <- <-].
  - right. split; [done|]. by rewrite fds_close_all, (fds_dup_err _ _ _ _ Hd).
  - left. apply fds_dup in Hd. eauto.
Qed.

(** What a start leaves open: nothing when it fails, the master side when it
    succeeds on a terminal. *)
Definition leaves_open (w w' : os) (r : res string (RunningProcess * child)) : Prop :=
  match r with
  | Ok (h, _) =>
    match pty_master h with
    | Some d => d ∉ fds w ∧ fds w' = {[d]} ∪ fds w
    | None => fds w' = fds w
    end
  | _ => fds w' = fds w
  end.

Lemma spawn_pty_fds cmd env cwd cfg w w' r :
  spawn_interactive cmd env cwd false (Some cfg) w = (w', r) → leaves_open w w' r.
Proof.
  unfold spawn_interactive. destruct cmd as [|x cmd]; [by intros [= <- <-]|].
  unfold mbind at 1, stres_bind at 1. unfold open_pty, call at 1.
  destruct (openpty _ _ w) as [w1 [e|[m s]]] eqn:Ho.
  { intros [= <- <-]. by apply fds_openpty_err in Ho. }
  apply fds_openpty in Ho as (Hm & Hs & Hms & H1).
  unfold mbind at 1, stres_bind at 1.
  destruct (or_close [s; m] (set_nonblocking m) w1) as [w2 r2] eqn:H2.
  apply fds_or_close in H2 as [(a & -> & H2)|[Hr H2]]; [| |apply unopening_nonblocking].
  2: { destruct r2 as [a| |]; [by destruct (Hr a)|..]; intros [= <- <-]; simpl; rewrite H2, H1; set_solver. }
  unfold mbind at 1, stres_bind at 1.
  destruct (or_close [s; m] _ w2) as [w3 r3] eqn:H3.
  apply fds_dup_or_close in H3 as [(si & -> & Hsi & H3)|[Hr H3]].
  2: { destruct r3 as [d| |]; [by destruct (Hr d)|..]; intros [= <- <-]; simpl; rewrite H3, H2, H1; set_solver. }
  unfold mbind at 1, stres_bind at 1.
  destruct (or_close [si; s; m] _ w3) as [w4 r4] eqn:H4.
  apply fds_dup_or_close in H4 as [(so & -> & Hso & H4)|[Hr H4]].
  2: { destruct r4 as [d| |]; [by destruct (Hr d)|..]; intros [= <- <-]; simpl; rewrite H4, H3, H2, H1; set_solver. }
  unfold mbind at 1, stres_bind at 1. unfold closing.
  destruct (or_close [m] _ w4) as [w5 r5] eqn:H5.
  apply fds_or_close in H5 as [(c & -> & H5)|[Hr H5]];
    [| |unfold spawn; auto with sessions].
  - intros [= <- <-]. simpl. rewrite !fds_close, H5, H4, H3, H2, H1.
    set_solver.
  - destruct r5 as [d| |]; [by destruct (Hr d)|..]; intros [= <- <-];
      simpl; rewrite !fds_close, H5, H4, H3, H2, H1; set_solver.
Qed.

Lemma spawn_fds cmd env cwd stdin pty w w' r :
  spawn_interactive cmd env cwd stdin pty w = (w', r) → leaves_open w w' r.
Proof.
  destruct pty as [cfg|].
  - intros H. by apply (spawn_pty_fds cmd env cwd cfg).
  - unfold spawn_interactive. destruct cmd as [|x cmd]; [by intros [= <- <-]|].
    unfold mbind, stres_bind. set (c := Command _ _ _ _ _ _ _ _).
    assert (unopening (spawn (x :: cmd) c)) as Hk by (unfold spawn; auto with sessions).
    specialize (Hk w). destruct (spawn (x :: cmd) c w) as [w1 [ch|e|]]; simpl in Hk; by intros [= <- <-].
Qed.

(** ** Steps that start and end nothing *)

Definition quiet (a a' : agent) : Prop :=
  tasks a' = tasks a ∧ fds (world a') = fds (world a) ∧ dom (processes a') = dom (processes a).
Definition hushed {A} (m : stres agent stop A) : Prop := ∀ a, quiet a (m a).1.

Lemma quiet_refl a : quiet a a. Proof. done. Qed.
Lemma quiet_trans a b c : quiet a b → quiet b c → quiet a c.
Proof. unfold quiet. intros (?&?&?) (?&?&?). split_and!; congruence. Qed.

Lemma hushed_bind {A B} (m : stres agent stop A) (k : A → stres agent stop B) :
  hushed m → (∀ x, hushed (k x)) → hushed (m ≫= k).
Proof.
  intros Hm Hk a. unfold mbind, stres_bind. specialize (Hm a).
  destruct (m a) as [a1 [x|e|]]; simpl in *; [|done..]. by eapply quiet_trans; [|apply Hk].
Qed.
Lemma hushed_ret {A} (x : A) : hushed (mret x). Proof. intros a. apply quiet_refl. Qed.
Lemma hushed_lift {A} (r : res stop A) : hushed (lift r). Proof. intros a. apply quiet_refl. Qed.
Lemma hushed_gets {A} (f : agent → A) : hushed (gets f). Proof. intros a. apply quiet_refl. Qed.
Lemma hushed_on_os {A} (m : stres os string A) : unopening m → hushed (on_os m).
Proof. intros Hm a. unfold on_os. specialize (Hm (world a)). by destruct (m (world a)). Qed.

Lemma quiet_send conn f a : quiet a (send conn f a).1.
Proof.
  unfold send. destruct (conns a !! conn) as [[i s [g|]]|]; try apply quiet_refl.
  by destruct (write_frame _ _).
Qed.
Lemma hushed_respond conn f : hushed (respond conn f).
Proof. intros a. unfold respond. pose proof (quiet_send conn f a). by destruct (send conn f a). Qed.
Lemma hushed_respond_all conn fs : hushed (respond_all conn fs).
Proof.
  induction fs as [|f fs IH]; [apply hushed_ret|]. simpl.
  apply hushed_bind; [apply hushed_respond|done].
Qed.

Hint Resolve hushed_bind hushed_ret hushed_lift hushed_gets hushed_on_os hushed_respond
  hushed_respond_all unopening_files unopening_read unopening_list unopening_limits unopening_signal : sessions.

Lemma hushed_acknowledge conn r : hushed (acknowledge conn r).
Proof. destruct r; simpl; auto with sessions. Qed.
Lemma hushed_answer conn r : hushed (answer conn r).
Proof. destruct r; unfold answer; auto with sessions. Qed.

Lemma hushed_stdin id b : hushed (send_stdin id b).
Proof.
  unfold send_stdin, lookup_process. apply hushed_bind; [auto with sessions|]. intros [h|];
    [destruct (stdin h)|]; auto with sessions.
Qed.
Lemma hushed_signal id s : hushed (send_signal id s).
Proof.
  unfold send_signal, lookup_process. apply hushed_bind; [auto with sessions|]. intros [h|];
    auto with sessions.
Qed.
Lemma hushed_resize id x y : hushed (resize_pty id x y).
Proof.
  unfold resize_pty, lookup_process. apply hushed_bind; [auto with sessions|]. intros [h|];
    [destruct (pty_master h)|]; auto with sessions.
Qed.
Lemma hushed_eof id : hushed (close_stdin id).
Proof.
  intros a. unfold close_stdin, lookup_process, mbind, stres_bind, gets. simpl.
  destruct (processes a !! id) as [h|] eqn:Hp; [|apply quiet_refl].
  destruct (stdin h); try apply quiet_refl. unfold quiet. simpl.
  rewrite fds_stdin_close, dom_insert_L. split_and!; [done|done|].
  apply elem_of_dom_2 in Hp. set_solver.
Qed.

Hint Resolve hushed_acknowledge hushed_answer hushed_stdin hushed_signal hushed_resize
  hushed_eof : sessions.

Definition starts (f : Frame.t) : option string :=
  match f with Frame.ProcessStart id _ _ _ _ _ _ => Some id | _ => None end.

Lemma hushed_serve conn f : starts f = None → hushed (serve_frame conn f).
Proof.
  destruct f; intros Hs; try done; unfold serve_frame; auto 8 with sessions.
  apply hushed_bind; [|auto with sessions]. intros a.
  pose proof (unopening_exec id argv env cwd timeout_ms (world a)) as Hk.
  destruct (run_exec id argv env cwd timeout_ms (world a)) as [w [fs|]]; by split_and!.
Qed.

(** ** Sessions

    The task that will report the exit of a process, and the descriptors a task
    owns. *)

Definition session (t : task) : option string :=
  match t with
  | Pump id _ _ _ | PumpPty id _ _ _ _ | AwaitExit id _ _ _ => Some id
  | _ => None
  end.
Definition owned (t : task) : list fd :=
  match t with
  | Pump _ h _ _ | AwaitExit _ h _ _ => option_list (pty_master h)
  | PumpPty _ h clone _ _ => clone :: option_list (pty_master h)
  | _ => []
  end.

Definition sessions_of (ts : list task) : list string := omap session ts.
Definition held (ts : list task) : list fd := ts ≫= owned.

Lemma sessions_of_app ts us : sessions_of (ts ++ us) = sessions_of ts ++ sessions_of us.
Proof. apply omap_app. Qed.
Lemma held_app ts us : held (ts ++ us) = held ts ++ held us.
Proof. unfold held. by rewrite bind_app. Qed.

(** The registry lists the sessions, and the descriptors open beyond those of the
    start are the ones tasks own. *)
Record accounted (base : gset fd) (listed : gset string) (opened : gset fd)
    (ids : list string) (ds : list fd) : Prop := {
  acc_once : NoDup ids;
  acc_listed : listed = list_to_set ids;
  acc_held : NoDup ds;
  acc_own : list_to_set ds ## base;
  acc_open : opened = base ∪ list_to_set ds }.

Lemma accounted_perm base l o ids ids' ds ds' :
  ids ≡ₚ ids' → ds ≡ₚ ds' → accounted base l o ids ds → accounted base l o ids' ds'.
Proof.
  intros Hi Hd [H1 H2 H3 H4 H5].
  assert (list_to_set ds' =@{gset fd} list_to_set ds) as Hset by by apply list_to_set_perm_L.
  split; [by rewrite <-Hi| |by rewrite <-Hd|by rewrite Hset|by rewrite Hset].
  rewrite H2. by apply list_to_set_perm_L.
Qed.

Lemma accounted_opens base l o ids ds d :
  accounted base l o ids ds → d ∉ o → accounted base l ({[d]} ∪ o) ids (d :: ds).
Proof.
  intros [H1 H2 H3 H4 H5] Hd. subst o. apply not_elem_of_union in Hd as [Hb Hl].
  rewrite elem_of_list_to_set in Hl. split; [done|done|by constructor| |]; simpl.
  - apply disjoint_union_l. split; [by apply disjoint_singleton_l|done].
  - by rewrite !assoc_L, (comm_L (∪) {[d]} base) by apply _.
Qed.

Lemma list_to_set_minus `{Countable A} (xs ys : list A) :
  NoDup (xs ++ ys) → list_to_set (xs ++ ys) ∖ list_to_set xs =@{gset A} list_to_set ys.
Proof.
  intros (_ & Hd & _)%NoDup_app. apply set_eq. intros x.
  rewrite list_to_set_app_L, elem_of_difference, elem_of_union, !elem_of_list_to_set.
  specialize (Hd x). naive_solver.
Qed.

Lemma accounted_closes base l o gone ids ds rest :
  accounted base l o (gone ++ ids) (ds ++ rest) →
  accounted base (l ∖ list_to_set gone) (o ∖ list_to_set ds) ids rest.
Proof.
  intros [H1 H2 H3 H4 H5]. subst l o.
  assert (list_to_set ds ## base ∧ list_to_set rest ## base) as [Hb Hr].
  { rewrite list_to_set_app_L in H4. by apply disjoint_union_l. }
  rewrite difference_union_distr_l_L, !list_to_set_minus by done.
  apply NoDup_app in H1 as (_ & _ & H1). apply NoDup_app in H3 as (_ & _ & H3).
  split; try done. f_equal. by apply difference_disjoint_L.
Qed.

Definition tidy (base : gset fd) (a : agent) : Prop :=
  accounted base (dom (processes a)) (fds (world a)) (sessions_of (tasks a)) (held (tasks a)).

Lemma tidy_quiet base a a' : quiet a a' → tidy base a → tidy base a'.
Proof. unfold tidy. by intros (-> & -> & ->). Qed.

(** What a task may do to its own session and descriptors. *)
Inductive effect (t : task) (more : list task) (a a' : agent) : Prop :=
| goes_on :
    sessions_of more = sessions_of [t] → held more = held [t] → quiet a a' →
    effect t more a a'
| opens d :
    sessions_of more = sessions_of [t] → held more = d :: held [t] →
    tasks a' = tasks a → dom (processes a') = dom (processes a) →
    d ∉ fds (world a) → fds (world a') = {[d]} ∪ fds (world a) → effect t more a a'
| closes d :
    sessions_of more = sessions_of [t] → held [t] = d :: held more →
    tasks a' = tasks a → dom (processes a') = dom (processes a) →
    fds (world a') = fds (world a) ∖ {[d]} → effect t more a a'
| finishes id :
    session t = Some id → more = [] → tasks a' = tasks a →
    processes a' = delete id (processes a) →
    fds (world a') = fds (world a) ∖ list_to_set (held [t]) → effect t more a a'.

Lemma fds_drop_handle h w :
  fds (drop_handle h w) = fds w ∖ list_to_set (option_list (pty_master h)).
Proof.
  unfold drop_handle. destruct (stdin h), (pty_master h); simpl;
    rewrite ?fds_close, ?fds_stdin_close; set_solver.
Qed.

(** The terminal of a pump that has not started can be duplicated. *)
Definition smooth (a : agent) : Prop :=
  ∀ id h c conn d, Pump id h c conn ∈ tasks a → pty_master h = Some d →
  ∃ w e, fd_dup d (world a) = (w, inr e).

Lemma quiet_world a w : fds w = fds (world a) → quiet a (set_world w a).
Proof. done. Qed.

Lemma pump_chunk_effect conn f t a a' more :
  sessions_of [t] = [] → held [t] = [] → pump_chunk conn f t a = (a', more) → effect t more a a'.
Proof.
  intros Hs Hh. unfold pump_chunk. pose proof (quiet_send conn f a) as Hq.
  destruct (send conn f a) as [a1 [[]|e|]]; intros [= <- <-]; by apply goes_on.
Qed.

Lemma read_effect t f conn (r : os * (string + Bytes)) a a' more :
  sessions_of [t] = [] → held [t] = [] → fds r.1 = fds (world a) →
  match r with
  | (w, inr []) | (w, inl _) => (set_world w a, [])
  | (w, inr chunk) => pump_chunk conn (f chunk) t (set_world w a)
  end = (a', more) → effect t more a a'.
Proof.
  intros Hs Hh Hw. destruct r as [w [e|[|b bs]]]; simpl in Hw.
  1, 2: intros [= <- <-]; apply goes_on; [done|done|by apply quiet_world].
  unfold pump_chunk. pose proof (quiet_send conn (f (b :: bs)) (set_world w a)) as Hq.
  pose proof (quiet_trans _ _ _ (quiet_world a w Hw) Hq) as Hqq.
  destruct (send _ _ _) as [a1 [[]|e|]]; intros [= <- <-]; by apply goes_on.
Qed.

Lemma pump_effect id h c conn a a' more :
  Pump id h c conn ∈ tasks a → smooth a → run_task (Pump id h c conn) a = (a', more) →
  effect (Pump id h c conn) more a a'.
Proof.
  intros Hin Hsm. simpl. destruct (pty_master h) as [d|] eqn:Hd.
  - destruct (Hsm id h c conn d Hin Hd) as (w & e & Hdup). rewrite Hdup.
    apply fds_dup in Hdup as [Hnew Hw].
    pose proof (unopening_nonblocking e w) as Hn. destruct (set_nonblocking e w) as [w1 r1]. simpl in *.
    destruct (fd_watch e w1); intros [= <- <-].
    + eapply (opens _ _ _ _ e); simpl; rewrite ?Hd; try done. by rewrite Hn.
    + apply goes_on; simpl; rewrite ?Hd; try done. apply quiet_world.
      rewrite fds_close, Hn, Hw. set_solver.
  - intros [= <- <-]. by apply goes_on; simpl; rewrite ?Hd.
Qed.

Lemma pty_effect id h d c conn a a' more :
  run_task (PumpPty id h d c conn) a = (a', more) →
  effect (PumpPty id h d c conn) more a a'.
Proof.
  simpl. pose proof (fds_master d (world a)) as Hm.
  destruct (master_recv d (world a)) as [w [[|b bs]| |]]; simpl in Hm;
    try (intros [= <- <-]; eapply (closes _ _ _ _ d); try done; simpl; by rewrite fds_close, Hm).
  pose proof (quiet_send conn (Frame.Stdout id (b :: bs)) (set_world w a)) as Hq.
  pose proof (quiet_trans _ _ _ (quiet_world a w Hm) Hq) as (Ht & Hf & Hp).
  destruct (send _ _ _) as [a1 [[]|e|]]; intros [= <- <-]; [by apply goes_on|..];
    (eapply (closes _ _ _ _ d); try done; simpl in *; by rewrite fds_close, Hf).
Qed.

Lemma exit_effect id h c conn a a' more :
  run_task (AwaitExit id h c conn) a = (a', more) →
  effect (AwaitExit id h c conn) more a a'.
Proof.
  simpl. destruct (proc_exited c (world a)); [|intros [= <- <-]; by apply goes_on].
  pose proof (fds_wait c (world a)) as Hw. destruct (proc_wait c (world a)) as [w r].
  simpl in Hw. set (a1 := set_processes _ _). set (f := Frame.Exited _ _).
  pose proof (quiet_send conn f a1) as Hq.
  assert (processes (send conn f a1).1 = processes a1) as Hp.
  { unfold send. destruct (conns a1 !! conn) as [[i s [g|]]|]; try done. by destruct (write_frame _ _). }
  destruct (send conn f a1) as [a2 r2]. simpl in *. destruct Hq as (Ht & Hf & _).
  intros [= <- <-]. eapply (finishes _ _ _ _ id); try done.
  simpl. rewrite fds_drop_handle, Hf. simpl. rewrite Hw. unfold held. simpl. by rewrite app_nil_r.
Qed.

Lemma task_effect t a a' more :
  t ∈ tasks a → smooth a → run_task t a = (a', more) → effect t more a a'.
Proof.
  destruct t; intros Hin Hsm Hr.
  - simpl in Hr. simplify_eq. apply goes_on; [done|done|]. apply quiet_world.
    unfold kill_group. by rewrite fds_kill.
  - by apply pump_effect.
  - by apply pty_effect.
  - eapply (read_effect _ (Frame.Stdout id) conn); [done|done| |exact Hr]. apply fds_read_out.
  - eapply (read_effect _ (Frame.Stderr id) conn); [done|done| |exact Hr]. apply fds_read_err.
  - by apply exit_effect.
Qed.

Lemma sessions_middle L1 ts L2 : sessions_of (L1 ++ ts ++ L2) ≡ₚ sessions_of ts ++ sessions_of (L1 ++ L2).
Proof. rewrite !sessions_of_app, !(assoc_L (++)). f_equiv. apply Permutation_app_comm. Qed.
Lemma held_middle L1 ts L2 : held (L1 ++ ts ++ L2) ≡ₚ held ts ++ held (L1 ++ L2).
Proof. rewrite !held_app, !(assoc_L (++)). f_equiv. apply Permutation_app_comm. Qed.

Lemma tidy_replace base a a' L1 t L2 more :
  tidy base a → tasks a = L1 ++ [t] ++ L2 → effect t more a a' →
  tidy base (set_tasks (L1 ++ more ++ L2) a').
Proof.
  unfold tidy. intros Ha Ht He. simpl.
  rewrite Ht in Ha.
  apply (accounted_perm _ _ _ _ _ _ _ (sessions_middle L1 [t] L2) (held_middle L1 [t] L2)) in Ha.
  eapply accounted_perm; [symmetry; apply sessions_middle|symmetry; apply held_middle|].
  destruct He as [Hs Hh (_ & -> & ->)|d Hs Hh _ -> Hd ->|d Hs Hh _ -> ->|id Hs -> _ -> ->].
  - by rewrite Hs, Hh.
  - rewrite Hs, Hh. by apply accounted_opens.
  - rewrite Hh in Ha. rewrite Hs.
    apply (accounted_closes _ _ _ [] _ [d]) in Ha. simpl in Ha.
    by rewrite difference_empty_L, (right_id_L ∅ (∪)) in Ha.
  - assert (sessions_of [t] = [id]) as Hid by (unfold sessions_of; simpl; by rewrite Hs).
    rewrite Hid in Ha. apply accounted_closes in Ha. simpl in Ha.
    rewrite dom_delete_L. by rewrite (right_id_L ∅ (∪)) in Ha.
Qed.

Lemma tidy_task base a i a' :
  tidy base a → smooth a → task_step i a = Some a' → tidy base a'.
Proof.
  unfold task_step. intros Ha Hsm. destruct (tasks a !! i) as [t|] eqn:Hi; [|done].
  destruct (run_task t a) as [a1 more] eqn:Hr. intros [= <-].
  assert (t ∈ tasks a) as Hin by by eapply list_elem_of_lookup_2.
  pose proof (task_effect t a a1 more Hin Hsm Hr) as He.
  assert (tasks a1 = tasks a) as -> by by destruct He as [?? (?&?&?)| | |].
  eapply tidy_replace; [exact Ha| |exact He]. symmetry. by apply take_drop_middle.
Qed.

(** A start that was answered adds one session and what it opened. *)
Lemma tidy_start base conn a id cmd env cwd t stdin pty :
  tidy base a → processes a !! id = None →
  (serve_frame conn (Frame.ProcessStart id cmd env cwd t stdin pty) a).2 = Ok () →
  tidy base (serve_frame conn (Frame.ProcessStart id cmd env cwd t stdin pty) a).1.
Proof.
  intros Ha Hid. cbn [serve_frame].
  destruct (spawn_interactive cmd env cwd stdin pty (world a)) as [w r] eqn:Hs.
  erewrite bind_ok; [|by unfold on_os; rewrite Hs].
  apply spawn_fds in Hs. destruct r as [[h c]|e|]; simpl in Hs.
  2: { intros _. eapply tidy_quiet; [|exact Ha].
       eapply quiet_trans; [by apply (quiet_world a w)|apply hushed_respond]. }
  2: by intros.
  set (a1 := set_processes (<[id:=h]> (processes (set_world w a))) (set_world w a)).
  unfold mbind, stres_bind, modify. fold a1.
  assert (processes (respond conn (Frame.ProcessStarted id (pid h)) a1).1 = processes a1) as Hp.
  { unfold respond, send. destruct (conns a1 !! conn) as [[i s [g|]]|]; try done.
    by destruct (write_frame _ _). }
  pose proof (hushed_respond conn (Frame.ProcessStarted id (pid h)) a1) as (Ht & Hf & _).
  destruct (respond _ _ a1) as [a2 [[]|e|]]; simpl in *; [|done..]. intros _.
  assert (∀ ts, sessions_of ts = [] → held ts = [] →
    tidy base (set_tasks (tasks a2 ++ ts ++ [Pump id h c conn]) a2)) as Hgoal.
  { intros ts Hts Hhs. unfold tidy. simpl. rewrite Ht, Hf, Hp. unfold a1. simpl.
    rewrite !sessions_of_app, !held_app, Hts, Hhs. unfold sessions_of at 2, held at 2. simpl.
    rewrite app_nil_r, dom_insert_L.
    eapply accounted_perm; [apply Permutation_cons_append|apply Permutation_app_comm|].
    apply not_elem_of_dom in Hid.
    assert (accounted base ({[id]} ∪ dom (processes a)) (fds (world a))
      (id :: sessions_of (tasks a)) (held (tasks a))) as Hacc.
    { destruct Ha as [H1 H2 H3 H4 H5]. split; try done; [|by rewrite H2].
      constructor; [|done]. by rewrite H2, elem_of_list_to_set in Hid. }
    destruct (pty_master h) as [d|]; simpl.
    - destruct Hs as [Hd ->]. by apply accounted_opens.
    - by rewrite Hs. }
  destruct (0 <? t); simpl; [|by apply (Hgoal [])].
  rewrite <-app_assoc. by apply (Hgoal [KillTimer (pid h)]).
Qed.

(** ** Runs *)

(** What a run must not contain for the accounts to close: a process started under
    the id of a running one, a start whose answer could not be written, a terminal
    that could not be duplicated. *)
Definition orderly (e : event) (a : agent) : Prop :=
  match e with
  | ServeFrame conn frame rest =>
    ∀ id, starts frame = Some id → processes a !! id = None ∧
      ∀ c, conns a !! conn = Some c →
      (serve_frame conn frame (put_wire conn (Wire rest (sent c) (gone c)) a)).2 = Ok ()
  | RunTask _ => smooth a
  | _ => True
  end.

Definition orderly_step (a a' : agent) : Prop := ∃ e, step e a a' ∧ orderly e a.

Lemma tidy_step base a a' : tidy base a → orderly_step a a' → tidy base a'.
Proof.
  intros Ha (e & Hs & Ho). destruct Hs as [| | |a conn c frame rest Hc _|a i a' Ht];
    try by apply (tidy_quiet base a).
  - simpl in Ho. set (a0 := put_wire _ _ a) in *.
    assert (tidy base a0) as Ha0 by by apply (tidy_quiet base a).
    destruct (starts frame) as [id|] eqn:Hf.
    + destruct (Ho id eq_refl) as [Hid Hok]. specialize (Hok c Hc).
      destruct frame; simplify_eq/=. by apply tidy_start.
    + eapply tidy_quiet; [|exact Ha0]. by apply hushed_serve.
  - by eapply tidy_task.
Qed.

Lemma tidy_reachable w cs a : star orderly_step (Agent w ∅ cs []) a → tidy (fds w) a.
Proof.
  intros Hrun. eapply (star_invariant orderly_step (tidy (fds w))); [apply tidy_step|exact Hrun|].
  split; simpl; [constructor|by rewrite dom_empty_L|constructor|by apply disjoint_empty_l|].
  by rewrite (right_id_L ∅ (∪)).
Qed.

(** ** Progress *)

Context {X : ExitOk G}.

Lemma exited_nonblocking c d w :
  proc_exited c w = true → proc_exited c (set_nonblocking d w).1 = true.
Proof.
  intros Hw. unfold set_nonblocking. destruct (fd_getfl d w) as [fl|]; [|done].
  pose proof (exited_setfl c d (Z.lor fl O_NONBLOCK) w Hw). by destruct (fd_setfl _ _ _) as [w' []].
Qed.

(** The output of a terminal can be read to an end. *)
Inductive ends (d : fd) : os → Prop :=
| ends_now w w' r : master_recv d w = (w', r) → (∀ b bs, r ≠ MasterChunk (b :: bs)) → ends d w
| ends_chunk w w' b bs : master_recv d w = (w', MasterChunk (b :: bs)) → ends d w' → ends d w.

(** If the connection is still open, the exit of the process is the last thing sent
    on it. *)
Definition reported (id : string) (c : child) (conn : nat) (a a' : agent) : Prop :=
  ∀ inp s, conns a !! conn = Some (Wire inp s None) →
  ∃ v s1, ∀ b, encode_frame (Frame.Exited id (exit_code (proc_wait c v).2)) = Ok b →
  conns a' !! conn = Some (Wire inp (s ++ s1 ++ b) None).

Definition task_run : agent → agent → Prop := star (λ a a', ∃ i, task_step i a = Some a').

(** Its own tasks lead to the report. *)
Definition reports (id : string) (c : child) (conn : nat) (a : agent) : Prop :=
  ∃ a', task_run a a' ∧ processes a' !! id = None ∧ reported id c conn a a'.

Lemma task_step_at i a t a' more :
  tasks a !! i = Some t → run_task t a = (a', more) → tasks a' = tasks a →
  ∃ a2, task_step i a = Some a2 ∧ world a2 = world a' ∧ processes a2 = processes a' ∧
    conns a2 = conns a' ∧
    ∀ j u, more !! j = Some u → tasks a2 !! (i + j)%nat = Some u.
Proof.
  intros Hi Hr Ht. unfold task_step. rewrite Hi, Hr. eexists. split; [done|]. simpl.
  split_and!; try done. intros j u Hj. rewrite Ht.
  apply lookup_lt_Some in Hi as Hl. rewrite lookup_app_r; rewrite length_take_le by lia; [|lia].
  replace (i + j - i)%nat with j by lia. by rewrite lookup_app_l by by eapply lookup_lt_Some.
Qed.

Lemma send_extends conn f a inp s :
  conns a !! conn = Some (Wire inp s None) →
  ∃ s1, conns (send conn f a).1 !! conn = Some (Wire inp (s ++ s1) None) ∧
    ∀ b, encode_frame f = Ok b → s1 = b.
Proof.
  intros Hc. unfold send. rewrite Hc. simpl. unfold write_frame.
  destruct (encode_frame f) as [b| |]; simpl; rewrite lookup_insert_eq.
  - exists b. split; [done|]. by intros ? [= <-].
  - exists []. by rewrite app_nil_r.
  - exists []. by rewrite app_nil_r.
Qed.

Lemma send_keeps conn f a :
  world (send conn f a).1 = world a ∧ processes (send conn f a).1 = processes a.
Proof. unfold send. destruct (conns a !! conn) as [[j s [g|]]|]; try done. by destruct (write_frame _ _). Qed.

Lemma await_reports i a id h c conn :
  proc_exited c (world a) = true → tasks a !! i = Some (AwaitExit id h c conn) → reports id c conn a.
Proof.
  intros Hex Hi. destruct (run_task (AwaitExit id h c conn) a) as [a1 more] eqn:Hr.
  pose proof (exit_effect _ _ _ _ _ _ _ Hr) as He.
  assert (tasks a1 = tasks a) as Ht by by destruct He as [?? (?&?&?)| | |].
  destruct (task_step_at _ _ _ _ _ Hi Hr Ht) as (a2 & Hs & _ & Hp & Hc & _).
  exists a2. split; [apply star_one; eauto|]. rewrite Hp. simpl in Hr. rewrite Hex in Hr.
  destruct (proc_wait c (world a)) as [w r] eqn:Hwait. set (x := set_processes _ _) in Hr.
  pose proof (send_keeps conn (Frame.Exited id (exit_code r)) x) as [_ Hx].
  destruct (send conn (Frame.Exited id (exit_code r)) x) as [x1 r1] eqn:Hsend. simplify_eq/=. split.
  - rewrite Hx. apply lookup_delete_eq.
  - intros inp s Ho.
    destruct (send_extends conn (Frame.Exited id (exit_code r)) x inp s Ho) as (s1 & Hs1 & He1).
    rewrite Hsend in Hs1. exists (world a), []. rewrite Hwait. intros b Hb.
    rewrite Hc, <-(He1 b Hb). done.
Qed.

(** The wire of a connection only grows. *)
Definition grows (conn : nat) (a a' : agent) : Prop :=
  ∀ inp s, conns a !! conn = Some (Wire inp s None) →
  ∃ s0, conns a' !! conn = Some (Wire inp (s ++ s0) None).

Lemma grows_same conn a a' : conns a' = conns a → grows conn a a'.
Proof. intros Heq inp s Hc. exists []. by rewrite app_nil_r, Heq. Qed.

Lemma one_step i a a1 id c conn :
  task_step i a = Some a1 → grows conn a a1 → reports id c conn a1 → reports id c conn a.
Proof.
  intros Hs Hg (a' & Hrun & Hp & Hr). exists a'.
  split_and!; [eapply star_step; [by exists i|done]|done|].
  intros inp s Hc. destruct (Hg inp s Hc) as [s0 Hs0].
  destruct (Hr _ _ Hs0) as (v & s1 & Hs1). exists v, (s0 ++ s1). intros b Hb.
  rewrite (Hs1 b Hb). by rewrite <-!app_assoc.
Qed.

(** The pump of a terminal ends, and leaves the wait behind. *)
Lemma pty_reports d w : ends d w → ∀ i a id h c conn,
  world a = w → proc_exited c w = true → tasks a !! i = Some (PumpPty id h d c conn) →
  reports id c conn a.
Proof.
  induction 1 as [w w' m Hm Hn|w w' b bs Hm _ IH]; intros i a id h c conn <- Hex Hi;
    destruct (run_task (PumpPty id h d c conn) a) as [a1 more] eqn:Hr;
    pose proof (pty_effect _ _ _ _ _ _ _ _ Hr) as He;
    (assert (tasks a1 = tasks a) as Ht by by destruct He as [?? (?&?&?)| | |]);
    destruct (task_step_at _ _ _ _ _ Hi Hr Ht) as (a2 & Hs & Hw & Hp & Hc & Hl);
    pose proof (exited_recv c d _ Hex) as Hex'; rewrite Hm in Hex'; simpl in Hr, Hex'; rewrite Hm in Hr.
  - assert (a1 = set_world (fd_close d w') a ∧ more = [AwaitExit id h c conn]) as [-> ->]
      by (destruct m as [[|b bs]| |]; [|by destruct (Hn b bs)|..]; by simplify_eq).
    eapply one_step; [exact Hs|by apply grows_same|].
    apply (await_reports (i + 0) a2 id h); [rewrite Hw; by apply exited_close|by apply Hl].
  - pose proof (send_extends conn (Frame.Stdout id (b :: bs)) (set_world w' a)) as Hg.
    pose proof (send_keeps conn (Frame.Stdout id (b :: bs)) (set_world w' a)) as [Hsw _].
    destruct (send _ _ _) as [a3 [[]|e|]]; simplify_eq/=;
      (eapply one_step; [exact Hs| |]; [intros inp s Ho; destruct (Hg inp s Ho) as (s1 & Hs1 & _);
        exists s1; by rewrite Hc|]).
    + apply (IH (i + 0)%nat a2 id h); [done|done|by apply Hl].
    + apply (await_reports (i + 0) a2 id h); [rewrite Hw; by apply exited_close|by apply Hl].
    + apply (await_reports (i + 0) a2 id h); [rewrite Hw; by apply exited_close|by apply Hl].
Qed.

Lemma pump_reports i a id h c conn :
  smooth a → proc_exited c (world a) = true → (∀ d w, proc_exited c w = true → ends d w) →
  tasks a !! i = Some (Pump id h c conn) → reports id c conn a.
Proof.
  intros Hsm Hex Hends Hi.
  assert (Pump id h c conn ∈ tasks a) as Hin by by eapply list_elem_of_lookup_2.
  destruct (run_task (Pump id h c conn) a) as [a1 more] eqn:Hr.
  pose proof (pump_effect _ _ _ _ _ _ _ Hin Hsm Hr) as He.
  assert (tasks a1 = tasks a) as Ht by by destruct He as [?? (?&?&?)| | |].
  destruct (task_step_at _ _ _ _ _ Hi Hr Ht) as (a2 & Hs & Hw & Hp & Hc & Hl). simpl in Hr.
  destruct (pty_master h) as [d|] eqn:Hd.
  - destruct (Hsm id h c conn d Hin Hd) as (w & e & Hdup). rewrite Hdup in Hr.
    assert (proc_exited c (set_nonblocking e w).1 = true) as Hex'.
    { apply exited_nonblocking. pose proof (exited_dup c d _ Hex) as Hx. by rewrite Hdup in Hx. }
    destruct (fd_watch e _); simplify_eq/=; (eapply one_step; [exact Hs|by apply grows_same|]).
    + eapply (pty_reports e _ (Hends _ _ Hex') (i + 0) a2 id h); [done|done|by apply Hl].
    + apply (await_reports (i + 0) a2 id h); [rewrite Hw; by apply exited_close|by apply Hl].
  - simplify_eq. eapply one_step; [exact Hs|by apply grows_same|].
    apply (await_reports (i + 2) a2 id h); [by rewrite Hw|by apply Hl].
Qed.

(** ** Which process a task watches, and for which connection *)

Definition watch (t : task) : option (string * child * nat) :=
  match t with
  | Pump id _ c conn | PumpPty id _ _ c conn | AwaitExit id _ c conn => Some (id, c, conn)
  | _ => None
  end.
Definition watched (id : string) (c : child) (conn : nat) (a : agent) : Prop :=
  ∃ t, t ∈ tasks a ∧ watch t = Some (id, c, conn).

Lemma watch_reports a id c conn :
  smooth a → proc_exited c (world a) = true → (∀ d w, proc_exited c w = true → ends d w) →
  watched id c conn a → reports id c conn a.
Proof.
  intros Hsm Hex Hends (t & (i & Hi)%list_elem_of_lookup_1 & Ht).
  destruct t; simplify_eq/=;
    [by eapply pump_reports|eapply pty_reports; [by apply Hends|done|done|done]|by eapply await_reports].
Qed.

(** A task that watches a process hands the watch over, or the process is no longer
    registered. *)
Lemma run_task_watch t a a' more id c conn :
  t ∈ tasks a → smooth a → run_task t a = (a', more) → watch t = Some (id, c, conn) →
  (∃ u, u ∈ more ∧ watch u = Some (id, c, conn)) ∨ processes a' !! id = None.
Proof.
  intros Hin Hsm Hr Ht. destruct t; simplify_eq/=.
  - left. destruct (pty_master handle) as [d|] eqn:Hd.
    + destruct (Hsm id handle c conn d Hin Hd) as (w & e & Hdup). rewrite Hdup in Hr.
      destruct (fd_watch e _); simplify_eq/=; eexists; (split; [by apply list_elem_of_singleton|done]).
    + simplify_eq. exists (AwaitExit id handle c conn). split; [|done]. set_solver.
  - left. destruct (master_recv _ _) as [w [[|b bs]| |]]; simplify_eq/=;
      [..|]; try (eexists; split; [by apply list_elem_of_singleton|done]).
    destruct (send _ _ _) as [a1 [[]|e|]]; simplify_eq/=;
      eexists; (split; [by apply list_elem_of_singleton|done]).
  - destruct (proc_exited c (world a)); simplify_eq/=.
    + right. destruct (proc_wait c (world a)) as [w r]. set (x := set_processes _ _) in Hr.
      pose proof (send_keeps conn (Frame.Exited id (exit_code r)) x) as [_ Hx].
      destruct (send _ _ _) as [x1 r1]. simplify_eq/=. rewrite Hx. apply lookup_delete_eq.
    + left. eexists; split; [by apply list_elem_of_singleton|done].
Qed.

Lemma watched_task i a a' id c conn :
  smooth a → task_step i a = Some a' → is_Some (processes a' !! id) →
  watched id c conn a → watched id c conn a'.
Proof.
  unfold task_step. intros Hsm. destruct (tasks a !! i) as [t|] eqn:Hi; [|done].
  destruct (run_task t a) as [a1 more] eqn:Hr. intros [= <-] Hid (u & Hu & Hw).
  assert (t ∈ tasks a) as Hin by by eapply list_elem_of_lookup_2.
  pose proof (task_effect t a a1 more Hin Hsm Hr) as He.
  assert (tasks a1 = tasks a) as Ht by by destruct He as [?? (?&?&?)| | |].
  rewrite <-(take_drop_middle _ _ _ Hi), elem_of_app, elem_of_cons in Hu. unfold watched. simpl. rewrite Ht.
  destruct Hu as [Hu|[->|Hu]]; [exists u; set_solver| |exists u; set_solver].
  destruct (run_task_watch t a a1 more id c conn Hin Hsm Hr Hw) as [(u & Hu & Hw')|Hn].
  - exists u. set_solver.
  - simpl in Hid. rewrite Hn in Hid. by destruct Hid.
Qed.

(** Serving a frame takes no task away. *)
Lemma serve_keeps_tasks conn f a :
  ∃ ts, tasks (serve_frame conn f a).1 = tasks a ++ ts.
Proof.
  destruct (starts f) as [id|] eqn:Hf.
  2: { exists []. rewrite app_nil_r. by apply (hushed_serve conn f Hf a). }
  destruct f; try done. cbn [serve_frame].
  match goal with |- context [on_os ?m] => destruct (m (world a)) as [w r] eqn:Hsp end.
  erewrite bind_ok; [|by unfold on_os; rewrite Hsp]. destruct r as [[h c]|e|].
  2: { exists []. rewrite app_nil_r. by destruct (hushed_respond conn (Frame.Error e 3) (set_world w a)). }
  2: { exists []. by rewrite app_nil_r. }
  unfold mbind, stres_bind, modify.
  lazymatch goal with |- context [respond ?n ?g ?x] =>
    pose proof (hushed_respond n g x) as (Ht & _); destruct (respond n g x) as [a2 [[]|e|]] end;
    simpl in Ht; simpl; [|exists []; by rewrite app_nil_r..].
  destruct (0 <? _); simpl; rewrite Ht, <-?app_assoc; eauto.
Qed.

Lemma watched_later id c conn a a' :
  watched id c conn a → orderly_step a a' ∧ is_Some (processes a' !! id) → watched id c conn a'.
Proof.
  intros Hw [(e & Hs & Ho) Hid]. destruct Hs as [| | |a conn' w frame rest Hc Hf|a i a' Ht]; try done.
  - destruct Hw as (t & Hin & Ht).
    destruct (serve_keeps_tasks conn' frame (put_wire conn' (Wire rest (sent w) (gone w)) a)) as [ts Hts].
    exists t. rewrite Hts, elem_of_app. auto.
  - by eapply watched_task.
Qed.

(** A start that is answered leaves its pump behind. *)
Lemma start_watched conn id cmd env cwd t stdin pty rest a a' w h c :
  let start := Frame.ProcessStart id cmd env cwd t stdin pty in
  step (ServeFrame conn start rest) a a' → orderly (ServeFrame conn start rest) a →
  spawn_interactive cmd env cwd stdin pty (world a) = (w, Ok (h, c)) → watched id c conn a'.
Proof.
  intros start Hs Ho Hsp. remember (ServeFrame conn start rest) as ev eqn:Hev.
  destruct Hs as [| | |a conn' x frame rest' Hc Hf|]; try done. injection Hev as -> -> ->.
  destruct (Ho id eq_refl) as [_ Hok]. specialize (Hok x Hc). revert Hok.
  set (a0 := put_wire _ _ a). cbn [serve_frame start].
  rewrite (bind_ok _ _ a0 (set_world w a0) (Ok (h, c))) by (unfold on_os; simpl; by rewrite Hsp).
  unfold mbind, stres_bind, modify.
  destruct (respond _ _ _) as [a2 [[]|e|]]; simpl; [|done..]. intros _.
  destruct (0 <? t); simpl; exists (Pump id h c conn); simpl; set_solver.
Qed.
End sessions.

#[export] Hint Resolve unopening_bind unopening_ret unopening_fail unopening_lift unopening_gets unopening_call : sessions.

(** ** Properties *)

(** C17: the agent loses track of no process and leaks no terminal.  In every orderly
    run, however connections come and go, frames are served and tasks interleave, each
    process of the registry is watched by exactly one pump, which is not the pump of
    another; every descriptor of a terminal opened beyond those of the start belongs to
    exactly one task; and once no pump is left the registry is empty and the terminals'
    descriptors are those of the start.  (Pipes and sockets are not counted.)  A run is
    orderly when no process is started under the id of a running one, the answer to every
    start can be written, and terminals can be duplicated: in each of these three cases
    the code itself loses a process or a terminal. *)
Theorem agent_leaks_nothing {G : GuestOs} {P : Postcard} {F : FdsOk G} w cs a :
  star orderly_step (Agent w ∅ cs []) a →
  NoDup (sessions_of (tasks a)) ∧
  (∀ id, is_Some (processes a !! id) ↔ id ∈ sessions_of (tasks a)) ∧
  NoDup (held (tasks a)) ∧
  (∀ d, d ∈ fds (world a) ↔ d ∈ fds w ∨ d ∈ held (tasks a)) ∧
  (sessions_of (tasks a) = [] → processes a = ∅ ∧ fds (world a) = fds w).
Proof.
  intros Hrun.
  destruct (tidy_reachable w cs a Hrun) as [H1 H2 H3 H4 H5].
  split_and!; [done| |done| |].
  - intros id. by rewrite <-elem_of_dom, H2, elem_of_list_to_set.
  - intros d. by rewrite H5, elem_of_union, elem_of_list_to_set.
  - intros Hn. rewrite Hn in H2. split; [by apply dom_empty_inv_L|].
    assert (held (tasks a) = []) as Hh; [|rewrite H5, Hh; simpl; by rewrite (right_id_L ∅ (∪))].
    clear -Hn. induction (tasks a) as [|t ts IH]; [done|]. unfold sessions_of in Hn. simpl in Hn.
    destruct t; simplify_eq/=; by apply IH.
Qed.


(** ** A small guest

    Files in memory, descriptors as numbers, children that print one letter and
    exit. *)

Module GuestDemo.
Record disk : Type := Disk { files : gmap string Bytes; fresh_from : gset nat }.

Definition new_fd (s : gset nat) : nat := S (max_list (elements s)).
Lemma new_fd_new s : new_fd s ∉ s.
Proof.
  intros Hin. apply elem_of_elements, max_list_elem_of_le in Hin. unfold new_fd in Hin. lia.
Qed.

Definition open_fd (d : disk) : disk * nat :=
  (Disk (files d) ({[new_fd (fresh_from d)]} ∪ fresh_from d), new_fd (fresh_from d)).
Definition same {A} (x : A) (d : disk) : disk * (string + A) := (d, inr x).

#[global] Instance demo_os : GuestOs := {|
  os := disk; child := unit; fd := nat;
  fs_create_dir_all _ := same ();
  fs_write p b d := (Disk (<[p := b]> (files d)) (fresh_from d), inr ());
  fs_set_mode _ _ := same ();
  fs_read p d := match files d !! p with Some b => inr b | None => inl "No such file or directory"%string end;
  fs_read_to_string _ _ := inr "0::/"%string;
  fs_read_dir _ _ := inr [];
  fs_remove_file _ := same ();
  fs_mount _ _ _ d := (d, Mounted);
  own_pid _ := 1;
  proc_spawn _ := same ();
  child_id _ := Some 7;
  proc_exited _ _ := true;
  proc_wait _ := same (Some 0);
  proc_wait_within _ _ d := (d, Some (inr (Some 0)));
  proc_kill _ d := d;
  proc_drain _ d := Some (d, ([Byte.x41], []));
  sys_kill _ _ d := (d, None);
  stdin_write _ _ := same ();
  stdin_close _ d := d;
  read_stdout _ := same [];
  read_stderr _ := same [];
  openpty _ _ d := let '(d1, m) := open_fd d in let '(d2, s) := open_fd d1 in (d2, inr (m, s));
  fd_getfl _ _ := Some 2;
  fd_setfl _ _ d := (d, true);
  fd_dup _ d := let '(d1, e) := open_fd d in (d1, inr e);
  fd_close e d := Disk (files d) (fresh_from d ∖ {[e]});
  fd_watch _ _ := true;
  fd_winsize _ _ _ := same ();
  master_recv _ d := (d, MasterChunk []);
  debug_frame _ := "frame"%string |}.

#[global] Instance demo_fds : FdsOk demo_os.
Proof.
  refine {| fds := (fresh_from : @os demo_os → gset nat) |}; try done; simpl.
  - intros _ _ w w' m s. unfold open_fd. simpl. intros [= <- <- <-]. simpl.
    pose proof (new_fd_new (fresh_from w)) as H1.
    pose proof (new_fd_new ({[new_fd (fresh_from w)]} ∪ fresh_from w)) as H2.
    apply not_elem_of_union in H2 as [H2 H3]. rewrite not_elem_of_singleton in H2.
    repeat split; [exact H1|exact H3|congruence|].
    set (x := new_fd (fresh_from w)). set (y := new_fd _). by rewrite (assoc_L (∪)), (comm_L (∪) {[y]}).
  - intros _ w w' d'. unfold open_fd. intros [= <- <-]. split; [apply new_fd_new|done].
  - by intros _ w w' r [= -> _].
Qed.

#[global] Instance demo_exit : ExitOk demo_os.
Proof. by split. Qed.

(** The frames of the examples, one byte each. *)
Definition start : Frame.t :=
  Frame.ProcessStart "p1" ["sh"%string] ∅ None 0 false (Some (PtyConfig.mk 80 24)).
Definition table : list (Frame.t * Byte.byte) :=
  [(start, Byte.x10); (Frame.ProcessStarted "p1" 7, Byte.x11); (Frame.Exited "p1" 0, Byte.x12);
   (Frame.WriteFile "/f" 420 [Byte.x41], Byte.x01); (Frame.WriteFileResult "/f", Byte.x02);
   (Frame.ReadFile "/f" 0 u64_max, Byte.x03); (Frame.ReadFileResult "/f" [Byte.x41], Byte.x04);
   (Frame.ExecReq "u0" ["id"%string] ∅ None 1000, Byte.x05); (Frame.Stdout "u0" [Byte.x41], Byte.x06);
   (Frame.Exited "u0" 0, Byte.x07)].

#[local] Instance byte_dec : EqDecision Byte.byte := Byte.byte_eq_dec.

Definition same_frame (f g : Frame.t) : bool :=
  match f, g with
  | Frame.ProcessStart i a e c t s (Some p), Frame.ProcessStart i' a' e' c' t' s' (Some p') =>
    String.eqb i i' && bool_decide (a = a') && bool_decide (e = e') && bool_decide (c = c')
    && (t =? t') && eqb s s' && (PtyConfig.cols p =? PtyConfig.cols p')
    && (PtyConfig.rows p =? PtyConfig.rows p')
  | Frame.ProcessStarted i p, Frame.ProcessStarted i' p' => String.eqb i i' && (p =? p')
  | Frame.Exited i c, Frame.Exited i' c' => String.eqb i i' && (c =? c')
  | Frame.Stdout i b, Frame.Stdout i' b' => String.eqb i i' && bool_decide (b = b')
  | Frame.WriteFile p m b, Frame.WriteFile p' m' b' =>
    String.eqb p p' && (m =? m') && bool_decide (b = b')
  | Frame.WriteFileResult p, Frame.WriteFileResult p' => String.eqb p p'
  | Frame.ReadFile p o l, Frame.ReadFile p' o' l' => String.eqb p p' && (o =? o') && (l =? l')
  | Frame.ReadFileResult p b, Frame.ReadFileResult p' b' =>
    String.eqb p p' && bool_decide (b = b')
  | Frame.ExecReq i a e c t, Frame.ExecReq i' a' e' c' t' =>
    String.eqb i i' && bool_decide (a = a') && bool_decide (e = e') && bool_decide (c = c')
    && (t =? t')
  | _, _ => false
  end.

Lemma same_frame_eq f g : same_frame f g = true → f = g.
Proof.
  assert (∀ p q : PtyConfig.t, PtyConfig.cols p = PtyConfig.cols q →
    PtyConfig.rows p = PtyConfig.rows q → p = q) as Hp by (intros [] []; simpl; congruence).
  destruct f, g; try done; simpl; repeat case_match; try done;
    rewrite ?andb_true_iff, ?bool_decide_eq_true, ?Z.eqb_eq, ?String.eqb_eq, ?eqb_true_iff;
    intros; destruct_and?; subst; f_equal; f_equal; auto.
Qed.

Definition code_of (f : Frame.t) : res string Bytes :=
  match List.find (λ x, same_frame x.1 f) table with
  | Some (_, b) => Ok [b]
  | None => Err "unsupported"%string
  end.
Definition frame_of (p : Bytes) : res string Frame.t :=
  match p with
  | [b] => match List.find (λ x, Byte.eqb x.2 b) table with
           | Some (f, _) => Ok f
           | None => Err "malformed"%string
           end
  | _ => Err "malformed"%string
  end.

#[global] Instance demo_codec : Postcard := {| to_allocvec := code_of; from_bytes := frame_of |}.

#[global] Instance demo_codec_ok : PostcardOk demo_codec.
Proof.
  split. intros f p. change (code_of f = Ok p → frame_of p = Ok f). unfold code_of.
  destruct (List.find _ table) as [[g b]|] eqn:Hf; [|done]. intros [= <-].
  apply List.find_some in Hf as [Hin Hg]. cbn [fst] in Hg. apply same_frame_eq in Hg. subst g.
  repeat (destruct Hin as [[= <- <-]|Hin]; [reflexivity|]). destruct Hin.
Qed.

(** A terminal session from start to exit. *)
Definition wire_in : Bytes := [Byte.x00; Byte.x00; Byte.x00; Byte.x01; Byte.x10].
Definition g0 : agent := Agent (Disk ∅ {[3%nat]}) ∅ ∅ [].
Definition g1 : agent := put_wire 0 (Wire [] [] None) g0.
Definition g2 : agent := put_wire 0 (Wire wire_in [] None) g1.
Definition g3 : agent := (serve_frame 0 start (put_wire 0 (Wire [] [] None) g2)).1.
Definition next (a : agent) : agent := default a (task_step 0 a).
Definition g6 : agent := next (next (next g3)).

(** The world after the spawn and the process; the answer to the start. *)
Definition spawned : os * RunningProcess :=
  (world g3, default (Running 0 NoStdin None) (processes g3 !! "p1"%string)).
Definition answered : Bytes := default [] (sent <$> conns g3 !! 0%nat).

Lemma smooth_all a : smooth a.
Proof. intros id h c conn d _ _. eexists _, _. reflexivity. Qed.

Lemma next_step a : bool_decide (is_Some (task_step 0 a)) = true → orderly_step a (next a).
Proof.
  intros (a' & Ha)%bool_decide_eq_true. exists (RunTask 0). split; [|apply smooth_all].
  apply step_task. unfold next. by rewrite Ha.
Qed.

Lemma demo_serves : step (ServeFrame 0 start []) g2 g3.
Proof. by apply (step_serve g2 0 (Wire wire_in [] None)). Qed.
Lemma demo_orderly : orderly (ServeFrame 0 start []) g2.
Proof. intros id _. split; [done|]. intros c [= <-]. reflexivity. Qed.

Lemma demo_started : star orderly_step g0 g3.
Proof.
  eapply star_step; [exists (Accept 0); split; [by apply step_accept|done]|].
  eapply star_step; [exists (Arrive 0 wire_in); split; [by apply (step_arrive g1 0 (Wire [] [] None))|done]|].
  apply star_one. exists (ServeFrame 0 start []). split; [apply demo_serves|apply demo_orderly].
Qed.

Lemma demo_run : star orderly_step g0 g6.
Proof.
  eapply star_trans; [exact demo_started|].
  do 3 (eapply star_step; [by apply next_step|]). apply star_refl.
Qed.
End GuestDemo.

Lemma agent_leaks_nothing_witness :
  processes GuestDemo.g6 = ∅ ∧ fds (world GuestDemo.g6) = fds (world GuestDemo.g0).
Proof.
  refine (proj2 (proj2 (proj2 (proj2 (agent_leaks_nothing _ _ _ GuestDemo.demo_run)))) _).
  vm_compute. reflexivity.
Defined.

