(* ===== verification/FrameClient.v ===== *)
(** * Talking to the guest agent ([crates/clouisle-api/src/agent.rs])

    The connectors that find the agent of a sandbox and shake hands with it, and
    [VsockFrameConnection], which turns every call of the trait [AgentConnection]
    into frames on that connection.

    A socket is a member of [Sockets]: [codec::write_frame] and [codec::read_frame]
    on a connected stream, over an opaque network; the clock (in milliseconds) and
    the UUIDs come from the same world. *)

From S2P Require Import Prelude Core SandboxModel Vmm Proto Digest Net Guest GuestAgent GuestSessions.

Class Sockets : Type := {
  net : Type; sock : Type;
  (** [timeout(limit, TcpStream::connect(addr))]: [None] when the limit (in
      milliseconds) passed first. *)
  tcp_connect : Z → string → net → net * option (string + sock);
  (** [(host, 5201).to_socket_addrs()]. *)
  resolve : string → net → net * (string + list string);
  sock_write : sock → Frame.t → net → net * res CodecError.t ();
  sock_read : sock → net → net * res CodecError.t Frame.t;
  clock_ms : net → Z;
  sleep_ms : Z → net → net;
  fresh_uuid : net → net * string;
  (** The derived [Debug] of a frame. *)
  frame_text : Frame.t → string }.

(** Time passes: no operation turns the clock back, and a sleep lasts. *)
Class SocketsOk (K : Sockets) : Prop := {
  clock_connect l a n : clock_ms n ≤ clock_ms (tcp_connect l a n).1;
  clock_sleep t n : 0 ≤ t → clock_ms n + t ≤ clock_ms (sleep_ms t n) }.

(** [Display] of a [CodecError]. *)
Definition codec_text (e : CodecError.t) : string :=
  match e with
  | CodecError.FrameTruncated expected got =>
    "frame truncated: expected " +:+ show expected +:+ " bytes, got " +:+ show got
  | CodecError.Decode m => "postcard decode failed: " +:+ m
  | CodecError.Io m => "io error: " +:+ m
  end.

Definition vmm_error : string → ClouisleError.t := ClouisleError.mk ErrorKind.Vmm.

(** [guest_fs_error]. *)
Definition guest_fs_error (op path message : string) : ClouisleError.t :=
  let lower := to_ascii_lowercase message in
  let text := ("guest " +:+ op +:+ " " +:+ path +:+ ": " +:+ message)%string in
  if contains_str "no such file" lower || contains_str "not found" lower
     || contains_str "no such directory" lower
  then ClouisleError.not_found text else vmm_error text.

Module Client.
Section client.
Context {K : Sockets}.

Abbreviation cl := (stres net ClouisleError.t).

(** [write_frame(..).map_err(|e| io(format!("{sending}: {e}")))] and the same for
    [read_frame]. *)
Definition put (s : sock) (f : Frame.t) (sending : string) : cl () := λ n,
  let '(n', r) := sock_write s f n in
  (n', map_err (λ e, ClouisleError.io (sending +:+ ": " +:+ codec_text e)) r).
Definition get (s : sock) (reading : string) : cl Frame.t := λ n,
  let '(n', r) := sock_read s n in
  (n', map_err (λ e, ClouisleError.io (reading +:+ ": " +:+ codec_text e)) r).

Definition unexpected (what : string) (f : Frame.t) : ClouisleError.t :=
  ClouisleError.invalid_state ("unexpected frame for " +:+ what +:+ ": " +:+ frame_text f).

Definition new_id : cl string := λ n, let '(n', id) := fresh_uuid n in (n', Ok id).

(** ** Handshake *)

Definition hello : Frame.t := Frame.Hello Serve.agent_version.

(** Hello, and the answer to it. *)
Definition shake_hands (s : sock) (writing reading refused : string) : cl sock :=
  _ ← put s hello writing;
  resp ← get s reading;
  match resp with
  | Frame.Hello _ => mret s
  | _ => fail (ClouisleError.invalid_state refused)
  end.

(** The retry loop of [VsockAgentConnector::connect_and_hello]: a failed or slow
    connection is tried again after 300 ms until the deadline has passed. *)
Fixpoint vsock_connect (fuel : nat) (deadline : Z) (ip : string) : cl sock :=
  match fuel with
  | O => lift Panic
  | S fuel => λ n,
    let retry last_err n1 :=
      if deadline <=? clock_ms n1
      then (n1, Err (vmm_error ("guest TCP connect to " +:+ ip +:+ ":5201 failed: " +:+ last_err)))
      else vsock_connect fuel deadline ip (sleep_ms 300 n1) in
    match tcp_connect 500 (ip +:+ ":5201") n with
    | (n1, Some (inr s)) =>
      shake_hands s "write Hello to guest" "read Hello response from guest"
        "expected Hello from guest, got unexpected frame" n1
    | (n1, Some (inl e)) => retry e n1
    | (n1, None) => retry "connect timed out"%string n1
    end
  end.

(** [format!("{ip}:5201").parse::<SocketAddr>()] succeeds: the numbers of a subnet
    are octets. *)
Definition guest_address `{Sha256} (h : VmHandle.t) (sandbox_id : string) : string :=
  match VmHandle.subnet h with
  | Some ab => dotted ab ".2"
  | None => guest_ip sandbox_id
  end.

Definition rounds (timeout pause : Z) : nat := Z.to_nat (timeout / pause + 2).

Definition vsock_connect_and_hello `{Sha256} (connect_timeout : Z) (h : VmHandle.t)
    (sandbox_id : string) : cl sock := λ n,
  vsock_connect (rounds connect_timeout 300) (clock_ms n + connect_timeout)
    (guest_address h sandbox_id) n.

(** The development connector gives up as soon as one attempt is slow. *)
Definition dev_timeout (connect_timeout : Z) : ClouisleError.t :=
  ClouisleError.timeout
    ("docker-dev agent hello timeout after " +:+ show (connect_timeout / 1000) +:+ "s").

Fixpoint dev_connect (fuel : nat) (connect_timeout deadline : Z) (addr : string) : cl sock :=
  match fuel with
  | O => lift Panic
  | S fuel => λ n,
    match tcp_connect 500 addr n with
    | (n1, Some (inr s)) =>
      shake_hands s "write Hello to dev container" "read Hello from dev container"
        "expected Hello from dev container agent" n1
    | (n1, Some (inl _)) =>
      if deadline <=? clock_ms n1 then (n1, Err (dev_timeout connect_timeout))
      else dev_connect fuel connect_timeout deadline addr (sleep_ms 200 n1)
    | (n1, None) => (n1, Err (dev_timeout connect_timeout))
    end
  end.

Definition dev_connect_and_hello (connect_timeout : Z) (h : VmHandle.t) : cl sock := λ n,
  match resolve (VmHandle.id h) n with
  | (n1, inl e) => (n1, Err (ClouisleError.io
      ("resolve dev container " +:+ VmHandle.id h +:+ ":5201: " +:+ e)))
  | (n1, inr []) => (n1, Err (ClouisleError.io
      ("no address for dev container " +:+ VmHandle.id h +:+ ":5201")))
  | (n1, inr (addr :: _)) =>
    dev_connect (rounds connect_timeout 200) connect_timeout (clock_ms n1 + connect_timeout) addr n1
  end.

(** ** Files and limits *)

Definition write_file (s : sock) (path : string) (content : Bytes) (mode : Z) : cl () :=
  _ ← put s (Frame.WriteFile path mode content) ("send WriteFile " +:+ path);
  resp ← get s ("read WriteFile response " +:+ path);
  match resp with
  | Frame.WriteFileResult _ => mret ()
  | Frame.Error message _ =>
    fail (ClouisleError.io ("guest write_file " +:+ path +:+ ": " +:+ message))
  | other => fail (unexpected "WriteFile" other)
  end.

Definition read_file (s : sock) (path : string) : cl Bytes :=
  _ ← put s (Frame.ReadFile path 0 u64_max) ("send ReadFile " +:+ path);
  resp ← get s "read ReadFile response";
  match resp with
  | Frame.ReadFileResult _ content => mret content
  | Frame.Error message _ => fail (guest_fs_error "read_file" path message)
  | other => fail (unexpected "ReadFile" other)
  end.

Definition list_dir (s : sock) (path : string) : cl (list DirEntry.t) :=
  _ ← put s (Frame.ListDir path) ("send ListDir " +:+ path);
  resp ← get s "read ListDir response";
  match resp with
  | Frame.ListDirResult entries => mret entries
  | Frame.Error message _ => fail (guest_fs_error "list_dir" path message)
  | other => fail (unexpected "ListDir" other)
  end.

Definition ping (s : sock) : cl () :=
  _ ← put s Frame.Ping "send Ping";
  resp ← get s "read Pong";
  match resp with
  | Frame.Pong => mret ()
  | Frame.Error message _ => fail (vmm_error ("guest ping: " +:+ message))
  | other => fail (unexpected "Ping" other)
  end.

(** A frame that is acknowledged with [ControlOk]. *)
Definition control (s : sock) (f : Frame.t) (sending reading prefix what : string) : cl () :=
  _ ← put s f sending;
  resp ← get s reading;
  match resp with
  | Frame.ControlOk => mret ()
  | Frame.Error message _ => fail (vmm_error (prefix +:+ message))
  | other => fail (unexpected what other)
  end.

Definition apply_limits (s : sock) (pids_max : option Z) : cl () :=
  control s (Frame.ApplyLimits pids_max None) "send ApplyLimits" "read ApplyLimits response"
    "guest apply_limits: " "ApplyLimits".
Definition send_stdin (s : sock) (id : string) (chunk : Bytes) : cl () :=
  control s (Frame.Stdin id chunk) "send Stdin" "read Stdin ack" "guest stdin: " "Stdin".
Definition close_stdin (s : sock) (id : string) : cl () :=
  control s (Frame.StdinEof id) "send StdinEof" "read StdinEof ack" "guest stdin eof: " "StdinEof".
Definition send_signal (s : sock) (id : string) (signal : ProcessSignal.t) : cl () :=
  control s (Frame.Signal id signal) "send Signal" "read Signal ack" "guest signal: " "Signal".
Definition resize_pty (s : sock) (id : string) (cols rows : Z) : cl () :=
  control s (Frame.Resize id cols rows) "send Resize" "read Resize ack" "guest resize: " "Resize".

(** ** Output of a process

    The receiver of the events: how many it has room for when nobody drains it,
    and after how many it goes away. *)
Record receiver : Type := Receiver { room : option nat; leaves : option nat }.

Inductive delivery : Set := Delivered | NobodyThere | NoRoom.
Definition deliver (r : receiver) (before : nat) : delivery :=
  if match leaves r with Some k => (k <=? before)%nat | None => false end then NobodyThere
  else if match room r with Some k => (k <=? before)%nat | None => false end then NoRoom
  else Delivered.

(** What the loop over the frames of a process does with one frame. *)
Inductive reaction : Type := Emit (e : ExecStreamEvent) | Last (e : ExecStreamEvent) | Reject (e : ClouisleError.t).

Definition is_for (id frame_id : string) : bool := String.eqb frame_id id.

Definition react (id : string) (other : Frame.t → ClouisleError.t) (f : Frame.t) : reaction :=
  match f with
  | Frame.Stdout fid chunk => if is_for id fid then Emit (EvStdout chunk) else Reject (other f)
  | Frame.Stderr fid chunk => if is_for id fid then Emit (EvStderr chunk) else Reject (other f)
  | Frame.Exited fid code => if is_for id fid then Last (EvExit code) else Reject (other f)
  | Frame.Error message _ => Reject (vmm_error message)
  | _ => Reject (other f)
  end.

(** How the loop ends; [Blocked] when it never does: the channel is full and
    nobody drains it, or [fuel] frames did not bring the end. *)
Inductive ending : Type := Done | Broken (e : ClouisleError.t) | Blocked.

Fixpoint forward (fuel : nat) (s : sock) (id reading : string) (other : Frame.t → ClouisleError.t)
    (deserted : ending) (r : receiver) (acc : list ExecStreamEvent) (n : net)
  : net * (list ExecStreamEvent * ending) :=
  match fuel with
  | O => (n, (acc, Blocked))
  | S fuel =>
    match get s reading n with
    | (n1, Ok f) =>
      match react id other f with
      | Emit e =>
        match deliver r (length acc) with
        | Delivered => forward fuel s id reading other deserted r (acc ++ [e]) n1
        | NobodyThere => (n1, (acc, deserted))
        | NoRoom => (n1, (acc, Blocked))
        end
      | Last e =>
        match deliver r (length acc) with
        | Delivered => (n1, (acc ++ [e], Done))
        | NobodyThere => (n1, (acc, Done))
        | NoRoom => (n1, (acc, Blocked))
        end
      | Reject e => (n1, (acc, Broken e))
      end
    | (n1, Err e) => (n1, (acc, Broken e))
    | (n1, Panic) => (n1, (acc, Blocked))
    end
  end.

(** [VsockFrameConnection::exec_stream]. *)
Definition exec_stream (fuel : nat) (r : receiver) (s : sock) (argv : list string)
    (env : gmap string string) (cwd : option string) (timeout_ms : Z) (n : net)
  : net * (list ExecStreamEvent * ending) :=
  let '(n1, id) := fresh_uuid n in
  match put s (Frame.ExecReq id argv env cwd timeout_ms) "send streamed ExecReq" n1 with
  | (n2, Ok _) =>
    forward fuel s id "read streamed exec response"
      (λ _, ClouisleError.invalid_state "unexpected streamed guest frame") Done r [] n2
  | (n2, Err e) => (n2, ([], Broken e))
  | (n2, Panic) => (n2, ([], Blocked))
  end.

(** What [exec] makes of the events.  (The code of an [Error] event cannot come:
    [exec_stream] sends none.) *)
Fixpoint collect (events : list ExecStreamEvent) (r : Bytes * Bytes * Z)
  : res ClouisleError.t (Bytes * Bytes * Z) :=
  match events with
  | [] => Ok r
  | e :: events' =>
    let '(out, err, code) := r in
    match e with
    | EvStdout b => collect events' (out ++ b, err, code)
    | EvStderr b => collect events' (out, err ++ b, code)
    | EvExit c => collect events' (out, err, c)
    | EvError m => Err (vmm_error m)
    end
  end.

Definition CHANNEL : nat := 4096.

(** [VsockFrameConnection::exec]: the channel has room for 4096 events and is only
    read once the stream has ended.  [None] when it never ends. *)
Definition exec (s : sock) (argv : list string) (env : gmap string string)
    (cwd : option string) (timeout_ms : Z) (n : net)
  : net * option (res ClouisleError.t ExecutionResult.t) :=
  let '(n1, (events, how)) :=
    exec_stream (S (S CHANNEL)) (Receiver (Some CHANNEL) None) s argv env cwd timeout_ms n in
  (n1, match how with
       | Done => Some ('(out, err, code) ← collect events ([], [], -1);
           Ok (ExecutionResult.mk code out err (clock_ms n1 - clock_ms n)))
       | Broken e => Some (Err e)
       | Blocked => None
       end).

Definition start_process (s : sock) (argv : list string) (env : gmap string string)
    (cwd : option string) (timeout_ms : Z) (stdin : bool) (pty : option PtyConfig.t)
  : cl string :=
  id ← new_id;
  _ ← put s (Frame.ProcessStart id argv env cwd timeout_ms stdin pty) "send ProcessStart";
  started ← get s "read ProcessStarted";
  match started with
  | Frame.ProcessStarted got _ =>
    if String.eqb got id then mret id else fail (unexpected "ProcessStart" started)
  | Frame.Error message _ => fail (vmm_error message)
  | other => fail (unexpected "ProcessStart" other)
  end.

Definition stream_process_events (fuel : nat) (r : receiver) (s : sock) (id : string) (n : net)
  : net * (list ExecStreamEvent * ending) :=
  forward fuel s id "read interactive process output"
    (λ f, ClouisleError.invalid_state ("unexpected interactive frame: " +:+ frame_text f))
    (Broken (ClouisleError.invalid_state "process stream closed")) r [] n.

(** ** Lemmas *)

Lemma forward_frame fuel s id reading other deserted r acc n n1 f :
  get s reading n = (n1, Ok f) →
  forward (S fuel) s id reading other deserted r acc n
  = match react id other f with
    | Emit e =>
      match deliver r (length acc) with
      | Delivered => forward fuel s id reading other deserted r (acc ++ [e]) n1
      | NobodyThere => (n1, (acc, deserted))
      | NoRoom => (n1, (acc, Blocked))
      end
    | Last e =>
      match deliver r (length acc) with
      | Delivered => (n1, (acc ++ [e], Done))
      | NobodyThere => (n1, (acc, Done))
      | NoRoom => (n1, (acc, Blocked))
      end
    | Reject e => (n1, (acc, Broken e))
    end.
Proof. intros Hg. cbn [forward]. by rewrite Hg. Qed.

Lemma rounds_spec timeout pause : 0 ≤ timeout → 0 < pause →
  timeout < (Z.of_nat (rounds timeout pause) - 1) * pause.
Proof.
  intros Ht Hp. unfold rounds. pose proof (Z.div_pos timeout pause Ht Hp).
  rewrite Z2Nat.id by lia. pose proof (Z.mul_succ_div_gt timeout pause Hp). nia.
Qed.

Lemma shake_hands_no_panic s w r x n :
  (∀ f m, (sock_write s f m).2 ≠ Panic) → (∀ m, (sock_read s m).2 ≠ Panic) →
  (shake_hands s w r x n).2 ≠ Panic.
Proof.
  intros Hw Hr. unfold shake_hands, put, get, mbind, stres_bind.
  specialize (Hw hello n). destruct (sock_write s hello n) as [n1 [[]|e|]]; simpl in *; try done.
  specialize (Hr n1). destruct (sock_read s n1) as [n2 [f|e|]]; simpl in *; try done.
  by destruct f.
Qed.

Section retry.
Context {KO : SocketsOk K}.
Hypothesis write_sane : ∀ s f m, (sock_write s f m).2 ≠ Panic.
Hypothesis read_sane : ∀ s m, (sock_read s m).2 ≠ Panic.

(** Every round that goes on has slept: the rounds are enough to get past the
    deadline. *)
Lemma vsock_connect_ends fuel deadline ip n :
  (0 < fuel)%nat → deadline - clock_ms n < (Z.of_nat fuel - 1) * 300 →
  (vsock_connect fuel deadline ip n).2 ≠ Panic.
Proof.
  revert n. induction fuel as [|fuel IH]; intros n Hf Hd; [lia|]. cbn [vsock_connect].
  pose proof (clock_connect 500 (ip +:+ ":5201") n) as Hc.
  destruct (tcp_connect 500 (ip +:+ ":5201") n) as [n1 [[e|s]|]]; simpl in Hc;
    [|by apply shake_hands_no_panic|];
    (destruct (Z.leb_spec deadline (clock_ms n1)); [done|];
     pose proof (clock_sleep 300 n1 ltac:(lia)); apply IH; lia).
Qed.

Lemma dev_connect_ends fuel timeout deadline addr n :
  (0 < fuel)%nat → deadline - clock_ms n < (Z.of_nat fuel - 1) * 200 →
  (dev_connect fuel timeout deadline addr n).2 ≠ Panic.
Proof.
  revert n. induction fuel as [|fuel IH]; intros n Hf Hd; [lia|]. cbn [dev_connect].
  pose proof (clock_connect 500 addr n) as Hc.
  destruct (tcp_connect 500 addr n) as [n1 [[e|s]|]]; simpl in Hc;
    [|by apply shake_hands_no_panic|done].
  destruct (Z.leb_spec deadline (clock_ms n1)); [done|].
  pose proof (clock_sleep 200 n1 ltac:(lia)). apply IH; lia.
Qed.
End retry.
End client.
#[global] Arguments forward : simpl never.
#[global] Arguments CHANNEL : simpl never.
End Client.

(** ** A host and a guest on one wire

    The sockets of a host whose only peer is an agent: what the host writes is
    served, what the agent has sent and the host has not seen is what it reads.  An
    idealisation: a frame is served as soon as it was written, and the agent's spawned
    tasks (pumps of interactive processes, kill timers) do not run between the calls; a
    connection on which a pump writes is not one of these. *)

Module Wired.
Section wired.
Context {G : GuestOs} {P : Postcard} (uuid : nat → string).

Record link : Type := Link {
  peer : Serve.agent; seen : gmap nat nat; next_id : nat }.

Definition host_write (c : nat) (f : Frame.t) (l : link) : link * res CodecError.t () :=
  match encode_frame f with
  | Ok b => (Link (Serve.serve_loop c b (peer l)).1 (seen l) (next_id l), Ok ())
  | Err e => (l, Err e)
  | Panic => (l, Panic)
  end.

Definition host_read (c : nat) (l : link) : link * res CodecError.t Frame.t :=
  match Serve.conns (peer l) !! c with
  | None => (l, Err (CodecError.Io "not connected"))
  | Some w =>
    let '(rest, r) := read_frame (drop (default O (seen l !! c)) (Serve.sent w)) in
    (Link (peer l) (<[c := (length (Serve.sent w) - length rest)%nat]> (seen l)) (next_id l), r)
  end.

Definition host_connect (l : link) : link * option (string + nat) :=
  let c := fresh (dom (Serve.conns (peer l))) in
  (Link (Serve.set_conns (<[c := Serve.Wire [] [] None]> (Serve.conns (peer l))) (peer l))
     (<[c := O]> (seen l)) (next_id l), Some (inr c)).

#[local] Instance wired : Sockets := {|
  net := link; sock := nat;
  tcp_connect _ _ l := host_connect l;
  resolve host l := (l, inr [host]);
  sock_write := host_write; sock_read := host_read;
  clock_ms _ := 0; sleep_ms _ l := l;
  fresh_uuid l := (Link (peer l) (seen l) (S (next_id l)), uuid (next_id l));
  frame_text := debug_frame |}.

(** *** The calls, over the wire and inside the guest *)

Inductive op : Type :=
| OpWrite (path : string) (content : Bytes) (mode : Z)
| OpRead (path : string)
| OpList (path : string)
| OpPing
| OpLimits (pids_max : option Z)
| OpStdin (id : string) (chunk : Bytes)
| OpEof (id : string)
| OpSignal (id : string) (signal : ProcessSignal.t)
| OpResize (id : string) (cols rows : Z)
| OpExec (argv : list string) (env : gmap string string) (cwd : option string) (timeout_ms : Z).

Inductive answer : Type :=
| ADone | ABytes (b : Bytes) | AEntries (es : list DirEntry.t) | AResult (r : ExecutionResult.t).

Definition give {A} (f : A → answer) (m : stres link ClouisleError.t A) (l : link)
  : link * option (res ClouisleError.t answer) :=
  let '(l', r) := m l in (l', Some (f <$> r)).

Definition remote (c : nat) (o : op) (l : link) : link * option (res ClouisleError.t answer) :=
  match o with
  | OpWrite p b m => give (λ _, ADone) (Client.write_file (c : sock) p b m) l
  | OpRead p => give ABytes (Client.read_file (c : sock) p) l
  | OpList p => give AEntries (Client.list_dir (c : sock) p) l
  | OpPing => give (λ _, ADone) (Client.ping (c : sock)) l
  | OpLimits o => give (λ _, ADone) (Client.apply_limits (c : sock) o) l
  | OpStdin id b => give (λ _, ADone) (Client.send_stdin (c : sock) id b) l
  | OpEof id => give (λ _, ADone) (Client.close_stdin (c : sock) id) l
  | OpSignal id s => give (λ _, ADone) (Client.send_signal (c : sock) id s) l
  | OpResize id x y => give (λ _, ADone) (Client.resize_pty (c : sock) id x y) l
  | OpExec argv env cwd t =>
    let '(l', r) := Client.exec (c : sock) argv env cwd t l in (l', option_map (λ x, AResult <$> x) r)
  end.

(** The frames that come back, for the outcome of a call inside the guest. *)
Definition reply (r : res string Frame.t) : list Frame.t :=
  match r with Ok f => [f] | Err e => [Frame.Error e 3] | Panic => [] end.
Definition ack (r : res string ()) : list Frame.t :=
  match r with Ok _ => [Frame.ControlOk] | Err e => [Frame.Error e 3] | Panic => [] end.

Definition request_frame (id : string) (o : op) : Frame.t :=
  match o with
  | OpWrite p b m => Frame.WriteFile p m b
  | OpRead p => Frame.ReadFile p 0 u64_max
  | OpList p => Frame.ListDir p
  | OpPing => Frame.Ping
  | OpLimits o => Frame.ApplyLimits o None
  | OpStdin i b => Frame.Stdin i b
  | OpEof i => Frame.StdinEof i
  | OpSignal i s => Frame.Signal i s
  | OpResize i x y => Frame.Resize i x y
  | OpExec argv env cwd t => Frame.ExecReq id argv env cwd t
  end.

(** What a command printed and how it ended. *)
Definition chunk_out (f : Frame.t) : Bytes := match f with Frame.Stdout _ b => b | _ => [] end.
Definition chunk_err (f : Frame.t) : Bytes := match f with Frame.Stderr _ b => b | _ => [] end.

(** A call inside the guest: the agent after it, the frames of the answer, and the
    answer with the host's error for the guest's message.  [None] when the guest
    does not answer. *)
Definition on_file (m : stres os string Frame.t) (good : Frame.t → option answer)
    (bad : string → ClouisleError.t) (a : Serve.agent)
  : Serve.agent * option (list Frame.t * res ClouisleError.t answer) :=
  let '(w, r) := m (Serve.world a) in
  (Serve.set_world w a,
   match r with
   | Ok f => (λ x, ([f], Ok x)) <$> good f
   | Err e => Some ([Frame.Error e 3], Err (bad e))
   | Panic => None
   end).

Definition on_control (m : Serve.agent → Serve.agent * res Serve.stop (res string ()))
    (prefix : string) (a : Serve.agent)
  : Serve.agent * option (list Frame.t * res ClouisleError.t answer) :=
  match m a with
  | (a', Ok (Ok _)) => (a', Some ([Frame.ControlOk], Ok ADone))
  | (a', Ok (Err e)) => (a', Some ([Frame.Error e 3], Err (vmm_error (prefix +:+ e))))
  | (a', _) => (a', None)
  end.

Definition exec_answer (fs : list Frame.t) : option (list Frame.t * res ClouisleError.t answer) :=
  match fs with
  | [Frame.Error e _] => Some (fs, Err (vmm_error e))
  | _ =>
    match last fs with
    | Some (Frame.Exited _ code) =>
      Some (fs, Ok (AResult (ExecutionResult.mk code (mjoin (chunk_out <$> fs))
                               (mjoin (chunk_err <$> fs)) 0)))
    | _ => None
    end
  end.

Definition direct (id : string) (o : op) (a : Serve.agent)
  : Serve.agent * option (list Frame.t * res ClouisleError.t answer) :=
  match o with
  | OpWrite p b m =>
    on_file (Serve.write_file p m b)
      (λ f, match f with Frame.WriteFileResult _ => Some ADone | _ => None end)
      (λ e, ClouisleError.io ("guest write_file " +:+ p +:+ ": " +:+ e)) a
  | OpRead p =>
    on_file (Serve.read_file p 0 u64_max)
      (λ f, match f with Frame.ReadFileResult _ b => Some (ABytes b) | _ => None end)
      (guest_fs_error "read_file" p) a
  | OpList p =>
    on_file (Serve.list_dir p)
      (λ f, match f with Frame.ListDirResult es => Some (AEntries es) | _ => None end)
      (guest_fs_error "list_dir" p) a
  | OpPing => (a, Some ([Frame.Pong], Ok ADone))
  | OpLimits o => on_control (Serve.on_os (Serve.apply_pids_max o)) "guest apply_limits: " a
  | OpStdin i b => on_control (Serve.send_stdin i b) "guest stdin: " a
  | OpEof i => on_control (Serve.close_stdin i) "guest stdin eof: " a
  | OpSignal i s => on_control (Serve.send_signal i s) "guest signal: " a
  | OpResize i x y => on_control (Serve.resize_pty i x y) "guest resize: " a
  | OpExec argv env cwd t =>
    let '(w, r) := Serve.run_exec id argv env cwd t (Serve.world a) in
    (Serve.set_world w a, match r with Some fs => exec_answer fs | None => None end)
  end.

(** *** The wire is transparent *)

Definition with_conns (a b : Serve.agent) : Serve.agent := Serve.set_conns (Serve.conns a) b.

(** What a command printed is what its frames carry. *)
Lemma exec_answer_output id code out err :
  exec_answer (Serve.output_frames id code out err)
  = Some (Serve.output_frames id code out err, Ok (AResult (ExecutionResult.mk code out err 0))).
Proof.
  unfold exec_answer, Serve.output_frames. repeat case_bool_decide; subst; simpl;
    by rewrite ?app_nil_r.
Qed.

Lemma exec_answer_same fs gs r : exec_answer fs = Some (gs, r) → gs = fs.
Proof. unfold exec_answer. repeat case_match; naive_solver. Qed.

Lemma serve_direct c id o a a' fs r :
  direct id o a = (a', Some (fs, r)) →
  Serve.serve_frame c (request_frame id o) a = Serve.respond_all c fs a'.
Proof.
  assert (∀ (m : stres os string Frame.t) good bad,
    on_file m good bad a = (a', Some (fs, r)) →
    (x ← Serve.on_os m; Serve.answer c x) a = Serve.respond_all c fs a') as Hfile.
  { intros m good bad. unfold on_file, Serve.on_os, mbind, stres_bind.
    destruct (m (Serve.world a)) as [w [f|e|]]; simpl; [|by intros [= <- <- <-]|done].
    destruct (good f); simpl; [by intros [= <- <- <-]|done]. }
  assert (∀ m prefix, on_control m prefix a = (a', Some (fs, r)) →
    (x ← m; Serve.acknowledge c x) a = Serve.respond_all c fs a') as Hctl.
  { intros m prefix. unfold on_control, mbind, stres_bind.
    destruct (m a) as [a1 [[[]|e|]|e|]]; simpl; try done;
      intros [= <- <- <-]; simpl; unfold mbind, stres_bind, mret, stres_ret;
      by destruct (Serve.respond _ _ _) as [? [[]| |]]. }
  destruct o; simpl; intros Hd; try by eapply Hfile. all: try by eapply Hctl.
  - simplify_eq. simpl. unfold mbind, stres_bind, mret, stres_ret.
    by destruct (Serve.respond _ _ _) as [? [[]| |]].
  - unfold mbind at 1, stres_bind at 1.
    destruct (Serve.run_exec _ _ _ _ _ _) as [w [l|]]; [|done].
    destruct (exec_answer l) as [[gs x]|] eqn:He; simplify_eq.
    by apply exec_answer_same in He as ->.
Qed.

(** Equal but for what was sent and received. *)
Definition alike (a b : Serve.agent) : Prop :=
  Serve.world a = Serve.world b ∧ Serve.processes a = Serve.processes b ∧
  Serve.tasks a = Serve.tasks b.

Lemma alike_conns a b : alike a b → b = with_conns b a.
Proof. destruct a, b. by intros (?&?&?); simplify_eq/=. Qed.

(** A call of the guest looks at no connection. *)
Lemma direct_conns id o a cs :
  direct id o (Serve.set_conns cs a)
  = (Serve.set_conns cs (direct id o a).1, (direct id o a).2).
Proof.
  assert (∀ m good bad, on_file m good bad (Serve.set_conns cs a)
    = (Serve.set_conns cs (on_file m good bad a).1, (on_file m good bad a).2)) as Hfile.
  { intros m good bad. unfold on_file. simpl. by destruct (m (Serve.world a)). }
  assert (∀ m prefix, (∀ b, m (Serve.set_conns cs b) = (Serve.set_conns cs (m b).1, (m b).2)) →
    on_control m prefix (Serve.set_conns cs a)
    = (Serve.set_conns cs (on_control m prefix a).1, (on_control m prefix a).2)) as Hctl.
  { intros m prefix Hm. unfold on_control. rewrite Hm.
    by destruct (m a) as [a1 [[[]|e|]|e|]]. }
  assert (∀ A (m : stres os string A) b, Serve.on_os m (Serve.set_conns cs b)
    = (Serve.set_conns cs (Serve.on_os m b).1, (Serve.on_os m b).2)) as Hos.
  { intros A m b. unfold Serve.on_os. simpl. by destruct (m (Serve.world b)). }
  destruct o; simpl; try apply Hfile; try done; [apply Hctl; intros b; try apply Hos..|];
    unfold Serve.send_stdin, Serve.close_stdin, Serve.send_signal, Serve.resize_pty,
      Serve.lookup_process, mbind, stres_bind, gets, mret, stres_ret; simpl.
  5: by destruct (Serve.run_exec _ _ _ _ _ _).
  all: destruct (Serve.processes b !! id0) as [h|]; simpl; try done; try apply Hos.
  1, 2: by destruct (Serve.stdin h); try apply Hos.
  by destruct (Serve.pty_master h); try apply Hos.
Qed.

Lemma direct_same_conns id o a : Serve.conns (direct id o a).1 = Serve.conns a.
Proof.
  replace (direct id o a) with (direct id o (Serve.set_conns (Serve.conns a) a)) by by destruct a.
  rewrite direct_conns. done.
Qed.

(** What the agent has sent and the host has not read yet. *)
Definition unread (l : link) (c : nat) (fs : list Frame.t) : Prop :=
  ∃ i s b, Serve.conns (peer l) !! c = Some (Serve.Wire i (s ++ b) None) ∧
    default O (seen l !! c) = length s ∧ Serve.encoded fs b.

Definition carried (f : Frame.t) : Prop :=
  ∃ b, encode_frame f = Ok b ∧ Z.of_nat (length b) ≤ 4 + u32_max.

Lemma carried_fits f : carried f → fits_header f.
Proof. intros (b & Hb & Hl) b' Hb'. by rewrite Hb in Hb'; simplify_eq. Qed.

Lemma carried_encoded fs : Forall carried fs → ∃ b, Serve.encoded fs b.
Proof.
  induction 1 as [|f fs (b & Hb & _) _ (b' & Hb')]; [by exists []|].
  exists (b ++ b'). apply Serve.encoded_cons. eauto.
Qed.

Context {PO : PostcardOk P}.

Lemma read_unread l c f fs :
  unread l c (f :: fs) → carried f →
  ∃ l', host_read c l = (l', Ok f) ∧ unread l' c fs ∧ peer l' = peer l ∧ next_id l' = next_id l.
Proof.
  intros (i & s & b & Hc & Hs & He) Hf. apply Serve.encoded_cons in He as (b1 & b2 & -> & He1 & He2).
  unfold host_read. rewrite Hc. simpl. rewrite Hs, drop_app_length.
  rewrite (read_encoded f b1 b2 He1 (carried_fits f Hf b1 He1)).
  eexists. split; [done|]. simpl. split; [|done].
  exists i, (s ++ b1), b2. rewrite <-app_assoc. split; [done|].
  simpl. rewrite lookup_insert_eq. simpl. rewrite !length_app. split; [lia|done].
Qed.

Lemma write_unread l c id o a' fs r :
  unread l c [] → direct id o (peer l) = (a', Some (fs, r)) →
  carried (request_frame id o) → Forall carried fs →
  ∃ l', host_write c (request_frame id o) l = (l', Ok ()) ∧ unread l' c fs ∧
    alike (peer l') a' ∧ next_id l' = next_id l.
Proof.
  intros (i & s & b & Hc & Hs & ->%Serve.encoded_nil) Hd Hq Hfs. rewrite app_nil_r in Hc.
  destruct (carried_encoded fs Hfs) as [bs Hbs]. pose proof (carried_fits _ Hq) as Hfit.
  destruct Hq as (q & Hq & Hl). unfold host_write. rewrite Hq.
  assert (Serve.conns a' !! c = Some (Serve.Wire i s None)) as Hc'.
  { rewrite <-Hc, <-(direct_same_conns id o (peer l)), Hd. done. }
  unfold Serve.serve_loop. rewrite (Serve.serve_rounds_stream _ _ [request_frame id o]);
    [|apply Serve.encoded_cons; exists q, []; by rewrite app_nil_r|by repeat constructor|lia].
  simpl. erewrite bind_ok; [|rewrite (serve_direct c _ _ _ _ _ _ Hd);
    by eapply Serve.respond_all_open].
  eexists. split; [done|]. simpl. split; [|done].
  exists i, s, bs. simpl. by rewrite lookup_insert_eq.
Qed.

Lemma exchange {A} l c id o a' f r x y (k : Frame.t → stres link ClouisleError.t A) :
  unread l c [] → direct id o (peer l) = (a', Some ([f], r)) →
  carried (request_frame id o) → carried f →
  ∃ l', (_ ← Client.put (c : sock) (request_frame id o) x; g ← Client.get (c : sock) y; k g) l
        = k f l' ∧ unread l' c [] ∧ alike (peer l') a' ∧ next_id l' = next_id l.
Proof.
  intros Hu Hd Hq Hf. destruct (write_unread _ _ _ _ _ _ _ Hu Hd Hq) as (l1 & Hw & Hu1 & Ha & Hn);
    [by repeat constructor|].
  destruct (read_unread _ _ _ _ Hu1 Hf) as (l2 & Hr & Hu2 & Hp & Hn2).
  exists l2. split; [|split_and!; [done|by rewrite Hp|congruence]].
  unfold Client.put, Client.get, mbind, stres_bind. simpl. rewrite Hw. simpl. by rewrite Hr.
Qed.

Lemma get_read l c reading l' f :
  host_read c l = (l', Ok f) → Client.get (c : sock) reading l = (l', Ok f).
Proof. intros Hr. unfold Client.get. simpl. by rewrite Hr. Qed.

Lemma forward_emits fs code fuel l c id reading other deserted k acc :
  unread l c (fs ++ [Frame.Exited id code]) → Forall carried (fs ++ [Frame.Exited id code]) →
  (length acc + length fs < k)%nat → (length fs < fuel)%nat →
  ∀ events, Forall2 (λ f e, Client.react id other f = Client.Emit e) fs events →
  ∃ l', Client.forward fuel (c : sock) id reading other deserted (Client.Receiver (Some k) None) acc l
        = (l', (acc ++ events ++ [EvExit code], Client.Done)) ∧
    unread l' c [] ∧ peer l' = peer l ∧ next_id l' = next_id l.
Proof.
  revert fuel l acc. induction fs as [|f fs IH]; intros [|fuel] l acc Hu Hc Hk Hf events Hev;
    simpl in Hu, Hc, Hk, Hf |- *; try lia; inversion Hev as [|? e ? es He Hes]; subst;
    inversion Hc as [|? ? Hcf Hcs]; subst;
    destruct (read_unread _ _ _ _ Hu Hcf) as (l1 & Hr & Hu1 & Hp & Hn);
    apply (get_read _ _ reading) in Hr; rewrite (Client.forward_frame _ _ _ _ _ _ _ _ _ _ _ Hr); simpl.
  - unfold Client.is_for. rewrite String.eqb_refl. unfold Client.deliver. simpl.
    rewrite (proj2 (Nat.leb_gt _ _)) by lia. eauto.
  - rewrite He. unfold Client.deliver. simpl. rewrite (proj2 (Nat.leb_gt _ _)) by lia.
    edestruct (IH fuel l1 (acc ++ [e])) as (l2 & Hl2 & Hu2 & Hp2 & Hn2);
      [done|done|rewrite length_app; simpl; lia|lia|exact Hes|].
    exists l2. rewrite Hl2, <-!app_assoc. split_and!; [done|done|congruence|congruence].
Qed.

Lemma channel_room : (2 < Client.CHANNEL)%nat.
Proof. apply Nat.ltb_lt. vm_compute. reflexivity. Qed.

Lemma output_events id other code out err :
  ∃ fs events, Serve.output_frames id code out err = fs ++ [Frame.Exited id code] ∧
    Forall2 (λ f e, Client.react id other f = Client.Emit e) fs events ∧ (length fs ≤ 2)%nat ∧
    Client.collect (events ++ [EvExit code]) ([], [], -1) = Ok (out, err, code).
Proof.
  unfold Serve.output_frames. rewrite app_assoc.
  exists ((if bool_decide (out = []) then [] else [Frame.Stdout id out])
          ++ (if bool_decide (err = []) then [] else [Frame.Stderr id err])),
         ((if bool_decide (out = []) then [] else [EvStdout out])
          ++ (if bool_decide (err = []) then [] else [EvStderr err])).
  split; [done|].
  assert (∀ b, Client.react id other (Frame.Stdout id b) = Client.Emit (EvStdout b)) as H1
    by (intros b; simpl; unfold Client.is_for; by rewrite String.eqb_refl).
  assert (∀ b, Client.react id other (Frame.Stderr id b) = Client.Emit (EvStderr b)) as H2
    by (intros b; simpl; unfold Client.is_for; by rewrite String.eqb_refl).
  split_and!; repeat case_bool_decide; subst; cbn [app length Client.collect]; auto with lia.
Qed.

Lemma exec_direct l c argv env cwd t a' fs r :
  let o := OpExec argv env cwd t in
  unread l c [] → direct (uuid (next_id l)) o (peer l) = (a', Some (fs, r)) →
  carried (request_frame (uuid (next_id l)) o) → Forall carried fs →
  ∃ l', remote c o l = (l', Some r) ∧ unread l' c [] ∧ alike (peer l') a' ∧
    next_id l' = S (next_id l).
Proof.
  intros o Hu Hd Hq Hfs. set (id := uuid (next_id l)) in *.
  set (l0 := Link (peer l) (seen l) (S (next_id l))).
  destruct (write_unread l0 c id o a' fs r) as (l1 & Hw & Hu1 & Ha & Hn); [done..|].
  unfold o, remote, Client.exec, Client.exec_stream. simpl. fold id. fold l0.
  change (Frame.ExecReq id argv env cwd t) with (request_frame id o).
  unfold Client.put. cbn [sock_write wired]. rewrite Hw. cbn [map_err].
  unfold direct in Hd. simpl in Hd.
  destruct (Serve.run_exec id argv env cwd t (Serve.world (peer l))) as [w [gs|]] eqn:Hrun;
    [|done].
  apply Serve.run_exec_shape in Hrun as [[e ->]|(code & out & err & ->)].
  - simpl in Hd. simplify_eq. inversion Hfs as [|? ? Hf _]; subst.
    destruct (read_unread _ _ _ _ Hu1 Hf) as (l2 & Hr & Hu2 & Hp & Hn2).
    apply (get_read _ _ "read streamed exec response") in Hr.
    rewrite (Client.forward_frame _ _ _ _ _ _ _ _ _ _ _ Hr). simpl.
    exists l2. rewrite Hp. split_and!; try done. by rewrite Hn2, Hn.
  - destruct (output_events id (λ _, ClouisleError.invalid_state "unexpected streamed guest frame")
      code out err) as (hs & events & Hout & Hev & Hl & Hcol).
    assert (fs = hs ++ [Frame.Exited id code] ∧ a' = Serve.set_world w (peer l) ∧
      r = Ok (AResult (ExecutionResult.mk code out err 0))) as (-> & -> & ->).
    { rewrite <-Hout. rewrite exec_answer_output in Hd. by simplify_eq. }
    destruct (forward_emits hs code (S (S Client.CHANNEL)) l1 c id "read streamed exec response"
      (λ _, ClouisleError.invalid_state "unexpected streamed guest frame") Client.Done Client.CHANNEL [])
      with (events := events) as (l2 & Hf & Hu2 & Hp & Hn2); [done|done|simpl; pose proof channel_room; lia|pose proof channel_room; lia|done|].
    rewrite Hf. simpl. rewrite Hcol. simpl. exists l2. rewrite Hp. split_and!; try done.
    by rewrite Hn2, Hn.
Qed.

Lemma give_ok {A} (f : A → answer) m l l' x :
  give f m l = (l', Some (Ok x)) → ∃ a, m l = (l', Ok a) ∧ f a = x.
Proof. unfold give. destruct (m l) as [l1 [a| |]]; intros; simplify_eq/=; eauto. Qed.

Lemma remote_direct l c o a' fs r :
  unread l c [] → direct (uuid (next_id l)) o (peer l) = (a', Some (fs, r)) →
  carried (request_frame (uuid (next_id l)) o) → Forall carried fs →
  ∃ l', remote c o l = (l', Some r) ∧ unread l' c [] ∧ alike (peer l') a' ∧
    next_id l' = (if o is OpExec _ _ _ _ then S (next_id l) else next_id l).
Proof.
  intros Hu Hd Hq Hfs.
  assert (∀ A (k : Frame.t → stres link ClouisleError.t A) x y f (h : A → answer), fs = [f] →
    (∀ l1, k f l1 = (l1, (k f l1).2) ∧ h <$> (k f l1).2 = r) →
    ∃ l', give h (_ ← Client.put (c : sock) (request_frame (uuid (next_id l)) o) x;
                  g ← Client.get (c : sock) y; k g) l = (l', Some r) ∧
      unread l' c [] ∧ alike (peer l') a' ∧ next_id l' = next_id l) as Hex.
  { intros A k x y f h -> Hk. inversion Hfs as [|? ? Hf _]; subst.
    destruct (exchange l c _ o a' f r x y k Hu Hd Hq Hf) as (l' & He & Hu' & Ha & Hn).
    exists l'. unfold give. rewrite He. destruct (Hk l') as [-> <-]. done. }
  assert (∀ m good bad, on_file m good bad (peer l) = (a', Some (fs, r)) →
    (∃ f x, fs = [f] ∧ good f = Some x ∧ r = Ok x) ∨
    ∃ e, fs = [Frame.Error e 3] ∧ r = Err (bad e)) as Hfile.
  { intros m good bad. unfold on_file. destruct (m _) as [w [f|e|]]; [|naive_solver|done].
    destruct (good f) eqn:Hg; naive_solver. }
  assert (∀ m prefix, on_control m prefix (peer l) = (a', Some (fs, r)) →
    (fs = [Frame.ControlOk] ∧ r = Ok ADone) ∨
    ∃ e, fs = [Frame.Error e 3] ∧ r = Err (vmm_error (prefix +:+ e))) as Hctl.
  { intros m prefix. unfold on_control. destruct (m _) as [w [[[]|e|]|e|]]; naive_solver. }
  destruct o; [..|by apply (exec_direct l c argv env cwd timeout_ms a' fs r)].
  1-3: apply Hfile in Hd as [(f & x & Hf & Hg & Hr)|(e & He & Hr)];
    [eapply (Hex _ _ _ _ f); [done|]; intros l1; by destruct f; simplify_eq/=
    |eapply (Hex _ _ _ _ (Frame.Error e 3)); [done|]; intros l1; by simplify_eq/=].
  1: eapply (Hex _ _ _ _ Frame.Pong); [by simplify_eq/=|]; intros l1; by simplify_eq/=.
  all: apply Hctl in Hd as [[-> ->]|(e & -> & ->)]; by eapply Hex.
Qed.

(** *** Sequences of calls *)

Definition next_of (o : op) (k : nat) : nat := if o is OpExec _ _ _ _ then S k else k.

(** A sequence of calls inside the guest, each of which is answered with frames that
    fit the wire. *)
Inductive directly : Serve.agent → nat → list op → list (res ClouisleError.t answer) →
    Serve.agent → nat → Prop :=
| directly_nil a k : directly a k [] [] a k
| directly_cons a k o ops a1 fs r rs a2 k2 :
    direct (uuid k) o a = (a1, Some (fs, r)) → carried (request_frame (uuid k) o) →
    Forall carried fs → directly a1 (next_of o k) ops rs a2 k2 →
    directly a k (o :: ops) (r :: rs) a2 k2.

Fixpoint remotely (c : nat) (ops : list op) (l : link)
  : link * list (option (res ClouisleError.t answer)) :=
  match ops with
  | [] => (l, [])
  | o :: ops' =>
    let '(l1, r) := remote c o l in
    let '(l2, rs) := remotely c ops' l1 in (l2, r :: rs)
  end.

Lemma remotely_directly a k ops rs a' k' c :
  directly a k ops rs a' k' → ∀ l, unread l c [] → alike (peer l) a → next_id l = k →
  ∃ l', remotely c ops l = (l', Some <$> rs) ∧ unread l' c [] ∧ alike (peer l') a' ∧
    next_id l' = k'.
Proof.
  induction 1 as [|a k o ops a1 fs r rs a2 k2 Hd Hq Hfs _ IH]; intros l Hu Ha Hk; [by exists l|].
  subst k. rewrite (alike_conns _ _ Ha) in Hd.
  assert (∃ b, direct (uuid (next_id l)) o (peer l) = (b, Some (fs, r)) ∧ alike b a1) as (b & Hb & Hba).
  { unfold with_conns in Hd. rewrite direct_conns in Hd.
    destruct (direct _ o (peer l)) as [b x] eqn:Hx. simplify_eq/=. exists b. by split_and!. }
  destruct (remote_direct l c o b fs r Hu Hb Hq Hfs) as (l1 & Hr & Hu1 & Ha1 & Hn1).
  destruct (IH l1 Hu1) as (l2 & Hr2 & Hu2 & Ha2 & Hn2).
  { destruct Ha1 as (?&?&?), Hba as (?&?&?). split_and!; congruence. }
  { rewrite Hn1. by destruct o. }
  exists l2. simpl. by rewrite Hr, Hr2.
Qed.
End wired.

(** What the file system of a guest promises: a regular file reads as it was last
    written, and for the agent, who runs as root, permission bits hide nothing. *)
Class FilesOk (G : GuestOs) : Type := {
  regular : string → os → Prop;
  write_read p b w w' : fs_write p b w = (w', inr ()) → regular p w' → fs_read p w' = inr b;
  mode_read p m q w w' r : fs_set_mode p m w = (w', r) → fs_read q w' = fs_read q w;
  mode_regular p m q w w' r : fs_set_mode p m w = (w', r) → regular q w' → regular q w }.

Lemma written_is_read `{FilesOk} p m b w w' f :
  Serve.write_file p m b w = (w', Ok f) → regular p w' → Z.of_nat (length b) ≤ u64_max →
  f = Frame.WriteFileResult p ∧
  Serve.read_file p 0 u64_max w' = (w', Ok (Frame.ReadFileResult p b)).
Proof.
  intros Hw Hreg Hb. unfold Serve.write_file, mbind, stres_bind, lift in Hw.
  destruct (Serve.guest_path p) as [t| |] eqn:Hp; try done.
  assert (t = p) as -> by (unfold Serve.guest_path in Hp; repeat case_match; by simplify_eq).
  set (mk := match path_parent p with Some _ => _ | None => _ end) in Hw.
  destruct (mk w) as [w1 [[]| |]]; try done. unfold Serve.call in Hw.
  destruct (fs_write p b w1) as [w2 [e|[]]] eqn:Hwr; try done.
  destruct (fs_set_mode p m w2) as [w3 [e|[]]] eqn:Hm; try done.
  unfold mret, stres_ret in Hw. simplify_eq. split; [done|].
  unfold Serve.read_file, mbind, stres_bind, lift. rewrite Hp.
  unfold Serve.ask, Serve.call.
  rewrite (mode_read _ _ p _ _ _ Hm), (write_read _ _ _ _ Hwr) by eauto using mode_regular.
  rewrite (proj2 (Z.ltb_ge _ _)) by lia. unfold mret, stres_ret. do 3 f_equal.
  simpl. rewrite Nat.sub_0_r. rewrite !Z.min_r, Nat2Z.id by lia. by rewrite take_ge.
Qed.
End Wired.

(** ** Properties *)

(** C16: the wire is transparent.  Any sequence of calls (files, listings, pings,
    limits, process control, commands) that a host makes over a connection gets, one
    by one, the answers the same calls give inside the guest, with the guest's error
    messages in the host's error kinds; it leaves the guest in the same state, and
    nothing unread on the connection, so that no answer is ever taken for another.
    (Of calls the guest answers, with frames that fit the length field, and with no
    interactive process writing to the guest in between.) *)
Theorem wire_is_transparent {G : GuestOs} {P : Postcard} {PO : PostcardOk P}
    (uuid : nat → string) a k ops rs a' k' c l :
  Wired.directly uuid a k ops rs a' k' →
  Wired.unread l c [] → Wired.alike (Wired.peer l) a → Wired.next_id l = k →
  ∃ l', Wired.remotely uuid c ops l = (l', Some <$> rs) ∧
    Wired.alike (Wired.peer l') a' ∧ Wired.unread l' c [].
Proof.
  intros Hd Hu Ha Hk. destruct (Wired.remotely_directly uuid a k ops rs a' k' c Hd l Hu Ha Hk)
    as (l' & Hr & Hu' & Ha' & _). eauto.
Qed.

(** C19: a file written over the wire is read back over the wire.  When the guest
    accepts the write and the path is a regular file afterwards, both calls of the
    host succeed, the second returns the bytes of the first whatever the mode and
    however long the content (up to what a frame can carry), and reading changes
    nothing in the guest. *)
Theorem remote_file_round_trip {G : GuestOs} {P : Postcard} {PO : PostcardOk P}
    {F : Wired.FilesOk G} (uuid : nat → string) l c p b m w f :
  Wired.unread l c [] → Serve.write_file p m b (Serve.world (Wired.peer l)) = (w, Ok f) →
  Wired.regular p w →
  Forall Wired.carried [Frame.WriteFile p m b; Frame.WriteFileResult p;
    Frame.ReadFile p 0 u64_max; Frame.ReadFileResult p b] →
  Z.of_nat (length b) ≤ u64_max →
  ∃ l1 l2, Client.write_file (K := Wired.wired uuid) (c : @sock (Wired.wired uuid)) p b m l = (l1, Ok ()) ∧
    Client.read_file (K := Wired.wired uuid) (c : @sock (Wired.wired uuid)) p l1 = (l2, Ok b) ∧
    Serve.world (Wired.peer l2) = w.
Proof.
  intros Hu Hw Hreg Hcar Hb. destruct (Wired.written_is_read _ _ _ _ _ _ Hw Hreg Hb) as [-> Hr].
  apply Forall_cons in Hcar as (C1 & (C2 & (C3 & (C4 & _)%Forall_cons)%Forall_cons)%Forall_cons).
  destruct (Wired.remote_direct uuid l c (Wired.OpWrite p b m) (Serve.set_world w (Wired.peer l))
    [Frame.WriteFileResult p] (Ok Wired.ADone)) as (l1 & H1 & Hu1 & (Hworld & _) & _); [done| |done|auto|].
  { simpl. unfold Wired.on_file. by rewrite Hw. }
  destruct (Wired.remote_direct uuid l1 c (Wired.OpRead p) (Serve.set_world w (Wired.peer l1))
    [Frame.ReadFileResult p b] (Ok (Wired.ABytes b))) as (l2 & H2 & _ & (Hworld2 & _) & _); [done| |done|auto|].
  { simpl in Hworld. simpl. unfold Wired.on_file. by rewrite Hworld, Hr. }
  apply Wired.give_ok in H1 as ([] & H1 & _). apply Wired.give_ok in H2 as (b' & H2 & [= ->]).
  exists l1, l2. by split_and!.
Qed.

(** Connecting ends.  Whatever the network does, the retry loop of a connector
    stops within its rounds: it returns a connection whose peer answered Hello, or an
    error. *)
Theorem connecting_ends {K : Sockets} {KO : SocketsOk K} `{Sha256} timeout h id n :
  0 ≤ timeout → (∀ s f m, (sock_write s f m).2 ≠ Panic) → (∀ s m, (sock_read s m).2 ≠ Panic) →
  (Client.vsock_connect_and_hello timeout h id n).2 ≠ Panic ∧
  (Client.dev_connect_and_hello timeout h n).2 ≠ Panic.
Proof.
  intros Ht Hw Hr. split.
  - pose proof (Client.rounds_spec timeout 300 Ht ltac:(lia)).
    apply Client.vsock_connect_ends; [done|done|..|lia]; lia.
  - pose proof (Client.rounds_spec timeout 200 Ht ltac:(lia)).
    unfold Client.dev_connect_and_hello.
    destruct (resolve (VmHandle.id h) n) as [n1 [e|[|addr addrs]]]; [done|done|].
    apply Client.dev_connect_ends; [done|done|..|lia]; lia.
Qed.

(** ** Witnesses *)

Module WireDemo.
Definition ids (_ : nat) : string := "u0".
Definition l0 : Wired.link :=
  Wired.Link (Serve.Agent (GuestDemo.Disk ∅ ∅) ∅ {[0%nat := Serve.Wire [] [] None]} []) ∅ 0.
Definition ops : list Wired.op :=
  [Wired.OpWrite "/f" [Byte.x41] 420; Wired.OpRead "/f"; Wired.OpExec ["id"%string] ∅ None 1000].
Definition answers : list (res ClouisleError.t Wired.answer) :=
  [Ok Wired.ADone; Ok (Wired.ABytes [Byte.x41]);
   Ok (Wired.AResult (ExecutionResult.mk 0 [Byte.x41] [] 0))].
Definition a1 : Serve.agent :=
  Serve.Agent (GuestDemo.Disk {["/f"%string := [Byte.x41]]} ∅) ∅ {[0%nat := Serve.Wire [] [] None]} [].

Lemma nothing_unread : Wired.unread l0 0 [].
Proof. exists [], [], []. done. Qed.

Ltac small := eexists; split; [vm_compute; reflexivity|vm_compute; discriminate].

Lemma inside : Wired.directly ids (Wired.peer l0) 0 ops answers a1 1.
Proof.
  eapply (Wired.directly_cons _ _ _ _ _ a1 [Frame.WriteFileResult "/f"]);
    [reflexivity|small|repeat (constructor; [small|]); constructor|].
  eapply (Wired.directly_cons _ _ _ _ _ a1 [Frame.ReadFileResult "/f" [Byte.x41]]);
    [reflexivity|small|repeat (constructor; [small|]); constructor|].
  eapply (Wired.directly_cons _ _ _ _ _ a1 [Frame.Stdout "u0" [Byte.x41]; Frame.Exited "u0" 0]);
    [reflexivity|small|repeat (constructor; [small|]); constructor|].
  apply Wired.directly_nil.
Qed.

#[global] Instance demo_files : Wired.FilesOk GuestDemo.demo_os.
Proof.
  refine {| Wired.regular := λ (p : string) (w : @os GuestDemo.demo_os), True |}; simpl.
  - intros p b w w' [= <-] _. simpl. by rewrite lookup_insert_eq.
  - by intros p m q w w' r [= <- _].
  - done.
Defined.

(** A network where nothing answers: every attempt is refused at once. *)
#[global] Instance deaf : Sockets := {|
  net := Z; sock := unit;
  tcp_connect _ _ n := (n, Some (inl "Connection refused"%string));
  resolve host n := (n, inr [host]);
  sock_write _ _ n := (n, Ok ());
  sock_read _ n := (n, Err (CodecError.Io "early eof"));
  clock_ms n := n; sleep_ms t n := n + t;
  fresh_uuid n := (n, "u0"%string); frame_text _ := "frame"%string |}.
#[global] Instance deaf_ok : SocketsOk deaf.
Proof. split; simpl; lia. Qed.
End WireDemo.

Lemma wire_is_transparent_witness :
  ∃ l', Wired.remotely WireDemo.ids 0 WireDemo.ops WireDemo.l0 = (l', Some <$> WireDemo.answers) ∧
    Wired.alike (Wired.peer l') WireDemo.a1 ∧ Wired.unread l' 0 [].
Proof.
  apply (wire_is_transparent WireDemo.ids _ 0 WireDemo.ops WireDemo.answers WireDemo.a1 1 0 WireDemo.l0
    WireDemo.inside WireDemo.nothing_unread); done.
Defined.

Lemma remote_file_round_trip_witness :
  ∃ l1 l2, Client.write_file (K := Wired.wired WireDemo.ids) (0%nat : @sock (Wired.wired WireDemo.ids))
      "/f" [Byte.x41] 420 WireDemo.l0 = (l1, Ok ()) ∧
    Client.read_file (K := Wired.wired WireDemo.ids) (0%nat : @sock (Wired.wired WireDemo.ids)) "/f" l1
      = (l2, Ok [Byte.x41]) ∧
    Serve.world (Wired.peer l2) = GuestDemo.Disk {["/f"%string := [Byte.x41]]} ∅.
Proof.
  eapply (remote_file_round_trip WireDemo.ids WireDemo.l0 0 "/f" [Byte.x41] 420).
  - exact WireDemo.nothing_unread.
  - vm_compute. reflexivity.
  - exact I.
  - repeat (constructor; [WireDemo.small|]); constructor.
  - vm_compute. discriminate.
Defined.

Lemma connecting_ends_witness :
  (Client.vsock_connect_and_hello (H := ToyDigest.digest) 10000 VmHandle.default "sbx" 0).2 ≠ Panic ∧
  (Client.dev_connect_and_hello 10000 VmHandle.default 0).2 ≠ Panic.
Proof. apply (connecting_ends (H := ToyDigest.digest)); done || lia. Defined.
