(* ===== verification/Layers.v ===== *)
(** * Unpacking image layers ([crates/clouisle-images/src/builder.rs])

    [extract_tar_archive] unpacks a layer of an OCI image below a directory of the
    host, as root.  The decompressors, the [tar] reader and the file system are the
    class [LayerFs].  The code checks the names of entries and links as text; what
    that ensures, and what it does not, is shown here. *)

From S2P Require Import Prelude Core SandboxModel Proto Guest GuestAgent Paths.

(** ** Link targets *)

(** The loop over the components of a link: how deep below the root it ends. *)
Fixpoint link_depth (link : string) (l : list component) (depth : nat) : res string nat :=
  match l with
  | [] => Ok depth
  | CurDir :: l' => link_depth link l' depth
  | Normal _ :: l' => link_depth link l' (S depth)
  | ParentDir :: l' => match depth with O => Err link | S d => link_depth link l' d end
  | RootDir :: _ => Err link
  end.

(** [Path::strip_prefix] of the root, as components. *)
Definition unrooted (link : string) : list component :=
  if is_absolute link then tail (components link) else components link.

Definition normalize_link_target (link parent : string) : res string () :=
  let anchored := if is_absolute link then unrooted link else components (path_join parent link) in
  _ ← link_depth link anchored 0; Ok ().

(** The parts of the normalized path. *)
Fixpoint root_parts (link : string) (l : list component) (out : list string) : res string (list string) :=
  match l with
  | [] => Ok out
  | Normal part :: l' => root_parts link l' (out ++ [part])
  | CurDir :: l' => root_parts link l' out
  | ParentDir :: l' => match out with [] => Err link | _ => root_parts link l' (removelast out) end
  | RootDir :: _ => Err link
  end.
Definition normalized_root_path (link : string) : res string string :=
  out ← root_parts link (unrooted link) []; Ok (join "/" out).

(** ** Archives and files *)

Inductive EntryKind : Set := KSymlink | KHardLink | KOther.
Record TarEntry : Type := tar_entry {
  te_kind : EntryKind; te_path : string + string; te_link : string + option string; te_data : Bytes }.

Inductive compression : Set := Zstd | Gzip | Uncompressed.
Definition compression_of (media_type : string) : compression :=
  if contains_str "zstd" media_type then Zstd
  else if contains_str "gzip" media_type then Gzip else Uncompressed.

Class LayerFs : Type := {
  fsw : Type;
  (** [File::open], and the start of a zstd stream. *)
  lf_open : string → fsw → string + Bytes;
  zstd_new : Bytes → string + ();
  (** The entries of the archive, up to an error. *)
  tar_entries : compression → Bytes → string + list (string + TarEntry);
  lf_create_dir_all : string → fsw → fsw * (string + ());
  lf_is_dir : string → fsw → bool;
  lf_exists : string → fsw → bool;
  (** The names in a directory. *)
  lf_read_dir : string → fsw → string + list (string + string);
  lf_remove_dir_all : string → fsw → fsw * (string + ());
  lf_remove_file : string → fsw → fsw * (string + ());
  (** [Entry::unpack]. *)
  lf_unpack : TarEntry → string → fsw → fsw * (string + ());
  lf_hard_link : string → string → fsw → fsw * (string + ()) }.

Section layers.
Context {L : LayerFs} (dst : string).

Abbreviation lay := (stres fsw string).
Definition os {A} (op : fsw → fsw * (string + A)) : lay A := λ w,
  let '(w', r) := op w in (w', match r with inr a => Ok a | inl e => Err e end).
Definition of_sum {A} (r : string + A) : res string A := match r with inr a => Ok a | inl e => Err e end.
Definition relabel_err {A} (f : string → string) (r : res string A) : res string A :=
  match r with Err e => Err (f e) | x => x end.

(** The link name of an entry of a kind, [None] for other kinds. *)
Definition link_of (is_kind : bool) (e : TarEntry) : res string (option string) :=
  if is_kind then of_sum (te_link e) else Ok None.

Definition make_parent (target : string) : lay () :=
  match path_parent target with Some p => os (lf_create_dir_all p) | None => mret () end.

(** An opaque directory is emptied. *)
Definition remove_path (p : string) : lay () := λ w,
  if lf_is_dir p w then os (lf_remove_dir_all p) w else os (lf_remove_file p) w.
Fixpoint remove_children (target : string) (names : list (string + string)) : lay () :=
  match names with
  | [] => mret ()
  | inl e :: _ => fail e
  | inr x :: names' => _ ← remove_path (path_join target x); remove_children target names'
  end.
Definition empty_dir (target : string) : lay () := λ w,
  if lf_is_dir target w
  then (names ← lift (of_sum (lf_read_dir target w)); remove_children target names) w
  else (w, Ok ()).

(** A removed name. *)
Definition whiteout (target : string) : lay () := λ w,
  if lf_is_dir target w then os (lf_remove_dir_all target) w
  else if lf_exists target w then os (lf_remove_file target) w
  else (w, Ok ()).

Definition place_entry (e : TarEntry) (path : string) : lay () :=
  match file_name path with
  | None => mret ()
  | Some name =>
    let parent := default "." (path_parent path) in
    if String.eqb name ".wh..wh..opq" then empty_dir (path_join dst parent)
    else match strip_prefix ".wh." name with
         | Some removed => whiteout (path_join (path_join dst parent) removed)
         | None =>
           let target := path_join dst path in
           _ ← make_parent target; os (lf_unpack e target)
         end
  end.

Definition is_symlink (e : TarEntry) : bool := match te_kind e with KSymlink => true | _ => false end.
Definition is_hard_link (e : TarEntry) : bool := match te_kind e with KHardLink => true | _ => false end.

(** The checks on an entry, then its effect; hard links are left for the end. *)
Definition checked_path (e : TarEntry) : res string string :=
  path ← of_sum (te_path e);
  if is_absolute path || bool_decide (ParentDir ∈ components path)
  then Err ("OCI layer path escapes root: " +:+ path)
  else
    link ← link_of (is_symlink e) e;
    _ ← match link with
        | Some target =>
          relabel_err (λ m, "OCI symlink escapes root: " +:+ m)
            (normalize_link_target target (default "" (path_parent path)))
        | None => Ok ()
        end;
    Ok path.
Definition extract_entry (e : TarEntry) (pending : list (string * string)) : lay (list (string * string)) :=
  path ← lift (checked_path e);
  link ← lift (link_of (is_hard_link e) e);
  match link with
  | Some target =>
    normalized ← lift (relabel_err (λ m, "OCI hard link escapes root: " +:+ m) (normalized_root_path target));
    _ ← make_parent (path_join dst path);
    mret (pending ++ [(normalized, path_join dst path)])
  | None => _ ← place_entry e path; mret pending
  end.

Fixpoint extract_entries (l : list (string + TarEntry)) (pending : list (string * string))
  : lay (list (string * string)) :=
  match l with
  | [] => mret pending
  | inl e :: _ => fail e
  | inr e :: l' => p ← extract_entry e pending; extract_entries l' p
  end.

Fixpoint link_all (pending : list (string * string)) : lay () :=
  match pending with
  | [] => mret ()
  | (link, target) :: pending' =>
    _ ← (λ w, let '(w', r) := os (lf_hard_link (path_join dst link) target) w in
              (w', relabel_err (λ e, "create hard link " +:+ target +:+ " -> " +:+ link +:+ ": " +:+ e) r));
    link_all pending'
  end.

Definition open_layer (src media_type : string) (w : fsw) : res string (list (string + TarEntry)) :=
  file ← of_sum (lf_open src w);
  _ ← match compression_of media_type with Zstd => of_sum (zstd_new file) | _ => Ok () end;
  of_sum (tar_entries (compression_of media_type) file).

Definition extract_tar_archive (src media_type : string) : lay () := λ w,
  (entries ← lift (open_layer src media_type w);
   pending ← extract_entries entries [];
   link_all pending) w.
End layers.

(** ** Paths below the directory *)

(** The path is [dst], or names something below it. *)
Definition inside (dst p : string) : Prop :=
  ∃ parts, components p = components dst ++ (Normal <$> parts).

Abbreviation parts_of segs := (mjoin (component_of <$> segs)).

Lemma component_of_normal part : part ≠ ".."%string → ∃ l, component_of part = Normal <$> l.
Proof.
  intros H. unfold component_of. destruct (is_empty part || _); [by exists []|].
  destruct (String.eqb_spec part ".."); [done|]. by exists [part].
Qed.
Lemma parts_normal segs : ".."%string ∉ segs → ∃ l, parts_of segs = Normal <$> l.
Proof.
  induction segs as [|x segs IH]; [by exists []|]. intros [Hx Hs]%not_elem_of_cons.
  destruct (IH Hs) as [l Hl]. destruct (component_of_normal x) as [l' Hl']; [congruence|].
  exists (l' ++ l). csimpl. by rewrite Hl, Hl', fmap_app.
Qed.
Lemma dotdot_part p : SandboxSpec.has_dotdot p = false ↔ ".."%string ∉ split "/" p.
Proof.
  unfold SandboxSpec.has_dotdot. rewrite <-not_true_iff_false, existsb_exists. split; intros H Hin; apply H.
  - exists ".."%string. split; [by apply list_elem_of_In|done].
  - destruct Hin as (x & Hx & ->%String.eqb_eq). by apply list_elem_of_In.
Qed.

Lemma absolute_cons a p : is_absolute (String a p) = Ascii.eqb "/" a.
Proof. unfold is_absolute, starts_with. cbn [strip_prefix]. by destruct (Ascii.eqb "/" a). Qed.
Lemma absolute_app p q : is_absolute p = true → is_absolute (p +:+ q) = true.
Proof.
  destruct p as [|a p]; [done|]. change (String a p +:+ q) with (String a (p +:+ q)). by rewrite !absolute_cons.
Qed.
Lemma components_absolute p : is_absolute p = true → components p = RootDir :: parts_of (split "/" p).
Proof. unfold components, is_absolute. by intros ->. Qed.

Lemma ends_with_slash p : ends_with "/" p = true → ∃ q, p = q +:+ "/".
Proof.
  induction p as [|a p IH]; [done|]. cbn [ends_with]. intros [->%String.eqb_eq|[q ->]%IH]%orb_true_iff.
  - by exists ""%string.
  - by exists (String a q).
Qed.
Lemma split_slash q r : split "/" (q +:+ "/" +:+ r) = split "/" q ++ split "/" r.
Proof. apply split_app. Qed.

Lemma split_slash_end q : split "/" (q +:+ "/") = split "/" q ++ [""%string].
Proof. apply (split_app "/" q ""). Qed.

(** Joining a relative path adds its components. *)
Lemma components_join p r :
  is_absolute p = true → is_absolute r = false →
  is_absolute (path_join p r) = true ∧ components (path_join p r) = components p ++ parts_of (split "/" r).
Proof.
  intros Hp Hr. unfold path_join. fold (is_absolute r). rewrite Hr.
  destruct (is_empty p) eqn:He; [by apply String.eqb_eq in He as ->|]. cbn [orb].
  destruct (ends_with "/" p) eqn:Hends.
  - pose proof (absolute_app p r Hp) as Ha. split; [done|].
    rewrite !components_absolute by done. rewrite <-app_comm_cons. f_equal.
    apply ends_with_slash in Hends as [q ->].
    rewrite string_app_assoc, split_slash, split_slash_end, !fmap_app, !join_app. cbn. by rewrite app_nil_r.
  - pose proof (absolute_app p ("/" +:+ r) Hp) as Ha. split; [done|].
    rewrite !components_absolute by done. rewrite <-app_comm_cons. f_equal.
    by rewrite split_slash, fmap_app, join_app.
Qed.

(** ** The parent of a path *)

Lemma trim_parts first segs :
  first = false ∨ head segs ≠ Some "."%string → parts_of (trim_tail first segs) = parts_of segs.
Proof.
  revert first. induction segs as [|x segs IH]; intros first Hf; [done|]. csimpl.
  rewrite <-(IH false) by (by left). destruct (trim_tail false segs) as [|y t]; [|done].
  unfold counts. destruct (is_empty x) eqn:He; simpl.
  - apply String.eqb_eq in He as ->. done.
  - destruct (String.eqb_spec x ".") as [->|Hx]; simpl; [|done].
    destruct first; [|done]. destruct Hf as [|H]; [done|by destruct H].
Qed.
Lemma trim_counts first segs x :
  last (trim_tail first segs) = Some x → is_empty x = false ∧ (x ≠ "."%string ∨ first = true).
Proof.
  revert first. induction segs as [|y segs IH]; intros first; simpl; [done|].
  destruct (trim_tail false segs) as [|z t] eqn:Ht.
  - unfold counts. destruct (is_empty y) eqn:He; simpl; [done|].
    destruct (String.eqb_spec y "."); destruct first; simpl; try done; intros [= <-]; auto.
  - intros H. rewrite last_cons_cons in H. rewrite <-Ht in H. apply IH in H as [H1 H2]. split; [done|].
    destruct H2; [by left|done].
Qed.
Lemma trim_sub first segs x : x ∈ trim_tail first segs → x ∈ segs.
Proof.
  revert first. induction segs as [|y segs IH]; intros first; simpl; [done|].
  destruct (trim_tail false segs) as [|z t] eqn:Ht.
  - destruct (counts first y); [|by intros ?%elem_of_nil]. intros ->%list_elem_of_singleton. by left.
  - intros [->|H]%elem_of_cons; [by left|]. right. apply (IH false). by rewrite Ht.
Qed.
Lemma split_join_parts segs :
  Forall (λ p, contains_char "/" p = false) segs → parts_of (split "/" (join "/" segs)) = parts_of segs.
Proof. intros H. destruct segs as [|x segs]; [done|]. by rewrite split_join. Qed.

Lemma absolute_split p : is_absolute p = true → ∃ p', p = String "/" p' ∧ split "/" p = ""%string :: split "/" p'.
Proof.
  destruct p as [|a p]; [done|]. rewrite absolute_cons. intros <-%Ascii.eqb_eq. exists p. by split.
Qed.
Lemma relative_join segs :
  Forall (λ p, contains_char "/" p = false) segs → head segs ≠ Some ""%string →
  is_absolute (join "/" segs) = false.
Proof.
  intros Hs Hh. destruct segs as [|x segs]; [done|]. apply Forall_cons in Hs as [Hx _].
  destruct x as [|a x]; [done|]. simpl in Hx. apply orb_false_iff in Hx as [Hx _].
  assert (∃ t, join "/" (String a x :: segs) = String a t) as [t ->].
  { destruct segs; simpl; by eexists. }
  rewrite absolute_cons. by rewrite Ascii.eqb_sym.
Qed.

Lemma trim_head first segs x : head (trim_tail first segs) = Some x → head segs = Some x.
Proof.
  destruct segs as [|y segs]; [done|]. simpl. destruct (trim_tail false segs); [|done].
  by destruct (counts first y).
Qed.
Lemma relative_head p : is_absolute p = false → p ≠ ""%string → head (split "/" p) ≠ Some ""%string.
Proof.
  destruct p as [|a p]; [done|]. rewrite absolute_cons, Ascii.eqb_sym. intros Ha _. cbn [split]. rewrite Ha.
  by destruct (split "/" p).
Qed.

(** What [path_parent] cuts. *)
Lemma parent_cut first segs x rest :
  rev (trim_tail first segs) = x :: rest →
  trim_tail first segs = rev rest ++ [x] ∧ is_empty x = false ∧ (x ≠ "."%string ∨ first = true).
Proof.
  intros H. assert (trim_tail first segs = rev rest ++ [x]) as Ht.
  { by rewrite <-(rev_involutive (trim_tail first segs)), H. }
  split; [done|]. apply (trim_counts first segs). by rewrite Ht, last_snoc.
Qed.
Lemma no_slash segs p : (∀ x, x ∈ segs → x ∈ split "/" p) → Forall (λ x, contains_char "/" x = false) segs.
Proof.
  intros H. pose proof (split_no_sep "/" p) as Hs. rewrite Forall_forall in Hs |- *. auto.
Qed.

Lemma parent_absolute p q :
  is_absolute p = true → path_parent p = Some q →
  is_absolute q = true ∧ ∃ c, components p = components q ++ [c].
Proof.
  intros Hp. unfold path_parent. fold (is_absolute p). rewrite Hp.
  destruct (absolute_split p Hp) as (p' & Heq & Hs). rewrite Hs. cbn [tail negb].
  destruct (rev (trim_tail false (split "/" p'))) as [|x rest] eqn:Hr; [done|]. intros [= <-].
  apply parent_cut in Hr as (Ht & Hx & Hdot). destruct Hdot as [Hdot|]; [|done].
  set (segs := trim_tail false (rev rest)).
  assert (Forall (λ x, contains_char "/" x = false) segs) as Hns.
  { apply (no_slash _ p'). intros y Hy. apply (trim_sub false). rewrite Ht.
    apply elem_of_app. left. by apply (trim_sub false). }
  assert (is_absolute ("/" +:+ join "/" segs) = true) as Ha by done. split; [done|].
  rewrite !components_absolute by done. rewrite Hs.
  change (split "/" ("/" +:+ join "/" segs)) with (""%string :: split "/" (join "/" segs)).
  csimpl. change (component_of "") with (@nil component). cbn [app].
  rewrite split_join_parts by done. unfold segs. rewrite trim_parts by (by left).
  rewrite <-(trim_parts false (split "/" p')) by (by left). rewrite Ht, fmap_app, join_app.
  assert (∃ c, component_of x = [c]) as [c Hc].
  { unfold component_of. rewrite Hx. cbn [orb]. destruct (String.eqb_spec x "."); [done|].
    destruct (String.eqb x ".."); by eexists. }
  exists c. csimpl. by rewrite Hc.
Qed.

Lemma parent_relative p q :
  is_absolute p = false → SandboxSpec.has_dotdot p = false → path_parent p = Some q →
  is_absolute q = false ∧ SandboxSpec.has_dotdot q = false.
Proof.
  intros Hp Hd. unfold path_parent. fold (is_absolute p). rewrite Hp. cbn [negb].
  destruct (rev (trim_tail true (split "/" p))) as [|x rest] eqn:Hr; [done|]. intros [= <-].
  apply parent_cut in Hr as (Ht & _ & _). set (segs := trim_tail true (rev rest)).
  assert (∀ y, y ∈ segs → y ∈ split "/" p) as Hsub.
  { intros y Hy. apply (trim_sub true). rewrite Ht. apply elem_of_app. left. by apply (trim_sub true). }
  pose proof (no_slash segs p Hsub) as Hns. change ("" +:+ join "/" segs) with (join "/" segs). split.
  - apply relative_join; [done|]. intros Hh%trim_head.
    assert (head (trim_tail true (split "/" p)) = Some ""%string) as Hh2.
    { rewrite Ht. by destruct (rev rest). }
    apply trim_head in Hh2. destruct p as [|a p]; [simpl in Ht; by destruct (rev rest)|].
    by apply (relative_head (String a p)) in Hp.
  - apply dotdot_part. apply dotdot_part in Hd. intros Hin. apply Hd.
    destruct segs as [|y t]; [by apply list_elem_of_singleton in Hin|].
    rewrite split_join in Hin by done. by apply Hsub.
Qed.

(** ** Calls stay below the directory *)

(** A relative path without [..] stays below; so does a plain name. *)
Lemma inside_absolute dst p : is_absolute dst = true → inside dst p → is_absolute p = true.
Proof.
  intros Hd [parts Hp]. rewrite (components_absolute dst) in Hp by done. unfold components in Hp.
  destruct (starts_with "/" p) eqn:Hs; [exact Hs|]. exfalso.
  destruct (String.eqb p "." || starts_with "./" p); cbn [app] in Hp; [discriminate Hp|]. assert (RootDir ∈ parts_of (split "/" p)) as Hin by (rewrite Hp; by left).
  apply list_elem_of_join in Hin as (l & Hl & (y & -> & _)%list_elem_of_fmap). unfold component_of in Hl.
  repeat case_match; set_solver.
Qed.
Lemma inside_refl dst : inside dst dst.
Proof. exists []. by rewrite app_nil_r. Qed.
Lemma inside_join dst p r :
  is_absolute dst = true → inside dst p → is_absolute r = false → SandboxSpec.has_dotdot r = false →
  inside dst (path_join p r).
Proof.
  intros Hd Hp Hr Hdd. pose proof (inside_absolute dst p Hd Hp) as Ha. destruct Hp as [parts Hp].
  destruct (components_join p r Ha Hr) as [_ Hc]. destruct (parts_normal (split "/" r)) as [l Hl]; [by apply dotdot_part|].
  exists (parts ++ l). by rewrite Hc, Hp, Hl, fmap_app, app_assoc.
Qed.
Lemma inside_parent dst r q x :
  is_absolute dst = true → is_absolute r = false → SandboxSpec.has_dotdot r = false →
  file_name r = Some x → path_parent (path_join dst r) = Some q → inside dst q.
Proof.
  intros Hd Hr Hdd Hx Hq. destruct (components_join dst r Hd Hr) as [Ha Hc].
  destruct (parent_absolute _ _ Ha Hq) as (_ & c & Hcq). rewrite Hc in Hcq.
  apply dotdot_part, parts_normal in Hdd as [l Hl]. rewrite Hl in Hcq.
  assert (l ≠ []) as Hne.
  { intros ->. destruct (file_name_part r x Hx) as (Hin & H1 & H2 & H3).
    assert (Normal x ∈ parts_of (split "/" r)) as Hn.
    { apply list_elem_of_join. exists [Normal x]. split; [by left|]. apply list_elem_of_fmap. exists x. split; [|done].
      unfold component_of, is_empty. by rewrite !(proj2 (String.eqb_neq _ _)) by done. }
    rewrite Hl in Hn. by apply elem_of_nil in Hn. }
  destruct (exists_last Hne) as (l' & y & ->). rewrite fmap_app, app_assoc in Hcq.
  apply app_inj_tail in Hcq as [Hcq _]. exists l'. done.
Qed.

(** A plain name: one part, and not [..]. *)
Definition plain (x : string) : Prop := contains_char "/" x = false ∧ x ≠ ".."%string.
Lemma plain_relative x : plain x → is_absolute x = false ∧ SandboxSpec.has_dotdot x = false.
Proof.
  intros [Hs Hd]. split.
  - destruct x as [|a x]; [done|]. rewrite absolute_cons. cbn [contains_char] in Hs.
    apply orb_false_iff in Hs as [Ha _]. by rewrite Ascii.eqb_sym.
  - apply dotdot_part. rewrite split_one by done. intros <-%list_elem_of_singleton. done.
Qed.

Lemma root_parts_plain link l out out' :
  root_parts link l out = Ok out' →
  (∀ x, Normal x ∈ l → x ≠ ""%string ∧ plain x) → Forall (λ x, x ≠ ""%string ∧ plain x) out →
  Forall (λ x, x ≠ ""%string ∧ plain x) out'.
Proof.
  revert out. induction l as [|c l IH]; intros out; simpl; [by intros [= <-]|]. intros Hr Hl Ho.
  assert (∀ x, Normal x ∈ l → x ≠ ""%string ∧ plain x) as Hl' by (intros x Hx; apply Hl; by right).
  destruct c as [| | |part]; [done|by eapply IH| |].
  - destruct out as [|y out]; [done|]. eapply IH; [done..|].
    destruct (exists_last (l := y :: out)) as (o & z & Heq); [done|]. rewrite Heq in Ho |- *.
    rewrite removelast_last. by apply Forall_app in Ho as [Ho _].
  - eapply IH; [done..|]. apply Forall_app. split; [done|]. apply Forall_singleton, Hl. by left.
Qed.
Lemma normal_plain p x : Normal x ∈ components p → x ≠ ""%string ∧ plain x.
Proof.
  unfold components. intros [H|H]%elem_of_app; [repeat case_match; set_solver|].
  apply list_elem_of_join in H as (l & Hl & (y & -> & Hy)%list_elem_of_fmap). unfold component_of in Hl.
  destruct (is_empty y || String.eqb y ".") eqn:He; [by apply elem_of_nil in Hl|].
  apply orb_false_iff in He as [H1 _]. destruct (String.eqb_spec y "..") as [|H2]; [by apply list_elem_of_singleton in Hl|].
  apply list_elem_of_singleton in Hl as [= ->]. apply String.eqb_neq in H1.
  pose proof (split_no_sep "/" p) as Hs. rewrite Forall_forall in Hs. split; [done|]. split; [by apply Hs|done].
Qed.
Lemma normalized_relative link r :
  normalized_root_path link = Ok r → is_absolute r = false ∧ SandboxSpec.has_dotdot r = false.
Proof.
  unfold normalized_root_path. destruct (root_parts link (unrooted link) []) as [out|e|] eqn:Hr; [|done..].
  intros [= <-]. assert (Forall (λ x, x ≠ ""%string ∧ plain x) out) as Ho.
  { eapply root_parts_plain; [exact Hr| |by constructor]. intros x Hx. apply (normal_plain link).
    unfold unrooted in Hx. destruct (is_absolute link); [|done]. destruct (components link); [done|]. by right. }
  assert (Forall (λ x, contains_char "/" x = false) out) as Hns.
  { eapply Forall_impl; [exact Ho|]. by intros x (_ & ? & _). }
  split.
  - apply relative_join; [done|]. destruct Ho as [|x l [Hx _] _]; [done|]. simpl. congruence.
  - apply dotdot_part. destruct out as [|y t]; [by intros ?%list_elem_of_singleton|].
    rewrite split_join by done. intros Hin. rewrite Forall_forall in Ho. by destruct (Ho _ Hin) as (_ & _ & ?).
Qed.

(** The names that a directory lists. *)
Class LayerFsOk (L : LayerFs) : Prop := {
  read_dir_plain p w l x : lf_read_dir p w = inr l → inr x ∈ l → plain x }.

(** Entries whose names the text checks handle: the white-out of [..] is not one, and
    a hard link has a name. *)
Definition tame (e : TarEntry) : Prop :=
  ∀ path, te_path e = inr path →
    file_name path ≠ Some ".wh..."%string ∧ (is_hard_link e = true → is_Some (file_name path)).

Section confined.
Context {L : LayerFs} {LO : LayerFsOk L} (dst : string) (Hdst : is_absolute dst = true)
  (P : fsw → Prop) (es : list TarEntry).

(** No call on a path below the directory changes [P]. *)
Record untouched_below : Prop := {
  ub_mkdir p w : inside dst p → P w → P (lf_create_dir_all p w).1;
  ub_rmdir p w : inside dst p → P w → P (lf_remove_dir_all p w).1;
  ub_rm p w : inside dst p → P w → P (lf_remove_file p w).1;
  ub_unpack e p w : e ∈ es → inside dst p → P w → P (lf_unpack e p w).1;
  ub_link p q w : inside dst p → inside dst q → P w → P (lf_hard_link p q w).1 }.
Context (UB : untouched_below).

Definition stays {A} (m : stres fsw string A) (Q : A → Prop) : Prop :=
  ∀ w, P w → P (m w).1 ∧ ∀ a, (m w).2 = Ok a → Q a.
Lemma confined_ret {A} (a : A) (Q : A → Prop) : Q a → stays (mret a) Q.
Proof. intros Hq w Hw. split; [done|]. by intros ? [= <-]. Qed.
Lemma stays_bind {A B} (m : stres fsw string A) (k : A → stres fsw string B) (Q : A → Prop) (R : B → Prop) :
  stays m Q → (∀ a, Q a → stays (k a) R) → stays (m ≫= k) R.
Proof.
  intros Hm Hk w Hw. destruct (Hm w Hw) as [H1 H2]. unfold mbind, stres_bind.
  destruct (m w) as [w1 [a|e|]]; simpl in *; [|done..]. by apply Hk; [apply H2|].
Qed.
Lemma confined_lift {A} (r : res string A) (Q : A → Prop) : (∀ a, r = Ok a → Q a) → stays (lift r) Q.
Proof. intros H w Hw. by split. Qed.
Lemma stays_os {A} (op : fsw → fsw * (string + A)) :
  (∀ w, P w → P (op w).1) → stays (os op) (λ _, True).
Proof. intros H w Hw. specialize (H w Hw). unfold os. by destruct (op w). Qed.

Lemma stays_parent target :
  (∀ q, path_parent target = Some q → inside dst q) → stays (make_parent target) (λ _, True).
Proof.
  intros H. unfold make_parent. destruct (path_parent target) as [q|]; [|by apply confined_ret].
  apply stays_os. intros w Hw. apply ub_mkdir; auto.
Qed.
Lemma confined_remove p : inside dst p → stays (remove_path p) (λ _, True).
Proof.
  intros Hp w Hw. unfold remove_path. destruct (lf_is_dir p w); apply stays_os; try done; intros w' Hw';
    [by apply ub_rmdir|by apply ub_rm].
Qed.
Lemma stays_children target names :
  inside dst target → (∀ x, inr x ∈ names → plain x) → stays (remove_children target names) (λ _, True).
Proof.
  intros Ht. induction names as [|[e|x] names IH]; intros Hn; simpl; [by apply confined_ret|by intros w Hw|].
  eapply stays_bind; [apply confined_remove|].
  - destruct (plain_relative x) as [H1 H2]; [apply Hn; by left|]. by apply inside_join.
  - intros _ _. apply IH. intros y Hy. apply Hn. by right.
Qed.
Lemma stays_empty target : inside dst target → stays (empty_dir target) (λ _, True).
Proof.
  intros Ht w Hw. unfold empty_dir. destruct (lf_is_dir target w); [|done].
  apply (stays_bind (lift (of_sum (lf_read_dir target w))) _ (λ l, ∀ x, inr x ∈ l → plain x)); [| |done].
  - apply confined_lift. intros l. destruct (lf_read_dir target w) as [e|l'] eqn:Hr; simpl; [done|]. intros [= ->] x Hx.
    by eapply read_dir_plain.
  - intros l Hl. by apply stays_children.
Qed.
Lemma stays_whiteout target : inside dst target → stays (whiteout target) (λ _, True).
Proof.
  intros Ht w Hw. unfold whiteout. destruct (lf_is_dir target w); [|destruct (lf_exists target w); [|done]];
    apply stays_os; try done; intros w' Hw'; [by apply ub_rmdir|by apply ub_rm].
Qed.

Lemma parent_inside path :
  is_absolute path = false → SandboxSpec.has_dotdot path = false →
  inside dst (path_join dst (default "." (path_parent path))).
Proof.
  intros H1 H2. apply inside_join; try done; [apply inside_refl|..];
    destruct (path_parent path) as [q|] eqn:Hq; try done; by destruct (parent_relative path q H1 H2 Hq).
Qed.
(** The name that a white-out removes. *)
Lemma removed_plain path name removed :
  file_name path = Some name → strip_prefix ".wh." name = Some removed → name ≠ ".wh..."%string → plain removed.
Proof.
  intros Hn Hr Hne. destruct (file_name_part path name Hn) as [Hin _].
  pose proof (split_no_sep "/" path) as Hs. rewrite Forall_forall in Hs. apply Hs in Hin.
  apply strip_prefix_Some in Hr as ->. rewrite contains_char_app in Hin. apply orb_false_iff in Hin as [_ Hin].
  split; [done|]. intros ->. done.
Qed.
Lemma stays_place e path :
  e ∈ es → is_absolute path = false → SandboxSpec.has_dotdot path = false →
  file_name path ≠ Some ".wh..."%string → stays (place_entry dst e path) (λ _, True).
Proof.
  intros He Ha Hd Hw. unfold place_entry. destruct (file_name path) as [name|] eqn:Hn; [|by apply confined_ret].
  pose proof (parent_inside path Ha Hd) as Hp.
  destruct (String.eqb name ".wh..wh..opq"); [by apply stays_empty|].
  destruct (strip_prefix ".wh." name) as [removed|] eqn:Hr.
  - apply stays_whiteout. destruct (plain_relative removed) as [H1 H2].
    { eapply removed_plain; [done..|congruence]. }
    by apply inside_join.
  - eapply stays_bind; [apply stays_parent; intros q Hq; by eapply inside_parent|]. intros _ _.
    apply stays_os. intros w Hw'. apply ub_unpack; try done. apply inside_join; try done. apply inside_refl.
Qed.

Lemma checked_relative e path :
  checked_path e = Ok path →
  te_path e = inr path ∧ is_absolute path = false ∧ SandboxSpec.has_dotdot path = false.
Proof.
  unfold checked_path. destruct (te_path e) as [err|p]; [done|]. simpl.
  destruct (is_absolute p) eqn:Ha; [done|]. destruct (bool_decide (ParentDir ∈ components p)) eqn:Hb; [done|]. simpl.
  apply bool_decide_eq_false in Hb. rewrite parent_dir_part in Hb. apply not_true_is_false in Hb.
  destruct (link_of (is_symlink e) e) as [o|err|]; [|done..]. simpl.
  destruct o as [t|]; [|by intros [= <-]].
  by destruct (relabel_err _ _); [intros [= <-]|..].
Qed.

(** What is left to link: from and to paths below the directory. *)
Definition pending_inside (l : list (string * string)) : Prop :=
  Forall (λ x, inside dst (path_join dst x.1) ∧ inside dst x.2) l.

Lemma stays_entry e pending :
  e ∈ es → tame e → pending_inside pending → stays (extract_entry dst e pending) pending_inside.
Proof.
  intros He Ht Hp. unfold extract_entry.
  eapply (stays_bind _ _ (λ path, te_path e = inr path ∧ is_absolute path = false
    ∧ SandboxSpec.has_dotdot path = false)); [apply confined_lift; intros; by apply checked_relative|].
  intros path (Hpath & Ha & Hd). destruct (Ht path Hpath) as [Hwh Hname].
  eapply (stays_bind _ _ (λ o, is_Some o → is_hard_link e = true)).
  { apply confined_lift. intros o. unfold link_of. destruct (is_hard_link e); [done|]. intros [= <-]. by intros [? ?]. }
  intros [target|] Hk; [|eapply stays_bind; [by apply stays_place|intros _ _; by apply confined_ret]].
  destruct (Hname (Hk ltac:(by eexists))) as [x Hx].
  eapply (stays_bind _ _ (λ r, is_absolute r = false ∧ SandboxSpec.has_dotdot r = false)).
  { apply confined_lift. intros r. destruct (normalized_root_path target) as [r'|err|] eqn:Hn; simpl; [|done..].
    intros [= <-]. by eapply normalized_relative. }
  intros r [Hra Hrd]. eapply stays_bind;
    [apply stays_parent; intros q Hq; exact (inside_parent dst path q x Hdst Ha Hd Hx Hq)|]. intros _ _.
  apply confined_ret. apply Forall_app. split; [done|]. apply Forall_singleton. simpl.
  split; apply inside_join; try done; apply inside_refl.
Qed.

Lemma stays_entries l pending :
  (∀ e, inr e ∈ l → e ∈ es ∧ tame e) → pending_inside pending →
  stays (extract_entries dst l pending) pending_inside.
Proof.
  revert pending. induction l as [|[err|e] l IH]; intros pending Hl Hp; simpl; [by apply confined_ret|by intros w Hw|].
  destruct (Hl e) as [He Ht]; [by left|]. eapply stays_bind; [by apply stays_entry|]. intros p Hp'.
  apply IH; [|done]. intros e' He'. apply Hl. by right.
Qed.
Lemma stays_link_all pending : pending_inside pending → stays (link_all dst pending) (λ _, True).
Proof.
  induction 1 as [|[link target] pending [H1 H2] _ IH]; simpl; [by apply confined_ret|].
  eapply (stays_bind _ _ (λ _, True)); [|by intros _ _]. intros w Hw.
  destruct (stays_os (lf_hard_link (path_join dst link) target)) with (w := w) as [Hp _]; [|done|].
  { intros w' Hw'. by apply ub_link. }
  by destruct (os _ w) as [w' r].
Qed.

(** C25: The text checks keep every call of an extraction below the directory.  For a
    layer in which no entry is a white-out of [..], and hard links have names, an
    extraction, however it ends, makes no file system call on a path that is not the
    target directory or lexically below it: whatever such calls leave alone, an
    extraction leaves alone.  (Calls follow symbolic links, which the layer itself may
    have made: see [Disk].) *)
Theorem layer_calls_stay_below src media_type w l :
  open_layer src media_type w = Ok l → (∀ e, inr e ∈ l → e ∈ es ∧ tame e) →
  P w → P (extract_tar_archive dst src media_type w).1.
Proof.
  intros Ho Hl Hw. unfold extract_tar_archive. rewrite Ho.
  assert (stays (pending ← extract_entries dst l []; link_all dst pending) (λ _, True)) as Hs.
  { eapply stays_bind; [by apply stays_entries; [|constructor]|]. apply stays_link_all. }
  exact (proj1 (Hs w Hw)).
Qed.
End confined.

(** ** A disk with symbolic links *)

Module Disk.
Inductive node : Type := DirN | FileN (content : Bytes) | LinkN (target : string).
Abbreviation disk := (gmap (list string) node).

(** The kernel's walk along a path; [fuel] bounds the links it follows. *)
Fixpoint walk (fuel : nat) (d : disk) (at_ : list string) (todo : list component) (follow : bool)
  : option (list string) :=
  match fuel with
  | O => None
  | S fuel =>
    match todo with
    | [] => Some at_
    | RootDir :: l => walk fuel d [] l follow
    | CurDir :: l => walk fuel d at_ l follow
    | ParentDir :: l => walk fuel d (removelast at_) l follow
    | Normal x :: l =>
      match d !! (at_ ++ [x]) with
      | Some (LinkN target) =>
        match l, follow with
        | [], false => Some (at_ ++ [x])
        | _, _ => walk fuel d at_ (components target ++ l) follow
        end
      | _ => walk fuel d (at_ ++ [x]) l follow
      end
    end
  end.
Definition locate (d : disk) (p : string) (follow : bool) : option (list string) :=
  walk 100 d [] (components p) follow.

Definition with_place {A : Type} (d : disk) (p : string) (follow : bool) (k : list string → disk * (string + A))
  : disk * (string + A) :=
  match locate d p follow with Some q => k q | None => (d, inl "too many levels of symbolic links"%string) end.

Definition mkdirs (q : list string) (d : disk) : disk :=
  foldr (λ n d, let p := take n q in
    if bool_decide (p = [] ∨ is_Some (d !! p)) then d else <[p := DirN]> d) d (seq 0 (S (length q))).
Definition below (q p : list string) : bool := bool_decide (q `prefix_of` p).

Definition fs (layer : list TarEntry) : LayerFs := {|
  fsw := disk;
  lf_open _ _ := inr [];
  zstd_new _ := inr ();
  tar_entries _ _ := inr (inr <$> layer);
  lf_create_dir_all p d := with_place d p true (λ q, (mkdirs q d, inr ()));
  lf_is_dir p d := 
    match locate d p true with
    | Some q => match d !! q with Some DirN => true | _ => bool_decide (q = []) end
    | None => false
    end;
  lf_exists p d := match locate d p true with Some q => bool_decide (q = [] ∨ is_Some (d !! q)) | None => false end;
  lf_read_dir p d :=
    match locate d p true with
    | Some q => inr (inr <$> List.filter (λ x, bool_decide (contains_char "/" x = false ∧ x ≠ ".."%string))
        (omap (λ x, match last x with Some y => if bool_decide (x = q ++ [y]) then Some y else None | None => None end)
          (map_to_list d).*1))
    | None => inl "not found"%string
    end;
  lf_remove_dir_all p d := with_place d p false (λ q, (filter (λ x, below q x.1 = false) d, inr ()));
  lf_remove_file p d := with_place d p false (λ q, (delete q d, inr ()));
  lf_unpack e p d := with_place d p false (λ q,
    (<[q := match te_kind e, te_link e with
            | KSymlink, inr (Some target) => LinkN target
            | _, _ => FileN (te_data e)
            end]> d, inr ()));
  lf_hard_link p q d := with_place d p false (λ a, with_place d q false (λ b,
    match d !! a with Some n => (<[b := n]> d, inr ()) | None => (d, inl "not found"%string) end)) |}.

#[global] Instance fs_ok layer : LayerFsOk (fs layer).
Proof.
  split. intros p w l x. simpl. destruct (locate w p true) as [q|]; [|done]. intros [= <-] Hx.
  apply list_elem_of_fmap in Hx as (y & [= ->] & Hy). apply list_elem_of_In, filter_In in Hy as [_ Hy].
  by apply bool_decide_eq_true in Hy.
Qed.

Definition file (path : string) (b : Bytes) : TarEntry := tar_entry KOther (inr path) (inr None) b.
Definition symlink (path target : string) : TarEntry := tar_entry KSymlink (inr path) (inr (Some target)) [].
Definition hard_link (path target : string) : TarEntry := tar_entry KHardLink (inr path) (inr (Some target)) [].

Definition host : disk :=
  {[["etc"%string] := DirN; ["etc"; "shadow"]%string := FileN [Byte.x73];
    ["work"%string] := DirN; ["work"; "rootfs"]%string := DirN]}.
Definition unpacked (layer : list TarEntry) : disk * res string () :=
  extract_tar_archive (L := fs layer) "/work/rootfs" "layer" "tar" host.

(** An absolute link passes the check, because its text is read as if the root were
    the image's; the link that is made points into the host.  An entry below it then
    overwrites a file of the host, *)
Example symlink_writes_the_host :
  (unpacked [symlink "x" "/etc"; file "x/shadow" [Byte.x00]]).1 !! ["etc"; "shadow"]%string
  = Some (FileN [Byte.x00]) ∧
  (unpacked [symlink "x" "/etc"; file "x/shadow" [Byte.x00]]).2 = Ok ().
Proof. vm_compute. split; reflexivity. Qed.
(** a white-out deletes it, *)
Example symlink_deletes_from_the_host :
  (unpacked [symlink "x" "/etc"; file "x/.wh.shadow" []]).1 !! ["etc"; "shadow"]%string = None.
Proof. vm_compute. reflexivity. Qed.
(** and a hard link brings it into the image. *)
Example symlink_reads_the_host :
  (unpacked [symlink "x" "/etc"; hard_link "y" "x/shadow"]).1 !! ["work"; "rootfs"; "y"]%string
  = Some (FileN [Byte.x73]).
Proof. vm_compute. reflexivity. Qed.
(** The white-out of [..] empties the directory above the target. *)
Example whiteout_of_parent :
  (unpacked [file ".wh..." []]).1 !! ["work"; "rootfs"]%string = None ∧
  (unpacked [file ".wh..." []]).1 !! ["work"%string] = None.
Proof. vm_compute. split; reflexivity. Qed.

(** *** Layers without links *)

Section linkless.
Context (dst : string) (dparts : list string) (Habs : is_absolute dst = true)
  (Hdst : components dst = RootDir :: (Normal <$> dparts))
  (d0 : disk) (layer : list TarEntry).

(** There is no link on the disk, the directories above the target exist, and outside
    of the target nothing has changed. *)
Record clean (d : disk) : Prop := {
  cl_links q t : d !! q ≠ Some (LinkN t);
  cl_above n : (n < length dparts)%nat → take n dparts = [] ∨ is_Some (d !! take n dparts);
  cl_outside q : ¬ dparts `prefix_of` q → d !! q = d0 !! q }.

Lemma walk_plain fuel d at_ parts follow q :
  (∀ q t, d !! q ≠ Some (LinkN t)) →
  walk fuel d at_ (Normal <$> parts) follow = Some q → q = at_ ++ parts.
Proof.
  intros Hl. revert at_ parts. induction fuel as [|fuel IH]; intros at_ parts; [done|].
  destruct parts as [|x parts]; csimpl; [intros [= <-]; by rewrite app_nil_r|].
  destruct (d !! (at_ ++ [x])) as [[| |t]|] eqn:Hd; [| |by apply Hl in Hd|];
    intros ->%IH; by rewrite <-app_assoc.
Qed.
Lemma walk_inside fuel d p follow q :
  clean d → inside dst p → walk fuel d [] (components p) follow = Some q → ∃ parts, q = dparts ++ parts.
Proof.
  intros [Hl _ _] [parts Hp]. rewrite Hp, Hdst. destruct fuel as [|fuel]; [done|].
  rewrite <-app_comm_cons, <-fmap_app. cbn [walk]. intros Hw%walk_plain; [|done]. by exists parts.
Qed.
Lemma locate_inside d p follow q :
  clean d → inside dst p → locate d p follow = Some q → ∃ parts, q = dparts ++ parts.
Proof. apply walk_inside. Qed.
#[local] Opaque locate.

Lemma clean_insert d parts n :
  clean d → (∀ t, n ≠ LinkN t) → clean (<[dparts ++ parts := n]> d).
Proof.
  intros [H1 H2 H3] Hn. split.
  - intros q t [[_ ?]|[_ ?]]%lookup_insert_Some; [by eapply Hn|by eapply H1].
  - intros m Hm. destruct (H2 m Hm) as [?|Hs]; [by left|right]. rewrite lookup_insert_is_Some'. by right.
  - intros q Hq. rewrite lookup_insert_ne; [by apply H3|]. intros <-. apply Hq. by apply prefix_app_r.
Qed.
Lemma clean_smaller d d' :
  clean d → d' ⊆ d → (∀ q, ¬ dparts `prefix_of` q → d' !! q = d !! q) → clean d'.
Proof.
  intros [H1 H2 H3] Hsub Hout. split.
  - intros q t Hq. eapply H1. by eapply lookup_weaken.
  - intros m Hm. rewrite Hout; [by apply H2|]. intros Hp%prefix_length. rewrite length_take in Hp. lia.
  - intros q Hq. by rewrite Hout, H3.
Qed.
Lemma clean_mkdirs d parts : clean d → clean (mkdirs (dparts ++ parts) d).
Proof.
  intros Hd. unfold mkdirs. induction (seq 0 _) as [|n l IH]; simpl; [done|].
  set (d' := foldr _ d l) in *. case_bool_decide as Hp; [done|].
  destruct (decide (n < length dparts)%nat) as [Hn|Hn].
  - exfalso. apply Hp. rewrite take_app_le by lia. by apply (cl_above _ IH).
  - rewrite take_app_ge by lia. by apply clean_insert.
Qed.

(** The calls of the extraction, for entries that are not links. *)
Lemma clean_below :
  Forall (λ e, te_kind e = KOther) layer → untouched_below (L := fs layer) dst clean layer.
Proof.
  intros Hk. split; simpl; intros; unfold with_place;
    (destruct (locate w p _) as [q'|] eqn:Hq; [|done]);
    (eapply locate_inside in Hq as [parts ->]; [|done..]); simpl.
  - by apply clean_mkdirs.
  - eapply clean_smaller; [done|apply map_filter_subseteq|]. intros x Hx.
    assert (below (dparts ++ parts) x = false) as Hb.
    { apply bool_decide_eq_false. intros Hp. apply Hx. by eapply prefix_app_l. }
    apply option_eq. intros n. rewrite map_lookup_filter_Some. naive_solver.
  - eapply clean_smaller; [done|apply delete_subseteq|]. intros x Hx. rewrite lookup_delete_ne; [done|].
    intros <-. apply Hx. by apply prefix_app_r.
  - rewrite Forall_forall in Hk. rewrite (Hk e) by done. by apply clean_insert.
  - destruct (locate w q false) as [q'|] eqn:Hq'; [|done].
    eapply locate_inside in Hq' as [parts' ->]; [|done..].
    destruct (w !! (dparts ++ parts)) as [n|] eqn:Hn; [|done]. apply clean_insert; [done|].
    intros t ->. by eapply cl_links.
Qed.

(** A layer without links changes nothing outside of the target directory. *)
Lemma linkless_layer_is_confined :
  Forall (λ e, te_kind e = KOther ∧ ∀ path, te_path e = inr path → file_name path ≠ Some ".wh..."%string) layer →
  clean d0 →
  ∀ q, ¬ dparts `prefix_of` q →
    (extract_tar_archive (L := fs layer) dst "layer" "tar" d0).1 !! q = d0 !! q.
Proof.
  intros Hl Hd q Hq. apply (cl_outside (extract_tar_archive (L := fs layer) dst "layer" "tar" d0).1); [|done].
  apply (layer_calls_stay_below (L := fs layer) dst) with (es := layer) (l := inr <$> layer); try done.
  - apply clean_below. eapply Forall_impl; [exact Hl|]. by intros e [? _].
  - intros e (e' & [= ->] & He)%list_elem_of_fmap. split; [done|]. rewrite Forall_forall in Hl.
    destruct (Hl e' He) as [Hk Hn]. intros path Hp. split; [by apply Hn|]. unfold is_hard_link. by rewrite Hk.
Qed.
End linkless.

Definition tree : list string := ["work"; "rootfs"]%string.
Definition small : list TarEntry := [file "a/b" [Byte.x01]; file "c" []; file "a/.wh.b" []].
Lemma host_clean : clean tree host host.
Proof.
  split; [|vm_compute; intros [|[|n]] Hn; [by left|right; by eexists|lia]|done].
  assert (map_Forall (λ _ n, match n with LinkN _ => False | _ => True end) host) as H.
  { unfold host. repeat (apply map_Forall_insert_2; [done|]). apply map_Forall_empty. }
  intros q t Hq. by apply H in Hq.
Qed.
Lemma layer_calls_stay_below_witness :
  (unpacked small).2 = Ok () ∧ clean tree host (unpacked small).1.
Proof.
  split; [vm_compute; reflexivity|].
  apply (layer_calls_stay_below (L := fs small) "/work/rootfs" eq_refl (clean tree host) small
    (clean_below "/work/rootfs" tree eq_refl host small ltac:(by repeat constructor))
    "layer" "tar" host (inr <$> small)).
  - reflexivity.
  - intros e (e' & [= ->] & He)%list_elem_of_fmap. split; [done|]. unfold small in He.
    repeat (apply elem_of_cons in He as [->|He]; [by intros path [= <-]|]). by apply elem_of_nil in He.
  - exact host_clean.
Defined.
End Disk.
