(* ===== verification/Images.v ===== *)
(** * Image manager ([crates/clouisle-images/src/builder.rs], [volumes.rs])

    [ImageManager] turns an image reference into the path of an ext4 file: a cache in
    memory and on disk, aliases from tags to digests, the registry with its retries,
    and the build of the file system with external commands.  The registry and the
    host are the class [ImageHost], over the file system of [Layers].  [Flight] is the
    interleaving of requests for one image. *)

From S2P Require Import Prelude Core SandboxModel Placement Proto Digest Json Guest GuestAgent Paths Layers.
From Stdlib Require Import SpecFloat.

Record ImageSpec : Set := image_spec { is_reference : string; is_digest : option string }.

Module ImageError.
Inductive t : Set :=
| InvalidReference (reference message : string) | Registry (m : string) | Extract (m : string)
| Io (m : string) | FsBuild (m : string) | AgentBinary (m : string) | UnsupportedPlatform (m : string).
Definition display (e : t) : string :=
  match e with
  | InvalidReference r m => "invalid image reference '" +:+ r +:+ "': " +:+ m
  | Registry m => "registry operation failed: " +:+ m
  | Extract m => "layer extraction failed: " +:+ m
  | Io m => "I/O error: " +:+ m
  | FsBuild m => "ext4 build failed: " +:+ m
  | AgentBinary m => "agent binary not configured: " +:+ m
  | UnsupportedPlatform m => "unsupported platform: " +:+ m
  end.
End ImageError.

Record layer_descriptor : Set := descriptor { ly_digest : string; ly_media_type : string }.

(** A request to the registry that is given up after a while. *)
Inductive attempt (A : Type) : Type := Got (a : A) | Refused (e : string) | TimedOut.
Arguments Got {A} a.
Arguments Refused {A} e.
Arguments TimedOut {A}.

(** What [dir_size] finds under a path: a file with its length, a directory, or an
    error. *)
Inductive tree : Type := Leaf (len : Z) | Dir (entries : list tree) | Broken (e : string).

Class ImageHost (L : LayerFs) : Type := {
  parse_reference : string → string + ();
  pull_manifest : string → fsw → fsw * attempt (list layer_descriptor * string);
  pull_blob : string → layer_descriptor → string → fsw → fsw * attempt ();
  ih_pid : Z;
  fresh_id : fsw → fsw * string;
  ih_read : string → fsw → string + Bytes;
  ih_exists : string → fsw → bool;
  ih_is_file : string → fsw → bool;
  ih_create_file : string → fsw → fsw * (string + ());
  ih_flush : string → fsw → fsw * (string + ());
  ih_write : string → Bytes → fsw → fsw * (string + ());
  ih_rename : string → string → fsw → fsw * (string + ());
  ih_copy : string → string → fsw → fsw * (string + ());
  ih_set_mode : string → Z → fsw → fsw * (string + ());
  ih_tree : string → fsw → tree;
  ih_tempdir : fsw → fsw * (string + string);
  ih_drop_tempdir : string → fsw → fsw;
  (** A command: it cannot be run, or its exit code and its error output. *)
  ih_run : string → list string → fsw → fsw * (string + option Z * string);
  code_text : option Z → string;
  (** [serde_json] on [CacheAlias]. *)
  alias_to_vec : string → string + Bytes;
  alias_from_slice : Bytes → option string }.

(** ** Sizes and names *)

(** Sums are [u64]; the release build wraps. *)
Fixpoint dir_size (t : tree) : res string Z :=
  match t with
  | Leaf len => Ok len
  | Broken e => Err e
  | Dir entries =>
    (fix total (l : list tree) (acc : Z) : res string Z :=
       match l with
       | [] => Ok acc
       | x :: l' => n ← dir_size x; total l' ((acc + n) mod 2 ^ 64)
       end) entries 0
  end.

(** [x as u64] of a float that is not negative: truncated and saturated. *)
Definition f64_to_u64 (x : F64.t) : Z :=
  match x with
  | S754_finite false m e => Z.min (Z.shiftl (Z.pos m) e) u64_max
  | S754_infinity false => u64_max
  | _ => 0
  end.
Definition f64_1_3 : F64.t := F64.div (F64.of_Z 13) (F64.of_Z 10).
Definition ext4_size (data_bytes : Z) : Z :=
  (f64_to_u64 (F64.mul (F64.of_Z data_bytes) f64_1_3) + 67108864) mod 2 ^ 64.

Example ext4_sizes :
  (ext4_size <$> [0; 10; 1000000000; 53687091200]) = [67108864; 67108877; 1367108864; 69860327424].
Proof. reflexivity. Qed.

Definition safe_char (c : ascii) : ascii :=
  if existsb (Ascii.eqb c) [":"; "/"; "\"]%char then "_"%char else c.
Fixpoint safe_name (key : string) : string :=
  match key with EmptyString => EmptyString | String c s => String (safe_char c) (safe_name s) end.
Definition cache_path (cache_dir key : string) : string := path_join cache_dir (safe_name key +:+ ".ext4").
Definition reference_alias_path {H : Sha256} (cache_dir reference : string) : string :=
  path_join cache_dir ("ref-" +:+ sha256_hex reference +:+ ".json").
Fixpoint colon_to_underscore (s : string) : string :=
  match s with
  | EmptyString => EmptyString
  | String c s' => String (if Ascii.eqb c ":" then "_"%char else c) (colon_to_underscore s')
  end.

(** ** The manager *)

Record ImageConfig : Set := image_config { ic_cache_dir : string; ic_agent_binary : option string }.

Section manager.
Context {L : LayerFs} {IH : ImageHost L} {H : Sha256} (cfg : ImageConfig).

Record ImageManager : Type := image_manager {
  im_cache : gmap string string;
  im_fingerprint : option (string + string);
  im_fs : fsw }.
Definition set_fs (f : fsw) (m : ImageManager) : ImageManager :=
  image_manager (im_cache m) (im_fingerprint m) f.
Definition set_cache (c : gmap string string) (m : ImageManager) : ImageManager :=
  image_manager c (im_fingerprint m) (im_fs m).
Definition set_fingerprint (f : option (string + string)) (m : ImageManager) : ImageManager :=
  image_manager (im_cache m) f (im_fs m).
Definition new_manager (f : fsw) : ImageManager := image_manager ∅ None f.

Abbreviation img := (stres ImageManager ImageError.t).
Definition call {A} (err : string → ImageError.t) (op : fsw → fsw * (string + A)) : img A := λ m,
  let '(f, r) := op (im_fs m) in (set_fs f m, match r with inr a => Ok a | inl e => Err (err e) end).
Definition io {A} (op : fsw → fsw * (string + A)) : img A := call ImageError.Io op.

(** [fingerprint_file]: the hash of the whole file. *)
Definition fingerprint_file (path : string) (f : fsw) : string + string :=
  match ih_read path f with
  | inl e => inl e
  | inr b => inr (sha256_hex (String.string_of_list_byte b))
  end.
Definition cache_key_for_image (image_digest : string) : img string := λ m,
  match ic_agent_binary cfg with
  | None => (m, Ok image_digest)
  | Some agent =>
    let fp := default (fingerprint_file agent (im_fs m)) (im_fingerprint m) in
    (set_fingerprint (Some fp) m,
     match fp with inl e => Err (ImageError.AgentBinary e) | inr h => Ok (image_digest +:+ "-agent-" +:+ h) end)
  end.

Definition reference_digest (reference : string) (f : fsw) : option string :=
  match ih_read (reference_alias_path (ic_cache_dir cfg) reference) f with
  | inr b => alias_from_slice b
  | inl _ => None
  end.

(** Memory first, then the disk. *)
Definition cached (key : string) : img (option string) := λ m,
  match im_cache m !! key with
  | Some p => if ih_exists p (im_fs m) then (m, Ok (Some p)) else
      let path := cache_path (ic_cache_dir cfg) key in
      if ih_is_file path (im_fs m) then (set_cache (<[key := path]> (im_cache m)) m, Ok (Some path)) else (m, Ok None)
  | None =>
      let path := cache_path (ic_cache_dir cfg) key in
      if ih_is_file path (im_fs m) then (set_cache (<[key := path]> (im_cache m)) m, Ok (Some path)) else (m, Ok None)
  end.

Definition image_digest_of (spec : ImageSpec) (f : fsw) : option string :=
  match is_digest spec with Some d => Some d | None => reference_digest (is_reference spec) f end.
(** [cached_path_for_spec]; [cache_hit] is whether there is one. *)
Definition cached_path_for_spec (spec : ImageSpec) : img (option string) := λ m,
  match image_digest_of spec (im_fs m) with
  | None => (m, Ok None)
  | Some d =>
    match cache_key_for_image d m with
    | (m1, Ok key) => cached key m1
    | (m1, _) => (m1, Ok None)
    end
  end.
Definition cache_hit (spec : ImageSpec) : img bool :=
  p ← cached_path_for_spec spec; mret (bool_decide (is_Some p)).

Definition write_reference_alias (reference digest : string) : img () :=
  _ ← io (lf_create_dir_all (ic_cache_dir cfg));
  let path := reference_alias_path (ic_cache_dir cfg) reference in
  let tmp := with_extension path ("tmp-" +:+ show ih_pid) in
  content ← lift (match alias_to_vec digest with
                  | inr b => Ok b
                  | inl e => Err (ImageError.Registry ("serialize cache alias: " +:+ e))
                  end);
  _ ← io (ih_write tmp content);
  io (ih_rename tmp path).

(** Three tries; the last error counts. *)
Fixpoint tries {A} (n : nat) (op : fsw → fsw * attempt A) (timeout : string) (last : string)
  : fsw → fsw * (string + A) := λ f,
  match n with
  | O => (f, inl last)
  | S n' =>
    match op f with
    | (f', Got a) => (f', inr a)
    | (f', Refused e) => tries n' op timeout e f'
    | (f', TimedOut) => tries n' op timeout timeout f'
    end
  end.

(** ** Building *)

Definition blob_attempt (reference : string) (layer : layer_descriptor) (path : string) : img (attempt ()) := λ m,
  let '(f, r) := pull_blob reference layer path (im_fs m) in (set_fs f m, Ok r).
Fixpoint pull_layer (n : nat) (reference : string) (layer : layer_descriptor) (path last : string) : img () :=
  match n with
  | O => fail (ImageError.Registry ("pull blob " +:+ ly_digest layer +:+ ": " +:+ last))
  | S n' =>
    _ ← io (ih_create_file path);
    r ← blob_attempt reference layer path;
    match r with
    | Got _ => io (ih_flush path)
    | Refused e => pull_layer n' reference layer path e
    | TimedOut => pull_layer n' reference layer path "blob request timed out"
    end
  end.
Definition unpack_layer (path rootfs : string) (layer : layer_descriptor) : img () := λ m,
       let '(f, r) := extract_tar_archive rootfs path (ly_media_type layer) (im_fs m) in
       (set_fs f m, match r with
                    | Ok _ => Ok ()
                    | Err e => Err (ImageError.Extract ("extract layer " +:+ ly_digest layer +:+ ": " +:+ e))
                    | Panic => Panic
                    end).
Definition extract_layer (reference work rootfs : string) (layer : layer_descriptor) : img () :=
  let path := path_join work ("layer-" +:+ colon_to_underscore (ly_digest layer)) in
  _ ← pull_layer 3 reference layer path "";
  unpack_layer path rootfs layer.
Fixpoint extract_layers (reference work rootfs : string) (layers : list layer_descriptor) : img () :=
  match layers with
  | [] => mret ()
  | x :: layers' => _ ← extract_layer reference work rootfs x; extract_layers reference work rootfs layers'
  end.

Definition inject_agent (agent_path rootfs : string) : img () := λ m,
  if negb (ih_is_file agent_path (im_fs m))
  then (m, Err (ImageError.AgentBinary ("agent binary not found at " +:+ agent_path)))
  else
    (let dest_dir := path_join rootfs "usr/local/bin" in
     let dest := path_join dest_dir "clouisle-agent" in
     _ ← io (lf_create_dir_all dest_dir);
     _ ← io (ih_copy agent_path dest);
     io (ih_set_mode dest 493)) m.

Definition run_cmd (program : string) (args : list string) : img () := λ m,
  let '(f, r) := ih_run program args (im_fs m) in
  (set_fs f m, match r with
               | inl e => Err (ImageError.FsBuild ("failed to run '" +:+ program +:+ "': " +:+ e))
               | inr (code, stderr) =>
                 if bool_decide (code = Some 0) then Ok ()
                 else Err (ImageError.FsBuild ("`" +:+ program +:+ " " +:+ join " " args
                        +:+ "` failed (exit code " +:+ code_text code +:+ "): " +:+ trim stderr))
               end).

(** A temporary directory goes with the end of the function. *)
Definition then_drop {A} (dir : string) (body : img A) : img A := λ m,
  let '(m', r) := body m in (set_fs (ih_drop_tempdir dir (im_fs m')) m', r).
Definition with_tempdir {A} (body : string → img A) : img A :=
  dir ← io ih_tempdir; then_drop dir (body dir).

(** The file system is unmounted whether or not the copy worked. *)
Definition copy_unmount (rootfs mount : string) : img () := λ m,
       let '(m1, copied) := run_cmd "cp" ["-a"; rootfs +:+ "/."; mount]%string m in
       let '(m2, unmounted) := run_cmd "umount" [mount] m1 in
       (m2, _ ← copied; unmounted).
Definition copy_mounted (rootfs out_path mount : string) : img () :=
  _ ← run_cmd "mount" ["-o"; "loop"; out_path; mount]%string; copy_unmount rootfs mount.
Definition build_ext4 (rootfs out_path : string) : img () := λ m,
  match dir_size (ih_tree rootfs (im_fs m)) with
  | Ok data_bytes =>
    (_ ← (if ih_exists out_path (im_fs m) then io (lf_remove_file out_path) else mret ());
     _ ← run_cmd "fallocate" ["-l"; show (ext4_size data_bytes); out_path]%string;
     _ ← run_cmd "mkfs.ext4" ["-q"; out_path]%string;
     with_tempdir (copy_mounted rootfs out_path)) m
  | Err e => (m, Err (ImageError.Io e))
  | Panic => (m, Panic)
  end.

(** A failed step removes the temporary file. *)
Definition or_remove (tmp : string) (body : img ()) : img () := λ m,
  match body m with
  | (m', Err e) => (set_fs (lf_remove_file tmp (im_fs m')).1 m', Err e)
  | x => x
  end.
Definition new_id : img string := λ m, let '(f, u) := fresh_id (im_fs m) in (set_fs f m, Ok u).
Definition publish (rootfs key : string) : img string :=
  _ ← io (lf_create_dir_all (ic_cache_dir cfg));
  let ext4_path := cache_path (ic_cache_dir cfg) key in
  unique ← new_id;
  let tmp_path := with_extension ext4_path ("ext4.tmp-" +:+ show ih_pid +:+ "-" +:+ unique) in
  _ ← or_remove tmp_path (build_ext4 rootfs tmp_path);
  _ ← or_remove tmp_path (io (ih_rename tmp_path ext4_path));
  _ ← modify (λ m, set_cache (<[key := ext4_path]> (im_cache m)) m);
  mret ext4_path.
Definition build (reference : string) (layers : list layer_descriptor) (key : string) : img string :=
  with_tempdir (λ work,
    let rootfs := path_join work "rootfs" in
    _ ← io (lf_create_dir_all rootfs);
    _ ← extract_layers reference work rootfs layers;
    _ ← match ic_agent_binary cfg with Some a => inject_agent a rootfs | None => mret () end;
    publish rootfs key).

Definition pull_and_build_inner (spec : ImageSpec) : img string :=
  _ ← lift (match parse_reference (is_reference spec) with
            | inr _ => Ok ()
            | inl e => Err (ImageError.InvalidReference (is_reference spec) e)
            end);
  '(layers, digest) ← call (λ e, ImageError.Registry ("pull platform image manifest: " +:+ e))
    (tries 3 (pull_manifest (is_reference spec)) "manifest request timed out" "");
  _ ← lift (match is_digest spec with
            | Some expected =>
              if String.eqb expected digest then Ok ()
              else Err (ImageError.Registry ("requested digest " +:+ expected
                     +:+ " does not match registry manifest " +:+ digest))
            | None => Ok ()
            end);
  let image_digest := default digest (is_digest spec) in
  key ← cache_key_for_image image_digest;
  hit ← cached key;
  match hit with
  | Some path => _ ← write_reference_alias (is_reference spec) image_digest; mret path
  | None =>
    path ← build (is_reference spec) layers key;
    _ ← write_reference_alias (is_reference spec) image_digest;
    mret path
  end.

(** The round of [pull_and_build] of a caller that waits for nobody; [Flight] has the
    callers that do. *)
Definition pull_and_build (spec : ImageSpec) : img string :=
  hit ← cached_path_for_spec spec;
  match hit with Some path => mret path | None => pull_and_build_inner spec end.
End manager.

(** [flight_key]: the requests that share one build. *)
Definition flight_key (spec : ImageSpec) : string :=
  match is_digest spec with
  | Some digest => "digest:" +:+ digest
  | None => "reference:" +:+ is_reference spec
  end.

(** The same digest is asked for, or the same reference without one. *)
Definition same_flight (a b : ImageSpec) : Prop :=
  is_digest a = is_digest b ∧ (is_digest a = None → is_reference a = is_reference b).
Lemma flight_key_same a b : flight_key a = flight_key b ↔ same_flight a b.
Proof.
  unfold flight_key, same_flight. destruct (is_digest a) as [x|], (is_digest b) as [y|].
  - split; [by intros [= ->]|by intros [[= ->] _]].
  - by split; [|intros []].
  - by split; [|intros []].
  - split; [by intros [= ->]|]. intros [_ Heq]. by rewrite Heq.
Qed.

(** ** [volumes.rs] *)

Definition MAX_WRITABLE_MOUNT_BYTES : Z := 104857600.

Module VolumeError.
Inductive t : Set := SourceNotFound (s : string) | TooLarge (n : Z) | InvalidTarget (s : string) | Io (m : string).
End VolumeError.

Record Volume : Set := volume {
  v_source : string; v_target : string; v_readonly : bool; v_size_bytes : Z }.

(** [there] says whether a path exists and [size] is the walk of its own [dir_size]. *)
Definition from_spec (there : string → bool) (size : string → tree) (spec : MountSpec.t)
  : res VolumeError.t Volume :=
  if negb (there (MountSpec.source spec)) then Err (VolumeError.SourceNotFound (MountSpec.source spec))
  else if negb (starts_with "/" (MountSpec.target spec)) then
    Err (VolumeError.InvalidTarget (MountSpec.target spec))
  else match dir_size (size (MountSpec.source spec)) with
       | Ok n =>
         if negb (MountSpec.readonly spec) && (MAX_WRITABLE_MOUNT_BYTES <? n) then Err (VolumeError.TooLarge n)
         else Ok (volume (MountSpec.source spec) (MountSpec.target spec) (MountSpec.readonly spec) n)
       | Err e => Err (VolumeError.Io e)
       | Panic => Panic
       end.
Definition ext4_size_bytes (v : Volume) : Z := ext4_size (v_size_bytes v).

(** ** Requests at the same time *)

Module Flight.
Section flight.
(** What each caller asks for. *)
Context (specs : nat → ImageSpec).
Abbreviation key i := (flight_key (specs i)).

(** Where a caller of [pull_and_build] stands, between two steps that others can see:
    it looks at the cache, asks for the lock, has taken the notifier of another caller,
    waits on it, builds, has removed its entry and wakes those who wait (it holds the
    lock until both calls are made), or is done. *)
Inductive phase : Set :=
| Look | Enter | Await (n : nat) | Waiting (n : nat) | Building (n : nat)
| WakeAll (n : nat) | WakeOne (n : nat) | Done.
#[global] Instance phase_eq_dec : EqDecision phase.
Proof. solve_decision. Defined.

(** [inflight], the notifier under each key; how many notifiers there were; the
    permits that are stored in notifiers; the callers. *)
Record t : Set := mk {
  entries : gmap string nat; made : nat; permits : gset nat; callers : gmap nat phase }.
Definition set_callers (s : t) (c : gmap nat phase) : t := mk (entries s) (made s) (permits s) c.
Definition start (n : nat) : t := mk ∅ 0 ∅ (list_to_map ((λ i, (i, Look)) <$> seq 0 n)).

(** [notify_waiters] wakes the callers that wait now. *)
Definition wake_all (n : nat) (c : gmap nat phase) : gmap nat phase :=
  (λ p, if decide (p = Waiting n) then Look else p) <$> c.

(** The lock of the table is taken by the caller that wakes others; every other use of
    it is one step. *)
Definition holds_lock (p : phase) : bool := match p with WakeAll _ | WakeOne _ => true | _ => false end.
Definition unlocked (s : t) : Prop := map_Forall (λ _ p, holds_lock p = false) (callers s).
#[global] Instance unlocked_dec s : Decision (unlocked s).
Proof. unfold unlocked. apply _. Defined.

Inductive step : t → t → Prop :=
| step_hit i s : callers s !! i = Some Look → step s (set_callers s (<[i := Done]> (callers s)))
| step_miss i s : callers s !! i = Some Look → step s (set_callers s (<[i := Enter]> (callers s)))
| step_join i n s : unlocked s → callers s !! i = Some Enter → entries s !! key i = Some n →
    step s (set_callers s (<[i := Await n]> (callers s)))
| step_own i s : unlocked s → callers s !! i = Some Enter → entries s !! key i = None →
    step s (mk (<[key i := made s]> (entries s)) (S (made s)) (permits s)
              (<[i := Building (made s)]> (callers s)))
| step_permit i n s : callers s !! i = Some (Await n) → n ∈ permits s →
    step s (mk (entries s) (made s) (permits s ∖ {[n]}) (<[i := Look]> (callers s)))
| step_wait i n s : callers s !! i = Some (Await n) → n ∉ permits s →
    step s (set_callers s (<[i := Waiting n]> (callers s)))
| step_built i n s : unlocked s → callers s !! i = Some (Building n) →
    step s (mk (delete (key i) (entries s)) (made s) (permits s) (<[i := WakeAll n]> (callers s)))
| step_wake_all i n s : callers s !! i = Some (WakeAll n) →
    step s (set_callers s (<[i := WakeOne n]> (wake_all n (callers s))))
| step_wake_one i j n s : callers s !! i = Some (WakeOne n) → callers s !! j = Some (Waiting n) →
    step s (set_callers s (<[i := Done]> (<[j := Look]> (callers s))))
| step_store i n s : callers s !! i = Some (WakeOne n) → (∀ j, callers s !! j ≠ Some (Waiting n)) →
    step s (mk (entries s) (made s) ({[n]} ∪ permits s) (<[i := Done]> (callers s))).

Definition reachable (k : nat) (s : t) : Prop := rtc step (start k) s.

(** A builder owns the entry under its key, and notifiers are not made twice. *)
Record wf (s : t) : Prop := {
  wf_owner i n : callers s !! i = Some (Building n) → entries s !! key i = Some n;
  wf_unique i j n : callers s !! i = Some (Building n) → callers s !! j = Some (Building n) → i = j;
  wf_made k n : entries s !! k = Some n → (n < made s)%nat }.

Lemma wf_start k : wf (start k).
Proof.
  assert (∀ i p, callers (start k) !! i = Some p → p = Look) as H.
  { intros i p Hp. apply elem_of_list_to_map_2, list_elem_of_fmap in Hp as (j & [= -> ->] & _). done. }
  split; [intros i n Hi; by apply H in Hi|intros i j n Hi; by apply H in Hi|].
  intros x n Hx. simpl in Hx. by rewrite lookup_empty in Hx.
Qed.

(** Where the callers of the state after come from. *)
Lemma wake_all_building n c i m : wake_all n c !! i = Some (Building m) → c !! i = Some (Building m).
Proof.
  unfold wake_all. rewrite lookup_fmap_Some. intros (p & Hp & Hi).
  destruct (decide (p = Waiting n)); [done|]. by subst.
Qed.
Lemma insert_building (c : gmap nat phase) i p j m :
  (∀ n, p ≠ Building n) → <[i := p]> c !! j = Some (Building m) → c !! j = Some (Building m).
Proof. intros Hp [[_ Heq]|[_ ?]]%lookup_insert_Some; [by destruct (Hp m)|done]. Qed.

Lemma wf_fewer s s' :
  wf s → entries s' = entries s → made s' = made s →
  (∀ i n, callers s' !! i = Some (Building n) → callers s !! i = Some (Building n)) → wf s'.
Proof.
  intros [H1 H2 H3] He Hm Hc. split; [intros i n Hi; rewrite He; eauto|intros i j n Hi Hj; eauto|].
  intros k n Hn. rewrite Hm. apply (H3 k). by rewrite <-He.
Qed.

(** Entries of other phases are not builders. *)
Ltac drop_inserts Hb :=
  repeat match type of Hb with
  | <[_ := _]> _ !! _ = _ => apply insert_building in Hb; [|done]
  end.

Lemma wf_step s s' : wf s → step s s' → wf s'.
Proof.
  intros Hwf Hs. destruct Hs as [i s Hi|i s Hi|i n s Hl Hi He|i s Hl Hi He|i n s Hi Hn|i n s Hi Hn|i n s Hl Hi
    |i n s Hi|i j n s Hi Hj|i n s Hi Hn];
    try (apply (wf_fewer s); [done..|]; simpl; intros j' m Hb; drop_inserts Hb;
         try apply wake_all_building in Hb; exact Hb).
  - destruct Hwf as [H1 H2 H3]. split; simpl.
    + intros j n [[<- [= <-]]|[_ Hj]]%lookup_insert_Some; [apply lookup_insert_eq|].
      apply H1 in Hj. rewrite lookup_insert_ne; [done|]. intros Hk. rewrite <-Hk in Hj. congruence.
    + intros j k n [[<- [= <-]]|[Hne Hj]]%lookup_insert_Some [[<- Hk]|[Hne' Hk]]%lookup_insert_Some; try done.
      * apply H1, H3 in Hk. lia.
      * apply H1, H3 in Hj. simplify_eq. lia.
      * by eapply H2.
    + intros k n [[_ <-]|[_ Hk]]%lookup_insert_Some; [lia|]. apply H3 in Hk. lia.
  - destruct Hwf as [H1 H2 H3].
    assert (∀ j m, <[i := WakeAll n]> (callers s) !! j = Some (Building m) →
      j ≠ i ∧ callers s !! j = Some (Building m)) as Hold.
    { intros j m [[_ ?]|[Hne Hj]]%lookup_insert_Some; [done|]. auto. }
    split; simpl.
    + intros j m (Hne & Hj)%Hold. pose proof (H1 _ _ Hj) as Ej. pose proof (H1 _ _ Hi) as Ei.
      rewrite lookup_delete_ne; [done|]. intros Hk. rewrite Hk, Ej in Ei. simplify_eq.
      apply Hne. by eapply H2.
    + intros j k m (_ & Hj)%Hold (_ & Hk)%Hold. by eapply H2.
    + intros k m (_ & Hk)%lookup_delete_Some. by eapply H3.
Qed.

Lemma wf_steps s s' : rtc step s s' → wf s → wf s'.
Proof. induction 1; eauto using wf_step. Qed.

(** C26: One build per request key at a time.  Whatever the order in which callers of
    [pull_and_build] take their steps, no two of them are in the pipeline for the same
    digest, or for the same reference without a digest; and while one is, its notifier is
    the one in the table under its key.  (Requests for one image under two tags, or by
    tag and by digest, have different keys, and may build at the same time.) *)
Theorem one_build_at_a_time k s i j m n :
  reachable k s → callers s !! i = Some (Building m) → callers s !! j = Some (Building n) →
  entries s !! flight_key (specs i) = Some m ∧
  (same_flight (specs i) (specs j) → i = j).
Proof.
  intros Hr Hi Hj. destruct (wf_steps _ _ Hr (wf_start k)) as [H1 H2 _].
  pose proof (H1 _ _ Hi) as E1. pose proof (H1 _ _ Hj) as E2. split; [done|].
  intros Hk%flight_key_same. rewrite Hk, E2 in E1. simplify_eq. by eapply H2.
Qed.

(** *** A caller that comes too late *)

(** Nobody will notify [n] again. *)
Definition idle (n : nat) (p : phase) : Prop :=
  match p with Building m | WakeAll m | WakeOne m => m ≠ n | _ => True end.
Definition abandoned (n : nat) (s : t) : Prop :=
  (∀ k, entries s !! k ≠ Some n) ∧ (n < made s)%nat ∧ n ∉ permits s ∧ map_Forall (λ _, idle n) (callers s).

Lemma waiting_insert (c : gmap nat phase) n i p q j :
  c !! i = Some p → p ≠ Waiting n → c !! j = Some (Waiting n) → <[i := q]> c !! j = Some (Waiting n).
Proof. intros Hi Hp Hj. rewrite lookup_insert_ne; [done|]. intros ->. congruence. Qed.
Lemma waiting_wake (c : gmap nat phase) n m j :
  m ≠ n → c !! j = Some (Waiting n) → wake_all m c !! j = Some (Waiting n).
Proof. intros Hm Hj. unfold wake_all. rewrite lookup_fmap, Hj. simpl. rewrite decide_False; congruence. Qed.
Lemma idle_wake n m c : map_Forall (λ _, idle n) c → map_Forall (λ _, idle n) (wake_all m c).
Proof.
  intros H i p. unfold wake_all. rewrite lookup_fmap_Some. intros (q & <- & Hq).
  destruct (decide (q = Waiting m)); [done|]. by apply H in Hq.
Qed.

Lemma abandoned_step n s s' :
  abandoned n s → step s s' →
  abandoned n s' ∧ ∀ i, callers s !! i = Some (Waiting n) → callers s' !! i = Some (Waiting n).
Proof.
  intros (He & Hm & Hp & Hc) Hs. unfold abandoned.
  destruct Hs as [i s Hi|i s Hi|i m s Hl Hi En|i s Hl Hi En|i m s Hi Hn|i m s Hi Hn|i m s Hl Hi|i m s Hi
    |i j m s Hi Hj|i m s Hi Hn]; simpl; pose proof (Hc _ _ Hi) as Hid; simpl in Hid;
    try (split; [split_and!; try done; try set_solver; try by apply map_Forall_insert_2
                |intros k Hk; by eapply waiting_insert]).
  - intros k [[_ <-]|[_ Hk]]%lookup_insert_Some; [lia|by apply (He k)].
  - apply map_Forall_insert_2; [simpl; lia|done].
  - intros k (_ & Hk)%lookup_delete_Some. by apply (He k).
  - split; [split_and!; try done|].
    + apply map_Forall_insert_2; [done|]. by apply idle_wake.
    + intros k Hk. rewrite lookup_insert_ne; [by apply waiting_wake|]. intros ->. congruence.
  - split; [split_and!; try done|].
    + apply map_Forall_insert_2; [done|]. by apply map_Forall_insert_2.
    + intros k Hk. rewrite !lookup_insert_ne; [done|intros ->; congruence..].
Qed.
Lemma abandoned_waits n i s s' :
  rtc step s s' → abandoned n s → callers s !! i = Some (Waiting n) → callers s' !! i = Some (Waiting n).
Proof.
  induction 1 as [|s1 s2 s3 Hs _ IH]; [done|]. intros Ha Hi.
  destruct (abandoned_step n s1 s2 Ha Hs) as [Ha' Hw]. by apply IH; [|apply Hw].
Qed.

End flight.

Lemma free_lock s : bool_decide (unlocked s) = true → unlocked s.
Proof. apply bool_decide_eq_true. Qed.

(** Three callers, two of them for the same tag and one with a digest: the first and
    the third build at the same time, the second has taken the notifier of the first. *)
Definition tag : ImageSpec := image_spec "busybox:1" None.
Definition mixed (i : nat) : ImageSpec :=
  if Nat.eqb i 2 then image_spec "busybox:1" (Some "sha256:d0"%string) else tag.
Definition shared : t :=
  mk {["reference:busybox:1"%string := 0%nat; "digest:sha256:d0"%string := 1%nat]} 2 ∅
    {[0%nat := Building 0; 1%nat := Await 0; 2%nat := Building 1]}.
Lemma shared_reachable : reachable mixed 3 shared.
Proof.
  eapply rtc_l; [by apply (step_miss mixed 0)|]. eapply rtc_l; [by apply (step_miss mixed 1)|].
  eapply rtc_l; [by apply (step_miss mixed 2)|].
  eapply rtc_l; [by apply (step_own mixed 0); [apply free_lock; vm_compute|..]|].
  eapply rtc_l; [by apply (step_join mixed 1 0); [apply free_lock; vm_compute|..]|].
  eapply rtc_l; [by apply (step_own mixed 2); [apply free_lock; vm_compute|..]|].
  match goal with |- rtc _ ?s _ => replace s with shared by (vm_compute; reflexivity) end. apply rtc_refl.
Qed.
Lemma one_build_at_a_time_witness :
  entries shared !! flight_key (mixed 0) = Some 0%nat ∧ ¬ same_flight (mixed 0) (mixed 2).
Proof.
  destruct (one_build_at_a_time mixed 3 shared 0 2 0 1 shared_reachable eq_refl eq_refl) as [He Hs].
  split; [exact He|]. intros Hf. discriminate (Hs Hf).
Defined.

(** Three callers: the first builds; the other two have taken its notifier, but do
    not wait on it yet, when it is done.  One finds the stored permit; the other one
    waits for ever. *)
Definition late : t :=
  mk ∅ 1 ∅ {[0%nat := Done; 1%nat := Look; 2%nat := Waiting 0]}.
Lemma none_waits (c : gmap nat phase) n :
  bool_decide (map_Forall (λ _ p, p ≠ Waiting n) c) = true → ∀ j : nat, c !! j ≠ Some (Waiting n).
Proof. intros H%bool_decide_eq_true j Hj. by apply H in Hj. Qed.
Lemma late_reachable : reachable (λ _, tag) 3 late.
Proof.
  unfold reachable.
  eapply rtc_l; [by apply (step_miss (λ _, tag) 0)|]. eapply rtc_l; [by apply (step_miss (λ _, tag) 1)|].
  eapply rtc_l; [by apply (step_miss (λ _, tag) 2)|]. eapply rtc_l; [by apply (step_own (λ _, tag) 0); [apply free_lock; vm_compute|..]|].
  eapply rtc_l; [by apply (step_join (λ _, tag) 1 0); [apply free_lock; vm_compute|..]|]. eapply rtc_l; [by apply (step_join (λ _, tag) 2 0); [apply free_lock; vm_compute|..]|].
  eapply rtc_l; [by apply (step_built (λ _, tag) 0 0); [apply free_lock; vm_compute|..]|]. eapply rtc_l; [by apply (step_wake_all (λ _, tag) 0 0)|].
  eapply rtc_l; [by apply (step_store (λ _, tag) 0 0); [|apply none_waits; vm_compute]|].
  eapply rtc_l; [by apply (step_permit (λ _, tag) 1 0); vm_compute|]. eapply rtc_l; [apply (step_wait (λ _, tag) 2 0); vm_compute; [done|]|].
  { by intros ?. }
  match goal with |- rtc _ ?s _ => replace s with late by (vm_compute; reflexivity) end. apply rtc_refl.
Qed.
Lemma late_waiter_waits_forever :
  reachable (λ _, tag) 3 late ∧ ∀ s', rtc (step (λ _, tag)) late s' → callers s' !! 2%nat = Some (Waiting 0).
Proof.
  split; [apply late_reachable|].
  intros s' Hs. eapply (abandoned_waits (λ _, tag) 0); [exact Hs| |done].
  split_and!; [done|simpl; lia|set_solver|]. by repeat (apply map_Forall_insert_2; [done|]).
Qed.
End Flight.

(** ** What a successful pull leaves behind *)

(** What the file system, the commands and the encoder document. *)
Class ImageHostOk {L : LayerFs} (IH : ImageHost L) : Prop := {
  rename_law a b f f' : ih_rename a b f = (f', inr ()) →
    ih_is_file b f' = ih_is_file a f ∧ ih_read b f' = ih_read a f ∧
    ∀ c, c ≠ a → c ≠ b → ih_exists c f' = ih_exists c f;
  write_law p b f f' : ih_write p b f = (f', inr ()) →
    ih_read p f' = inr b ∧ ∀ c, c ≠ p → ih_exists c f' = ih_exists c f;
  mkdir_law p f c : ih_exists c f = true → ih_exists c (lf_create_dir_all p f).1 = true;
  file_exists p f : ih_is_file p f = true → ih_exists p f = true;
  tempdir_law p f : ih_is_file p (ih_tempdir f).1 = ih_is_file p f;
  drop_law d p f : path_starts_with d p = false → ih_is_file p (ih_drop_tempdir d f) = ih_is_file p f;
  fallocate_law n p f f' e : ih_run "fallocate" ["-l"; n; p]%string f = (f', inr (Some 0, e)) →
    ih_is_file p f' = true;
  commands_law prog args p f : prog ∈ ["mkfs.ext4"; "mount"; "cp"; "umount"]%string →
    ih_is_file p f = true → ih_is_file p (ih_run prog args f).1 = true;
  alias_law d b : alias_to_vec d = inr b → alias_from_slice b = Some d }.

Lemma bind_inv {S E A B} (m : stres S E A) (k : A → stres S E B) s s' b :
  (m ≫= k) s = (s', Ok b) → ∃ a s1, m s = (s1, Ok a) ∧ k a s1 = (s', Ok b).
Proof. unfold mbind, stres_bind. destruct (m s) as [s1 [a|e|]]; [|done..]. eauto. Qed.

(** *** Names *)

Lemma last_part_app x y :
  contains_char "." y = false → last (split "." (x +:+ "." +:+ y)) = Some y.
Proof. intros H. change ("." +:+ y) with (String "." y). rewrite split_app, (split_one _ y) by done. apply last_snoc. Qed.
(** What comes after the last dot of a path. *)
Definition extension (p : string) : option string := last (split "." p).
Lemma join_extension dir x e : contains_char "." e = false → extension (path_join dir (x +:+ "." +:+ e)) = Some e.
Proof.
  intros He. unfold path_join, extension. repeat case_match; rewrite <-?string_app_assoc;
    rewrite ?(string_app_assoc _ "." e); by apply last_part_app.
Qed.
Lemma with_extension_extension p e : contains_char "." e = false → extension (with_extension p e) = Some e.
Proof.
  intros He. unfold with_extension, extension. destruct (rsplit_once "/" p) as [[d x]|]; [|by apply last_part_app].
  assert (d +:+ "/" +:+ file_stem x +:+ "." +:+ e = (d +:+ "/" +:+ file_stem x) +:+ "." +:+ e) as ->
    by (by rewrite !string_app_assoc). by apply last_part_app.
Qed.

Section pulled.
Context {L : LayerFs} {IH : ImageHost L} {IO : ImageHostOk IH} {H : Sha256} (cfg : ImageConfig).
Abbreviation is_file p m := (ih_is_file p (im_fs m) = true).
Abbreviation home key := (cache_path (ic_cache_dir cfg) key).
Abbreviation alias r := (reference_alias_path (ic_cache_dir cfg) r).
Abbreviation alias_tmp r := (with_extension (alias r) ("tmp-" +:+ show ih_pid)).

Lemma home_extension key : extension (home key) = Some "ext4"%string.
Proof. by apply join_extension. Qed.
Lemma home_not_alias key r : home key ≠ alias r ∧ home key ≠ alias_tmp r.
Proof.
  split; intros Heq%(f_equal extension); rewrite home_extension in Heq.
  - unfold reference_alias_path in Heq. rewrite <-string_app_assoc in Heq. rewrite (join_extension _ _ "json") in Heq; done.
  - rewrite with_extension_extension in Heq; [done|]. change (contains_char "." (show ih_pid) = false). apply show_no_dot.
Qed.

(** A call that succeeded. *)
Lemma io_inv {A} (op : fsw → fsw * (string + A)) m m' a :
  io op m = (m', Ok a) → op (im_fs m) = (im_fs m', inr a) ∧ im_cache m' = im_cache m ∧
    im_fingerprint m' = im_fingerprint m.
Proof. unfold io, call. destruct (op (im_fs m)) as [f [e|x]]; [done|]. by intros [= <- <-]. Qed.

(** An alias is written without touching an image, and is read back. *)
Lemma alias_written r d m m' :
  write_reference_alias cfg r d m = (m', Ok ()) →
  im_cache m' = im_cache m ∧ im_fingerprint m' = im_fingerprint m ∧
  reference_digest cfg r (im_fs m') = Some d ∧
  ∀ key, ih_exists (home key) (im_fs m) = true → ih_exists (home key) (im_fs m') = true.
Proof.
  intros ([] & m1 & H1 & Hk)%bind_inv. apply io_inv in H1 as (H1 & C1 & F1).
  apply bind_inv in Hk as (b & m2 & H2 & Hk). injection H2 as <- H2.
  destruct (alias_to_vec d) as [e|b'] eqn:Ha; [done|]. injection H2 as <-.
  apply bind_inv in Hk as ([] & m3 & H3 & H4). apply io_inv in H3 as (H3 & C3 & F3).
  apply io_inv in H4 as (H4 & C4 & F4).
  apply write_law in H3 as [R3 K3]. apply rename_law in H4 as (_ & R4 & K4).
  split_and!; [congruence|congruence| |].
  - unfold reference_digest. rewrite R4, R3. by eapply alias_law.
  - intros key Hex. destruct (home_not_alias key r) as [N1 N2].
    rewrite K4, K3 by done. pose proof (mkdir_law (ic_cache_dir cfg) (im_fs m) (home key) Hex) as Hm. by rewrite H1 in Hm.
Qed.

(** *** Steps that leave the manager's own fields alone *)

Definition framed {A} (c : stres ImageManager ImageError.t A) : Prop :=
  ∀ m, im_cache (c m).1 = im_cache m ∧ im_fingerprint (c m).1 = im_fingerprint m.
Lemma framed_ret {A} (a : A) : framed (mret a). Proof. done. Qed.
Lemma framed_fail {A} e : framed (A := A) (fail e). Proof. done. Qed.
Lemma framed_bind {A B} (c : stres ImageManager ImageError.t A) (k : A → stres ImageManager ImageError.t B) :
  framed c → (∀ a, framed (k a)) → framed (c ≫= k).
Proof.
  intros Hc Hk m. destruct (Hc m) as [H1 H2]. unfold mbind, stres_bind.
  destruct (c m) as [m1 [a|e|]]; [|done..]. destruct (Hk a m1) as [H3 H4]. simpl in *. split; congruence.
Qed.
Lemma framed_io {A} (op : fsw → fsw * (string + A)) : framed (io op).
Proof. intros m. unfold io, call. by destruct (op (im_fs m)). Qed.
Lemma framed_run prog args : framed (run_cmd prog args).
Proof. intros m. unfold run_cmd. by destruct (ih_run prog args (im_fs m)). Qed.
Lemma framed_drop {A} d (c : stres ImageManager ImageError.t A) : framed c → framed (then_drop d c).
Proof. intros Hc m. specialize (Hc m). unfold then_drop. by destruct (c m). Qed.
Lemma framed_tempdir {A} (k : string → stres ImageManager ImageError.t A) :
  (∀ d, framed (k d)) → framed (with_tempdir k).
Proof. intros Hk. apply framed_bind; [apply framed_io|]. intros d. apply framed_drop, Hk. Qed.
Lemma framed_remove tmp (c : stres ImageManager ImageError.t ()) : framed c → framed (or_remove tmp c).
Proof. intros Hc m. specialize (Hc m). unfold or_remove. by destruct (c m) as [m' [a|e|]]. Qed.
Lemma framed_id : framed new_id.
Proof. intros m. unfold new_id. by destruct (fresh_id (im_fs m)). Qed.

Lemma framed_pull n r l p e : framed (pull_layer n r l p e).
Proof.
  revert e. induction n as [|n IHn]; intros e; simpl; [done|].
  apply framed_bind; [apply framed_io|]. intros _. apply framed_bind.
  { intros m. unfold blob_attempt. by destruct (pull_blob r l p (im_fs m)). }
  intros [x|e'|]; [apply framed_io|apply IHn..].
Qed.
Lemma framed_layers r w f l : framed (extract_layers r w f l).
Proof.
  induction l as [|x l IHl]; [done|]. apply framed_bind; [|done]. apply framed_bind; [apply framed_pull|].
  intros _ m. unfold unpack_layer. by destruct (extract_tar_archive f _ _ (im_fs m)) as [f' [u|e|]].
Qed.
Lemma framed_inject a f : framed (inject_agent a f).
Proof.
  intros m. unfold inject_agent. destruct (ih_is_file a (im_fs m)); [|done].
  apply framed_bind; [apply framed_io|]. intros _. apply framed_bind; [apply framed_io|]. intros _. apply framed_io.
Qed.
Lemma framed_ext4 f p : framed (build_ext4 f p).
Proof.
  intros m. unfold build_ext4. destruct (dir_size _) as [n|e|]; [|done..].
  apply framed_bind; [destruct (ih_exists p _); [apply framed_io|done]|]. intros _.
  apply framed_bind; [apply framed_run|]. intros _. apply framed_bind; [apply framed_run|]. intros _.
  apply framed_tempdir. intros d. apply framed_bind; [apply framed_run|]. intros _ m'. unfold copy_unmount.
  pose proof (framed_run "cp" ["-a"; f +:+ "/."; d]%string m') as H1.
  destruct (run_cmd "cp" _ m') as [m1 r1]. pose proof (framed_run "umount" [d] m1) as H2.
  destruct (run_cmd "umount" _ m1) as [m2 r2]. simpl in *. destruct H1, H2. split; congruence.
Qed.

(** *** The image file *)

Lemma run_inv prog args m m' u :
  run_cmd prog args m = (m', Ok u) → ∃ e, ih_run prog args (im_fs m) = (im_fs m', inr (Some 0, e)).
Proof.
  unfold run_cmd. destruct (ih_run prog args (im_fs m)) as [f [e|[code e]]]; [done|].
  case_bool_decide as Hc; [|done]. intros [= <- _]. subst. by exists e.
Qed.
Lemma run_keeps prog args p m :
  prog ∈ ["mkfs.ext4"; "mount"; "cp"; "umount"]%string → is_file p m → is_file p (run_cmd prog args m).1.
Proof.
  intros Hp Hf. pose proof (commands_law prog args p (im_fs m) Hp Hf) as Hc. unfold run_cmd.
  by destruct (ih_run prog args (im_fs m)) as [f r].
Qed.

(** Temporary directories are not above the cache. *)
Definition in_cache (p : string) : Prop := ∃ key, p = home key ∨ ∃ e, p = with_extension (home key) e.
Context (Htmp : ∀ f f' d p, ih_tempdir f = (f', inr d) → in_cache p → path_starts_with d p = false).

Lemma tempdir_keeps {A} (k : string → stres ImageManager ImageError.t A) p m :
  in_cache p → is_file p m → (∀ d m, is_file p m → is_file p (k d m).1) → is_file p (with_tempdir k m).1.
Proof.
  intros Hp Hf Hk. unfold with_tempdir, mbind, stres_bind, io, call.
  pose proof (tempdir_law p (im_fs m)) as Ht. destruct (ih_tempdir (im_fs m)) as [f [e|d]] eqn:Hd; simpl in *;
    [congruence|]. unfold then_drop. specialize (Hk d (set_fs f m)).
  destruct (k d (set_fs f m)) as [m' r]. simpl in *. rewrite drop_law by (by eapply Htmp). apply Hk. congruence.
Qed.
Lemma copy_keeps f p d m : is_file p m → is_file p (copy_mounted f p d m).1.
Proof.
  intros Hf. unfold copy_mounted, mbind, stres_bind.
  pose proof (run_keeps "mount" ["-o"; "loop"; p; d]%string p m ltac:(set_solver) Hf) as K1.
  destruct (run_cmd "mount" _ m) as [m1 [u|e|]]; [|done..]. unfold copy_unmount.
  pose proof (run_keeps "cp" ["-a"; f +:+ "/."; d]%string p m1 ltac:(set_solver) K1) as K2.
  destruct (run_cmd "cp" _ m1) as [m2 r2].
  pose proof (run_keeps "umount" [d] p m2 ltac:(set_solver) K2) as K3. by destruct (run_cmd "umount" _ m2).
Qed.
Lemma ext4_built f p m m' : in_cache p → build_ext4 f p m = (m', Ok ()) → is_file p m'.
Proof.
  intros Hp. unfold build_ext4. destruct (dir_size _) as [n|e|]; [|done..].
  intros (u1 & m1 & _ & Hk)%bind_inv. apply bind_inv in Hk as (u2 & m2 & H2 & Hk).
  apply run_inv in H2 as [e H2]. apply fallocate_law in H2.
  apply bind_inv in Hk as (u3 & m3 & H3 & Hk).
  pose proof (run_keeps "mkfs.ext4" ["-q"; p]%string p m2) as K3. rewrite H3 in K3.
  assert (is_file p m3) as F3 by (apply K3; [set_solver|done]).
  pose proof (tempdir_keeps (copy_mounted f p) p m3 Hp F3) as K4. rewrite Hk in K4. apply K4.
  apply copy_keeps.
Qed.

Lemma publish_done f key m m' p :
  publish cfg f key m = (m', Ok p) →
  p = home key ∧ is_file (home key) m' ∧ im_cache m' = <[key := home key]> (im_cache m) ∧
  im_fingerprint m' = im_fingerprint m.
Proof.
  intros (u1 & m1 & H1 & Hk)%bind_inv. apply io_inv in H1 as (_ & C1 & F1).
  apply bind_inv in Hk as (u & m2 & H2 & Hk). pose proof (framed_id m1) as [C2 F2]. rewrite H2 in C2, F2.
  apply bind_inv in Hk as ([] & m3 & H3 & Hk). set (tmp := with_extension _ _) in *.
  pose proof (framed_remove tmp _ (framed_ext4 f tmp) m2) as [C3 F3]. rewrite H3 in C3, F3.
  assert (build_ext4 f tmp m2 = (m3, Ok ())) as H3'.
  { unfold or_remove in H3. by destruct (build_ext4 f tmp m2) as [x [[]|e|]]; simplify_eq. }
  apply ext4_built in H3'; [|exists key; right; by eexists].
  apply bind_inv in Hk as ([] & m4 & H4 & Hk).
  assert (io (ih_rename tmp (home key)) m3 = (m4, Ok ())) as H4'.
  { unfold or_remove in H4. by destruct (io (ih_rename tmp (home key)) m3) as [x [[]|e|]]; simplify_eq. }
  apply io_inv in H4' as (H4' & C4 & F4). apply rename_law in H4' as (R4 & _ & _).
  unfold mbind, stres_bind, modify, mret, stres_ret in Hk. injection Hk as <- <-. simpl in *.
  split_and!; [done|congruence|congruence|congruence].
Qed.
Lemma drop_inv {A} d (c : stres ImageManager ImageError.t A) m m' a :
  then_drop d c m = (m', Ok a) → ∃ m2, c m = (m2, Ok a) ∧ m' = set_fs (ih_drop_tempdir d (im_fs m2)) m2.
Proof. unfold then_drop. destruct (c m) as [m2 r]. intros [= <- ->]. by exists m2. Qed.
Lemma build_done r layers key m m' p :
  build cfg r layers key m = (m', Ok p) →
  p = home key ∧ is_file (home key) m' ∧ im_cache m' = <[key := home key]> (im_cache m) ∧
  im_fingerprint m' = im_fingerprint m.
Proof.
  intros (d & m1 & H1 & Hk)%bind_inv. apply io_inv in H1 as (H1 & C1 & F1).
  apply drop_inv in Hk as (m2 & Hb & ->).
  cbn [set_fs im_fs im_cache im_fingerprint].
  rewrite drop_law by (eapply Htmp; [exact H1|exists key; by left]).
  apply bind_inv in Hb as (u2 & m3 & H3 & Hb). apply io_inv in H3 as (_ & C3 & F3).
  apply bind_inv in Hb as (u3 & m4 & H4 & Hb). pose proof (framed_layers r d (path_join d "rootfs") layers m3) as [C4 F4].
  rewrite H4 in C4, F4. apply bind_inv in Hb as (u4 & m5 & H5 & Hb).
  assert (im_cache m5 = im_cache m4 ∧ im_fingerprint m5 = im_fingerprint m4) as [C5 F5].
  { destruct (ic_agent_binary cfg) as [a|]; [|by injection H5 as <- _].
    pose proof (framed_inject a (path_join d "rootfs") m4) as Hf. by rewrite H5 in Hf. }
  apply publish_done in Hb as (-> & Hf & Hc & Hfp). simpl in *. split_and!; [done|done|congruence|congruence].
Qed.

(** *** The cache *)

(** A path in memory is the one on disk. *)
Definition cache_wf (m : ImageManager) : Prop := ∀ k p, im_cache m !! k = Some p → p = home k.
Lemma cached_hit key m m' p :
  cache_wf m → cached cfg key m = (m', Ok (Some p)) →
  p = home key ∧ cache_wf m' ∧ im_cache m' !! key = Some p ∧ im_fs m' = im_fs m ∧
  im_fingerprint m' = im_fingerprint m ∧ ih_exists p (im_fs m) = true.
Proof.
  intros Hwf. unfold cached.
  assert (∀ q, is_file q m → q = home key →
    cache_wf (set_cache (<[key := q]> (im_cache m)) m)) as Hins.
  { intros q _ -> k x Hx. simpl in Hx. apply lookup_insert_Some in Hx as [[<- <-]|[_ Hk]]; [done|by apply Hwf]. }
  destruct (im_cache m !! key) as [q|] eqn:Hq; [destruct (ih_exists q (im_fs m)) eqn:Hex|].
  - intros [= <- <-]. pose proof (Hwf _ _ Hq) as ->. by split_and!.
  - destruct (ih_is_file (home key) (im_fs m)) eqn:Hf; [|done]. intros [= <- <-].
    split_and!; try done; [by apply Hins|simpl; apply lookup_insert_eq|by apply file_exists].
  - destruct (ih_is_file (home key) (im_fs m)) eqn:Hf; [|done]. intros [= <- <-].
    split_and!; try done; [by apply Hins|simpl; apply lookup_insert_eq|by apply file_exists].
Qed.
(** A key is the same as long as the fingerprint is. *)
Lemma key_again d m m1 m2 key :
  cache_key_for_image cfg d m = (m1, Ok key) → im_fingerprint m2 = im_fingerprint m1 →
  cache_key_for_image cfg d m2 = (m2, Ok key) ∧ im_cache m1 = im_cache m ∧ im_fs m1 = im_fs m.
Proof.
  unfold cache_key_for_image. destruct (ic_agent_binary cfg) as [a|]; [|by intros [= <- <-]].
  destruct (default _ (im_fingerprint m)) as [e|h]; [done|]. intros [= <- <-] Hf. simpl in Hf. rewrite Hf. simpl.
  split; [|done]. f_equal. unfold set_fingerprint. rewrite <-Hf. by destruct m2.
Qed.
Lemma cached_again key m :
  im_cache m !! key = Some (home key) → ih_exists (home key) (im_fs m) = true →
  cached cfg key m = (m, Ok (Some (home key))).
Proof. intros Hc Hex. unfold cached. by rewrite Hc, Hex. Qed.

(** What a request leaves: the image in the cache, and the digest behind the tag. *)
Definition pulled (spec : ImageSpec) (p : string) (m : ImageManager) : Prop :=
  (∃ d key, image_digest_of cfg spec (im_fs m) = Some d ∧
     cache_key_for_image cfg d m = (m, Ok key) ∧ p = home key ∧ ih_exists p (im_fs m) = true) ∧
  cached_path_for_spec cfg spec m = (m, Ok (Some p)) ∧ cache_wf m.
Lemma pulled_aliased spec d0 key m0 m1 m2 m' :
  cache_key_for_image cfg (default d0 (is_digest spec)) m0 = (m1, Ok key) →
  im_fingerprint m2 = im_fingerprint m1 → cache_wf m2 → im_cache m2 !! key = Some (home key) →
  ih_exists (home key) (im_fs m2) = true →
  write_reference_alias cfg (is_reference spec) (default d0 (is_digest spec)) m2 = (m', Ok ()) →
  pulled spec (home key) m'.
Proof.
  intros Hkey Hfp Hwf Hc Hex (C & F & D & X)%alias_written.
  destruct (key_again _ _ _ m' _ Hkey) as (Hk & _ & _); [congruence|].
  assert (image_digest_of cfg spec (im_fs m') = Some (default d0 (is_digest spec))) as Hd.
  { unfold image_digest_of in *. by destruct (is_digest spec). }
  pose proof (X key Hex) as Hex'. split; [|split].
  - by eexists _, key.
  - unfold cached_path_for_spec. rewrite Hd, Hk. apply cached_again; congruence.
  - intros k x. rewrite C. apply Hwf.
Qed.

Lemma inner_pulled spec m m' p :
  cache_wf m → pull_and_build_inner cfg spec m = (m', Ok p) → pulled spec p m'.
Proof.
  intros Hwf (u1 & m1 & H1 & Hk)%bind_inv. injection H1 as <- _.
  apply bind_inv in Hk as ([layers d0] & m2 & H2 & Hk).
  assert (im_cache m2 = im_cache m) as C2.
  { unfold call in H2. by destruct (tries _ _ _ _ (im_fs m)) as [f [e|x]]; simplify_eq/=. }
  apply bind_inv in Hk as (u3 & m3 & H3 & Hk). injection H3 as <- _.
  apply bind_inv in Hk as (key & m4 & H4 & Hk). destruct (key_again _ _ _ m4 _ H4 eq_refl) as (_ & C4 & F4).
  assert (cache_wf m4) as Hwf4 by (intros k x; rewrite C4, C2; apply Hwf).
  apply bind_inv in Hk as (hit & m5 & H5 & Hk). destruct hit as [path|].
  - apply cached_hit in H5 as (-> & Hwf5 & Hc & Hfs & Hfp & Hex); [|done].
    apply bind_inv in Hk as ([] & m6 & H6 & Hk). injection Hk as <- <-.
    eapply pulled_aliased; [exact H4|done|done|done|by rewrite Hfs|exact H6].
  - assert (im_cache m5 = im_cache m4 ∧ im_fingerprint m5 = im_fingerprint m4) as [C5 F5].
    { unfold cached in H5. repeat case_match; by simplify_eq/=. }
    apply bind_inv in Hk as (path & m6 & H6 & Hk). apply build_done in H6 as (-> & Hf & Hc & Hfp).
    apply bind_inv in Hk as ([] & m7 & H7 & Hk). injection Hk as <- <-.
    apply (pulled_aliased _ _ _ _ _ _ _ H4) in H7;
      [done|congruence| |rewrite Hc; apply lookup_insert_eq|by apply file_exists].
    intros k x. rewrite Hc, C5. intros [[<- <-]|[_ ?]]%lookup_insert_Some; [done|by apply Hwf4].
Qed.

(** So does a hit. *)
Lemma hit_pulled spec m m' p :
  cache_wf m → cached_path_for_spec cfg spec m = (m', Ok (Some p)) → pulled spec p m'.
Proof.
  unfold cached_path_for_spec. intros Hwf Hc.
  destruct (image_digest_of cfg spec (im_fs m)) as [d|] eqn:Hd; [|done].
  destruct (cache_key_for_image cfg d m) as [m1 [key|e|]] eqn:Hkey; [|done..].
  destruct (key_again _ _ _ m1 _ Hkey eq_refl) as (_ & C1 & F1).
  assert (cache_wf m1) as Hwf1 by (intros k x; rewrite C1; apply Hwf).
  apply cached_hit in Hc as (-> & Hwf' & Hc & Hfs & Hfp & Hex); [|done].
  destruct (key_again _ _ _ m' _ Hkey Hfp) as (Hk & _ & _).
  assert (image_digest_of cfg spec (im_fs m') = Some d) as Hd' by (by rewrite Hfs, F1).
  split; [|split; [|done]].
  - exists d, key. split_and!; try done. by rewrite Hfs.
  - unfold cached_path_for_spec. rewrite Hd', Hk. apply cached_again; [done|by rewrite Hfs].
Qed.

Lemma key_frame d m : let m' := (cache_key_for_image cfg d m).1 in
  im_cache m' = im_cache m ∧ im_fs m' = im_fs m.
Proof. unfold cache_key_for_image. by destruct (ic_agent_binary cfg). Qed.

(** A miss leaves the memory as it was. *)
Lemma missed_cache spec m m' :
  cached_path_for_spec cfg spec m = (m', Ok None) → im_cache m' = im_cache m.
Proof.
  unfold cached_path_for_spec. destruct (image_digest_of _ _ _) as [d|]; [|by intros [= <-]].
  pose proof (key_frame d m) as [C _]. destruct (cache_key_for_image cfg d m) as [m1 [key|e|]];
    [|by intros [= <-]..]. simpl in C. unfold cached. rewrite <-C. repeat case_match; by intros [= <-].
Qed.

(** At a later time (or in a new process) the alias of the tag still reads as it did, the
    agent has the same fingerprint, and the file is still there. *)
Definition kept (spec : ImageSpec) (p : string) (m m2 : ImageManager) : Prop :=
  image_digest_of cfg spec (im_fs m2) = image_digest_of cfg spec (im_fs m) ∧
  (∀ d, (cache_key_for_image cfg d m2).2 = (cache_key_for_image cfg d m).2) ∧
  is_file p m2 ∧ cache_wf m2.

(** The agent has the same fingerprint, so that keys are the same. *)
Lemma same_agent m m2 :
  (∀ a, ic_agent_binary cfg = Some a →
     default (fingerprint_file a (im_fs m2)) (im_fingerprint m2)
     = default (fingerprint_file a (im_fs m)) (im_fingerprint m)) →
  ∀ d, (cache_key_for_image cfg d m2).2 = (cache_key_for_image cfg d m).2.
Proof.
  intros Ha d. unfold cache_key_for_image. destruct (ic_agent_binary cfg) as [a|]; [|done].
  simpl. by rewrite Ha.
Qed.

Lemma kept_hits spec p m m2 :
  pulled spec p m → kept spec p m m2 →
  ∃ m3, cached_path_for_spec cfg spec m2 = (m3, Ok (Some p)) ∧ im_fs m3 = im_fs m2.
Proof.
  intros ((d & key & Hd & Hk & -> & _) & _) (Ed & Ek & Hf & Hwf). unfold cached_path_for_spec.
  specialize (Ek d). rewrite Ed, Hd. rewrite Hk in Ek. pose proof (key_frame d m2) as [C F].
  destruct (cache_key_for_image cfg d m2) as [m4 r]. simpl in Ek, C, F. subst r.
  unfold cached. rewrite C, F, Hf. destruct (im_cache m2 !! key) as [q|] eqn:Hq; [|by eexists].
  apply Hwf in Hq as ->. rewrite (file_exists _ _ Hf). by eexists.
Qed.

End pulled.

(** ** A host of files *)

Module ImageDemo.
Abbreviation files := (gmap string Bytes).
Definition there (p : string) (f : files) : bool := bool_decide (is_Some (f !! p)).
Definition fs : LayerFs := {|
  fsw := files;
  lf_open p f := match f !! p with Some b => inr b | None => inl "not found"%string end;
  zstd_new _ := inr ();
  tar_entries _ _ := inr [inr (tar_entry KOther (inr "bin/sh"%string) (inr None) [])];
  lf_create_dir_all _ f := (f, inr ());
  lf_is_dir _ _ := false;
  lf_exists := there;
  lf_read_dir _ _ := inr [];
  lf_remove_dir_all p f := (filter (λ x, path_starts_with p x.1 = false) f, inr ());
  lf_remove_file p f := (delete p f, inr ());
  lf_unpack e p f := (<[p := te_data e]> f, inr ());
  lf_hard_link p q f := match f !! p with Some b => (<[q := b]> f, inr ()) | None => (f, inl "not found"%string) end |}.

Definition move (a b : string) (f : files) : files * (string + ()) :=
  match f !! a with Some x => (<[b := x]> (delete a f), inr ()) | None => (f, inl "not found"%string) end.
Definition run (prog : string) (args : list string) (f : files) : files * (string + option Z * string) :=
  match args with
  | [_; _; p] => if String.eqb prog "fallocate" then (<[p := []]> f, inr (Some 0, ""%string)) else (f, inr (Some 0, ""%string))
  | _ => (f, inr (Some 0, ""%string))
  end.
Definition read (p : string) (f : files) : string + Bytes :=
  match f !! p with Some b => inr b | None => inl "not found"%string end.
Definition write (p : string) (b : Bytes) (f : files) : files * (string + ()) := (<[p := b]> f, inr ()).
Definition copy (a b : string) (f : files) : files * (string + ()) :=
  match f !! a with Some x => write b x f | None => (f, inl "not found"%string) end.
Definition drop_dir (d : string) (f : files) : files := filter (λ x, path_starts_with d x.1 = false) f.
Definition blob (p : string) (f : files) : files * attempt () := (<[p := []]> f, Got ()).
#[global] Instance machine : ImageHost fs := {|
  parse_reference _ := inr ();
  pull_manifest _ (f : @fsw fs) := (f, Got ([descriptor "sha256:11" "application/vnd.oci.image.layer.v1.tar"], "sha256:d0"%string));
  pull_blob _ _ := blob;
  ih_pid := 7;
  fresh_id f := (f, "u"%string);
  ih_read := read;
  ih_exists := there;
  ih_is_file := there;
  ih_create_file p := write p [];
  ih_flush _ f := (f, inr ());
  ih_write := write;
  ih_rename := move;
  ih_copy := copy;
  ih_set_mode _ _ f := (f, inr ());
  ih_tree _ _ := Dir [Leaf 10];
  ih_tempdir f := (f, inr "/tmp/w"%string);
  ih_drop_tempdir := drop_dir;
  ih_run := run;
  code_text _ := ""%string;
  alias_to_vec d := inr (String.list_byte_of_string d);
  alias_from_slice b := Some (String.string_of_list_byte b) |}.

Lemma there_insert p q b f : there q (<[p := b]> f) = bool_decide (p = q) || there q f.
Proof.
  unfold there. rewrite <-bool_decide_or. apply bool_decide_ext. destruct (decide (p = q)) as [->|Hn].
  - rewrite lookup_insert_eq. naive_solver.
  - rewrite lookup_insert_ne by done. naive_solver.
Qed.
#[global] Instance machine_ok : ImageHostOk machine.
Proof.
  split; simpl.
  - intros a b f f'. unfold move, there, read. destruct (f !! a) as [x|] eqn:Ha; [|done]. intros [= <-]. split_and!.
    + by rewrite lookup_insert_eq.
    + by rewrite lookup_insert_eq.
    + intros c Hc1 Hc2. by rewrite lookup_insert_ne, lookup_delete_ne.
  - intros p b f f' [= <-]. unfold read. rewrite lookup_insert_eq. split; [done|]. intros c Hc.
    rewrite there_insert, bool_decide_false by done. done.
  - done.
  - done.
  - done.
  - intros d p f Hp. unfold there, drop_dir. apply bool_decide_ext. split.
    + intros [b [Hb _]%map_lookup_filter_Some]. by exists b.
    + intros [b Hb]. exists b. by apply map_lookup_filter_Some.
  - intros n p f f' e [= <- _]. by rewrite there_insert, bool_decide_true.
  - intros prog args p f Hp Hf. unfold run. do 4 (try destruct args as [|? args]); try done.
    destruct (String.eqb_spec prog "fallocate") as [->|]; [set_solver|done].
  - intros d b [= <-]. by rewrite String.string_of_list_byte_of_string.
Qed.

Definition cfg : ImageConfig := image_config "/cache" (Some "/agent"%string).
(** The agent binary is there; the cache is empty. *)
Definition fresh : ImageManager := new_manager (L := fs) {["/agent"%string := [Byte.x7f]]}.

Lemma safe_no_slash key : contains_char "/" (safe_name key) = false.
Proof.
  induction key as [|c key IH]; [done|]. cbn [safe_name contains_char]. rewrite IH, orb_false_r.
  unfold safe_char. cbn [existsb]. destruct (Ascii.eqb_spec c ":"); [done|].
  destruct (Ascii.eqb_spec c "/"); [done|]. destruct (Ascii.eqb_spec c "\"); [done|].
  cbn [orb]. by apply Ascii.eqb_neq.
Qed.
(** What is in the cache is not below the temporary directory. *)
Lemma cache_home key :
  path_join "/cache" (safe_name key +:+ ".ext4") = ("/cache" +:+ "/" +:+ safe_name key +:+ ".ext4")%string.
Proof.
  unfold path_join. replace (starts_with "/" (safe_name key +:+ ".ext4")) with false; [done|].
  pose proof (safe_no_slash key) as Hs. destruct (safe_name key) as [|c x]; [done|].
  cbn [contains_char] in Hs. apply orb_false_iff in Hs as [Hc _].
  change (String c x +:+ ".ext4") with (String c (x +:+ ".ext4")). fold (is_absolute (String c (x +:+ ".ext4"))).
  rewrite absolute_cons. by rewrite Ascii.eqb_sym.
Qed.
Lemma below_cache x : path_starts_with "/tmp/w" ("/cache" +:+ "/" +:+ x) = false.
Proof.
  unfold path_starts_with. apply bool_decide_eq_false. unfold components at 2. rewrite split_slash. by intros [k [=]].
Qed.
Lemma cache_apart (f f' : @fsw fs) d p :
  ih_tempdir (L := fs) f = (f', inr d) → in_cache cfg p → path_starts_with d p = false.
Proof.
  intros [= <- <-] [key Hp]. assert (∃ x, p = ("/cache" +:+ "/" +:+ x)%string) as [x ->]; [|apply below_cache].
  destruct Hp as [->|[e ->]]; unfold cache_path; simpl ic_cache_dir; rewrite cache_home; [by eexists|].
  unfold with_extension, rsplit_once. rewrite split_slash, (split_one "/" (safe_name key +:+ ".ext4")).
  - by eexists.
  - by rewrite contains_char_app, safe_no_slash.
Qed.

Definition busybox : ImageSpec := image_spec "busybox:1" None.
Definition answer : string := "/cache/sha256_d0-agent-" +:+ sha256_hex (String "127" "") +:+ ".ext4".
Lemma answered {A B} (x : A * B) r : x.2 = r → x = (x.1, r).
Proof. by destruct x; intros <-. Qed.
(** A new process, on the files the first one left. *)
Definition first : ImageManager := (pull_and_build cfg busybox fresh).1.
Definition second : ImageManager := new_manager (L := fs) (im_fs first).
End ImageDemo.
