(* ===== verification/Docker.v ===== *)
(** * The Docker backend for development
    ([crates/clouisle-vmm/src/{docker_dev,docker_engine}.rs])

    [BollardDockerEngine] is the instance of the trait [DockerEngine] that calls the
    Docker Engine API, the class [DockerApi]; [DockerDevVmm] runs a sandbox as a
    container through the trait.  Its theorems are proved against the promise
    [EngineOk] of the trait, which the instance keeps when the API behaves as
    documented ([DockerApiOk]).  A handle of this backend carries the name of the
    container, not the id of the sandbox. *)

From S2P Require Import Prelude Core SandboxModel Paths Vmm Proto Digest Json Guest GuestAgent FrameClient AppState Lifecycle.

(** ** [docker_engine.rs]: the trait *)

Module ContainerState.
Inductive t : Set := Created | Running | Paused | Exited (code : Z) | Dead.
End ContainerState.

Record DevContainerOpts : Type := dev_opts {
  o_name : string; o_image : string; o_entrypoint : list string;
  o_labels : list (string * string);
  o_nano_cpus : option Z; o_memory_bytes : option Z; o_pids_limit : option Z;
  o_networks : list string; o_readonly_mounts : list (string * string) }.

(** The request that [create_container] makes of the options (it is written below, in
    [bollard_create_container]; the promise of the trait speaks of it). *)
Record ContainerConfig : Type := container_config {
  cc_name : string; cc_image : string; cc_entrypoint : list string; cc_labels : gmap string string;
  cc_nano_cpus : option Z; cc_memory : option Z; cc_pids_limit : option Z;
  cc_binds : option (list string); cc_endpoints : option (gset string) }.

Definition bind_of (m : string * string) : string := m.1 +:+ ":" +:+ m.2 +:+ ":ro".
Definition config_of (o : DevContainerOpts) : ContainerConfig :=
  container_config (o_name o) (o_image o) (o_entrypoint o)
    (list_to_map (rev (o_labels o))) (o_nano_cpus o) (o_memory_bytes o) (o_pids_limit o)
    (match o_readonly_mounts o with [] => None | l => Some (bind_of <$> l) end)
    (match o_networks o with [] => None | l => Some (list_to_set l) end).

Class DockerEngine : Type := {
  engine : Type;
  pull_image : string → engine → engine * outcome ();
  ensure_network : string → bool → engine → engine * outcome ();
  create_container : DevContainerOpts → engine → engine * outcome ();
  upload_archive : string → string → Bytes → engine → engine * outcome ();
  e_start : string → engine → engine * outcome ();
  e_pause : string → engine → engine * outcome ();
  e_unpause : string → engine → engine * outcome ();
  e_stop : string → engine → engine * outcome ();
  e_kill : string → engine → engine * outcome ();
  e_remove : string → engine → engine * outcome ();
  inspect_state : string → engine → engine * outcome ContainerState.t;
  container_exists : string → engine → engine * outcome bool;
  (** The containers, running or not, by name, each with the configuration it was
      created with; an observation. *)
  containers : engine → gmap string ContainerConfig }.

Definition succeeds {A} (o : outcome A) : Prop := match o with inr _ => True | inl _ => False end.

(** What the backend relies on: a container is there from its creation, under a name
    that was free, to its removal, whatever happens in between. *)
Class EngineOk (E : DockerEngine) : Prop := {
  create_law' o w : let '(w', r) := create_container o w in
    match r with
    | inr _ => containers w !! o_name o = None ∧ containers w' = <[o_name o := config_of o]> (containers w)
    | inl _ => containers w' = containers w
    end;
  remove_law c w : let '(w', r) := e_remove c w in
    match r with inr _ => containers w' = delete c (containers w) | inl _ => containers w' = containers w end;
  exists_law c w : let '(w', r) := container_exists c w in
    containers w' = containers w ∧ ∀ b, r = inr b → b = bool_decide (is_Some (containers w !! c));
  pull_law i w : containers (pull_image i w).1 = containers w;
  network_law n b w : containers (ensure_network n b w).1 = containers w;
  upload_law c p b w : containers (upload_archive c p b w).1 = containers w;
  start_law c w : containers (e_start c w).1 = containers w;
  pause_law c w : containers (e_pause c w).1 = containers w;
  unpause_law c w : containers (e_unpause c w).1 = containers w;
  stop_law c w : containers (e_stop c w).1 = containers w;
  kill_law c w : containers (e_kill c w).1 = containers w;
  inspect_law c w : containers (inspect_state c w).1 = containers w }.

(** ** [BollardDockerEngine] *)

Inductive api_error : Set := ServerError (status_code : Z) (message : string) | OtherError (message : string).

Module StateStatus.
Inductive t : Set := CREATED | RUNNING | PAUSED | RESTARTING | REMOVING | EXITED | DEAD | EMPTY.
End StateStatus.

(** The calls of the Docker Engine API. *)
Class DockerApi : Type := {
  dk : Type;
  api_create_image : string → dk → dk * list (api_error + ());
  api_inspect_network : string → dk → dk * (api_error + ());
  api_create_network : string → string → bool → dk → dk * (api_error + ());
  api_create_container : ContainerConfig → dk → dk * (api_error + ());
  api_upload : string → string → Bytes → dk → dk * (api_error + ());
  api_start : string → dk → dk * (api_error + ());
  api_pause : string → dk → dk * (api_error + ());
  api_unpause : string → dk → dk * (api_error + ());
  api_stop : string → dk → dk * (api_error + ());
  api_kill : string → dk → dk * (api_error + ());
  api_remove : string → bool → bool → dk → dk * (api_error + ());
  (** The state of the container: its status and its exit code, each if given. *)
  api_inspect : string → dk → dk * (api_error + option (option StateStatus.t * option Z));
  api_text : api_error → string;
  api_containers : dk → gmap string ContainerConfig }.

Section bollard.
Context {D : DockerApi}.

Definition relabel {A} (label : string) (x : dk * (api_error + A)) : dk * outcome A :=
  (x.1, match x.2 with inl e => inl (ClouisleError.io (label +:+ ": " +:+ api_text e)) | inr a => inr a end).

(** The progress of a pull is read up to its first error. *)
Fixpoint pull_result (reference : string) (items : list (api_error + ())) : outcome () :=
  match items with
  | [] => inr ()
  | inl e :: _ => inl (ClouisleError.io ("docker pull " +:+ reference +:+ ": " +:+ api_text e))
  | inr _ :: items' => pull_result reference items'
  end.
Definition bollard_pull_image (reference : string) (w : dk) : dk * outcome () :=
  let '(w', items) := api_create_image reference w in (w', pull_result reference items).

Definition is_404 (e : api_error) : bool := match e with ServerError c _ => c =? 404 | OtherError _ => false end.

Definition bollard_ensure_network (name : string) (internal : bool) (w : dk) : dk * outcome () :=
  match api_inspect_network name w with
  | (w1, inr _) => (w1, inr ())
  | (w1, inl e) =>
    if is_404 e then relabel ("create network " +:+ name) (api_create_network name "bridge" internal w1)
    else (w1, inl (ClouisleError.io ("inspect network " +:+ name +:+ ": " +:+ api_text e)))
  end.

Definition bollard_create_container (o : DevContainerOpts) (w : dk) : dk * outcome () :=
  relabel ("docker create " +:+ o_name o) (api_create_container (config_of o) w).

Definition state_of (container : string) (info : option (option StateStatus.t * option Z))
  : outcome ContainerState.t :=
  match info with
  | None => inl (ClouisleError.invalid_state ("docker container " +:+ container +:+ " has no state"))
  | Some (status, exit_code) =>
    inr match status with
        | Some StateStatus.CREATED => ContainerState.Created
        | Some StateStatus.RUNNING => ContainerState.Running
        | Some StateStatus.PAUSED => ContainerState.Paused
        | Some StateStatus.EXITED | Some StateStatus.DEAD => ContainerState.Exited (default 0 exit_code)
        | _ => ContainerState.Dead
        end
  end.
Definition bollard_inspect_state (container : string) (w : dk) : dk * outcome ContainerState.t :=
  match relabel ("docker inspect " +:+ container) (api_inspect container w) with
  | (w', inr info) => (w', state_of container info)
  | (w', inl e) => (w', inl e)
  end.
Definition bollard_container_exists (container : string) (w : dk) : dk * outcome bool :=
  match api_inspect container w with
  | (w', inr _) => (w', inr true)
  | (w', inl e) =>
    (w', if is_404 e then inr false
         else inl (ClouisleError.io ("docker inspect " +:+ container +:+ ": " +:+ api_text e)))
  end.

#[global] Instance bollard : DockerEngine := {|
  engine := dk;
  pull_image := bollard_pull_image;
  ensure_network := bollard_ensure_network;
  create_container := bollard_create_container;
  upload_archive c p b w := relabel ("docker upload to " +:+ c) (api_upload c p b w);
  e_start c w := relabel ("docker start " +:+ c) (api_start c w);
  e_pause c w := relabel ("docker pause " +:+ c) (api_pause c w);
  e_unpause c w := relabel ("docker unpause " +:+ c) (api_unpause c w);
  e_stop c w := relabel ("docker stop " +:+ c) (api_stop c w);
  e_kill c w := relabel ("docker kill " +:+ c) (api_kill c w);
  e_remove c w := relabel ("docker remove " +:+ c) (api_remove c true true w);
  inspect_state := bollard_inspect_state;
  container_exists := bollard_container_exists;
  containers := api_containers |}.
End bollard.

(** ** [docker_dev.rs] *)

Record DockerDevConfig : Set := dev_config {
  agent_binary : string; mgmt_network : string; egress_network : string; mount_root : string }.
Definition default_dev_config : DockerDevConfig :=
  dev_config "/usr/local/bin/clouisle-agent" "clouisle-dev-mgmt" "clouisle-dev-egress" "/tmp/clouisle-dev-mounts".

Definition dev_container_name (sandbox_id : string) : result string :=
  short ← slice_to (Nat.min (String.length sandbox_id) 24) sandbox_id;
  Ok ("clouisle-dev-" +:+ short).

(** The host's files, and the archive writer of the [tar] crate. *)
Class DevHost : Type := {
  canonicalize : string → string + string;
  fs_read : string → string + Bytes;
  tar_append : string → Z → Bytes → string + Bytes;
  tar_into_inner : Bytes → string + Bytes }.

(** An [i64] product. *)
Definition i64_mul (a b : Z) : Z := (a * b + 2 ^ 63) mod 2 ^ 64 - 2 ^ 63.
Definition map_resources (r : Resources.t) : option Z * option Z * option Z :=
  (Some (i64_mul (Resources.vcpu r) 1000000000),
   Some (i64_mul (i64_mul (Resources.memory_mb r) 1024) 1024),
   Resources.pids_max r).

Section dev.
Context {E : DockerEngine} {F : DevHost} (cfg : DockerDevConfig).

Definition agent_tar (agent_path : string) : result Bytes :=
  match fs_read agent_path with
  | inl e => Err (ClouisleError.io ("read agent binary " +:+ agent_path +:+ ": " +:+ e))
  | inr data =>
    match tar_append "clouisle-dev-agent" 493 data with
    | inl e => Err (ClouisleError.io ("tar agent: " +:+ e))
    | inr tar =>
      match tar_into_inner tar with
      | inl e => Err (ClouisleError.io ("tar finish: " +:+ e))
      | inr out => Ok (out ++ replicate 1024 Byte.x00)
      end
    end
  end.

Abbreviation dev := (stres engine ClouisleError.t).
Definition ask_engine {A} (op : engine → engine * outcome A) : dev A := λ w,
  let '(w', r) := op w in (w', match r with inr a => Ok a | inl e => Err e end).

Definition ensure_dev_networks (enabled : bool) : dev () :=
  _ ← ask_engine (ensure_network (mgmt_network cfg) true);
  when enabled (ask_engine (ensure_network (egress_network cfg) false)).

(** The mounts of a specification, checked one after the other. *)
Fixpoint dev_mounts (mounts : list MountSpec.t) : result (list (string * string)) :=
  match mounts with
  | [] => Ok []
  | m :: mounts' =>
    match canonicalize (MountSpec.source m) with
    | inl e => Err (ClouisleError.validation ("mount source " +:+ MountSpec.source m +:+ ": " +:+ e))
    | inr src =>
      if negb (path_starts_with (mount_root cfg) src) then
        Err (ClouisleError.validation
          ("mount source " +:+ src +:+ " outside allowed root " +:+ mount_root cfg))
      else if negb (starts_with "/" (MountSpec.target m)) || contains_str ".." (MountSpec.target m) then
        Err (ClouisleError.validation ("invalid mount target " +:+ MountSpec.target m))
      else rest ← dev_mounts mounts'; Ok ((src, MountSpec.target m) :: rest)
    end
  end.

Definition dev_networks (enabled : bool) : list string :=
  mgmt_network cfg :: (if enabled then [egress_network cfg] else []).
Definition dev_options (name sandbox_id : string) (spec : SandboxSpec.t) (mounts : list (string * string))
  : DevContainerOpts :=
  let '(nano, mem, pids) := map_resources (SandboxSpec.resources spec) in
  dev_opts name (ImageRef.reference (SandboxSpec.image spec))
    ["/clouisle-dev-agent"; "serve"; "--skip-network-config"]%string
    [("com.clouisle.managed", "true"); ("com.clouisle.backend", "docker-dev");
     ("com.clouisle.sandbox", sandbox_id)]%string
    nano mem pids (dev_networks (NetworkConfig.enabled (SandboxSpec.network spec))) mounts.

(** The agent goes into the container, which is removed when that fails. *)
Definition upload_or_remove (name : string) (tar : Bytes) : dev () := λ w,
  match ask_engine (upload_archive name "/" tar) w with
  | (w', Err e) => ((e_remove name w').1, Err e)
  | x => x
  end.
Definition inject_agent (name : string) : dev () :=
  tar ← lift (agent_tar (agent_binary cfg)); upload_or_remove name tar.

Definition dev_handle (name : string) : VmHandle.t :=
  VmHandle.mk name "docker-dev" None None None None None None.

Definition dev_create (sandbox_id : string) (spec : SandboxSpec.t) : dev VmHandle.t :=
  _ ← lift (validate_dev_spec spec);
  name ← lift (dev_container_name sandbox_id);
  _ ← ensure_dev_networks (NetworkConfig.enabled (SandboxSpec.network spec));
  _ ← ask_engine (pull_image (ImageRef.reference (SandboxSpec.image spec)));
  mounts ← lift (dev_mounts (SandboxSpec.mounts spec));
  _ ← ask_engine (create_container (dev_options name sandbox_id spec mounts));
  _ ← inject_agent name;
  mret (dev_handle name).

Definition dev_start (h : VmHandle.t) : dev () := ask_engine (e_start (VmHandle.id h)).
Definition dev_pause (h : VmHandle.t) : dev () := ask_engine (e_pause (VmHandle.id h)).
Definition dev_resume (h : VmHandle.t) : dev () := ask_engine (e_unpause (VmHandle.id h)).
Definition dev_snapshot (h : VmHandle.t) (kind : SnapshotKind.t) (out : SnapshotPaths.t) : dev () :=
  fail (vmm_error "docker-dev backend does not support snapshots").
Definition dev_restore (id : string) (spec : SandboxSpec.t) (from : SnapshotPaths.t) : dev VmHandle.t :=
  fail (vmm_error "docker-dev backend does not support restore").

(** A failed stop is forgiven when the container is not there, or when the engine
    cannot say. *)
Definition dev_stop (h : VmHandle.t) (mode : StopMode.t) : dev () := λ w,
  let c := VmHandle.id h in
  match (match mode with StopMode.Graceful => e_stop c w | StopMode.Force => e_kill c w end) with
  | (w1, inr _) => ((e_remove c w1).1, Ok ())
  | (w1, inl e) =>
    match container_exists c w1 with
    | (w2, inr true) => (w2, Err e)
    | (w2, _) => (w2, Ok ())
    end
  end.

Definition is_up (s : ContainerState.t) : bool :=
  match s with ContainerState.Running | ContainerState.Paused => true | _ => false end.
Definition dev_stats (h : VmHandle.t) : dev VmStats.t :=
  s ← ask_engine (inspect_state (VmHandle.id h));
  if is_up s then mret (VmStats.mk None None None None None)
  else fail (ClouisleError.invalid_state ("container " +:+ VmHandle.id h +:+ " not running")).
Definition dev_probe (h : VmHandle.t) : dev bool := λ w,
  match inspect_state (VmHandle.id h) w with
  | (w', inr s) => (w', Ok (is_up s))
  | (w', inl _) => (w', Ok false)
  end.
Definition dev_capabilities : VmmCapabilities.t := VmmCapabilities.mk false false false.
Definition dev_discover : dev (list VmHandle.t) := mret [].
End dev.

(** ** The engine keeps the promise of the trait *)

(** What the API documents of the containers: they come with a creation, which answers
    409 for a name in use, and go with a removal; an inspection answers 404 for exactly the ones that are not there. *)
Class DockerApiOk (D : DockerApi) : Prop := {
  api_create_law c w : let '(w', r) := api_create_container c w in
    match r with
    | inr _ => api_containers w !! cc_name c = None ∧ api_containers w' = <[cc_name c := c]> (api_containers w)
    | inl _ => api_containers w' = api_containers w
    end;
  api_remove_law c f v w : let '(w', r) := api_remove c f v w in
    api_containers w' = match r with inr _ => delete c (api_containers w) | inl _ => api_containers w end;
  api_inspect_law c w : let '(w', r) := api_inspect c w in
    api_containers w' = api_containers w ∧
    match r with
    | inr _ => is_Some (api_containers w !! c)
    | inl (ServerError 404 _) => api_containers w !! c = None
    | inl _ => True
    end;
  api_image_law i w : api_containers (api_create_image i w).1 = api_containers w;
  api_inspect_network_law n w : api_containers (api_inspect_network n w).1 = api_containers w;
  api_create_network_law n d b w : api_containers (api_create_network n d b w).1 = api_containers w;
  api_upload_law c p b w : api_containers (api_upload c p b w).1 = api_containers w;
  api_start_law c w : api_containers (api_start c w).1 = api_containers w;
  api_pause_law c w : api_containers (api_pause c w).1 = api_containers w;
  api_unpause_law c w : api_containers (api_unpause c w).1 = api_containers w;
  api_stop_law c w : api_containers (api_stop c w).1 = api_containers w;
  api_kill_law c w : api_containers (api_kill c w).1 = api_containers w }.

Lemma is_404_spec e : is_404 e = true → ∃ m, e = ServerError 404 m.
Proof. destruct e as [c m|m]; simpl; [|done]. intros ->%Z.eqb_eq. by exists m. Qed.

#[global] Instance bollard_ok {D : DockerApi} {DO : DockerApiOk D} : EngineOk bollard.
Proof.
  split; simpl; intros.
  - unfold bollard_create_container, relabel. pose proof (api_create_law (config_of o) w) as H.
    by destruct (api_create_container (config_of o) w) as [w' [e|u]].
  - unfold relabel. pose proof (api_remove_law c true true w) as H.
    by destruct (api_remove c true true w) as [w' [e|u]].
  - unfold bollard_container_exists. pose proof (api_inspect_law c w) as H.
    destruct (api_inspect c w) as [w' [e|i]]; destruct H as [Hw Hc]; (split; [done|]); intros b.
    + destruct (is_404 e) eqn:He; [|done]. intros [= <-]. apply is_404_spec in He as [m ->].
      rewrite bool_decide_eq_false_2; [done|]. by rewrite Hc; intros [].
    + intros [= <-]. by rewrite bool_decide_eq_true_2.
  - unfold bollard_pull_image. pose proof (api_image_law i w). by destruct (api_create_image i w).
  - unfold bollard_ensure_network. pose proof (api_inspect_network_law n w) as H.
    destruct (api_inspect_network n w) as [w1 [e|u]]; [|done]. simpl in H. destruct (is_404 e); [|done].
    simpl. by rewrite api_create_network_law.
  - apply api_upload_law.
  - apply api_start_law.
  - apply api_pause_law.
  - apply api_unpause_law.
  - apply api_stop_law.
  - apply api_kill_law.
  - unfold bollard_inspect_state, relabel. pose proof (api_inspect_law c w) as H.
    destruct (api_inspect c w) as [w' [e|i]]; by destruct H.
Qed.

(** ** Limits and mounts *)

Lemma i64_mul_exact a b : - 2 ^ 63 ≤ a * b < 2 ^ 63 → i64_mul a b = a * b.
Proof. intros H. unfold i64_mul. rewrite Z.mod_small; lia. Qed.

(** The limits of a container are those of the specification, without overflow. *)
Lemma limits_are_exact r :
  Resources.well_typed r →
  map_resources r = (Some (Resources.vcpu r * 1000000000), Some (Resources.memory_mb r * 1048576),
                     Resources.pids_max r).
Proof.
  intros (Hv & Hm & _). unfold in_u16, in_u32, u16_max, u32_max in *. unfold map_resources.
  rewrite (i64_mul_exact (Resources.memory_mb r) 1024) by lia.
  rewrite !i64_mul_exact by lia. do 3 f_equal. lia.
Qed.

(** The text of a mount is read back as it was meant. *)
Lemma bind_is_readonly src dst :
  contains_char ":" src = false → contains_char ":" dst = false →
  split ":" (bind_of (src, dst)) = [src; dst; "ro"%string].
Proof.
  intros H1 H2. unfold bind_of. simpl fst. simpl snd.
  change (split ":" (join ":" [src; dst; "ro"%string]) = [src; dst; "ro"%string]).
  apply split_join; [done|]. by repeat constructor.
Qed.

Section dev_laws.
Context {E : DockerEngine} {EO : EngineOk E} {F : DevHost} (cfg : DockerDevConfig).

(** The mount made for one that the specification asks for: its source really is
    inside the root. *)
Definition confined (x : MountSpec.t) (m : string * string) : Prop :=
  canonicalize (MountSpec.source x) = inr m.1 ∧ path_starts_with (mount_root cfg) m.1 = true ∧
  MountSpec.target x = m.2 ∧ starts_with "/" m.2 = true ∧ contains_str ".." m.2 = false.

Lemma mounts_confined mounts l : dev_mounts cfg mounts = Ok l → Forall2 confined mounts l.
Proof.
  revert l. induction mounts as [|m mounts IH]; simpl; intros l; [by intros [= <-]|].
  destruct (canonicalize (MountSpec.source m)) as [e|src] eqn:Hc; [done|].
  destruct (path_starts_with (mount_root cfg) src) eqn:Hp; [|done]. simpl.
  destruct (starts_with "/" (MountSpec.target m)) eqn:Ht; [|done]. simpl.
  destruct (contains_str ".." (MountSpec.target m)) eqn:Hd; [done|].
  destruct (dev_mounts cfg mounts) as [rest|e|] eqn:Hm; [|done..]. intros [= <-].
  constructor; [by repeat split|by apply IH].
Qed.

(** Calls before the creation of the container leave the containers alone. *)
Abbreviation quiet_ m := (∀ w, containers (m w).1 = containers w).
Lemma quiet_ask {A} (op : engine → engine * outcome A) : quiet_ op → quiet_ (ask_engine op).
Proof. intros H w. specialize (H w). unfold ask_engine. by destruct (op w). Qed.
Lemma quiet_bind_ {A B} (m : stres engine ClouisleError.t A) (k : A → stres engine ClouisleError.t B) :
  quiet_ m → (∀ a, quiet_ (k a)) → quiet_ (m ≫= k).
Proof.
  intros Hm Hk w. specialize (Hm w). unfold mbind, stres_bind. destruct (m w) as [w1 [a|e|]]; [|done..].
  by rewrite Hk.
Qed.
Lemma quiet_networks b : quiet_ (ensure_dev_networks cfg b).
Proof.
  apply quiet_bind_; [apply quiet_ask, network_law|]. intros _. destruct b; [|done].
  simpl. apply quiet_ask, network_law.
Qed.

(** What is there when the container's name has been found. *)
Definition prepared (spec : SandboxSpec.t) : stres engine ClouisleError.t (list (string * string)) :=
  _ ← ensure_dev_networks cfg (NetworkConfig.enabled (SandboxSpec.network spec));
  _ ← ask_engine (pull_image (ImageRef.reference (SandboxSpec.image spec)));
  lift (dev_mounts cfg (SandboxSpec.mounts spec)).
Lemma quiet_prepared spec : quiet_ (prepared spec).
Proof.
  apply quiet_bind_; [apply quiet_networks|]. intros _.
  apply quiet_bind_; [apply quiet_ask, pull_law|]. done.
Qed.

Lemma create_prepared id spec w :
  dev_create cfg id spec w
  = (_ ← lift (validate_dev_spec spec); name ← lift (dev_container_name id);
     mounts ← prepared spec;
     _ ← ask_engine (create_container (dev_options cfg name id spec mounts));
     _ ← inject_agent cfg name; mret (dev_handle name)) w.
Proof.
  unfold dev_create, prepared, mbind, stres_bind, lift.
  destruct (validate_dev_spec spec); [|done..]. destruct (dev_container_name id); [|done..].
  destruct (ensure_dev_networks _ _ w) as [w1 [u|e|]]; [|done..].
  by destruct (ask_engine _ w1) as [w2 [u'|e|]].
Qed.
Lemma prepared_confined spec w w' l :
  prepared spec w = (w', Ok l) → Forall2 confined (SandboxSpec.mounts spec) l.
Proof.
  unfold prepared, mbind, stres_bind, lift.
  destruct (ensure_dev_networks _ _ w) as [w1 [u|e|]]; [|done..].
  destruct (ask_engine _ w1) as [w2 [u'|e|]]; [|done..]. intros [= _ H]. by apply mounts_confined.
Qed.

(** From the creation of the container on. *)
Lemma container_or_none o w :
  (∃ tar, agent_tar (agent_binary cfg) = Ok tar) → (∀ c w, succeeds (e_remove c w).2) →
  match (_ ← ask_engine (create_container o); inject_agent cfg (o_name o)) w with
  | (w', Ok _) => containers w !! o_name o = None ∧
      containers w' = <[o_name o := config_of o]> (containers w)
  | (w', Err _) => containers w' = containers w
  | (_, Panic) => False
  end.
Proof.
  intros [tar Ht] Hrm. unfold mbind, stres_bind, ask_engine at 1. pose proof (create_law' o w) as Hc.
  destruct (create_container o w) as [w1 [e|[]]]; [by rewrite Hc|]. destruct Hc as [Hnew Hc].
  unfold inject_agent, mbind, stres_bind, lift. rewrite Ht. unfold upload_or_remove, ask_engine.
  pose proof (upload_law (o_name o) "/" tar w1) as Hu.
  destruct (upload_archive (o_name o) "/" tar w1) as [w2 [e|u]]; simpl in Hu |- *; [|by rewrite Hu, Hc].
  pose proof (remove_law (o_name o) w2) as Hr. specialize (Hrm (o_name o) w2).
  destruct (e_remove (o_name o) w2) as [w3 [e'|u]]; [done|]. simpl.
  by rewrite Hr, Hu, Hc, delete_insert_id.
Qed.

(** What the container of a sandbox is: the image, the agent as its process, the limits,
    the networks, and for each mount that is asked for a read-only one. *)
Definition confined_container (id : string) (spec : SandboxSpec.t) (c : ContainerConfig) : Prop :=
  let r := SandboxSpec.resources spec in
  cc_image c = ImageRef.reference (SandboxSpec.image spec) ∧
  cc_entrypoint c = ["/clouisle-dev-agent"; "serve"; "--skip-network-config"]%string ∧
  cc_labels c !! "com.clouisle.sandbox"%string = Some id ∧
  cc_nano_cpus c = Some (Resources.vcpu r * 1000000000) ∧
  cc_memory c = Some (Resources.memory_mb r * 1048576) ∧
  cc_pids_limit c = Resources.pids_max r ∧
  cc_endpoints c = Some ({[mgmt_network cfg]} ∪
    if NetworkConfig.enabled (SandboxSpec.network spec) then {[egress_network cfg]} else ∅) ∧
  ∃ ms, Forall2 confined (SandboxSpec.mounts spec) ms ∧
    default [] (cc_binds c) = (λ m, m.1 +:+ ":" +:+ m.2 +:+ ":ro") <$> ms.

Lemma config_confined name id spec mounts :
  Resources.well_typed (SandboxSpec.resources spec) → Forall2 confined (SandboxSpec.mounts spec) mounts →
  confined_container id spec (config_of (dev_options cfg name id spec mounts)).
Proof.
  intros Ht Hm. unfold confined_container, dev_options. rewrite limits_are_exact by done. simpl.
  split_and!; try done.
  - unfold dev_networks. destruct (NetworkConfig.enabled _); simpl; [|done].
    by rewrite (right_id_L ∅ (∪)).
  - exists mounts. split; [done|]. by destruct mounts.
Qed.

(** C27: A creation of the development backend makes one confined container or none.
    If it succeeds, the name made of the sandbox's id was free, and the container under
    that name is the only change among the containers: it runs the agent in the
    specification's image; its limits are those of the specification, without overflow;
    its networks are the management network and, exactly when networking is enabled, the
    egress network; and it has exactly one read-only mount for each that the
    specification asks for, whose source is the real path and lies inside the allowed
    root, and whose target is absolute and has no [..].  If it fails the containers are
    what they were, provided that the agent binary can be packed and the engine can
    remove a container. *)
Theorem dev_create_is_confined id spec w :
  Resources.well_typed (SandboxSpec.resources spec) →
  (∃ tar, agent_tar (agent_binary cfg) = Ok tar) →
  (∀ c w, succeeds (e_remove c w).2) →
  match dev_create cfg id spec w with
  | (w', Ok h) => ∃ name c, dev_container_name id = Ok name ∧ h = dev_handle name ∧
      containers w !! name = None ∧ containers w' = <[name := c]> (containers w) ∧
      confined_container id spec c
  | (w', _) => containers w' = containers w
  end.
Proof.
  intros Ht Htar Hrm. rewrite create_prepared. unfold mbind at 1, stres_bind at 1, lift at 1.
  destruct (validate_dev_spec spec) as [u|e|]; [|done..].
  unfold mbind at 1, stres_bind at 1, lift at 1.
  destruct (dev_container_name id) as [name|e|] eqn:Hn; [|done..].
  pose proof (quiet_prepared spec w) as Hq. unfold mbind at 1, stres_bind at 1.
  destruct (prepared spec w) as [w1 [mounts|e|]] eqn:Hp; simpl in Hq; [|done..].
  apply prepared_confined in Hp. set (o := dev_options cfg name id spec mounts).
  pose proof (container_or_none o w1 Htar Hrm) as Hc. change (o_name o) with name in Hc.
  unfold mbind, stres_bind in *. destruct (ask_engine (create_container o) w1) as [w2 [u'|e|]];
    [|by rewrite <-Hq|done].
  destruct (inject_agent cfg name w2) as [w3 [u''|e|]]; [|by rewrite <-Hq|done].
  rewrite Hq in Hc. destruct Hc as [Hnew Hc]. exists name, (config_of o).
  split_and!; try done. by apply config_confined.
Qed.

(** When the agent binary is missing, the container that was just created stays. *)
Lemma missing_agent_leaves_container name id spec mounts w w1 e :
  create_container (dev_options cfg name id spec mounts) w = (w1, inr ()) →
  agent_tar (agent_binary cfg) = Err e →
  (_ ← ask_engine (create_container (dev_options cfg name id spec mounts)); inject_agent cfg name) w
  = (w1, Err e) ∧ is_Some (containers w1 !! name).
Proof.
  intros Hc Ht. pose proof (create_law' (dev_options cfg name id spec mounts) w) as Hl. rewrite Hc in Hl.
  destruct Hl as [_ Hl]. split; [|rewrite Hl; simpl; rewrite lookup_insert_eq; by eexists].
  unfold mbind, stres_bind, ask_engine. rewrite Hc. unfold inject_agent, mbind, stres_bind, lift. by rewrite Ht.
Qed.

(** ** Stopping *)

(** A container that the engine does not kill, because it is not running, is not
    removed either: the stop fails, and fails again. *)
Lemma stopped_container_stays h w w1 e :
  e_kill (VmHandle.id h) w = (w1, inl e) → is_Some (containers w !! VmHandle.id h) →
  (∀ w, succeeds (container_exists (VmHandle.id h) w).2) →
  (dev_stop h StopMode.Force w).2 = Err e ∧
  containers (dev_stop h StopMode.Force w).1 = containers w.
Proof.
  intros Hk Hin Hex. unfold dev_stop. rewrite Hk.
  pose proof (kill_law (VmHandle.id h) w) as Hw. rewrite Hk in Hw. simpl in Hw.
  specialize (Hex w1). pose proof (exists_law (VmHandle.id h) w1) as Hl.
  destruct (container_exists _ w1) as [w2 [e'|b]]; [done|]. destruct Hl as [H1 H2].
  specialize (H2 b eq_refl). rewrite Hw, bool_decide_eq_true_2 in H2 by done. subst b.
  split; [done|]. by rewrite <-Hw.
Qed.

(** An engine that cannot be reached counts as one without the container. *)
Lemma unreachable_engine_counts_as_stopped h mode w e e' :
  (∀ w, e_kill (VmHandle.id h) w = (w, inl e)) → (∀ w, e_stop (VmHandle.id h) w = (w, inl e)) →
  (∀ w, container_exists (VmHandle.id h) w = (w, inl e')) →
  dev_stop h mode w = (w, Ok ()).
Proof. intros Hk Hs Hx. unfold dev_stop. destruct mode; by rewrite ?Hk, ?Hs, Hx. Qed.

(** A stop never touches another container, and when it and the removal succeed the
    container is gone. *)
Lemma stop_removes h mode w :
  let '(w', r) := dev_stop h mode w in
  (containers w' = containers w ∨ containers w' = delete (VmHandle.id h) (containers w)) ∧
  ((∀ c w, succeeds (e_remove c w).2) → (∀ c w, succeeds (container_exists c w).2) →
   r = Ok () → containers w' !! VmHandle.id h = None).
Proof.
  unfold dev_stop. set (c := VmHandle.id h).
  set (x := match mode with StopMode.Graceful => e_stop c w | StopMode.Force => e_kill c w end).
  assert (containers x.1 = containers w) as Hx by (unfold x; destruct mode; [apply stop_law|apply kill_law]).
  destruct x as [w1 [e|u]]; simpl in Hx.
  - pose proof (exists_law c w1) as Hl. destruct (container_exists c w1) as [w2 o] eqn:Hce. destruct Hl as [H1 H2].
    assert (containers w2 = containers w) as Hw2 by congruence.
    destruct o as [e'|[|]]; simpl; rewrite Hw2; (split; [by left|]); intros _ Hs Hr; [|done|].
    + specialize (Hs c w1). by rewrite Hce in Hs.
    + specialize (H2 false eq_refl). symmetry in H2. apply bool_decide_eq_false in H2.
      rewrite <-Hx. by apply eq_None_not_Some.
  - pose proof (remove_law c w1) as Hr. destruct (e_remove c w1) as [w2 [e|u']] eqn:Hrm; simpl; rewrite Hr, Hx.
    + split; [by left|]. intros Hs. specialize (Hs c w1). by rewrite Hrm in Hs.
    + split; [by right|]. intros _ _ _. apply lookup_delete_eq.
Qed.
End dev_laws.

(** ** An engine in memory *)

Module DockerDemo.
#[local] Instance api : DockerApi := {|
  dk := gmap string ContainerConfig;
  api_create_image _ w := (w, [inr ()]);
  api_inspect_network _ w := (w, inl (ServerError 404 "no such network"));
  api_create_network _ _ _ w := (w, inr ());
  api_create_container c w :=
    match w !! cc_name c with
    | Some _ => (w, inl (ServerError 409 "conflict"))
    | None => (<[cc_name c := c]> w, inr ())
    end;
  api_upload _ _ _ w := (w, inr ());
  api_start _ w := (w, inr ());
  api_pause _ w := (w, inr ());
  api_unpause _ w := (w, inr ());
  api_stop _ w := (w, inr ());
  api_kill _ w := (w, inr ());
  api_remove c _ _ w := (delete c w, inr ());
  api_inspect c w :=
    (w, match w !! c with
        | Some _ => inr (Some (Some StateStatus.RUNNING, None))
        | None => inl (ServerError 404 "no such container")
        end);
  api_text e := match e with ServerError _ m | OtherError m => m end;
  api_containers w := w |}.
#[local] Instance api_ok : DockerApiOk api.
Proof.
  split; simpl; intros; try done.
  - destruct (_ !! cc_name c) eqn:Hc; [done|]. by split.
  - destruct (_ !! c) eqn:Hc; by split.
Qed.
#[local] Instance files : DevHost := {|
  canonicalize p := inr p; fs_read _ := inr [Byte.x7f]; tar_append _ _ b := inr b; tar_into_inner b := inr b |}.

(** A sandbox with a mount. *)
Definition data : MountSpec.t := MountSpec.mk "/tmp/clouisle-dev-mounts/data" "/data" true.
Definition spec : SandboxSpec.t :=
  SandboxSpec.mk (ImageRef.new "docker.io/library/alpine:latest") Resources.default
    NetworkConfig.default [data] [] [] None 10 ∅ [] ∅ None SandboxSpec.default_init_timeout_ms ∅
    false true false ∅ RestartPolicy.default None.
Lemma dev_create_is_confined_witness :
  ∃ c, containers (dev_create default_dev_config "sb-1" spec ∅).1 = {["clouisle-dev-sb-1"%string := c]} ∧
    confined_container default_dev_config "sb-1" spec c ∧
    cc_binds c = Some ["/tmp/clouisle-dev-mounts/data:/data:ro"%string].
Proof.
  pose proof (dev_create_is_confined default_dev_config "sb-1" spec ∅) as H.
  destruct (dev_create default_dev_config "sb-1" spec ∅) as [w' [h|e|]] eqn:Hrun.
  - destruct H as (name & c & Hname & _ & _ & Hw & Hc);
      [apply (bool_decide_unpack _); vm_compute; exact I|by eexists|done|].
    vm_compute in Hname. injection Hname as <-. exists c. split; [exact Hw|]. split; [exact Hc|].
    destruct Hc as (_ & _ & _ & _ & _ & _ & _ & ms & Hms & Hb).
    apply Forall2_cons_inv_l in Hms as ([src dst] & ms' & (Hsrc & _ & Hdst & _) & Hnil & ->).
    apply Forall2_nil_inv_l in Hnil as ->. simpl in *. simplify_eq.
    destruct (cc_binds c); [|done]. simpl in Hb. by subst.
  - assert (is_ok (dev_create default_dev_config "sb-1" spec ∅).2 = true) as Hok by (vm_compute; reflexivity).
    by rewrite Hrun in Hok.
  - assert (is_ok (dev_create default_dev_config "sb-1" spec ∅).2 = true) as Hok by (vm_compute; reflexivity).
    by rewrite Hrun in Hok.
Defined.
End DockerDemo.
