(* ===== verification/Boot.v ===== *)
(** * Booting a guest ([crates/clouisle-agent/src/init.rs], [main.rs])

    What the agent does as process 1 of a guest before it listens: the mode it was
    started in, the pseudo file systems, and the network set up from the kernel
    command line.

    The command line is the one [Firecracker.boot_args] writes, and the host connects
    to the address [FrameClient.Client.guest_address] computes; the theorem at the end
    composes the three. *)

From S2P Require Import Prelude Core SandboxModel Vmm Proto Digest Json Net Firecracker Guest GuestAgent FrameClient.

(** ** The command line *)

Definition parse_token (out : gmap string string) (token : string) : gmap string string :=
  match strip_prefix "clouisle." token with
  | None => out
  | Some rest =>
    match split_once "=" rest with
    | Some (k, v) => <[k := v]> out
    | None => <[rest := "true"%string]> out
    end
  end.
Definition parse_cmdline (cmdline : string) : gmap string string :=
  foldl parse_token ∅ (split_whitespace cmdline).

Definition init_boot (cmdline : string) : res string () :=
  match parse_cmdline cmdline !! "fail_at"%string with
  | Some fail =>
    if String.eqb fail "overlay"
    then Err "clouisle-init: overlay mount failed (injected)"%string else Ok ()
  | None => Ok ()
  end.

(** ** The guest's kernel *)

(** The error of [mount]: busy, or any other as it is shown. *)
Inductive mount_error : Type := EBUSY | MountFailed (e : string).

Class GuestKernel : Type := {
  kernel : Type;
  k_create_dir_all : string → kernel → kernel * (string + ());
  k_mount : string → string → kernel → kernel * (mount_error + ());
  (** [read_to_string("/proc/cmdline").unwrap_or_default()]. *)
  k_cmdline : kernel → string;
  k_remove_file : string → kernel → kernel;
  k_write : string → string → kernel → kernel;
  (** [rtnetlink]: a connection, and the requests made on it. *)
  nl_open : kernel → kernel * (string + ());
  nl_find_link : string → kernel → kernel * (string + option Z);
  nl_up : Z → kernel → kernel * (string + ());
  nl_add_address : Z → Z → Z → kernel → kernel * (string + ());
  nl_add_route : Z → Z → kernel → kernel * (string + ());
  k_listen : string → kernel → kernel * (string + ()) }.

Record ServeConfig : Set := serve_config { skip_network_config : bool }.

(** [std::env::args().skip(1)]. *)
Fixpoint serve_flags (config : ServeConfig) (flags : list string) : res string ServeConfig :=
  match flags with
  | [] => Ok config
  | flag :: flags' =>
    if String.eqb flag "--skip-network-config" then serve_flags (serve_config true) flags'
    else Err ("unknown serve flag: " +:+ flag)
  end.
Definition parse_mode (args : list string) : res string ServeConfig :=
  match args with
  | [] => Ok (serve_config false)
  | command :: flags =>
    if String.eqb command "serve" then serve_flags (serve_config false) flags
    else Err ("usage: clouisle-agent [serve [--skip-network-config]]; got `" +:+ command +:+ "`")
  end.

(** [Display] of an [Ipv4Addr]. *)
Definition show_ipv4 (ip : Z) : string :=
  show (ip / 16777216) +:+ "." +:+ show (ip / 65536 mod 256) +:+ "."
  +:+ show (ip / 256 mod 256) +:+ "." +:+ show (ip mod 256).

Section boot.
Context {G : GuestKernel}.

Abbreviation boot := (stres kernel string).

Definition call {A} (what : string) (op : kernel → kernel * (string + A)) : boot A := λ k,
  let '(k', r) := op k in
  (k', match r with inl e => Err (what +:+ ": " +:+ e) | inr a => Ok a end).

Definition ensure_mounted (source target what : string) : boot () := λ k,
  match k_mount source target k with
  | (k', inr _) | (k', inl EBUSY) => (k', Ok ())
  | (k', inl (MountFailed e)) => (k', Err (what +:+ ": " +:+ e))
  end.

Definition ensure_dev_mounted : boot () :=
  _ ← call "create /dev/pts" (k_create_dir_all "/dev/pts");
  _ ← ensure_mounted "devtmpfs" "/dev" "mount devtmpfs";
  ensure_mounted "devpts" "/dev/pts" "mount devpts".
Definition ensure_proc_mounted : boot () :=
  _ ← call "create /proc" (k_create_dir_all "/proc");
  ensure_mounted "proc" "/proc" "mount /proc".
Definition ensure_sys_mounted : boot () :=
  _ ← call "create /sys" (k_create_dir_all "/sys");
  ensure_mounted "sysfs" "/sys" "mount sysfs".

Definition address_param (params : gmap string string) (name : string) : boot Z :=
  match params !! name with
  | None => fail ("clouisle." +:+ name +:+ " not set in cmdline")
  | Some text =>
    match parse_ipv4 text with
    | None => fail ("invalid clouisle." +:+ name +:+ ": invalid IPv4 address syntax")
    | Some ip => mret ip
    end
  end.

Definition cmdline_params : boot (gmap string string) := λ k, (k, Ok (parse_cmdline (k_cmdline k))).

(** [resolv.conf] is replaced; errors are logged. *)
Definition write_resolv_conf (gateway : Z) : boot () := λ k,
  (k_write "/etc/resolv.conf" ("nameserver " +:+ show_ipv4 gateway +:+ NL)
     (k_remove_file "/etc/resolv.conf" k), Ok ()).

Definition configure_interface (guest_ip gateway : Z) : boot () :=
  _ ← call "open netlink" nl_open;
  link ← call "find eth0" (nl_find_link "eth0");
  match link with
  | None => fail "eth0 not found"%string
  | Some index =>
    _ ← call "bring eth0 up" (nl_up index);
    _ ← call "assign guest address" (nl_add_address index guest_ip 30);
    call "install guest default route" (nl_add_route index gateway)
  end.

Definition mount_all : boot () :=
  _ ← ensure_dev_mounted; _ ← ensure_proc_mounted; ensure_sys_mounted.

Definition configure_network : boot () :=
  _ ← mount_all;
  params ← cmdline_params;
  guest_ip ← address_param params "guest_ip";
  gateway ← address_param params "gateway";
  _ ← write_resolv_conf gateway;
  configure_interface guest_ip gateway.

(** [run_serve_with] up to its first [accept]. *)
Definition run_serve_with (config : ServeConfig) : stres kernel Serve.AgentError.t () := λ k,
  let '(k1, r) := if skip_network_config config then (k, Ok ()) else configure_network k in
  match map_err Serve.AgentError.Command r with
  | Ok _ =>
    let '(k2, l) := k_listen "0.0.0.0:5201" k1 in
    (k2, match l with inl e => Err (Serve.AgentError.Io e) | inr _ => Ok () end)
  | r' => (k1, r')
  end.

(** ** Lemmas *)

End boot.

(** A Rust string: the encoding of Unicode scalar values. *)
Definition utf8 (s : string) : Prop := ∃ cs, s = text_of cs ∧ Forall (λ c, c < 1114112)%N cs.

Lemma byte_of_N n : (n < 256)%N → byte_of (Ascii.ascii_of_N n) = n.
Proof. apply Ascii.N_ascii_embedding. Qed.

Lemma low_bits (base m q k : N) : (base = k * m → q < m → (base + q) mod m = q)%N.
Proof. intros -> Hq. symmetry. apply N.mod_unique with k; lia. Qed.

Lemma chars_encode c t : (c < 1114112)%N → chars (encode_char c +:+ t) = c :: chars t.
Proof.
  intros Hc. unfold encode_char.
  destruct (N.ltb_spec c 128) as [H1|H1].
  { simpl. rewrite byte_of_N by lia. by rewrite (proj2 (N.ltb_lt c 128)). }
  assert (∀ x, (x mod 64 < 64)%N) as Hm by (intros; apply N.mod_lt; lia).
  pose proof (N.div_mod c 64 ltac:(done)) as E1. pose proof (N.div_mod (c / 64) 64 ltac:(done)) as E2.
  pose proof (N.div_mod (c / 4096) 64 ltac:(done)) as E3.
  rewrite (N.Div0.div_div c 64 64) in E2. rewrite (N.Div0.div_div c 4096 64) in E3.
  change (64 * 64)%N with 4096%N in E2. change (4096 * 64)%N with 262144%N in E3.
  pose proof (Hm c) as M1. pose proof (Hm (c / 64)%N) as M2. pose proof (Hm (c / 4096)%N) as M3.
  set (x1 := (c mod 64)%N) in *. set (x2 := (c / 64 mod 64)%N) in *. set (x3 := (c / 4096 mod 64)%N) in *.
  set (q1 := (c / 64)%N) in *. set (q2 := (c / 4096)%N) in *. set (q3 := (c / 262144)%N) in *.
  clearbody x1 x2 x3 q1 q2 q3.
  destruct (N.ltb_spec c 2048) as [H2|H2]; [|destruct (N.ltb_spec c 65536) as [H3|H3]]; simpl;
    rewrite !byte_of_N by lia.
  - rewrite (proj2 (N.ltb_ge _ 128)), (proj2 (N.ltb_lt _ 224)) by lia.
    rewrite (low_bits 128 64 x1 2), (low_bits 192 32 q1 6) by lia. f_equal. lia.
  - rewrite (proj2 (N.ltb_ge _ 128)), (proj2 (N.ltb_ge _ 224)), (proj2 (N.ltb_lt _ 240)) by lia.
    rewrite (low_bits 128 64 x1 2), (low_bits 128 64 x2 2), (low_bits 224 16 q2 14) by lia.
    f_equal. lia.
  - rewrite (proj2 (N.ltb_ge _ 128)), (proj2 (N.ltb_ge _ 224)), (proj2 (N.ltb_ge _ 240)) by lia.
    rewrite (low_bits 128 64 x1 2), (low_bits 128 64 x2 2), (low_bits 128 64 x3 2),
      (low_bits 240 8 q3 30) by lia. f_equal. lia.
Qed.

Lemma chars_app s t : utf8 s → chars (s +:+ t) = chars s ++ chars t.
Proof.
  intros (cs & -> & Hcs). revert t. induction Hcs as [|c cs Hc _ IH]; intros t; simpl; [done|].
  unfold text_of in *. simpl. rewrite string_app_assoc. rewrite !chars_encode by done.
  simpl. by rewrite IH.
Qed.

Lemma text_of_app cs ds : text_of (cs ++ ds) = text_of cs +:+ text_of ds.
Proof.
  induction cs as [|c cs IH]; simpl; [done|]. unfold text_of in *. simpl.
  by rewrite IH, string_app_assoc.
Qed.
Lemma utf8_app s t : utf8 s → utf8 t → utf8 (s +:+ t).
Proof.
  intros (cs & -> & Hc) (ds & -> & Hd). exists (cs ++ ds). split; [by rewrite text_of_app|].
  by apply Forall_app.
Qed.

(** Printable ASCII, without the space. *)
Definition graphic (a : ascii) : bool := ((33 <=? byte_of a) && (byte_of a <=? 126))%N.

Lemma graphic_chars s : all_chars graphic s = true →
  s = text_of (chars s) ∧ Forall (λ c, c < 1114112)%N (chars s) ∧
  Forall (λ c, is_whitespace c = false) (chars s).
Proof.
  induction s as [|a s IH]; simpl; [done|]. intros [Ha Hs]%andb_true_iff.
  unfold graphic in Ha. apply andb_true_iff in Ha as [H1%N.leb_le H2%N.leb_le].
  destruct (IH Hs) as (Ht & Hc & Hw). rewrite (proj2 (N.ltb_lt (byte_of a) 128)) by lia.
  split_and!.
  - unfold text_of in *. simpl. rewrite <-Ht. unfold encode_char.
    rewrite (proj2 (N.ltb_lt (byte_of a) 128)) by lia. simpl. by rewrite Ascii.ascii_N_embedding.
  - constructor; [lia|done].
  - constructor; [|done]. unfold is_whitespace. rewrite !orb_false_iff, !andb_false_iff.
    rewrite !N.eqb_neq, !N.leb_gt. lia.
Qed.

Lemma graphic_utf8 s : all_chars graphic s = true → utf8 s.
Proof. intros Hs. destruct (graphic_chars s Hs) as (Ht & Hc & _). by exists (chars s). Qed.

Lemma words_space cs ds w : words (cs ++ 32%N :: ds) w = words cs w ++ words ds [].
Proof.
  revert w. induction cs as [|c cs IH]; intros w; simpl; [by destruct w|].
  destruct (is_whitespace c); [|apply IH]. destruct w; simpl; by rewrite IH.
Qed.

Lemma split_whitespace_space s t :
  utf8 s → split_whitespace (s +:+ " " +:+ t) = split_whitespace s ++ split_whitespace t.
Proof.
  intros Hs. unfold split_whitespace. rewrite chars_app by done.
  change (chars (" " +:+ t)) with (32%N :: chars t). by rewrite words_space, fmap_app.
Qed.

Lemma words_graphic cs w :
  Forall (λ c, is_whitespace c = false) cs →
  words cs w = match rev w ++ cs with [] => [] | l => [l] end.
Proof.
  intros Hc. revert w. induction Hc as [|c cs Hc _ IH]; intros w; simpl.
  - rewrite app_nil_r. destruct w; simpl; [done|]. by destruct (rev w).
  - rewrite Hc, IH. simpl. by rewrite <-app_assoc.
Qed.

Lemma split_whitespace_graphic s :
  all_chars graphic s = true → s ≠ ""%string → split_whitespace s = [s].
Proof.
  intros Hs Hn. destruct (graphic_chars s Hs) as (Ht & _ & Hw). unfold split_whitespace.
  rewrite words_graphic by done. simpl. destruct (chars s) as [|c cs] eqn:Hc; simpl.
  - rewrite Ht in Hn. done.
  - by rewrite Ht.
Qed.

(** ** Octets *)

Definition octet_ok (a : Z) : bool :=
  bool_decide (parse_octet (show a) = Some a) && all_chars graphic (show a)
  && negb (contains_char "." (show a)).

Lemma octets_ok : forallb octet_ok (Z.of_nat <$> seq 0 256) = true.
Proof. vm_compute. reflexivity. Qed.

Lemma octet a : 0 <= a <= 255 →
  parse_octet (show a) = Some a ∧ all_chars graphic (show a) = true ∧
  contains_char "." (show a) = false.
Proof.
  intros Ha. pose proof (proj1 (forallb_forall _ _) octets_ok a) as Ho.
  unfold octet_ok in Ho. rewrite !andb_true_iff, negb_true_iff, bool_decide_eq_true in Ho.
  apply and_assoc, Ho, in_map_iff. exists (Z.to_nat a). split; [lia|]. apply in_seq. lia.
Qed.

Definition ipv4 (a b d : Z) : Z := 10 * 16777216 + a * 65536 + b * 256 + d.

Lemma parse_dotted a b d :
  0 <= a <= 255 → 0 <= b <= 255 → 0 <= d <= 255 →
  parse_ipv4 (dotted (a, b) ("." +:+ show d)) = Some (ipv4 a b d) ∧
  all_chars graphic (dotted (a, b) ("." +:+ show d)) = true.
Proof.
  intros Ha Hb Hd. destruct (octet a Ha) as (Pa & Ga & Da), (octet b Hb) as (Pb & Gb & Db),
    (octet d Hd) as (Pd & Gd & Dd). unfold dotted. simpl fst. simpl snd. split.
  - unfold parse_ipv4.
    change ("10." +:+ show a +:+ "." +:+ show b +:+ "." +:+ show d)
      with ("10" +:+ String "." (show a +:+ String "." (show b +:+ String "." (show d)))).
    rewrite !split_app, (split_one "." (show a)), (split_one "." (show b)),
      (split_one "." (show d)) by done. simpl. by rewrite Pa, Pb, Pd.
  - rewrite !all_chars_app, Ga, Gb. simpl. by rewrite Gd.
Qed.

(** ** The command line, read back *)

Lemma parse_cmdline_space s t :
  utf8 s → parse_cmdline (s +:+ " " +:+ t) = foldl parse_token (parse_cmdline s) (split_whitespace t).
Proof. intros Hs. unfold parse_cmdline. by rewrite split_whitespace_space, foldl_app by done. Qed.

(** Text the kernel or Firecracker adds. *)
Definition foreign (extra : string) : Prop :=
  Forall (λ t, strip_prefix "clouisle." t = None) (split_whitespace extra).

Lemma foreign_params extra m : foreign extra → foldl parse_token m (split_whitespace extra) = m.
Proof.
  unfold foreign. intros Hf. revert m. induction Hf as [|t ts Ht _ IH]; intros m; simpl; [done|].
  unfold parse_token at 2. by rewrite Ht, IH.
Qed.

Lemma parse_token_pair k v m :
  contains_char "=" k = false → parse_token m ("clouisle." +:+ k +:+ String "=" v) = <[k := v]> m.
Proof.
  intros Hk. unfold parse_token. by rewrite strip_prefix_app, split_once_app.
Qed.

Definition base_args (spec : SandboxSpec.t) : string :=
  default default_boot_args (SandboxSpec.env spec !! "boot_args"%string).

Lemma init_utf8 (b : bool) :
  utf8 (if b then ""%string else " init=/usr/local/bin/clouisle-agent"%string).
Proof.
  destruct b; [by exists []|].
  exists (chars " init=/usr/local/bin/clouisle-agent"). split; [reflexivity|].
  apply (bool_decide_unpack _). vm_compute. exact I.
Qed.

Lemma boot_params spec a b extra :
  utf8 (base_args spec) → 0 <= a <= 255 → 0 <= b <= 255 → foreign extra →
  let params := parse_cmdline (boot_args_for_subnet spec a b +:+ " " +:+ extra) in
  params !! "guest_ip"%string = Some (dotted (a, b) ".2") ∧
  params !! "gateway"%string = Some (dotted (a, b) ".1").
Proof.
  intros Hu Ha Hb Hf params.
  destruct (parse_dotted a b 2 Ha Hb ltac:(lia)) as [_ G2].
  destruct (parse_dotted a b 1 Ha Hb ltac:(lia)) as [_ G1].
  change ("." +:+ show 2) with ".2"%string in G2. change ("." +:+ show 1) with ".1"%string in G1.
  set (ip := dotted (a, b) ".2") in *. set (gw := dotted (a, b) ".1") in *.
  set (t1 := ("ip=" +:+ ip +:+ "::" +:+ gw +:+ ":255.255.255.252::eth0:off")%string).
  set (t2 := ("clouisle.guest_ip=" +:+ ip)%string). set (t3 := ("clouisle.gateway=" +:+ gw)%string).
  assert (all_chars graphic t1 = true) as Ht1
    by (unfold t1; rewrite !all_chars_app, G1, G2; reflexivity).
  assert (all_chars graphic t2 = true) as Ht2
    by (unfold t2; rewrite !all_chars_app, G2; reflexivity).
  assert (all_chars graphic t3 = true) as Ht3
    by (unfold t3; rewrite !all_chars_app, G1; reflexivity).
  set (head := (base_args spec +:+ if existsb (starts_with "init=") (split_whitespace (base_args spec))
      then "" else " init=/usr/local/bin/clouisle-agent")%string).
  assert (utf8 head) as Hh by (apply utf8_app; [done|apply init_utf8]).
  assert (boot_args_for_subnet spec a b +:+ " " +:+ extra
    = head +:+ " " +:+ (t1 +:+ " " +:+ (t2 +:+ " " +:+ (t3 +:+ " " +:+ extra)))) as Heq.
  { unfold boot_args_for_subnet, head. fold (base_args spec). fold ip gw. unfold t1, t2, t3.
    by rewrite !string_app_assoc. }
  unfold params. rewrite Heq, parse_cmdline_space by done.
  rewrite (split_whitespace_space t1), (split_whitespace_space t2), (split_whitespace_space t3)
    by (by apply graphic_utf8).
  rewrite !foldl_app, foreign_params by done.
  rewrite !split_whitespace_graphic by done. simpl.
  generalize (parse_token (parse_cmdline head) t1). intros m.
  unfold t2, t3. rewrite (parse_token_pair "guest_ip" ip), (parse_token_pair "gateway" gw) by done.
  split; [by rewrite lookup_insert_ne, lookup_insert_eq|by rewrite lookup_insert_eq].
Qed.

Lemma subnet_octets `{Sha256} id :
  let '(a, b) := fc_subnet id in 0 <= a <= 255 ∧ 0 <= b <= 255.
Proof.
  unfold fc_subnet. pose proof (Z.mod_pos_bound (digest_byte id 0) 200 ltac:(lia)).
  pose proof (Z.mod_pos_bound (digest_byte id 1) 200 ltac:(lia)). lia.
Qed.

Section composed.
Context {HD : Sha256} {G : GuestKernel}.

Definition octets (subnet : option (Z * Z)) : Prop :=
  match subnet with Some (a, b) => 0 <= a <= 255 ∧ 0 <= b <= 255 | None => True end.

Lemma kernel_args_params id spec subnet extra :
  utf8 (base_args spec) → octets subnet → foreign extra →
  let ab := subnet_of id subnet in
  0 <= ab.1 <= 255 ∧ 0 <= ab.2 <= 255 ∧
  let params := parse_cmdline (kernel_args id spec subnet +:+ " " +:+ extra) in
  params !! "guest_ip"%string = Some (dotted ab ".2") ∧
  params !! "gateway"%string = Some (dotted ab ".1").
Proof.
  intros Hu Ho Hf ab.
  assert (kernel_args id spec subnet = boot_args_for_subnet spec ab.1 ab.2) as ->
    by (unfold ab; by destruct subnet as [[a b]|]).
  assert (0 <= ab.1 <= 255 ∧ 0 <= ab.2 <= 255) as [H1 H2].
  { unfold ab. destruct subnet as [[a b]|]; [done|]. apply (subnet_octets id). }
  destruct ab as [a b]. split; [done|]. split; [done|]. by apply boot_params.
Qed.

(** C23: A guest is reachable where the host looks for it.  Let the kernel command
    line be the one the Firecracker backend wrote for a sandbox (whatever kernel
    arguments the sandbox asked for) and what the hypervisor appends to it.  Once the
    pseudo file systems are mounted, the agent's network setup is exactly: give
    [eth0] the address the host's connector dials for that handle, and route through
    the gateway the host gave the network namespace; the two texts are IPv4
    addresses, so no parse fails. *)
Theorem guest_takes_the_hosts_address id spec subnet h extra k :
  utf8 (base_args spec) → octets subnet → VmHandle.subnet h = subnet → foreign extra →
  (∀ k1, mount_all k = (k1, Ok ()) → k_cmdline k1 = kernel_args id spec subnet +:+ " " +:+ extra) →
  ∃ ip gw,
    parse_ipv4 (Client.guest_address h id) = Some ip ∧
    parse_ipv4 (gateway (make_info id subnet)) = Some gw ∧
    configure_network k
    = (_ ← mount_all; _ ← write_resolv_conf gw; configure_interface ip gw) k.
Proof.
  intros Hu Ho Hh Hf Hk.
  destruct (kernel_args_params id spec subnet extra Hu Ho Hf) as (H1 & H2 & Hip & Hgw).
  assert (Client.guest_address h id = dotted (subnet_of id subnet) ".2") as ->.
  { unfold Client.guest_address. rewrite Hh. by destruct subnet as [[]|]. }
  change (gateway (make_info id subnet)) with (dotted (subnet_of id subnet) ".1").
  destruct (subnet_of id subnet) as [a b]. simpl in H1, H2.
  destruct (parse_dotted a b 2 H1 H2 ltac:(lia)) as [P2 _].
  destruct (parse_dotted a b 1 H1 H2 ltac:(lia)) as [P1 _].
  change ("." +:+ show 2) with ".2"%string in P2. change ("." +:+ show 1) with ".1"%string in P1.
  exists (ipv4 a b 2), (ipv4 a b 1). split; [done|]. split; [done|].
  unfold configure_network, mbind, stres_bind. destruct (mount_all k) as [k1 [[]| |]] eqn:Hm; try done.
  unfold cmdline_params. rewrite (Hk k1 eq_refl). unfold address_param. by rewrite Hip, P2, Hgw, P1.
Qed.
End composed.

(** ** A guest in memory *)

Module BootDemo.
(** What was asked of the kernel, newest first. *)
Record guest : Type := mk { log : list string; assigned : list (Z * Z * Z); cmdline : string }.
Definition note (what : string) (g : guest) : guest :=
  mk (what :: log g) (assigned g) (cmdline g).
Definition ok {A} (a : A) (what : string) (g : guest) : guest * (string + A) :=
  (note what g, inr a).

#[local] Instance memory_kernel : GuestKernel := {|
  kernel := guest;
  k_create_dir_all p := ok () ("mkdir " +:+ p);
  k_mount _ t g := (note ("mount " +:+ t) g, if String.eqb t "/dev" then inl EBUSY else inr ());
  k_cmdline := cmdline;
  k_remove_file p := note ("rm " +:+ p);
  k_write p t := note ("write " +:+ p +:+ " " +:+ t);
  nl_open := ok () "netlink";
  nl_find_link n := ok (Some 2) ("find " +:+ n);
  nl_up i := ok () ("up " +:+ show i);
  nl_add_address i ip p g := (mk (log g) ((i, ip, p) :: assigned g) (cmdline g), inr ());
  nl_add_route i gw := ok () ("route " +:+ show_ipv4 gw);
  k_listen a := ok () ("listen " +:+ a) |}.
#[local] Existing Instance ToyDigest.digest.

Definition extra : string := "virtio_mmio.device=4K@0xd0000000:5" +:+ NL.
Definition spec : SandboxSpec.t := SandboxSpec.default.
Definition booted : guest := mk [] [] (kernel_args "sb-1" spec None +:+ " " +:+ extra).

Lemma guest_takes_the_hosts_address_witness :
  ∃ ip gw,
    parse_ipv4 (Client.guest_address VmHandle.default "sb-1") = Some ip ∧
    parse_ipv4 (gateway (make_info "sb-1" None)) = Some gw ∧
    configure_network booted
    = (_ ← mount_all; _ ← write_resolv_conf gw; configure_interface ip gw) booted.
Proof.
  apply (guest_takes_the_hosts_address (G := memory_kernel) "sb-1" spec None VmHandle.default extra booted); try done.
  - exists (chars default_boot_args). split; [vm_compute; reflexivity|].
    apply (bool_decide_unpack _). vm_compute. exact I.
  - apply (bool_decide_unpack _). vm_compute. exact I.
  - intros k1 [= <-]. reflexivity.
Defined.

(** The address that was assigned on the way. *)
Example booted_address :
  assigned (configure_network booted).1
  = [(2, default 0 (parse_ipv4 (guest_ip "sb-1")), 30)] ∧ (configure_network booted).2 = Ok ().
Proof. vm_compute. split; reflexivity. Qed.
End BootDemo.
