(* ===== verification/NodeAgent.v ===== *)
(** * The node daemon ([crates/clouisled/src/agent.rs], [reconciler.rs], [node.rs])

    [NodeAgent]: the sandboxes of one machine.  It owns a resource pool, the table of
    its sandboxes and the table of their reservations; it creates and stops machines
    through a [Vmm], keeps their rows in a [Store], sets up their networks with the
    firewall manager and talks to the agents inside over sockets.

    A call of a guest may never be answered: [Waiting] is the outcome of an operation
    that has read all the frames the guest sends (at most [patience]) and still
    reads. *)

From S2P Require Import Prelude Core SandboxModel Admission Vmm Proto Digest Json Dns Net Store.
From S2P Require Import Guest GuestAgent FrameClient.

Record NodeAgentConfig : Type := node_config {
  cfg_node_id : string;
  cfg_hostname : string;
  total_vcpu : Z;
  total_memory_mb : Z;
  total_disk_mb : Z;
  kvm_available : bool;
  kernel_version : string;
  firecracker_version : string;
  labels : gmap string string;
  manage_network : bool;
  heartbeat_secs : Z }.

(** [Vmm::discover]: the machines an earlier run left, on the backends that can find
    them. *)
Class Discovery (V : Vmm) : Type := { discover : world → world * outcome (list VmHandle.t) }.

(** The readings of the wall clock, and the [Debug] text of validation errors. *)
Class NodeEnv : Type := {
  wall : nat → Z;
  errors_text : list ValidationError.t → string }.

(** How an operation stops without a result: it answers an error, or it waits. *)
Inductive halt : Type := Failed (e : ClouisleError.t) | Waiting.

Section node.
Context {SM : Semaphore} {ST : Store} {V : Vmm} {DV : Discovery V} {OS : Os} {H : Sha256}
  {C : Chrono} {HO : HashOrder} {K : Sockets} {NE : NodeEnv} (cfg : NodeAgentConfig)
  (patience : nat).

Record Node : Type := node_state {
  n_pool : ResourcePool.t SM;
  sandboxes : gmap string Sandbox.t;
  reservations : gmap string Reservation.t;
  n_vm : world;
  n_sto : store;
  n_fw : FirewallManager * os_world;
  n_wire : net;
  n_reads : nat }.

Definition set_pool (v : ResourcePool.t SM) (s : Node) : Node :=
  node_state v (sandboxes s) (reservations s) (n_vm s) (n_sto s) (n_fw s) (n_wire s) (n_reads s).
Definition set_sandboxes (v : gmap string Sandbox.t) (s : Node) : Node :=
  node_state (n_pool s) v (reservations s) (n_vm s) (n_sto s) (n_fw s) (n_wire s) (n_reads s).
Definition set_reservations (v : gmap string Reservation.t) (s : Node) : Node :=
  node_state (n_pool s) (sandboxes s) v (n_vm s) (n_sto s) (n_fw s) (n_wire s) (n_reads s).
Definition set_vm (v : world) (s : Node) : Node :=
  node_state (n_pool s) (sandboxes s) (reservations s) v (n_sto s) (n_fw s) (n_wire s) (n_reads s).
Definition set_sto (v : store) (s : Node) : Node :=
  node_state (n_pool s) (sandboxes s) (reservations s) (n_vm s) v (n_fw s) (n_wire s) (n_reads s).
Definition set_fw (v : FirewallManager * os_world) (s : Node) : Node :=
  node_state (n_pool s) (sandboxes s) (reservations s) (n_vm s) (n_sto s) v (n_wire s) (n_reads s).
Definition set_wire (v : net) (s : Node) : Node :=
  node_state (n_pool s) (sandboxes s) (reservations s) (n_vm s) (n_sto s) (n_fw s) v (n_reads s).
Definition set_reads (v : nat) (s : Node) : Node :=
  node_state (n_pool s) (sandboxes s) (reservations s) (n_vm s) (n_sto s) (n_fw s) (n_wire s) v.

Abbreviation nd := (stres Node halt).
Abbreviation cl := (stres net ClouisleError.t).

(** [NodeAgent::new]: the totals are cut down to 32 bits. *)
Definition capacity : Resources.t :=
  Resources.mk (total_vcpu cfg) (as_u32 (total_memory_mb cfg)) (as_u32 (total_disk_mb cfg))
    (Resources.bandwidth_mbps Resources.default) (Resources.iops Resources.default)
    (Resources.pids_max Resources.default).
Definition MAX_SANDBOXES : Z := 200.
Definition new_node (w : world) (st : store) (fw : FirewallManager * os_world) (n : net) : Node :=
  node_state (ResourcePool.new capacity MAX_SANDBOXES) ∅ ∅ w st fw n 0.

(** ** Calls on what the node owns *)

Definition raise {A} (e : ClouisleError.t) : nd A := fail (Failed e).
Definition answer {A} (r : result A) : res halt A := map_err Failed r.

Definition now : nd Z := λ s, (set_reads (S (n_reads s)) s, Ok (wall (n_reads s))).
Definition store_call {A} (f : store → store * StoreResult A) : nd A := λ s,
  let '(x, r) := f (n_sto s) in (set_sto x s, answer (map_err StoreError.into r)).
Definition vmm_call {A} (f : world → world * outcome A) : nd A := λ s,
  let '(w, o) := f (n_vm s) in
  (set_vm w s, match o with inl e => Err (Failed e) | inr a => Ok a end).
Definition fw_call {A} (f : fw A) : nd A := λ s,
  let '(x, r) := f (n_fw s) in (set_fw x s, answer r).
Definition wire_call {A} (f : cl A) : nd A := λ s,
  let '(x, r) := f (n_wire s) in (set_wire x s, answer r).

(** [let _ = call.await;]: an error is dropped, an unanswered call is not. *)
Definition quiet {A} (m : nd A) : nd () := λ s,
  match m s with
  | (s', Ok _) | (s', Err (Failed _)) => (s', Ok ())
  | (s', Err Waiting) => (s', Err Waiting)
  | (s', Panic) => (s', Panic)
  end.
(** [if let Err(error) = call.await { k(error); return Err(error) }]. *)
Definition or_else {A} (m : nd A) (k : ClouisleError.t → nd ()) : nd A := λ s,
  match m s with
  | (s', Err (Failed e)) => (_ ← k e; raise e) s'
  | x => x
  end.
(** [call.await.unwrap_or(a)]. *)
Definition unwrap_or {A} (a : A) (m : nd A) : nd A := λ s,
  match m s with (s', Err (Failed _)) => (s', Ok a) | x => x end.

(** A reservation is given back when it is dropped. *)
Definition drop_reservation (r : option Reservation.t) (s : Node) : Node :=
  match r with Some r => set_pool (ResourcePool.drop (n_pool s) r) s | None => s end.
Definition insert_reservation (id : string) (r : Reservation.t) (s : Node) : Node :=
  drop_reservation (reservations s !! id) (set_reservations (<[id := r]> (reservations s)) s).
Definition remove_reservation (id : string) (s : Node) : Node :=
  drop_reservation (reservations s !! id) (set_reservations (delete id (reservations s)) s).
Definition admit_spec (sp : SandboxSpec.t) : nd Reservation.t := λ s,
  let '(p, r) := ResourcePool.admit_ (n_pool s) sp in (set_pool p s, answer r).
(** The local [reservation] of a function that leaves early. *)
Definition holding {A} (r : Reservation.t) (m : nd A) : nd A := λ s,
  match m s with
  | (s', Err (Failed e)) => (drop_reservation (Some r) s', Err (Failed e))
  | (s', Panic) => (drop_reservation (Some r) s', Panic)
  | x => x
  end.

Definition insert_sandbox (id : string) (sb : Sandbox.t) (s : Node) : Node :=
  set_sandboxes (<[id := sb]> (sandboxes s)) s.
Definition remove_sandbox (id : string) (s : Node) : Node :=
  set_sandboxes (delete id (sandboxes s)) s.

Definition store_status (id : string) (st : SandboxStatus.t) (m : option string) : nd () :=
  t ← now; store_call (update_sandbox_status_message id st m t).

(** ** Talking to a guest *)

Definition not_here (id : string) : ClouisleError.t :=
  ClouisleError.not_found ("sandbox " +:+ id +:+ " not on this node").

(** The sandbox, if it runs here; [text] shows its status. *)
Definition executable (id : string) (text : Sandbox.t → string) : nd Sandbox.t := λ s,
  (s, match sandboxes s !! id with
      | None => Err (Failed (not_here id))
      | Some sb =>
        if Sandbox.is_executable sb then Ok sb
        else Err (Failed (ClouisleError.invalid_state
               ("sandbox " +:+ id +:+ " is not running" +:+ text sb)))
      end).
Definition with_status (sb : Sandbox.t) : string :=
  " (status=" +:+ SandboxStatus.as_str (Sandbox.status sb) +:+ ")".

(** A connection, within five seconds, and the handshake. *)
Definition dial (id : string) : cl sock := λ n,
  match tcp_connect 5000 (guest_ip id +:+ ":5201") n with
  | (n1, None) => (n1, Err (ClouisleError.timeout "guest agent connect timed out"))
  | (n1, Some (inl e)) => (n1, Err (ClouisleError.io ("connect guest agent: " +:+ e)))
  | (n1, Some (inr s)) =>
    Client.shake_hands s "send guest hello" "read guest hello" "guest did not return Hello" n1
  end.

Definition guest_frame_connection (id : string) : nd sock :=
  _ ← executable id with_status; wire_call (dial id).

Definition file_op (id : string) (request : Frame.t) : nd Frame.t :=
  s ← guest_frame_connection id;
  _ ← wire_call (Client.put s request "send guest file request");
  response ← wire_call (Client.get s "read guest file response");
  match response with
  | Frame.Error message _ => raise (vmm_error ("guest file operation: " +:+ message))
  | _ => mret response
  end.

Inductive NodeExecEvent : Set := NodeStdout (b : Bytes) | NodeStderr (b : Bytes) | NodeExit (code : Z).

(** One frame of a command's output: more of it, its end, or an error. *)
Definition exec_frame (id : string) (f : Frame.t) : res ClouisleError.t NodeExecEvent :=
  let unexpected := Err (ClouisleError.invalid_state "unexpected guest exec frame") in
  match f with
  | Frame.Stdout fid chunk => if String.eqb fid id then Ok (NodeStdout chunk) else unexpected
  | Frame.Stderr fid chunk => if String.eqb fid id then Ok (NodeStderr chunk) else unexpected
  | Frame.Exited fid code => if String.eqb fid id then Ok (NodeExit code) else unexpected
  | Frame.Error message _ => Err (vmm_error ("guest exec: " +:+ message))
  | _ => unexpected
  end.

(** The loop over the frames: the events that were sent, and how it ended.  [send]
    says whether the receiver is still there when so many have been sent. *)
Fixpoint exec_events (fuel : nat) (s : sock) (id : string) (send : list NodeExecEvent → bool)
    (acc : list NodeExecEvent) (n : net) : net * (list NodeExecEvent * res halt ()) :=
  match fuel with
  | O => (n, (acc, Err Waiting))
  | S fuel =>
    match Client.get s "read guest exec output" n with
    | (n1, Ok f) =>
      match exec_frame id f with
      | Ok (NodeExit c) => (n1, (if send acc then acc ++ [NodeExit c] else acc, Ok ()))
      | Ok e => if send acc then exec_events fuel s id send (acc ++ [e]) n1 else (n1, (acc, Ok ()))
      | Err e => (n1, (acc, Err (Failed e)))
      | Panic => (n1, (acc, Panic))
      end
    | (n1, Err e) => (n1, (acc, Err (Failed e)))
    | (n1, Panic) => (n1, (acc, Panic))
    end
  end.

Definition all_events (fuel : nat) (s : sock) (id : string) : nd (list NodeExecEvent) := λ st,
  let '(n, (events, r)) := exec_events fuel s id (λ _, true) [] (n_wire st) in
  (set_wire n st, _ ← r; Ok events).

Definition send_exec (s : sock) (argv : list string) (env : gmap string string)
    (cwd : option string) (timeout_ms : Z) : nd string :=
  id ← wire_call Client.new_id;
  _ ← wire_call (Client.put s (Frame.ExecReq id argv env cwd timeout_ms) "send guest ExecReq");
  mret id.

Fixpoint output_of (events : list NodeExecEvent) (r : Bytes * Bytes * Z) : Bytes * Bytes * Z :=
  match events with
  | [] => r
  | e :: events' =>
    let '(out, err, code) := r in
    output_of events' match e with
                      | NodeStdout b => (out ++ b, err, code)
                      | NodeStderr b => (out, err ++ b, code)
                      | NodeExit c => (out, err, c)
                      end
  end.

Definition clock_now : nd Z := λ s, (s, Ok (clock_ms (n_wire s))).

Definition exec_command (id : string) (argv : list string) (env : gmap string string)
    (cwd : option string) (timeout_ms : Z) : nd ExecutionResult.t :=
  match argv with
  | [] => raise (ClouisleError.validation "argv empty")
  | _ =>
    s ← guest_frame_connection id;
    exec_id ← send_exec s argv env cwd timeout_ms;
    t0 ← clock_now;
    events ← all_events patience s exec_id;
    t1 ← clock_now;
    let '(out, err, code) := output_of events ([], [], 0) in
    mret (ExecutionResult.mk code out err (t1 - t0))
  end.

(** [exec_command_stream]: the connection and the request, then the events the
    receiver got and how the stream ended. *)
Definition open_exec (id : string) (argv : list string) (env : gmap string string)
    (cwd : option string) (timeout_ms : Z) : nd (sock * string) :=
  match argv with
  | [] => raise (ClouisleError.validation "argv empty")
  | _ =>
    _ ← executable id (λ _, ""%string);
    s ← wire_call (dial id);
    exec_id ← send_exec s argv env cwd timeout_ms;
    mret (s, exec_id)
  end.
Definition exec_command_stream (id : string) (argv : list string) (env : gmap string string)
    (cwd : option string) (timeout_ms : Z) (send : list NodeExecEvent → bool) (st : Node)
  : Node * (list NodeExecEvent * res halt ()) :=
  match open_exec id argv env cwd timeout_ms st with
  | (st1, Ok (s, exec_id)) =>
    let '(n, r) := exec_events patience s exec_id send [] (n_wire st1) in (set_wire n st1, r)
  | (st1, Err e) => (st1, ([], Err e))
  | (st1, Panic) => (st1, ([], Panic))
  end.

(** The answer to the start of a process; the rest of its frames are read by a task
    that is given the connection. *)
Definition process_start (id frame_id : string) (argv : list string) (env : gmap string string)
    (cwd : option string) (timeout_ms : Z) (stdin : bool) (pty : option PtyConfig.t)
  : nd (Z * sock) :=
  match argv with
  | [] => raise (ClouisleError.validation "argv empty")
  | _ =>
    s ← guest_frame_connection id;
    _ ← wire_call (Client.put s (Frame.ProcessStart frame_id argv env cwd timeout_ms stdin pty)
          "send guest ProcessStart");
    started ← wire_call (Client.get s "read guest ProcessStarted");
    match started with
    | Frame.ProcessStarted got pid =>
      if String.eqb got frame_id then mret (pid, s)
      else raise (Client.unexpected "ProcessStart" started)
    | Frame.Error message _ => raise (vmm_error message)
    | other => raise (Client.unexpected "ProcessStart" other)
    end
  end.

(** What that task sends: output, the exit, or the text of an error; any other frame
    ends it silently, and so does a receiver that has gone. *)
Fixpoint process_pump (fuel : nat) (s : sock) (id : string) (send : list (string + NodeExecEvent) → bool)
    (acc : list (string + NodeExecEvent)) (n : net) : net * list (string + NodeExecEvent) :=
  match fuel with
  | O => (n, acc)
  | S fuel =>
    match sock_read s n with
    | (n1, Ok (Frame.Error message _)) => (n1, if send acc then acc ++ [inl message] else acc)
    | (n1, Ok f) =>
      match exec_frame id f with
      | Ok (NodeExit c) => (n1, if send acc then acc ++ [inr (NodeExit c)] else acc)
      | Ok e => if send acc then process_pump fuel s id send (acc ++ [inr e]) n1 else (n1, acc)
      | _ => (n1, acc)
      end
    | (n1, _) => (n1, acc)
    end
  end.

Inductive ProcessControlOp : Set :=
| OpStdin (b : Bytes) | OpStdinEof | OpSignal (s : ProcessSignal.t) | OpResize (cols rows : Z).

Definition control_frame (frame_id : string) (op : ProcessControlOp) : Frame.t :=
  match op with
  | OpStdin b => Frame.Stdin frame_id b
  | OpStdinEof => Frame.StdinEof frame_id
  | OpSignal s => Frame.Signal frame_id s
  | OpResize c r => Frame.Resize frame_id c r
  end.

Definition process_control (id frame_id : string) (op : ProcessControlOp) : nd () :=
  s ← guest_frame_connection id;
  wire_call (Client.control s (control_frame frame_id op) "send guest control frame"
    "read guest control ack" "" "process control").

(** ** Creating a sandbox *)

Definition fail_creation (id : string) (handle : option VmHandle.t) (error : ClouisleError.t) : nd () :=
  _ ← quiet (store_status id SandboxStatus.Error (Some (ClouisleError.message error)));
  _ ← match handle with
      | Some h => quiet (vmm_call (stop h StopMode.Force))
      | None => mret ()
      end;
  _ ← when (manage_network cfg) (quiet (fw_call (teardown_sandbox_network id None)));
  _ ← modify (remove_sandbox id);
  modify (remove_reservation id).

(** Each step that may fail undoes what was done. *)
Definition step {A} (id : string) (handle : option VmHandle.t) (m : nd A) : nd A :=
  or_else m (fail_creation id handle).

Definition meta_of (h : VmHandle.t) : VmmMeta.t :=
  VmmMeta.mk (VmHandle.backend h) (VmHandle.owner_id h) (VmHandle.pid h) (VmHandle.api_socket h)
    (VmHandle.vsock_socket h) (VmHandle.vsock_cid h) (Some (VmHandle.id h)) ∅.

Definition store_meta (id : string) (m : VmmMeta.t) : nd () :=
  t ← now; store_call (update_sandbox_vmm_meta id m t).
Definition store_expiry (id : string) (e : option Z) : nd () :=
  t ← now; store_call (update_sandbox_expiry id e t).

(** The record of a new sandbox, and its row. *)
Definition enter (id : string) (spec : SandboxSpec.t) : nd Sandbox.t :=
  t ← now;
  t1 ← now;
  sandbox ← lift (answer (Sandbox.transition
    (set_node (Some (cfg_node_id cfg)) (Sandbox.new id spec t)) SandboxEvent.Start t1));
  _ ← store_call (create_sandbox sandbox);
  mret sandbox.

Definition egress (spec : SandboxSpec.t) : list string :=
  if NetworkConfig.enabled (SandboxSpec.network spec)
  then NetworkConfig.allow_egress (SandboxSpec.network spec) else [].

(** The network, the machine, and the rules of the network. *)
Definition boot (id : string) (sandbox : Sandbox.t) : nd (VmHandle.t * Sandbox.t) :=
  let spec := Sandbox.spec sandbox in
  _ ← when (manage_network cfg)
        (step id None (_ ← fw_call (create_network_in_subnet id None); mret ()));
  handle ← step id None (vmm_call (create id spec));
  _ ← step id (Some handle) (store_meta id (meta_of handle));
  _ ← step id (Some handle) (vmm_call (start handle));
  _ ← when (manage_network cfg)
        (step id (Some handle) (fw_call (setup_sandbox_network id (gateway_ip id +:+ "/30")
           (egress spec) (NetworkConfig.deny_egress (SandboxSpec.network spec))
           (Resources.bandwidth_mbps (SandboxSpec.resources spec)))));
  mret (handle, Sandbox.set_vmm_meta sandbox (meta_of handle)).

Definition ping_guest (id : string) : nd () :=
  f ← file_op id Frame.Ping;
  match f with
  | Frame.Pong => mret ()
  | _ => raise (ClouisleError.invalid_state "guest ping returned an unexpected frame")
  end.

Fixpoint write_secrets (id : string) (handle : VmHandle.t) (secrets : list SecretSpec.t) : nd () :=
  match secrets with
  | [] => mret ()
  | x :: secrets' =>
    _ ← step id (Some handle) (file_op id (Frame.WriteFile
          ("/run/secrets/" +:+ SecretSpec.name x) 384 (String.list_byte_of_string (SecretSpec.value x))));
    write_secrets id handle secrets'
  end.

(** The guest must answer; its secrets are written and its first command runs. *)
Definition prepare_guest (id : string) (handle : VmHandle.t) (spec : SandboxSpec.t) : nd () :=
  _ ← step id (Some handle) (ping_guest id);
  _ ← write_secrets id handle (SandboxSpec.secrets spec);
  match SandboxSpec.init_command spec with
  | [] => mret ()
  | argv =>
    step id (Some handle)
      (result ← exec_command id argv (SandboxSpec.init_env spec ∪ SandboxSpec.env spec)
         (SandboxSpec.init_cwd spec) (SandboxSpec.init_timeout_ms spec);
       if ExecutionResult.exit_code result =? 0 then mret ()
       else raise (vmm_error ("initialization command exited with code "
              +:+ show_signed (ExecutionResult.exit_code result))))
  end.

(** The sandbox enters the tables, as running so that the guest can be reached; it is
    announced once the guest has answered. *)
Definition greet (id : string) (spec : SandboxSpec.t) (handle : VmHandle.t) (sandbox : Sandbox.t)
  : nd Sandbox.t :=
  _ ← when requires_guest_agent (prepare_guest id handle spec);
  t ← now;
  sandbox ← lift (answer (Sandbox.transition sandbox SandboxEvent.AgentHello t));
  _ ← step id (Some handle) (store_status id SandboxStatus.Running None);
  _ ← step id (Some handle) (store_expiry id (Sandbox.expires_at sandbox));
  mret sandbox.
Definition announce (id : string) (spec : SandboxSpec.t) (reservation : Reservation.t)
    (x : VmHandle.t * Sandbox.t) : nd Sandbox.t :=
  let '(handle, sandbox) := x in
  _ ← modify (insert_sandbox id (set_status SandboxStatus.Running sandbox));
  _ ← modify (insert_reservation id reservation);
  sandbox ← greet id spec handle sandbox;
  _ ← modify (insert_sandbox id sandbox);
  mret sandbox.

(** [create_sandbox_with_id]. *)
Definition create_sandbox_with_id (id : string) (spec : SandboxSpec.t) : nd Sandbox.t :=
  if is_empty id then raise (ClouisleError.validation "sandbox id is required") else
  match SandboxSpec.validate spec with
  | Err errors => raise (ClouisleError.validation ("invalid sandbox spec: " +:+ errors_text errors))
  | Panic => lift Panic
  | Ok _ =>
    reservation ← admit_spec spec;
    x ← holding reservation (sb ← enter id spec; boot id sb);
    announce id spec reservation x
  end.

(** ** Deleting a sandbox *)

Definition handle_of (id : string) (sb : Sandbox.t) : VmHandle.t :=
  let m := Sandbox.vmm_meta sb in
  VmHandle.mk (default id (VmmMeta.vmm_id m)) (VmmMeta.backend m) (VmmMeta.owner_id m)
    (VmmMeta.pid m) (VmmMeta.api_socket m) (VmmMeta.vsock_socket m) (VmmMeta.vsock_cid m) None.

Definition local (id : string) : nd Sandbox.t := λ s,
  (s, match sandboxes s !! id with Some sb => Ok sb | None => Err (Failed (not_here id)) end).

Definition delete_sandbox_here (id : string) : nd () :=
  sb ← local id;
  _ ← vmm_call (stop (handle_of id sb) StopMode.Force);
  _ ← store_call (delete_sandbox id);
  _ ← modify (remove_sandbox id);
  _ ← modify (remove_reservation id);
  when (manage_network cfg) (quiet (fw_call (teardown_sandbox_network id None))).

(** ** Recovery *)

Definition is_mine (sb : Sandbox.t) : bool := bool_decide (Sandbox.node_id sb = Some (cfg_node_id cfg)).
Definition known (sb : Sandbox.t) : bool :=
  SandboxStatus.is_active (Sandbox.status sb)
  && (is_mine sb || bool_decide (Sandbox.node_id sb = None)).
Definition runtime_id (sb : Sandbox.t) : string :=
  default (Sandbox.id sb) (VmmMeta.vmm_id (Sandbox.vmm_meta sb)).

Fixpoint stop_orphans (ids : list string) (runtimes : list VmHandle.t) : nd () :=
  match runtimes with
  | [] => mret ()
  | h :: runtimes' =>
    _ ← (if bool_decide (VmHandle.id h ∈ ids) then mret ()
         else quiet (vmm_call (stop h StopMode.Force)));
    stop_orphans ids runtimes'
  end.

Definition forget (id : string) (message : string) : nd () :=
  quiet (store_status id SandboxStatus.Error (Some message)).

(** A sandbox whose machine is there and which is not in the tables is taken over;
    the result counts it. *)
Definition adopt (sb : Sandbox.t) (r : Reservation.t) : nd Z :=
  let id := Sandbox.id sb in
  let starting := bool_decide (Sandbox.status sb = SandboxStatus.Starting) in
  _ ← modify (insert_reservation id r);
  _ ← modify (insert_sandbox id (if starting then set_status SandboxStatus.Running sb else sb));
  answered ← (if requires_guest_agent
                 && negb (bool_decide (Sandbox.status sb = SandboxStatus.Paused))
              then λ s, match ping_guest id s with
                        | (s', Ok _) => (s', Ok None)
                        | (s', Err (Failed e)) => (s', Ok (Some e))
                        | (s', Err Waiting) => (s', Err Waiting)
                        | (s', Panic) => (s', Panic)
                        end
              else mret None);
  match answered with
  | Some e =>
    _ ← forget id ("guest probe failed during node adoption: " +:+ ClouisleError.display e);
    _ ← modify (remove_sandbox id);
    _ ← modify (remove_reservation id);
    mret 0
  | None =>
    _ ← when starting (quiet (store_status id SandboxStatus.Running None));
    mret 1
  end.

Definition recover_one (sb : Sandbox.t) : nd Z :=
  let id := Sandbox.id sb in
  alive ← unwrap_or false (vmm_call (probe (handle_of id sb)));
  if negb alive then
    _ ← forget id "runtime probe failed during node recovery";
    _ ← modify (remove_reservation id);
    _ ← modify (remove_sandbox id);
    mret 0
  else
    there ← gets (λ s, bool_decide (is_Some (sandboxes s !! id)));
    if there : bool then mret 0 else
    λ s, match admit_spec (Sandbox.spec sb) s with
         | (s', Ok r) => adopt sb r s'
         | (s', Err (Failed _)) => (s', Ok 0)
         | (s', Err Waiting) => (s', Err Waiting)
         | (s', Panic) => (s', Panic)
         end.

Fixpoint recover (l : list Sandbox.t) : nd Z :=
  match l with
  | [] => mret 0
  | sb :: l' => n ← recover_one sb; m ← recover l'; mret (n + m)
  end.

Definition reconcile_from_store : nd Z :=
  t ← now;
  all ← unwrap_or [] (store_call (list_sandboxes None t));
  runtimes ← unwrap_or [] (vmm_call discover);
  _ ← stop_orphans (runtime_id <$> List.filter known all) runtimes;
  recover (List.filter (λ sb, is_mine sb && SandboxStatus.is_active (Sandbox.status sb)) all).

(** ** Reports *)

Definition node_info : NodeInfo.t :=
  NodeInfo.mk (cfg_node_id cfg) (cfg_hostname cfg) (total_vcpu cfg) (total_memory_mb cfg)
    (total_disk_mb cfg) (kvm_available cfg) (kernel_version cfg) (firecracker_version cfg)
    (labels cfg).

(** [pool_ready] is always empty and [load_avg] always zero. *)
Record HeartbeatReport : Set := heartbeat_report {
  hb_node_id : string;
  allocated_vcpu : Z;
  allocated_memory_mb : Z;
  running_sandboxes : list string }.

Definition heartbeat (s : Node) : HeartbeatReport :=
  let all := values (sandboxes s) in
  heartbeat_report (cfg_node_id cfg)
    (as_u16 (sum_by (λ sb, Resources.vcpu (SandboxSpec.resources (Sandbox.spec sb))) all))
    (sum_by (λ sb, Resources.memory_mb (SandboxSpec.resources (Sandbox.spec sb))) all
       mod 18446744073709551616)
    (Sandbox.id <$> List.filter (λ sb, SandboxStatus.is_active (Sandbox.status sb)) all).

End node.
