(* ===== verification/NodeStart.v ===== *)
(** * Starting the node daemon, and its heartbeat ([crates/clouisled/src/main.rs])

    What the daemon finds out about its host, the configuration it runs with, the report
    it posts to the control plane every few seconds, and what the report does there. *)

From S2P Require Import Prelude Core SandboxModel Admission Vmm Pool Proto Guest Digest Dns Net.
From S2P Require Import Firecracker Store Json Auth E2bCloud Processes E2bModel AppState Lifecycle.
From S2P Require Import E2bHandlers CloudHandlers ApiHandlers Control Capacity Requests Startup.
From S2P Require Import NodeRegistry GuestAgent FrameClient NodeAgent.

Module NodeCli.
Record t : Set := mk {
  addr : string;
  db : string;
  node_id : string;
  hostname : string;
  kernel : string;
  images_dir : string;
  api_socket_dir : string;
  control_plane : option string;
  control_plane_api_key : option string;
  advertised_endpoint : option string }.

Definition default : t :=
  mk "0.0.0.0:9090" "/data/clouisled.db" "" "" "/opt/clouisle/vmlinux" "/opt/clouisle/images"
    "/run/clouisle/firecracker" None None None.
End NodeCli.

(** ** What the host says of itself *)

(** A file that can be read, a command that ran: its status and its output. *)
Record HostFacts : Set := host_facts {
  etc_hostname : option string;
  node_name : option string;
  parallelism : option Z;
  proc_meminfo : option string;
  dev_kvm : bool;
  uname_r : option (bool * Bytes);
  firecracker_v : option (bool * Bytes) }.

Definition nonempty (s : string) : option string := if is_empty s then None else Some s.

Definition hostname (content : option string) : option string := content ≫= nonempty ∘ trim.

(** [find_map]: the first line that is a total with a number. *)
Fixpoint find_map {X Y} (f : X → option Y) (l : list X) : option Y :=
  match l with
  | [] => None
  | x :: l' => match f x with Some y => Some y | None => find_map f l' end
  end.
Definition mem_total (line : string) : option Z :=
  v ← strip_prefix "MemTotal:" line;
  w ← head (split_whitespace v);
  parse_unsigned u64_max w.
Definition host_memory_mb (meminfo : option string) : Z :=
  match meminfo ≫= find_map mem_total ∘ lines with Some kb => kb / 1024 | None => 1024 end.

(** [kernel_version] and [firecracker_version]. *)
Definition tool_version (output : option (bool * Bytes)) : string :=
  default "unknown"%string
    ('(success, out) ← output;
     if success : bool then nonempty (trim (from_utf8_lossy out)) else None).

(** ** The configuration *)

Definition node_id_of (c : NodeCli.t) (h : HostFacts) : string :=
  match nonempty (NodeCli.node_id c) with
  | Some i => i
  | None => match node_name h ≫= nonempty with
            | Some i => i
            | None => default "clouisled"%string (hostname (etc_hostname h))
            end
  end.
Definition hostname_of (c : NodeCli.t) (h : HostFacts) : string :=
  match nonempty (NodeCli.hostname c) with
  | Some i => i
  | None => default (node_id_of c h) (hostname (etc_hostname h))
  end.

Definition agent_config (c : NodeCli.t) (h : HostFacts) : NodeAgentConfig :=
  node_config (node_id_of c h) (hostname_of c h)
    (match parallelism h with Some n => as_u16 n | None => 1 end)
    (host_memory_mb (proc_meminfo h)) (100 * 1024) (dev_kvm h) (tool_version (uname_r h))
    (tool_version (firecracker_v h)) ∅ true 3.

Definition node_store (c : NodeCli.t) : StoreKind :=
  if is_postgres (NodeCli.db c) then Postgres (NodeCli.db c) else Sqlite (NodeCli.db c).
Definition node_firecracker (c : NodeCli.t) : FirecrackerConfig :=
  let d := default_config in
  fc_config (firecracker_bin d) (jailer_bin d) (NodeCli.kernel c) (NodeCli.api_socket_dir c)
    (use_jailer d) (enable_seccomp d) (NodeCli.images_dir c) (rootfs_work_dir d).

(** The heartbeat that is spawned, if any: the base URL, the key and the endpoint. *)
Definition heartbeat_args (c : NodeCli.t) : string + option (string * string * string) :=
  match NodeCli.control_plane c with
  | None => inr None
  | Some base =>
    match NodeCli.control_plane_api_key c with
    | None => inl "--control-plane-api-key is required"%string
    | Some key =>
      match NodeCli.advertised_endpoint c with
      | None => inl "--advertised-endpoint is required"%string
      | Some e => inr (Some (base, key, e))
      end
    end
  end.

(** ** One round of [heartbeat_loop] *)

Definition heartbeat_url (base : string) : string := trim_end_matches "/" base +:+ "/api/v1/nodes".

Section heartbeat.
Context {SM : Semaphore} {ST : Store} {V : Vmm} {OS : Os} {H : Sha256} {HO : HashOrder}
  {K : Sockets} (cfg : NodeAgentConfig).

Definition registration (endpoint : string) (t : Z) (s : Node) : RegisteredNode.t :=
  let hb := heartbeat cfg s in
  RegisteredNode.mk (node_info cfg) endpoint NodeStatus.Ready (timestamp_millis t)
    (allocated_vcpu hb) (allocated_memory_mb hb) (Z.of_nat (length (running_sandboxes hb)))
    (running_sandboxes hb).
End heartbeat.

(** ** Properties *)

(** The node runs sandbox [i]. *)
Definition runs {SM : Semaphore} {ST : Store} {V : Vmm} {OS : Os} {K : Sockets}
    (s : Node) (i : string) : Prop :=
  ∃ k sb, sandboxes s !! k = Some sb ∧ Sandbox.id sb = i ∧ SandboxStatus.is_active (Sandbox.status sb) = true.

Lemma runs_reported {SM : Semaphore} {ST : Store} {V : Vmm} {OS : Os} {K : Sockets} {HO : HashOrder}
    {HOO : HashOrderOk HO} cfg e t (s : Node) i :
  i ∈ RegisteredNode.sandbox_ids (registration cfg e t s) ↔ runs s i.
Proof.
  simpl. rewrite list_elem_of_fmap. unfold runs, values. split.
  - intros (sb & -> & [Hsb%list_elem_of_In Hac]%list_elem_of_In%filter_In).
    apply list_elem_of_fmap in Hsb as ([k b] & -> & Hk%elem_of_entries). by exists k, b.
  - intros (k & sb & Hk & <- & Hac). exists sb. split; [done|]. apply list_elem_of_In, filter_In.
    split; [|done]. apply list_elem_of_In, list_elem_of_fmap. exists (k, sb). split; [done|].
    by apply elem_of_entries.
Qed.

(** C21: the report of a node and the rows of the control plane.  However the store behaves
    and whatever the answer, no row appears or disappears, and each row is as it was or is
    what the report makes of it: a row of a sandbox that runs on the node names the node; an
    active row of the node that does not run there any more is an error, with the reason.
    Only the reservation of a row given up in this way may be dropped.  While the store is
    up ([StoreUp]) a report that is answered with 204 has settled every row and dropped
    every such reservation, and a report that is not (one without an endpoint, say) has
    changed nothing. *)
Theorem heartbeat_settles_rows {S : Semaphore} {ST : Store} {STO : StoreOk ST} {V : Vmm}
    {O : Os} {D : Deployment} {DO : ClockOk D} {A : Agent} {H : Sha256} {HO : HashOrder} {CE : CloudEnv}
    {SM : Semaphore} {NST : Store} {NV : Vmm} {NO : Os} {K : Sockets} {NHO : HashOrder}
    {NHOO : HashOrderOk NHO}
    (cfg : NodeAgentConfig) endpoint t (node : Node (SM := SM) (ST := NST) (V := NV) (OS := NO)) s :
  rows_ok s →
  let '(s', r) := register_node (registration cfg endpoint t node) s in
  let mine c := Sandbox.node_id c = Some (cfg_node_id cfg) ∧
                SandboxStatus.is_active (Sandbox.status c) = true in
  let lost i c := ¬ runs node i ∧ mine c ∧ abs (sto s') !! i = Some (given_up c) in
  dom (abs (sto s')) = dom (abs (sto s)) ∧
  (∀ i c, abs (sto s) !! i = Some c →
    abs (sto s') !! i = Some c ∨
    runs node i ∧ abs (sto s') !! i = Some (set_node (Some (cfg_node_id cfg)) c) ∨ lost i c) ∧
  (∀ i, AppState.reservations s' !! i = AppState.reservations s !! i ∨
    AppState.reservations s' !! i = None ∧ ∃ c, abs (sto s) !! i = Some c ∧ lost i c) ∧
  (StoreUp ST →
   match r with
   | Ok code => code = 204 ∧
     ∀ i c, abs (sto s) !! i = Some c →
       (runs node i → abs (sto s') !! i = Some (set_node (Some (cfg_node_id cfg)) c)) ∧
       (¬ runs node i → mine c → lost i c ∧ AppState.reservations s' !! i = None) ∧
       (¬ runs node i → ¬ mine c → abs (sto s') !! i = Some c)
   | _ => abs (sto s') = abs (sto s) ∧ AppState.reservations s' = AppState.reservations s
   end).
Proof.
  intros Hs. set (n := registration cfg endpoint t node).
  pose proof (λ SU : StoreUp ST, register_settles n s Hs) as Hr.
  destruct (register_midway n s Hs s (midway_start n s Hs)) as [[_ Hdom Hrow Hres] _].
  assert (∀ i c, abs (sto s) !! i = Some c → (Sandbox.id c ∈ RegisteredNode.sandbox_ids n ↔ runs node i) ∧
    (lost_row n c = true ↔ (Sandbox.node_id c = Some (cfg_node_id cfg) ∧
      SandboxStatus.is_active (Sandbox.status c) = true) ∧ ¬ runs node i)) as Hcase.
  { intros i c Hc. destruct (proj2 Hs i c Hc) as [_ Hid].
    pose proof (runs_reported cfg endpoint t node i) as Hrun. fold n in Hrun.
    unfold lost_row. rewrite !andb_true_iff, negb_true_iff, bool_decide_eq_true, bool_decide_eq_false, Hid, Hrun.
    done. }
  destruct (register_node n s) as [s' r]. simpl in Hdom, Hrow, Hres. split_and!; [done| | |].
  - intros i c Hc. destruct (Hcase i c Hc) as [Hi Hl]. destruct (Hrow i c Hc) as [?|Hr']; [by left|].
    revert Hr'. unfold settled. case_bool_decide; [intros; right; left; naive_solver|].
    destruct (lost_row n c); naive_solver.
  - intros i. destruct (Hres i) as [?|(Hn & c & Hc & Hl & Hs')]; [by left|right]. split; [done|].
    exists c. split; [done|]. rewrite settled_lost in Hs' by done. by apply (Hcase i c Hc) in Hl as [??].
  - intros SU. specialize (Hr SU). destruct r as [code|e|]; [|done..].
    destruct Hr as (-> & _ & Ha & Hv). split; [done|]. intros i c Hc. destruct (Hcase i c Hc) as [Hi Hl].
    specialize (Hv i). rewrite Hc in Hv. simpl in Hv. rewrite Ha, lookup_fmap, Hc. simpl. unfold settled.
    destruct (lost_row n c); case_bool_decide; naive_solver.
Qed.

(** The node runs the first sandbox and has lost the second. *)
Module HeartbeatDemo.
Import ControlDemo.
#[local] Instance silent : Sockets := {|
  FrameClient.net := list Frame.t; sock := ();
  tcp_connect _ _ n := (n, None);
  resolve _ n := (n, inl "no names"%string);
  sock_write _ _ n := (n, Ok ());
  sock_read _ n := (n, Err (CodecError.Io "closed"%string));
  clock_ms _ := 0; sleep_ms _ n := n;
  FrameClient.fresh_uuid n := (n, "exec-1"%string);
  frame_text _ := "frame"%string |}.

Definition row (id : string) (node : option string) : Sandbox.t :=
  Sandbox.mk id SandboxSpec.default SandboxStatus.Running 0 0 None None VmmMeta.default None node.
Definition config : NodeAgentConfig :=
  agent_config (NodeCli.default)
    (host_facts (Some "node-1") None (Some 4) (Some "MemTotal:  4194304 kB"%string) true None None).
Definition node : Node :=
  node_state (ResourcePool.new cap 2) {["sb-1"%string := row "sb-1" None]} ∅ (MemoryVmm.mk ∅ ∅ : world)
    InMemoryStore.new (manager_new, [] : os_world) ([] : FrameClient.net) 0.
Definition rows : InMemoryStore.t :=
  InMemoryStore.mk {["sb-1"%string := row "sb-1" None; "sb-2"%string := row "sb-2" (Some "node-1"%string)]} ∅ ∅.
Definition api : AppState :=
  Control.boot cap 2 0 300 rows (MemoryVmm.mk ∅ ∅ : world) ([] : os_world) (true : guest)
    (E2bControlPlane.control_plane_new (∅ : disk)) Authenticator.new_production.

Lemma api_rows : rows_ok api.
Proof.
  split.
  - change (map_Forall (λ _, times_in_range) (InMemoryStore.sandboxes rows)).
    apply map_Forall_insert_2; [|apply map_Forall_singleton];
      unfold times_in_range, in_range, dt_min, dt_max, ns_per_sec; simpl; split_and!; (lia || done).
  - change (map_Forall row_ok (content <$> InMemoryStore.sandboxes rows)).
    unfold rows. simpl. rewrite fmap_insert, map_fmap_singleton.
    apply map_Forall_insert_2; [|apply map_Forall_singleton];
      (split; [exact CapacityDemo.default_typed|done]).
Qed.

Definition answered : AppState * result Z := register_node (registration config "http://n:9090" 0 node) api.
Definition first : Sandbox.t := content (row "sb-1" None).
Definition second : Sandbox.t := content (row "sb-2" (Some "node-1"%string)).

Lemma heartbeat_settles_rows_witness :
  answered.2 = Ok 204 ∧
  abs (sto answered.1) !! "sb-1"%string = Some (set_node (Some "node-1"%string) first) ∧
  abs (sto answered.1) !! "sb-2"%string = Some (given_up second).
Proof.
  assert (answered.2 = Ok 204) as Hok by (vm_compute; reflexivity).
  split; [exact Hok|].
  pose proof (heartbeat_settles_rows config "http://n:9090" 0 node api api_rows) as Hp.
  fold answered in Hp. revert Hp Hok. destruct answered as [s [code|e|]]; [|intros _ Hok; discriminate Hok..].
  intros (_ & _ & _ & Hp) _. specialize (Hp InMemoryStore.impl_up). destruct Hp as [_ Hp]. split.
  - refine (proj1 (Hp "sb-1"%string first eq_refl) _).
    exists "sb-1"%string, (row "sb-1" None). split; [reflexivity|]. split; reflexivity.
  - refine (proj2 (proj2 (proj1 (proj1 (proj2 (Hp "sb-2"%string second eq_refl)) _ _)))).
    + intros (k & sb & Hk & Hid & _).
      change (({["sb-1"%string := row "sb-1" None]} : gmap string Sandbox.t) !! k = Some sb) in Hk.
      apply lookup_singleton_Some in Hk as [_ <-]. discriminate Hid.
    + split; reflexivity.
Defined.
End HeartbeatDemo.
