(* ===== verification/NodeLaws.v ===== *)
(** * What the node daemon guarantees

    The tables of a [NodeAgent] agree and its pool is never overdrawn, whatever calls
    are made and wherever they fail; a creation either leaves a running sandbox or
    nothing; recovery keeps exactly the machines that rows account for. *)

From S2P Require Import Prelude Core SandboxModel Admission Vmm Proto Digest Json Dns Net Store.
From S2P Require Import Guest GuestAgent FrameClient NodeAgent.

(** The readings of the clock are dates. *)
Class NodeEnvOk (NE : NodeEnv) : Prop := { wall_in_range n : in_range (wall n) }.

Section laws.
Context {SM : Semaphore} {SMO : SemaphoreOk SM} {ST : Store} {STO : StoreOk ST} {V : Vmm}
  {DV : Discovery V} {OS : Os} {H : Sha256} {C : Chrono} {CO : ChronoOk C} {HO : HashOrder}
  {K : Sockets} {NE : NodeEnv} {NEO : NodeEnvOk NE} (cfg : NodeAgentConfig) (patience : nat).

Abbreviation nd := (stres Node halt).

(** ** Calls outside the tables *)

Definition typed (sb : Sandbox.t) : Prop :=
  Resources.well_typed (SandboxSpec.resources (Sandbox.spec sb)).
Definition rows_typed (s : Node) : Prop :=
  store_wf (n_sto s) ∧ map_Forall (λ _, typed) (abs (n_sto s)).
Definition tables (s : Node) : ResourcePool.t SM * gmap string Sandbox.t * gmap string Reservation.t :=
  (n_pool s, sandboxes s, reservations s).

(** [m] changes no table and keeps the rows typed; its values satisfy [Q]. *)
Definition steady {A} (m : nd A) (Q : A → Prop) : Prop := ∀ s,
  rows_typed s →
  tables (m s).1 = tables s ∧ rows_typed (m s).1 ∧ ∀ a, (m s).2 = Ok a → Q a.

Lemma steady_weaken {A} (m : nd A) (Q Q' : A → Prop) :
  steady m Q → (∀ a, Q a → Q' a) → steady m Q'.
Proof. intros Hm HQ s Hs. destruct (Hm s Hs) as (H1 & H2 & H3). eauto 10. Qed.
Lemma steady_ret {A} (a : A) (Q : A → Prop) : Q a → steady (mret a) Q.
Proof. intros Ha s Hs. split_and!; [done..|]. by intros b [= <-]. Qed.
Lemma steady_fail {A} e (Q : A → Prop) : steady (fail e) Q.
Proof. by intros s Hs. Qed.
Lemma steady_lift {A} (r : res halt A) (Q : A → Prop) : (∀ a, r = Ok a → Q a) → steady (lift r) Q.
Proof. intros Hr s Hs. split_and!; [done..|]. by apply Hr. Qed.
Lemma steady_gets {A} (f : Node → A) : steady (gets f) (λ _, True).
Proof. by intros s Hs. Qed.
Lemma steady_bind {A B} (m : nd A) (k : A → nd B) (P : A → Prop) (Q : B → Prop) :
  steady m P → (∀ a, P a → steady (k a) Q) → steady (m ≫= k) Q.
Proof.
  intros Hm Hk s Hs. unfold mbind, stres_bind. destruct (Hm s Hs) as (H1 & H2 & H3).
  destruct (m s) as [s1 [a|e|]]; simpl in *; [|by split_and!..].
  destruct (Hk a (H3 a eq_refl) s1 H2) as (H4 & H5 & H6). split_and!; [congruence|done..].
Qed.
Lemma steady_when b (m : nd ()) : steady m (λ _, True) → steady (when b m) (λ _, True).
Proof. intros Hm. destruct b; [done|by apply steady_ret]. Qed.
Lemma steady_quiet {A} (m : nd A) Q : steady m Q → steady (quiet m) (λ _, True).
Proof.
  intros Hm s Hs. destruct (Hm s Hs) as (H1 & H2 & _). unfold quiet.
  by destruct (m s) as [s1 [a|[e|]|]].
Qed.
Lemma steady_unwrap_or {A} (a : A) (m : nd A) (Q : A → Prop) :
  Q a → steady m Q → steady (unwrap_or a m) Q.
Proof.
  intros Ha Hm s Hs. destruct (Hm s Hs) as (H1 & H2 & H3). unfold unwrap_or.
  destruct (m s) as [s1 [b|[e|]|]]; simpl in *; split_and!; try done. by intros b [= <-].
Qed.

Lemma steady_now : steady now in_range.
Proof. intros s Hs. split_and!; [done..|]. intros t [= <-]. apply wall_in_range. Qed.
Lemma steady_vmm {A} (f : world → world * outcome A) : steady (vmm_call f) (λ _, True).
Proof. intros s Hs. unfold vmm_call. by destruct (f (n_vm s)). Qed.
Lemma steady_fw {A} (f : fw A) : steady (fw_call f) (λ _, True).
Proof. intros s Hs. unfold fw_call. by destruct (f (n_fw s)). Qed.
Lemma steady_wire {A} (f : stres net ClouisleError.t A) : steady (wire_call f) (λ _, True).
Proof. intros s Hs. unfold wire_call. by destruct (f (n_wire s)). Qed.
Lemma steady_clock : steady clock_now (λ _, True).
Proof. by intros s Hs. Qed.

Lemma typed_updates m m' id f r :
  map_Forall (λ _, typed) m → (∀ c, Sandbox.spec (f c) = Sandbox.spec c) →
  updates m m' id f r → map_Forall (λ _, typed) m'.
Proof.
  intros Hm Hf [[_ ->]|Hu]; [done|]. revert Hu. unfold updated.
  destruct (m !! id) as [c|] eqn:Hc; [|by intros [-> _]]. intros [-> _]. apply map_Forall_insert_2; [|done]. unfold typed. rewrite Hf. by apply (Hm id).
Qed.
Lemma steady_update (f : store → store * StoreResult ()) id g :
  (∀ s, store_wf s → let '(s', r) := f s in store_wf s' ∧ updates (abs s) (abs s') id g r) →
  (∀ c, Sandbox.spec (g c) = Sandbox.spec c) → steady (store_call f) (λ _, True).
Proof.
  intros Hf Hg s [Hwf Ht]. unfold store_call. specialize (Hf _ Hwf).
  destruct (f (n_sto s)) as [x r]. destruct Hf as [Hwf' Hu]. split_and!; [done| |done].
  split; [done|]. simpl. by eapply typed_updates.
Qed.
Lemma steady_status id st m : steady (store_status id st m) (λ _, True).
Proof.
  apply (steady_bind _ _ in_range); [apply steady_now|]. intros t Ht.
  apply (steady_update _ id (set_message m ∘ set_status st)); [|done].
  intros s Hs. by apply status_message_law.
Qed.
Lemma steady_meta id v : steady (store_meta id v) (λ _, True).
Proof.
  apply (steady_bind _ _ in_range); [apply steady_now|]. intros t Ht.
  apply (steady_update _ id (λ c, Sandbox.set_vmm_meta c v)); [|done].
  intros s Hs. by apply vmm_meta_law.
Qed.
Lemma steady_expiry id e :
  (∀ t, e = Some t → in_range t) → steady (store_expiry id e) (λ _, True).
Proof.
  intros He. apply (steady_bind _ _ in_range); [apply steady_now|]. intros t Ht.
  apply (steady_update _ id (set_expiry (timestamp_millis <$> e))); [|done].
  intros s Hs. by apply expiry_law.
Qed.
Lemma steady_create sb :
  typed sb → times_in_range sb → steady (store_call (create_sandbox sb)) (λ _, True).
Proof.
  intros Hty Hr s [Hwf Ht]. pose proof (create_law sb (n_sto s) Hwf Hr) as Hl. unfold store_call.
  destruct (create_sandbox sb (n_sto s)) as [x r]. destruct Hl as [Hwf' Hl].
  split_and!; [done| |done]. split; [done|]. simpl. destruct Hl as [[_ ->]|Hl]; [done|].
  destruct (abs (n_sto s) !! Sandbox.id sb).
  - by destruct Hl as [-> _].
  - destruct Hl as [-> _]. by apply map_Forall_insert_2.
Qed.
Lemma steady_delete id : steady (store_call (delete_sandbox id)) (λ _, True).
Proof.
  intros s [Hwf Ht]. pose proof (delete_law id (n_sto s) Hwf) as Hl. unfold store_call.
  destruct (delete_sandbox id (n_sto s)) as [x r]. destruct Hl as [Hwf' Hl].
  split_and!; [done| |done]. split; [done|]. simpl. destruct Hl as [[_ ->]|Hl]; [done|].
  destruct (abs (n_sto s) !! id).
  - destruct Hl as [-> _]. by apply map_Forall_delete.
  - by destruct Hl as [-> _].
Qed.
Lemma steady_list t : steady (store_call (list_sandboxes None t)) (Forall typed).
Proof.
  intros s [Hwf Ht]. pose proof (list_law None t (n_sto s) Hwf) as Hl. unfold store_call.
  destruct (list_sandboxes None t (n_sto s)) as [x r].
  destruct Hl as (Hwf' & Ha & Hl). split_and!; [done| |].
  - split; [done|]. simpl. by rewrite Ha.
  - destruct Hl as [Hflt|(l & -> & _ & Hp)]; [by destruct r|]. intros b [= <-]. apply Forall_forall. intros sb Hsb.
    assert (content sb ∈ content <$> l) as Hin by by apply list_elem_of_fmap_2.
    rewrite Hp in Hin. apply list_elem_of_In, filter_In in Hin as [Hin _].
    apply list_elem_of_In, list_elem_of_fmap in Hin as ([k c] & Hc & Hin).
    apply elem_of_map_to_list in Hin. specialize (Ht _ _ Hin). simpl in *. by rewrite <-Hc in Ht.
Qed.

Hint Resolve steady_now steady_vmm steady_fw steady_wire steady_clock steady_status steady_meta
  steady_delete steady_list steady_fail steady_quiet steady_when : node.

(** A bind whose first part promises nothing about its value. *)
Lemma steady_seq {A B} (m : nd A) (k : A → nd B) P (Q : B → Prop) :
  steady m P → (∀ a, steady (k a) Q) → steady (m ≫= k) Q.
Proof. intros Hm Hk. eapply steady_bind; eauto. Qed.

Lemma steady_executable id text : steady (executable id text) (λ _, True).
Proof. by intros s Hs. Qed.
Lemma steady_connection id : steady (guest_frame_connection id) (λ _, True).
Proof. eapply steady_seq; [apply steady_executable|]. eauto with node. Qed.
Lemma steady_file_op id f : steady (file_op id f) (λ _, True).
Proof.
  eapply steady_seq; [apply steady_connection|]. intros k.
  eapply steady_seq; [apply steady_wire|]. intros [].
  eapply steady_seq; [apply steady_wire|]. intros r.
  destruct r; first [by apply steady_ret|apply steady_fail].
Qed.
Lemma steady_events fuel k id : steady (all_events fuel k id) (λ _, True).
Proof. intros s Hs. unfold all_events. by destruct (exec_events _ _ _ _ _ _) as [n [ev r]]. Qed.
Lemma steady_send_exec k argv env cwd t : steady (send_exec k argv env cwd t) (λ _, True).
Proof.
  eapply steady_seq; [apply steady_wire|]. intros id. eapply steady_seq; [apply steady_wire|].
  intros []. by apply steady_ret.
Qed.
Lemma steady_exec id argv env cwd t : steady (exec_command patience id argv env cwd t) (λ _, True).
Proof.
  unfold exec_command. destruct argv as [|a argv]; [apply steady_fail|].
  eapply steady_seq; [apply steady_connection|]. intros k.
  eapply steady_seq; [apply steady_send_exec|]. intros eid.
  eapply steady_seq; [apply steady_clock|]. intros t0.
  eapply steady_seq; [apply steady_events|]. intros events.
  eapply steady_seq; [apply steady_clock|]. intros t1.
  destruct (output_of _ _) as [[out err] code]. by apply steady_ret.
Qed.
Lemma steady_open_exec id argv env cwd t : steady (open_exec id argv env cwd t) (λ _, True).
Proof.
  unfold open_exec. destruct argv as [|a argv]; [apply steady_fail|].
  eapply steady_seq; [apply steady_executable|]. intros sb.
  eapply steady_seq; [apply steady_wire|]. intros k.
  eapply steady_seq; [apply steady_send_exec|]. intros eid. by apply steady_ret.
Qed.
Lemma steady_start id fid argv env cwd t stdin pty :
  steady (process_start id fid argv env cwd t stdin pty) (λ _, True).
Proof.
  unfold process_start. destruct argv as [|a argv]; [apply steady_fail|].
  eapply steady_seq; [apply steady_connection|]. intros k.
  eapply steady_seq; [apply steady_wire|]. intros []. eapply steady_seq; [apply steady_wire|].
  intros f. destruct f; try apply steady_fail. destruct (String.eqb _ _);
    [by apply steady_ret|apply steady_fail].
Qed.
Lemma steady_control id fid op : steady (process_control id fid op) (λ _, True).
Proof. eapply steady_seq; [apply steady_connection|]. intros k. apply steady_wire. Qed.
Lemma steady_ping id : steady (ping_guest id) (λ _, True).
Proof.
  eapply steady_seq; [apply steady_file_op|]. intros f. destruct f; first
    [by apply steady_ret|apply steady_fail].
Qed.

(** ** The invariant *)

Definition weigh (d : ResourcePool.dim) (r : Reservation.t) : Z :=
  ResourcePool.amount d (Reservation.resources r).
Definition typed_res (r : Reservation.t) : Prop := Resources.well_typed (Reservation.resources r).

(** [held] are the reservations in the locals of running calls. *)
Record sound (held : list Reservation.t) (s : Node) : Prop := {
  sound_rows : rows_typed s;
  sound_table : map_Forall (λ _, typed_res) (reservations s);
  sound_held : Forall typed_res held;
  sound_left d : 0 <= ResourcePool.remaining d (n_pool s);
  sound_sum d : ResourcePool.remaining d (n_pool s) + sum_map (weigh d) (reservations s)
    + sum_by (weigh d) held = ResourcePool.limit (capacity cfg) MAX_SANDBOXES d }.

(** Each sandbox holds what its spec asks for, and nothing else is held. *)
Definition demand (sb : Sandbox.t) : Resources.t := SandboxSpec.resources (Sandbox.spec sb).
Definition agree (s : Node) : Prop :=
  demand <$> sandboxes s = Reservation.resources <$> reservations s.

Lemma sound_frame held s s' : tables s' = tables s → rows_typed s' → sound held s → sound held s'.
Proof.
  unfold tables. intros [= Hp Hsb Hr] Hrows [_ H2 H3 H4 H5]. split; rewrite ?Hp, ?Hr; done.
Qed.
Lemma agree_frame s s' : tables s' = tables s → agree s → agree s'.
Proof. unfold tables, agree. by intros [= Hp -> ->]. Qed.

Lemma sound_drop r held s : sound (r :: held) s → sound held (drop_reservation (Some r) s).
Proof.
  intros [H1 H2 H3 H4 H5]. apply Forall_cons in H3 as [Hr H3]. destruct r as [r].
  split; [done|done|done| |]; intros d; simpl; rewrite ResourcePool.drop_remaining by done.
  - pose proof (ResourcePool.amount_nonneg d r Hr). specialize (H4 d). lia.
  - specialize (H5 d). unfold sum_by in *. csimpl in *. unfold weigh in *. simpl in *. lia.
Qed.

(** An entry that leaves the table is in nobody's hands until it is dropped. *)
Lemma sound_taken id held s :
  sound held s →
  sound (match reservations s !! id with Some r => r :: held | None => held end)
    (set_reservations (delete id (reservations s)) s).
Proof.
  intros [H1 H2 H3 H4 H5]. destruct (reservations s !! id) as [r|] eqn:Hr.
  - split; simpl; [done|by apply map_Forall_delete| |done|].
    + constructor; [by apply (H2 id)|done].
    + intros d. specialize (H5 d). rewrite (sum_map_delete _ _ _ _ Hr) in H5.
      unfold sum_by in *. csimpl. lia.
  - rewrite (delete_id _ _ Hr). by split.
Qed.
Lemma sound_remove id held s : sound held s → sound held (remove_reservation id s).
Proof.
  intros Hs. apply (sound_taken id) in Hs. unfold remove_reservation.
  destruct (reservations s !! id) as [r|]; [by apply sound_drop|done].
Qed.
Lemma sound_insert id r held s : sound (r :: held) s → sound held (insert_reservation id r s).
Proof.
  intros Hs. apply (sound_taken id) in Hs. unfold insert_reservation.
  set (old := reservations s !! id) in *.
  assert (sound (match old with Some r' => r' :: held | None => held end)
    (set_reservations (<[id:=r]> (reservations s)) s)) as Hi.
  { rewrite <-insert_delete_eq. destruct Hs as [H1 H2 H3 H4 H5].
    assert (typed_res r ∧ Forall typed_res (match old with Some r' => r' :: held | None => held end))
      as [Hr Ht].
    { destruct old; [apply Forall_cons in H3 as [? H3]; apply Forall_cons in H3 as [? H3]; split;
        [done|by constructor]|by apply Forall_cons in H3]. }
    split; simpl; [done| |done|done|].
    - by apply map_Forall_insert_2.
    - intros d. specialize (H5 d). simpl in H5. rewrite sum_map_insert by apply lookup_delete_eq.
      destruct old; unfold sum_by in *; csimpl in *; lia. }
  destruct old; [by apply sound_drop|done].
Qed.
Lemma sound_admit sp held s :
  Resources.well_typed (SandboxSpec.resources sp) → sound held s →
  match admit_spec sp s with
  | (s', Ok r) => r = Reservation.mk (SandboxSpec.resources sp) ∧ sound (r :: held) s' ∧
      sandboxes s' = sandboxes s ∧ reservations s' = reservations s
  | (s', _) => sound held s' ∧ sandboxes s' = sandboxes s ∧ reservations s' = reservations s
  end.
Proof.
  intros Hsp [H1 H2 H3 H4 H5]. unfold admit_spec.
  pose proof (λ d, ResourcePool.admit_remaining (n_pool s) sp d Hsp) as Hr.
  pose proof (ResourcePool.admit_result (n_pool s) sp) as Hres.
  destruct (ResourcePool.admit_ (n_pool s) sp) as [p [r|e|]] eqn:Hadm; simpl in *; [| |done].
  - assert (ResourcePool.fits (n_pool s) (SandboxSpec.resources sp)) as Hfit.
    { apply ResourcePool.admit_ok_iff. by rewrite Hadm. }
    subst r. split_and!; [done| |done|done].
    split; simpl; [done|done|by constructor| |]; intros d; specialize (Hr d).
    + specialize (Hfit d). lia.
    + specialize (H5 d). unfold sum_by in *. csimpl. unfold weigh at 2. simpl. lia.
  - split; [|done]. split; simpl; [done|done|done| |]; intros d; specialize (Hr d);
      [specialize (H4 d)|specialize (H5 d)]; lia.
Qed.

Definition good (held : list Reservation.t) (s : Node) : Prop := sound held s ∧ agree s.

(** Whatever the outcome. *)
Definition keeps {A} (held : list Reservation.t) (m : nd A) (Q : A → Prop) : Prop := ∀ s,
  good held s → good held (m s).1 ∧ ∀ a, (m s).2 = Ok a → Q a.

Lemma keeps_steady {A} held (m : nd A) Q : steady m Q → keeps held m Q.
Proof.
  intros Hm s [Hs Ha]. destruct (Hm s (sound_rows _ _ Hs)) as (H1 & H2 & H3). split; [|done].
  split; [by eapply sound_frame|by eapply agree_frame].
Qed.
Lemma keeps_good_ret {A} held (a : A) (Q : A → Prop) : Q a → keeps held (mret a) Q.
Proof. intros HQ. by apply keeps_steady, steady_ret. Qed.
Lemma keeps_good_bind {A B} held (m : nd A) (k : A → nd B) (P : A → Prop) (Q : B → Prop) :
  keeps held m P → (∀ a, P a → keeps held (k a) Q) → keeps held (m ≫= k) Q.
Proof.
  intros Hm Hk s Hs. unfold mbind, stres_bind. destruct (Hm s Hs) as (H1 & H2).
  destruct (m s) as [s1 [a|e|]]; simpl in *; [|by split..]. by apply Hk; [apply H2|].
Qed.
Lemma keeps_seq {A B} held (m : nd A) (k : A → nd B) P (Q : B → Prop) :
  keeps held m P → (∀ a, keeps held (k a) Q) → keeps held (m ≫= k) Q.
Proof. intros Hm Hk. eapply keeps_good_bind; eauto. Qed.
Lemma keeps_good_when held b (m : nd ()) : keeps held m (λ _, True) → keeps held (when b m) (λ _, True).
Proof. intros Hm. destruct b; [done|by apply keeps_good_ret]. Qed.

(** Both tables lose the entry. *)
Definition remove_both (id : string) : nd () :=
  _ ← modify (remove_sandbox id); modify (remove_reservation id).
Lemma removed id s :
  n_pool (remove_reservation id s)
  = (match reservations s !! id with Some r => ResourcePool.drop (n_pool s) r | None => n_pool s end)
  ∧ sandboxes (remove_reservation id s) = sandboxes s
  ∧ reservations (remove_reservation id s) = delete id (reservations s).
Proof. unfold remove_reservation. by destruct (reservations s !! id). Qed.
Lemma sound_sandboxes held m s : sound held s → sound held (set_sandboxes m s).
Proof. intros [H1 H2 H3 H4 H5]. by split. Qed.
Lemma keeps_remove_both held id : keeps held (remove_both id) (λ _, True).
Proof.
  intros s [Hs Ha]. split; [|done]. unfold remove_both, mbind, stres_bind, modify. simpl. split.
  - by apply sound_remove, sound_sandboxes.
  - destruct (removed id (remove_sandbox id s)) as (_ & H1 & H2). unfold agree in *.
    rewrite H1, H2. simpl. by rewrite !fmap_delete, Ha.
Qed.

(** ... or gain it. *)
Definition insert_both (id : string) (sb : Sandbox.t) (r : Reservation.t) : nd () :=
  _ ← modify (insert_sandbox id sb); modify (insert_reservation id r).
Lemma inserted id r s :
  sandboxes (insert_reservation id r s) = sandboxes s
  ∧ reservations (insert_reservation id r s) = <[id := r]> (reservations s)
  ∧ n_sto (insert_reservation id r s) = n_sto s ∧ n_vm (insert_reservation id r s) = n_vm s.
Proof. unfold insert_reservation. by destruct (reservations s !! id). Qed.
Lemma good_insert held id sb r s :
  demand sb = Reservation.resources r → good (r :: held) s → good held (insert_reservation id r (insert_sandbox id sb s)).
Proof.
  intros Hd [Hs Ha]. split; [by apply sound_insert, sound_sandboxes|].
  destruct (inserted id r (insert_sandbox id sb s)) as (H1 & H2 & _). unfold agree in *.
  rewrite H1, H2. simpl. by rewrite !fmap_insert, Ha, Hd.
Qed.

(** ** Creation *)

Lemma keeps_fail_creation held id h e : keeps held (fail_creation cfg id h e) (λ _, True).
Proof.
  unfold fail_creation. eapply keeps_seq; [eapply keeps_steady; eauto with node|]. intros [].
  eapply keeps_seq; [apply keeps_steady; destruct h; [eauto with node|by apply (steady_ret _ (λ _, True))]|].
  intros []. eapply keeps_seq; [eapply keeps_steady; eauto with node|]. intros [].
  apply keeps_remove_both.
Qed.

(** Calls that keep the invariant and, when they succeed, have not touched the
    tables. *)
Definition careful {A} (held : list Reservation.t) (m : nd A) (Q : A → Prop) : Prop := ∀ s,
  good held s →
  good held (m s).1 ∧ ∀ a, (m s).2 = Ok a → Q a ∧ tables (m s).1 = tables s.

Lemma careful_keeps {A} held (m : nd A) Q : careful held m Q → keeps held m Q.
Proof. intros Hm s Hs. destruct (Hm s Hs) as (H1 & H2). split; [done|]. intros a Ha. by apply H2. Qed.
Lemma careful_steady {A} held (m : nd A) Q : steady m Q → careful held m Q.
Proof.
  intros Hm s Hs. destruct (keeps_steady held m Q Hm s Hs) as [H1 H2]. split; [done|].
  intros a Ha. split; [by apply H2|]. by apply Hm, Hs.
Qed.
Lemma careful_ret {A} held (a : A) (Q : A → Prop) : Q a → careful held (mret a) Q.
Proof. intros HQ. by apply careful_steady, steady_ret. Qed.
Lemma careful_bind {A B} held (m : nd A) (k : A → nd B) (P : A → Prop) (Q : B → Prop) :
  careful held m P → (∀ a, P a → careful held (k a) Q) → careful held (m ≫= k) Q.
Proof.
  intros Hm Hk s Hs. unfold mbind, stres_bind. destruct (Hm s Hs) as (H1 & H2).
  destruct (m s) as [s1 [a|e|]]; simpl in *; [|by split..]. destruct (H2 a eq_refl) as [Ha Ht].
  destruct (Hk a Ha s1 H1) as [H3 H4]. split; [done|]. intros b Hb. destruct (H4 b Hb) as [? Ht'].
  split; [done|]. congruence.
Qed.
Lemma careful_seq {A B} held (m : nd A) (k : A → nd B) P (Q : B → Prop) :
  careful held m P → (∀ a, careful held (k a) Q) → careful held (m ≫= k) Q.
Proof. intros Hm Hk. eapply careful_bind; eauto. Qed.
Lemma careful_when held b (m : nd ()) :
  careful held m (λ _, True) → careful held (when b m) (λ _, True).
Proof. intros Hm. destruct b; [done|by apply careful_ret]. Qed.
Lemma careful_step {A} held id h (m : nd A) Q : steady m Q → careful held (step cfg id h m) Q.
Proof.
  intros Hm s Hs. destruct (careful_steady held m Q Hm s Hs) as (H1 & H2). unfold step, or_else.
  destruct (m s) as [s1 [a|[e|]|]]; simpl in *; try done.
  destruct (keeps_fail_creation held id h e s1 H1) as [H3 _].
  unfold mbind, stres_bind, raise, fail. by destruct (fail_creation cfg id h e s1) as [s2 []].
Qed.

(** What [enter] answers. *)
Definition entered (id : string) (spec : SandboxSpec.t) (sb : Sandbox.t) : Prop :=
  Sandbox.id sb = id ∧ Sandbox.spec sb = spec ∧ Sandbox.status sb = SandboxStatus.Starting ∧
  Sandbox.node_id sb = Some (cfg_node_id cfg) ∧ Sandbox.expires_at sb = None.

Lemma steady_enter id spec :
  Resources.well_typed (SandboxSpec.resources spec) → steady (enter cfg id spec) (entered id spec).
Proof.
  intros Hsp. eapply steady_bind; [apply steady_now|]. intros t Ht.
  eapply steady_bind; [apply steady_now|]. intros t1 Ht1. simpl.
  apply (steady_bind _ _ (λ sb, entered id spec sb ∧ typed sb ∧ times_in_range sb)).
  { apply steady_lift. intros sb [= <-]. split; [by split_and!|]. split; [done|].
    split; [done|]. by split. }
  intros sb (He & Hty & Hr). eapply steady_seq; [by apply steady_create|]. intros [].
  by apply steady_ret.
Qed.

Lemma careful_boot held id sb :
  careful held (boot cfg id sb) (λ x, x.2 = Sandbox.set_vmm_meta sb (meta_of x.1)).
Proof.
  unfold boot.
  eapply careful_seq; [apply careful_when, careful_step; eapply steady_seq;
    [apply steady_fw|intros; by apply (steady_ret _ (λ _, True))]|]. intros [].
  eapply careful_seq; [apply careful_step, steady_vmm|]. intros h.
  eapply careful_seq; [apply careful_step, steady_meta|]. intros [].
  eapply careful_seq; [apply careful_step, steady_vmm|]. intros [].
  eapply careful_seq; [apply careful_when, careful_step, steady_fw|]. intros [].
  by apply careful_ret.
Qed.

(** Calls that do not talk to a guest never wait for one. *)
Definition prompt {A} (m : nd A) : Prop := ∀ s, (m s).2 ≠ Err Waiting.

Lemma prompt_ret {A} (a : A) : prompt (mret a). Proof. done. Qed.
Lemma prompt_raise {A} e : prompt (raise (A := A) e). Proof. done. Qed.
Lemma prompt_bind {A B} (m : nd A) (k : A → nd B) : prompt m → (∀ a, prompt (k a)) → prompt (m ≫= k).
Proof.
  intros Hm Hk s. unfold mbind, stres_bind. specialize (Hm s).
  destruct (m s) as [s1 [a|e|]]; simpl in *; [apply Hk|by intros [= ->]|done].
Qed.
Lemma prompt_quiet {A} (m : nd A) : prompt m → prompt (quiet m).
Proof. intros Hm s. specialize (Hm s). unfold quiet. by destruct (m s) as [s1 [a|[e|]|]]. Qed.
Lemma prompt_when b (m : nd ()) : prompt m → prompt (when b m).
Proof. by destruct b. Qed.
Lemma prompt_answer {A} (r : result A) : prompt (lift (answer r)).
Proof. intros s. by destruct r. Qed.
Lemma prompt_store {A} (f : store → store * StoreResult A) : prompt (store_call f).
Proof. intros s. unfold store_call. by destruct (f (n_sto s)) as [x []]. Qed.
Lemma prompt_vmm {A} (f : world → world * outcome A) : prompt (vmm_call f).
Proof. intros s. unfold vmm_call. by destruct (f (n_vm s)) as [x []]. Qed.
Lemma prompt_fw {A} (f : fw A) : prompt (fw_call f).
Proof. intros s. unfold fw_call. by destruct (f (n_fw s)) as [x []]. Qed.
Lemma prompt_now : prompt now. Proof. done. Qed.
Lemma prompt_modify f : prompt (modify f). Proof. done. Qed.
Hint Resolve prompt_ret prompt_raise prompt_bind prompt_quiet prompt_when prompt_answer prompt_store
  prompt_vmm prompt_fw prompt_now prompt_modify : node.

Lemma prompt_fail_creation id h e : prompt (fail_creation cfg id h e).
Proof. unfold fail_creation, store_status. destruct h; auto 12 with node. Qed.
Lemma prompt_step {A} id h (m : nd A) : prompt m → prompt (step cfg id h m).
Proof.
  intros Hm s. specialize (Hm s). unfold step, or_else. destruct (m s) as [s1 [a|[e|]|]]; try done.
  apply (prompt_bind (fail_creation cfg id h e)); [apply prompt_fail_creation|auto with node].
Qed.
Hint Resolve prompt_step : node.
Lemma prompt_boot id spec : prompt (sb ← enter cfg id spec; boot cfg id sb).
Proof.
  apply prompt_bind; [unfold enter; auto 12 with node|]. intros sb. unfold boot, store_meta.
  auto 20 with node.
Qed.

Lemma good_drop r held s : good (r :: held) s → good held (drop_reservation (Some r) s).
Proof. intros [Hs Ha]. split; [by apply sound_drop|done]. Qed.

Lemma good_holding {A} r held (m : nd A) Q s :
  keeps (r :: held) m Q → prompt m → good (r :: held) s →
  match holding r m s with
  | (s', Ok a) => good (r :: held) s' ∧ Q a
  | (s', _) => good held s'
  end.
Proof.
  intros Hm Hp Hs. destruct (Hm s Hs) as (H1 & H2). specialize (Hp s). unfold holding.
  destruct (m s) as [s1 [a|[e|]|]]; simpl in *; [by split; [|apply H2]|by apply good_drop|done|
    by apply good_drop].
Qed.

Lemma careful_secrets held id h l : careful held (write_secrets cfg id h l) (λ _, True).
Proof.
  induction l as [|x l IH]; simpl; [by apply careful_ret|].
  eapply careful_seq; [apply careful_step, steady_file_op|]. done.
Qed.
Lemma careful_prepare held id h sp : careful held (prepare_guest cfg patience id h sp) (λ _, True).
Proof.
  unfold prepare_guest.
  eapply careful_seq; [apply careful_step, steady_ping|]. intros [].
  eapply careful_seq; [apply careful_secrets|]. intros [].
  destruct (SandboxSpec.init_command sp) as [|a argv]; [by apply careful_ret|].
  apply careful_step. eapply steady_seq; [apply steady_exec|]. intros r.
  destruct (_ =? _); [by apply steady_ret|apply steady_fail].
Qed.

Lemma hello_in_range sb t sb' :
  in_range t → Sandbox.status sb = SandboxStatus.Starting → Sandbox.expires_at sb = None →
  Sandbox.transition sb SandboxEvent.AgentHello t = Ok sb' →
  ∀ e, Sandbox.expires_at sb' = Some e → in_range e.
Proof.
  intros Ht Hst He. unfold Sandbox.transition. rewrite Hst. simpl. unfold mbind, res_bind. simpl.
  destruct (SandboxSpec.ttl_secs (Sandbox.spec sb)) as [ttl|]; [|by intros [= <-]].
  destruct (dt_add_seconds t (as_i64 ttl)) as [e'|] eqn:Hd; [|done]. intros [= <-] e [= <-].
  by eapply dt_add_range.
Qed.

Lemma good_admit sp held s :
  Resources.well_typed (SandboxSpec.resources sp) → good held s →
  match admit_spec sp s with
  | (s', Ok r) => good (r :: held) s' ∧ r = Reservation.mk (SandboxSpec.resources sp)
  | (s', _) => good held s'
  end.
Proof.
  intros Hsp [Hs Ha]. pose proof (sound_admit sp held s Hsp Hs) as Had.
  destruct (admit_spec sp s) as [s' [r|e|]].
  1: destruct Had as (Hr & Hso & H1 & H2). 2-3: destruct Had as (Hso & H1 & H2).
  1: split; [|done]. all: split; [done|]; unfold agree in *; congruence.
Qed.

(** Replacing the record of a sandbox that is in the tables. *)
Lemma good_replace held id sb s :
  good held s → demand <$> (sandboxes s !! id) = Some (demand sb) →
  good held (insert_sandbox id sb s).
Proof.
  intros [Hs Ha] Hid. split; [by apply sound_sandboxes|]. unfold agree in *. simpl.
  rewrite fmap_insert, insert_id; [done|]. by rewrite lookup_fmap.
Qed.


Lemma careful_greet held id spec h sb :
  Sandbox.status sb = SandboxStatus.Starting → Sandbox.expires_at sb = None →
  careful held (greet cfg patience id spec h sb) (λ sb', Sandbox.spec sb' = Sandbox.spec sb).
Proof.
  intros Hst He. unfold greet.
  eapply careful_seq; [apply careful_when, careful_prepare|]. intros [].
  eapply careful_bind; [apply careful_steady, steady_now|]. intros t Ht. simpl in Ht.
  eapply careful_bind; [apply careful_steady, (steady_lift _ (λ sb', Sandbox.transition sb SandboxEvent.AgentHello t = Ok sb'))|].
  { intros sb' Hsb. by destruct (Sandbox.transition _ _ _); simplify_eq/=. }
  intros sb' Htr. eapply careful_seq; [apply careful_step, steady_status|]. intros [].
  eapply careful_seq; [apply careful_step, steady_expiry; by eapply hello_in_range|]. intros [].
  apply careful_ret. destruct (Sandbox.step_frame sb sb') as (_ & Hsp & _); [exists SandboxEvent.AgentHello, t; exact Htr|done].
Qed.

(** A booted sandbox. *)
Definition booted (id : string) (spec : SandboxSpec.t) (x : VmHandle.t * Sandbox.t) : Prop :=
  Sandbox.id x.2 = id ∧ Sandbox.spec x.2 = spec ∧ Sandbox.status x.2 = SandboxStatus.Starting ∧
  Sandbox.node_id x.2 = Some (cfg_node_id cfg) ∧ Sandbox.expires_at x.2 = None ∧
  Sandbox.vmm_meta x.2 = meta_of x.1.
Lemma careful_launch held id spec :
  Resources.well_typed (SandboxSpec.resources spec) →
  careful held (sb ← enter cfg id spec; boot cfg id sb) (booted id spec).
Proof.
  intros Hsp. eapply careful_bind; [by apply careful_steady, steady_enter|]. intros sb Hsb.
  intros s Hs. destruct (careful_boot held id sb s Hs) as [H1 H2]. split; [done|].
  intros [h b] Hb. destruct (H2 _ Hb) as [Heq Ht]. split; [|done]. simpl in Heq. subst b.
  destruct Hsb as (? & ? & ? & ? & ?). by repeat split.
Qed.

(** The end of a creation: the guest is prepared and the sandbox announced. *)
Lemma keeps_announce id spec reservation x :
  booted id spec x → reservation = Reservation.mk (SandboxSpec.resources spec) →
  ∀ s, good [reservation] s →
  good [] (announce cfg patience id spec reservation x s).1.
Proof.
  intros (_ & Hsp & Hst & _ & He & _) Hr s Hs. destruct x as [h sb]. simpl in *. unfold announce.
  unfold mbind at 1, stres_bind at 1, modify at 1. unfold mbind at 1, stres_bind at 1, modify at 1.
  apply (good_insert [] id (set_status SandboxStatus.Running sb)) in Hs;
    [|subst; by unfold demand].
  set (s1 := insert_reservation _ _ _) in *.
  assert (demand <$> sandboxes s1 !! id = Some (demand sb)) as Hid.
  { unfold s1. rewrite (proj1 (inserted _ _ _)). simpl. by rewrite lookup_insert_eq. }
  clearbody s1. destruct (careful_greet [] id spec h sb Hst He s1 Hs) as [Hg Ht].
  unfold mbind, stres_bind. destruct (greet cfg patience id spec h sb s1) as [s2 [b|e|]]; [|done..].
  destruct (Ht b eq_refl) as [Hb Ht']. apply good_replace; [done|]. simpl in Ht'.
  unfold tables in Ht'. injection Ht' as _ -> _. rewrite Hid. unfold demand. by rewrite Hb.
Qed.

Lemma keeps_create id spec :
  Resources.well_typed (SandboxSpec.resources spec) →
  keeps [] (create_sandbox_with_id cfg patience id spec) (λ _, True).
Proof.
  intros Hsp s Hs. split; [|done]. unfold create_sandbox_with_id.
  destruct (is_empty id); [done|]. destruct (SandboxSpec.validate spec) as [u|e|]; [|done..].
  pose proof (good_admit spec [] s Hsp Hs) as Ha. unfold mbind at 1, stres_bind at 1.
  destruct (admit_spec spec s) as [s1 [r|e|]]; [|done..]. destruct Ha as [Ha Hr].
  unfold mbind at 1, stres_bind at 1.
  pose proof (good_holding r [] (sb ← enter cfg id spec; boot cfg id sb) _ s1
    (careful_keeps _ _ _ (careful_launch [r] id spec Hsp)) (prompt_boot id spec) Ha) as Hh.
  destruct (holding r _ s1) as [s2 [x|e|]]; [|done..]. destruct Hh as [Hg Hb].
  by apply keeps_announce.
Qed.

(** ** Deletion and recovery *)

Lemma good_removed held id s : good held s → good held (remove_reservation id (remove_sandbox id s)).
Proof. apply (keeps_remove_both held id). Qed.
Lemma removals_commute id s :
  remove_sandbox id (remove_reservation id s) = remove_reservation id (remove_sandbox id s).
Proof. unfold remove_reservation. simpl. by destruct (reservations s !! id). Qed.
Lemma insertions_commute id sb r s :
  insert_sandbox id sb (insert_reservation id r s) = insert_reservation id r (insert_sandbox id sb s).
Proof. unfold insert_reservation. simpl. by destruct (reservations s !! id). Qed.

Lemma keeps_delete held id : keeps held (delete_sandbox_here cfg id) (λ _, True).
Proof.
  unfold delete_sandbox_here.
  eapply keeps_seq; [apply keeps_steady with (Q := λ _, True); by intros s Hs|]. intros sb.
  eapply keeps_seq; [apply keeps_steady, steady_vmm|]. intros [].
  eapply keeps_seq; [apply keeps_steady, steady_delete|]. intros [].
  intros s Hs. apply (good_removed _ id) in Hs. unfold mbind, stres_bind, modify.
  apply (keeps_steady held); [|done]. eauto with node.
Qed.

Lemma keeps_orphans held ids l : keeps held (stop_orphans ids l) (λ _, True).
Proof.
  induction l as [|h l IH]; simpl; [by apply keeps_good_ret|].
  eapply keeps_seq; [|by intros; apply IH]. case_bool_decide; [by apply (keeps_good_ret _ _ (λ _, True))|].
  eapply keeps_steady. eauto with node.
Qed.

Lemma keeps_adopt held sb r s :
  r = Reservation.mk (demand sb) → good (r :: held) s → good held (adopt sb r s).1.
Proof.
  intros Hr Hs. unfold adopt. unfold mbind at 1, stres_bind at 1, modify at 1.
  unfold mbind at 1, stres_bind at 1, modify at 1. rewrite insertions_commute.
  apply (good_insert held (Sandbox.id sb)
    (if bool_decide (Sandbox.status sb = SandboxStatus.Starting)
     then set_status SandboxStatus.Running sb else sb)) in Hs; [|subst; by case_bool_decide].
  set (s1 := insert_reservation _ _ _) in *. clearbody s1.
  match goal with |- good held ((?m ≫= ?k) s1).1 =>
    assert (keeps held m (λ _, True)) as Hm; [|assert (∀ a, keeps held (k a) (λ _, True)) as Hk;
      [|exact (proj1 (keeps_seq held m k (λ _, True) (λ _, True) Hm Hk s1 Hs))]] end.
  - destruct (_ && _); [|by apply keeps_good_ret].
    intros s2 Hs2. destruct (keeps_steady held _ _ (steady_ping (Sandbox.id sb)) s2 Hs2) as [H1 _].
    by destruct (ping_guest (Sandbox.id sb) s2) as [s3 [u|[e|]|]].
  - intros [e|].
    + eapply keeps_seq; [eapply keeps_steady; unfold forget; eauto with node|]. intros [] s2 Hs2.
      unfold mbind, stres_bind, modify. simpl. by split; [apply good_removed|].
    + eapply keeps_seq; [eapply keeps_steady; eauto with node|]. intros []. by apply keeps_good_ret.
Qed.

Lemma keeps_recover_one held sb : typed sb → keeps held (recover_one sb) (λ _, True).
Proof.
  intros Hsb. unfold recover_one.
  eapply keeps_seq; [eapply keeps_steady, (steady_unwrap_or _ _ (λ _, True)); [done|apply steady_vmm]|].
  intros []; simpl.
  - eapply keeps_seq; [apply keeps_steady, steady_gets|]. intros [] s Hs; [by split|].
    split; [|done]. pose proof (good_admit (Sandbox.spec sb) held s Hsb Hs) as Ha.
    destruct (admit_spec (Sandbox.spec sb) s) as [s1 [r|[e|]|]]; [destruct Ha; by apply keeps_adopt|done..].
  - eapply keeps_seq; [eapply keeps_steady; unfold forget; eauto with node|]. intros [] s Hs.
    unfold mbind, stres_bind, modify. rewrite removals_commute. by split; [apply good_removed|].
Qed.

Lemma keeps_recover held l : Forall typed l → keeps held (recover l) (λ _, True).
Proof.
  induction 1 as [|sb l Hsb _ IH]; simpl; [by apply keeps_good_ret|].
  eapply keeps_seq; [by apply keeps_recover_one|]. intros n.
  eapply keeps_seq; [apply IH|]. intros m. by apply keeps_good_ret.
Qed.

Lemma keeps_reconcile held : keeps held (reconcile_from_store cfg) (λ _, True).
Proof.
  unfold reconcile_from_store. eapply keeps_seq; [apply keeps_steady, steady_now|]. intros t.
  eapply keeps_good_bind; [apply keeps_steady, steady_unwrap_or; [by apply Forall_nil|apply steady_list]|].
  intros all Hall. eapply keeps_seq; [eapply keeps_steady, (steady_unwrap_or _ _ (λ _, True)); [done|apply steady_vmm]|].
  intros hs. eapply keeps_seq; [apply keeps_orphans|]. intros []. apply keeps_recover.
  apply Forall_forall. intros sb Hsb. apply list_elem_of_In, filter_In in Hsb as [Hsb _].
  by eapply Forall_forall in Hall; [|apply list_elem_of_In].
Qed.

(** ** Calls *)

Inductive node_call : Type :=
| NCreate (id : string) (spec : SandboxSpec.t)
| NDelete (id : string)
| NReconcile
| NFile (id : string) (f : Frame.t)
| NExec (id : string) (argv : list string) (env : gmap string string) (cwd : option string) (t : Z)
| NExecStream (id : string) (argv : list string) (env : gmap string string) (cwd : option string)
    (t : Z) (send : list NodeExecEvent → bool)
| NStart (id fid : string) (argv : list string) (env : gmap string string) (cwd : option string)
    (t : Z) (stdin : bool) (pty : option PtyConfig.t)
| NControl (id fid : string) (op : ProcessControlOp).

Definition after_node_call (c : node_call) (s : Node) : Node :=
  match c with
  | NCreate id spec => (create_sandbox_with_id cfg patience id spec s).1
  | NDelete id => (delete_sandbox_here cfg id s).1
  | NReconcile => (reconcile_from_store cfg s).1
  | NFile id f => (file_op id f s).1
  | NExec id argv env cwd t => (exec_command patience id argv env cwd t s).1
  | NExecStream id argv env cwd t send => (exec_command_stream patience id argv env cwd t send s).1
  | NStart id fid argv env cwd t stdin pty => (process_start id fid argv env cwd t stdin pty s).1
  | NControl id fid op => (process_control id fid op s).1
  end.

(** The numbers of a spec fit their types. *)
Definition call_typed (c : node_call) : Prop :=
  match c with NCreate _ spec => Resources.well_typed (SandboxSpec.resources spec) | _ => True end.

Lemma good_wire n s : good [] s → good [] (set_wire n s).
Proof. intros [[H1 H2 H3 H4 H5] Ha]. split; [by split|done]. Qed.
Lemma after_call_good c s : call_typed c → good [] s → good [] (after_node_call c s).
Proof.
  intros Hc Hs. destruct c; simpl.
  - by apply keeps_create.
  - by apply (keeps_delete []).
  - by apply (keeps_reconcile []).
  - by apply (keeps_steady [] _ _ (steady_file_op _ _)).
  - by apply (keeps_steady [] _ _ (steady_exec _ _ _ _ _)).
  - pose proof (keeps_steady [] _ _ (steady_open_exec id argv env cwd t) s Hs) as [Hg _].
    unfold exec_command_stream. destruct (open_exec id argv env cwd t s) as [s1 [[k eid]|e|]]; [|done..].
    destruct (exec_events _ _ _ _ _ _) as [n r]. exact (good_wire n s1 Hg).
  - by apply (keeps_steady [] _ _ (steady_start _ _ _ _ _ _ _ _)).
  - by apply (keeps_steady [] _ _ (steady_control _ _ _)).
Qed.

Lemma capacity_typed : in_u16 (total_vcpu cfg) → Resources.well_typed (capacity cfg).
Proof.
  intros Hv. split; [done|]. unfold in_u32, u32_max, capacity, as_u32. simpl.
  pose proof (Z.mod_pos_bound (total_memory_mb cfg) 4294967296 ltac:(lia)).
  pose proof (Z.mod_pos_bound (total_disk_mb cfg) 4294967296 ltac:(lia)). lia.
Qed.

Lemma new_node_good w st f n :
  in_u16 (total_vcpu cfg) → store_wf st → map_Forall (λ _, typed) (abs st) →
  good [] (new_node cfg w st f n).
Proof.
  intros Hv Hwf Ht.
  destruct (ResourcePool.inv_initial (capacity cfg) MAX_SANDBOXES (capacity_typed Hv)
    ltac:(unfold MAX_SANDBOXES; lia)) as [_ Hl Hh _ _]. simpl in *.
  split; [|done]. split; [done|done|done|apply Hl|]. intros d. rewrite <-(Hh d).
  unfold sum_map, sum_by. simpl. rewrite map_fold_empty. lia.
Qed.

Definition run_calls (calls : list node_call) (s : Node) : Node :=
  foldl (λ s c, after_node_call c s) s calls.

Lemma run_calls_good calls s : Forall call_typed calls → good [] s → good [] (run_calls calls s).
Proof.
  intros Hc. revert s. induction Hc as [|c calls Hc _ IH]; intros s Hs; simpl; [done|].
  by apply IH, after_call_good.
Qed.

Lemma sum_map_values {A} `{!HashOrderOk HO} (f : A → Z) (m : gmap string A) :
  sum_by f (values m) = sum_map f m.
Proof.
  unfold sum_map, values. rewrite map_fold_foldr.
  rewrite (sum_by_perm f _ (map_to_list m).*2) by by rewrite entries_perm.
  unfold sum_by. induction (map_to_list m) as [|[k x] l IH]; csimpl; [done|]. by rewrite IH.
Qed.
Lemma sum_map_fmap {A B} (f : B → Z) (g : A → B) (m : gmap string A) :
  sum_map f (g <$> m) = sum_map (f ∘ g) m.
Proof. unfold sum_map. by rewrite map_fold_fmap. Qed.

Lemma sum_map_nonneg {A} (f : A → Z) (m : gmap string A) :
  (∀ id x, m !! id = Some x → 0 <= f x) → 0 <= sum_map f m.
Proof.
  induction m as [|id x m Hn IH] using map_ind; intros Hf.
  - unfold sum_map. by rewrite map_fold_empty.
  - rewrite sum_map_insert by done. pose proof (Hf id x (lookup_insert_eq _ _ _)).
    enough (0 <= sum_map f m) by lia. apply IH. intros k y Hy. apply (Hf k).
    rewrite lookup_insert_ne; [done|]. congruence.
Qed.

(** What the sandboxes ask for is what the pool has handed out. *)
Lemma demand_reserved `{!HashOrderOk HO} d s :
  agree s →
  sum_by (λ sb, ResourcePool.amount d (demand sb)) (values (sandboxes s))
  = sum_map (weigh d) (reservations s).
Proof.
  intros Ha. rewrite sum_map_values.
  change (sum_map (ResourcePool.amount d ∘ demand) (sandboxes s)
    = sum_map (ResourcePool.amount d ∘ Reservation.resources) (reservations s)).
  by rewrite <-!sum_map_fmap, Ha.
Qed.

(** C5: The books of a node are exact.  Whatever calls it serves (creations,
    deletions, recoveries, guest calls), with whatever specs and wherever they fail,
    the sandboxes it lists are those it holds reservations for, each for what its
    spec asks; what is free and what is reserved add up to the capacity in every
    dimension, so it never commits more than it has; and a heartbeat reports exactly
    the processors and the memory that are handed out, its 16-bit and 64-bit sums
    not wrapping. *)
Theorem node_accounts_are_exact `{!HashOrderOk HO} calls w st f n :
  in_u16 (total_vcpu cfg) → store_wf st → map_Forall (λ _, typed) (abs st) →
  Forall call_typed calls →
  let s := run_calls calls (new_node cfg w st f n) in
  let free d := ResourcePool.remaining d (n_pool s) in
  let limit := ResourcePool.limit (capacity cfg) MAX_SANDBOXES in
  demand <$> sandboxes s = Reservation.resources <$> reservations s ∧
  (∀ d, 0 <= free d ∧ free d + sum_map (weigh d) (reservations s) = limit d) ∧
  allocated_vcpu (heartbeat cfg s) = limit ResourcePool.Vcpu - free ResourcePool.Vcpu ∧
  allocated_memory_mb (heartbeat cfg s) = limit ResourcePool.Mem - free ResourcePool.Mem.
Proof.
  intros Hv Hwf Ht Hc s free limit.
  assert (good [] s) as [[_ _ _ Hl Hs] Ha] by (apply run_calls_good; [done|by apply new_node_good]).
  assert (∀ d, 0 <= free d ∧ free d + sum_map (weigh d) (reservations s) = limit d) as Hb.
  { intros d. specialize (Hl d). specialize (Hs d). unfold sum_by in Hs. simpl in Hs.
    unfold free, limit. lia. }
  split; [done|]. split; [done|].
  destruct (capacity_typed Hv) as (Hcv & Hcm & _).
  pose proof (demand_reserved ResourcePool.Vcpu s Ha) as Hdv.
  pose proof (demand_reserved ResourcePool.Mem s Ha) as Hdm.
  assert (∀ d, 0 <= sum_map (weigh d) (reservations s)) as Hpos.
  { intros d. apply sum_map_nonneg. intros id r Hr.
    assert (typed_res r) as Hty
      by (eapply (sound_table [] s); [by apply run_calls_good, new_node_good|done]).
    by apply ResourcePool.amount_nonneg. }
  destruct (Hb ResourcePool.Vcpu) as [Hv0 Hv1]. destruct (Hb ResourcePool.Mem) as [Hm0 Hm1].
  pose proof (Hpos ResourcePool.Vcpu). pose proof (Hpos ResourcePool.Mem).
  unfold heartbeat. simpl. change (λ sb, Resources.vcpu (SandboxSpec.resources (Sandbox.spec sb)))
    with (λ sb, ResourcePool.amount ResourcePool.Vcpu (demand sb)).
  change (λ sb, Resources.memory_mb (SandboxSpec.resources (Sandbox.spec sb)))
    with (λ sb, ResourcePool.amount ResourcePool.Mem (demand sb)).
  rewrite Hdv, Hdm. unfold in_u16, in_u32, u16_max, u32_max in *.
  change (limit ResourcePool.Vcpu) with (Resources.vcpu (capacity cfg)) in *.
  change (limit ResourcePool.Mem) with (Resources.memory_mb (capacity cfg)) in *.
  change (Resources.vcpu (capacity cfg)) with (total_vcpu cfg) in *.
  change (Resources.memory_mb (capacity cfg)) with (as_u32 (total_memory_mb cfg)) in *.
  unfold as_u16. rewrite !Z.mod_small by lia. lia.
Qed.

(** ** The outcome of a creation *)

Section outcome.
Context {VO : VmmOk V} (s0 : Node) (id : string) (spec : SandboxSpec.t).

(** A creation of [id] that started in [s0] is under way: nothing but its own entries
    has changed.  [h] is its machine, once it exists, and [m] what its row says of
    it. *)
Record underway (h : option VmHandle.t) (m : option VmmMeta.t) (s : Node) : Prop := {
  uw_wf : store_wf (n_sto s);
  uw_sandboxes : delete id (sandboxes s) = sandboxes s0;
  uw_reservations : delete id (reservations s) = reservations s0;
  uw_row : ∃ c, abs (n_sto s) = <[id := c]> (abs (n_sto s0)) ∧ Sandbox.id c = id ∧
    Sandbox.spec c = spec ∧ Sandbox.node_id c = Some (cfg_node_id cfg) ∧
    ∀ v, m = Some v → Sandbox.vmm_meta c = v;
  uw_live : match h with
            | Some h => VmHandle.id h = id ∧ live (n_vm s) = {[id]} ∪ live (n_vm s0)
            | None => live (n_vm s) ⊆ live (n_vm s0)
            end }.

(** It has failed with [e]: only its row is left, with the reason unless the store was not
    up, and no machine but one that could not be stopped. *)
Definition says (e : ClouisleError.t) (c : Sandbox.t) : Prop :=
  StoreUp ST → Sandbox.status c = SandboxStatus.Error ∧
    Sandbox.terminal_message c = Some (ClouisleError.message e).
Definition stopped_by (s : Node) : Prop :=
  live (n_vm s) ⊆ {[id]} ∪ live (n_vm s0) ∧ (StopTotal V → live (n_vm s) ⊆ live (n_vm s0)).
Definition undone (e : ClouisleError.t) (s : Node) : Prop :=
  sandboxes s = sandboxes s0 ∧ reservations s = reservations s0 ∧ stopped_by s ∧
  ∃ c, abs (n_sto s) = <[id := c]> (abs (n_sto s0)) ∧ says e c.

(** From [P]: an answer satisfies [Q], a failure undoes everything. *)
Definition undoes {A} (P : Node → Prop) (m : nd A) (Q : A → Node → Prop) : Prop := ∀ s,
  P s →
  match m s with
  | (s', Ok a) => Q a s'
  | (s', Err (Failed e)) => undone e s'
  | _ => True
  end.

Lemma undoes_bind {A B} P (m : nd A) (k : A → nd B) R Q :
  undoes P m R → (∀ a, undoes (R a) (k a) Q) → undoes P (m ≫= k) Q.
Proof.
  intros Hm Hk s Hs. unfold mbind, stres_bind. specialize (Hm s Hs).
  destruct (m s) as [s1 [a|[e|]|]]; try done. by apply Hk.
Qed.
Lemma undoes_ret {A} (P : Node → Prop) (a : A) : undoes P (mret a) (λ b s, b = a ∧ P s).
Proof. by intros s Hs. Qed.
Lemma undoes_weaken {A} (P P' : Node → Prop) (m : nd A) (Q Q' : A → Node → Prop) :
  undoes P m Q → (∀ s, P' s → P s) → (∀ a s, Q a s → Q' a s) → undoes P' m Q'.
Proof.
  intros Hm HP HQ s Hs. specialize (Hm s (HP s Hs)). destruct (m s) as [s1 [a|[e|]|]]; try done. auto.
Qed.

(** Calls that keep the creation under way. *)
Definition inert {A} (m : nd A) : Prop := ∀ s,
  n_sto (m s).1 = n_sto s ∧ sandboxes (m s).1 = sandboxes s ∧
  reservations (m s).1 = reservations s ∧ live (n_vm (m s).1) = live (n_vm s).
Lemma inert_underway {A} (m : nd A) h v s : inert m → underway h v s → underway h v (m s).1.
Proof.
  intros Hm [H1 H2 H3 H4 H5]. destruct (Hm s) as (E1 & E2 & E3 & E4).
  split; rewrite ?E1, ?E2, ?E3, ?E4; done.
Qed.
Lemma inert_ret {A} (a : A) : inert (mret a). Proof. done. Qed.
Lemma inert_fail {A} e : inert (fail (A := A) e). Proof. done. Qed.
Lemma inert_lift {A} (r : res halt A) : inert (lift r). Proof. done. Qed.
Lemma inert_bind {A B} (m : nd A) (k : A → nd B) : inert m → (∀ a, inert (k a)) → inert (m ≫= k).
Proof.
  intros Hm Hk s. unfold mbind, stres_bind. destruct (Hm s) as (E1 & E2 & E3 & E4).
  destruct (m s) as [s1 [a|e|]]; simpl in *; [|done..].
  destruct (Hk a s1) as (F1 & F2 & F3 & F4). split_and!; congruence.
Qed.
Lemma inert_now : inert now. Proof. done. Qed.
Lemma inert_clock : inert clock_now. Proof. done. Qed.
Lemma inert_fw {A} (f : fw A) : inert (fw_call f).
Proof. intros s. unfold fw_call. by destruct (f (n_fw s)). Qed.
Lemma inert_wire {A} (f : stres net ClouisleError.t A) : inert (wire_call f).
Proof. intros s. unfold wire_call. by destruct (f (n_wire s)). Qed.
Lemma inert_vmm {A} (f : world → world * outcome A) :
  (∀ w, live (f w).1 = live w) → inert (vmm_call f).
Proof. intros Hf s. unfold vmm_call. specialize (Hf (n_vm s)). by destruct (f (n_vm s)). Qed.
Lemma inert_executable text : inert (executable id text). Proof. done. Qed.
Hint Resolve inert_ret inert_fail inert_lift inert_bind inert_now inert_clock inert_fw inert_wire
  inert_executable : node.
Lemma inert_file_op f : inert (file_op id f).
Proof.
  unfold file_op, guest_frame_connection. apply inert_bind; [auto with node|]. intros k.
  apply inert_bind; [auto with node|]. intros []. apply inert_bind; [auto with node|]. intros r.
  destruct r; auto with node.
Qed.
Lemma inert_events fuel k eid : inert (all_events fuel k eid).
Proof. intros s. unfold all_events. by destruct (exec_events _ _ _ _ _ _) as [n [ev r]]. Qed.
Lemma inert_exec argv env cwd t : inert (exec_command patience id argv env cwd t).
Proof.
  unfold exec_command, guest_frame_connection, send_exec. destruct argv as [|a argv]; [auto with node|].
  apply inert_bind; [auto with node|]. intros k. apply inert_bind; [auto with node|]. intros eid.
  apply inert_bind; [auto with node|]. intros t0. apply inert_bind; [apply inert_events|]. intros ev.
  apply inert_bind; [auto with node|]. intros t1. destruct (output_of _ _) as [[out err] code].
  auto with node.
Qed.

(** A write to the row: done, or the store is not up and nothing has changed. *)
Definition written (g : Sandbox.t → Sandbox.t) h v v' (s : Node) (x : Node * res halt ()) : Prop :=
  x.2 = Ok () ∧ underway h v' x.1 ∧
  (∃ c, abs (n_sto s) = <[id := c]> (abs (n_sto s0)) ∧
    abs (n_sto x.1) = <[id := g c]> (abs (n_sto s0))) ∨
  (∃ e, x.2 = Err (Failed e)) ∧ underway h v x.1 ∧ ¬ StoreUp ST.

Lemma underway_write (f : store → store * StoreResult ()) g h v v' s :
  (∀ x, store_wf x → let '(x', r) := f x in store_wf x' ∧ updates (abs x) (abs x') id g r) →
  (StoreUp ST → ∀ x, store_wf x → ¬ fault (f x).2) →
  (∀ c, Sandbox.id (g c) = Sandbox.id c ∧ Sandbox.spec (g c) = Sandbox.spec c ∧
     Sandbox.node_id (g c) = Sandbox.node_id c) →
  (∀ c, (∀ w, v = Some w → Sandbox.vmm_meta c = w) → ∀ w, v' = Some w → Sandbox.vmm_meta (g c) = w) →
  underway h v s → written g h v v' s (store_call f s).
Proof.
  intros Hf Hup Hg Hv [H1 H2 H3 (c & Hc & Hi & Hsp & Hn & Hm) H5]. unfold store_call.
  specialize (Hf _ H1). pose proof (λ SU, Hup SU _ H1) as Hno.
  destruct (f (n_sto s)) as [x r]. destruct Hf as [Hwf [[Hflt Ha]|Hu]].
  - right. destruct r as [|e|]; [done| |done]. simpl. split_and!; [by eexists| |tauto].
    split; simpl; try done. exists c. by rewrite Ha.
  - left. unfold updated in Hu. rewrite Hc, lookup_insert_eq in Hu. destruct Hu as [Ha ->].
    rewrite insert_insert_eq in Ha. destruct (Hg c) as (G1 & G2 & G3). split_and!; [done| |by exists c].
    split; simpl; [done|done|done| |done]. exists (g c). rewrite G1, G2, G3. split_and!; try done.
    by apply Hv.
Qed.

Lemma underway_status st msg h v s :
  underway h v s → written (set_message msg ∘ set_status st) h v v s (store_status id st msg s).
Proof.
  intros Hu. apply (underway_write (update_sandbox_status_message id st msg (wall (n_reads s)))
    (set_message msg ∘ set_status st) h v v (now s).1); [| |done|done|].
  - intros x Hx. by apply status_message_law; [|apply wall_in_range].
  - intros SU x Hx. by apply status_message_up.
  - by apply (inert_underway now).
Qed.

(** The three parts of the roll-back: the reason, the machine, the network. *)
Lemma quiet_status_undone h v e s :
  underway h v s →
  ∃ s1, quiet (store_status id SandboxStatus.Error (Some (ClouisleError.message e))) s = (s1, Ok ()) ∧
    underway h v s1 ∧ ∃ c, abs (n_sto s1) = <[id := c]> (abs (n_sto s0)) ∧ says e c.
Proof.
  intros Hu. unfold quiet.
  destruct (underway_status SandboxStatus.Error (Some (ClouisleError.message e)) h v s Hu)
    as [(Hok & Hu1 & c & _ & Hc)|([e' Hf] & Hu1 & Hno)]; destruct (store_status _ _ _ s) as [s1 r1]; simpl in *.
  - subst r1. exists s1. split_and!; [done..|]. eexists. by split.
  - destruct (uw_row _ _ _ Hu1) as (c & Hc & _). exists s1. subst r1.
    split_and!; [done..|]. exists c. split; [done|]. by intros SU.
Qed.
Lemma quiet_stop_undone h v s1 :
  underway h v s1 →
  ∃ w, (match h with Some h => quiet (vmm_call (stop h StopMode.Force)) | None => mret () end) s1
    = (set_vm w s1, Ok ()) ∧ stopped_by (set_vm w s1).
Proof.
  intros [_ _ _ _ H5]. destruct h as [h|].
  - destruct H5 as [Hid Hlive]. unfold quiet, vmm_call.
    pose proof (λ SX : StopTotal V, force_stop_ok h (n_vm s1)) as Hf.
    pose proof (stop_live_mono h StopMode.Force (n_vm s1)) as Hmono.
    destruct (stop h StopMode.Force (n_vm s1)) as [w r] eqn:Hs. simpl in Hf, Hmono.
    exists w. split; [by destruct r as [|[]]|]. unfold stopped_by. simpl. split; [set_solver|].
    intros SX. rewrite (Hf SX) in Hs. apply stop_live in Hs. rewrite Hs, Hid, Hlive. set_solver.
  - exists (n_vm s1). split; [by destruct s1|]. unfold stopped_by. simpl. split; [set_solver|done].
Qed.

(** The roll-back does its work. *)
Lemma fail_creation_undone h v e s :
  sandboxes s0 !! id = None → reservations s0 !! id = None → underway h v s →
  match fail_creation cfg id h e s with
  | (s', Ok _) => undone e s'
  | (_, Err _) => False
  | _ => True
  end.
Proof.
  intros Hn1 Hn2 Hu. unfold fail_creation.
  destruct (quiet_status_undone h v e s Hu) as (s1 & Hq & Hu1 & c & Hc & Hsay).
  unfold mbind at 1, stres_bind at 1. rewrite Hq. clear Hq Hu s.
  destruct (quiet_stop_undone h v s1 Hu1) as (w & Hst & Hl). destruct Hu1 as [_ H2 H3 _ _].
  unfold mbind at 1, stres_bind at 1. rewrite Hst.
  (* the network *)
  unfold mbind at 1, stres_bind at 1.
  set (net_down := when _ _).
  assert (∃ x, (net_down (set_vm w s1)).1 = set_fw x (set_vm w s1) ∧ (net_down (set_vm w s1)).2 ≠ Err Waiting
    ∧ ∀ e', (net_down (set_vm w s1)).2 ≠ Err (Failed e')) as (x & Hx1 & Hx2 & Hx3).
  { unfold net_down, when. destruct (manage_network cfg); [|exists (n_fw s1); by destruct s1].
    unfold quiet, fw_call. destruct (teardown_sandbox_network id None _) as [y r]. exists y.
    by destruct r as [a|e'|]. }
  destruct (net_down (set_vm w s1)) as [s2 r2]. simpl in Hx1, Hx2, Hx3. subst s2.
  destruct r2 as [[]|[e'|]|]; [|by destruct (Hx3 e')|done|done].
  unfold mbind, stres_bind, modify. simpl.
  destruct (removed id (remove_sandbox id (set_fw x (set_vm w s1)))) as (_ & R1 & R2).
  unfold undone. rewrite R1, R2. simpl. split_and!; [done|done| |].
  - unfold remove_reservation, stopped_by in *. simpl in *. by destruct (reservations s1 !! id).
  - exists c. unfold remove_reservation. simpl. by destruct (reservations s1 !! id).
Qed.

Section free_id.
Context (Hfree1 : sandboxes s0 !! id = None) (Hfree2 : reservations s0 !! id = None).

(** A step: a call that keeps the creation under way, and the roll-back if it
    fails. *)
Lemma undoes_step {A} h v (m : nd A) (P : Node → Prop) Q :
  (∀ s e, P s → (m s).2 = Err (Failed e) → underway h v (m s).1) →
  (∀ s a, P s → (m s).2 = Ok a → Q a (m s).1) → undoes P (step cfg id h m) Q.
Proof.
  intros Hm Hok s Hs. unfold step, or_else. specialize (Hm s). specialize (Hok s).
  destruct (m s) as [s1 [a|[e|]|]]; simpl in *; [by apply Hok| |done..].
  pose proof (Hm e Hs eq_refl) as Hu. pose proof (fail_creation_undone h v e s1 Hfree1 Hfree2 Hu) as Hf.
  unfold mbind, stres_bind. by destruct (fail_creation cfg id h e s1) as [s2 [u|e'|]].
Qed.
Lemma undoes_inert {A} h v (m : nd A) :
  inert m → undoes (underway h v) (step cfg id h m) (λ _, underway h v).
Proof.
  intros Hm. apply (undoes_step h v); intros s a Hs _; by apply inert_underway.
Qed.
Lemma undoes_when b (m : nd ()) (P : Node → Prop) :
  undoes P m (λ _, P) → undoes P (when b m) (λ _, P).
Proof. intros Hm. destruct b; [done|]. by intros s Hs. Qed.

(** Before the machine exists. *)
Definition unbooted (s : Node) : Prop := underway None None s ∧ live (n_vm s) = live (n_vm s0).

Lemma undoes_create :
  undoes unbooted (step cfg id None (vmm_call (create id spec))) (λ h, underway (Some h) None).
Proof.
  apply (undoes_step None None); intros s x [[H1 H2 H3 H4 _] Hl]; unfold vmm_call;
    destruct (create id spec (n_vm s)) as [w [e|h]] eqn:Hc; simpl; try done; intros [= <-].
  - apply create_err_live in Hc. split; simpl; try done. set_solver.
  - apply create_live in Hc as [Hid Hlive]. split; simpl; try done. by rewrite Hlive, Hl.
Qed.

Lemma undoes_meta h :
  undoes (underway (Some h) None) (step cfg id (Some h) (store_meta id (meta_of h)))
    (λ _, underway (Some h) (Some (meta_of h))).
Proof.
  assert (∀ s, underway (Some h) None s → written (λ c, Sandbox.set_vmm_meta c (meta_of h))
    (Some h) None (Some (meta_of h)) s (store_meta id (meta_of h) s)) as Hm.
  { intros s Hs. apply (underway_write (update_sandbox_vmm_meta id (meta_of h) (wall (n_reads s)))
      (λ c, Sandbox.set_vmm_meta c (meta_of h)) (Some h) None (Some (meta_of h)) (now s).1);
      [| |done|by intros c _ w [= <-]|].
    - intros x Hx. by apply vmm_meta_law; [|apply wall_in_range].
    - intros SU x Hx. by apply vmm_meta_up.
    - by apply (inert_underway now). }
  apply (undoes_step (Some h) None); intros s a Hs He;
    destruct (Hm s Hs) as [(H1 & H2 & _)|([? H1] & H3 & _)]; try done; by rewrite He in H1.
Qed.

(** The machine of the new sandbox is booted. *)
Lemma undoes_boot sb :
  Sandbox.spec sb = spec →
  undoes unbooted (boot cfg id sb)
    (λ x s, underway (Some x.1) (Some (meta_of x.1)) s ∧ x.2 = Sandbox.set_vmm_meta sb (meta_of x.1)).
Proof.
  intros Hsp. unfold boot. rewrite Hsp.
  apply (undoes_bind _ _ _ (λ _, unbooted)).
  { apply undoes_when, (undoes_step None None); intros s a [Hu Hl] _;
      (assert (inert (_ ← fw_call (create_network_in_subnet id None); mret ())) as Hi
        by auto with node); [by apply inert_underway|].
    split; [by apply inert_underway|]. by rewrite (proj2 (proj2 (proj2 (Hi s)))). }
  intros []. apply (undoes_bind _ _ _ (λ h, underway (Some h) None)); [apply undoes_create|]. intros h.
  apply (undoes_bind _ _ _ (λ _, underway (Some h) (Some (meta_of h)))); [apply undoes_meta|]. intros [].
  apply (undoes_bind _ _ _ (λ _, underway (Some h) (Some (meta_of h)))).
  { apply undoes_inert, inert_vmm. intros w. apply start_live. }
  intros []. apply (undoes_bind _ _ _ (λ _, underway (Some h) (Some (meta_of h)))).
  { apply undoes_when, undoes_inert, inert_fw. }
  intros []. intros s Hs. by split.
Qed.

Lemma undoes_secrets h v l : undoes (underway (Some h) v) (write_secrets cfg id h l) (λ _, underway (Some h) v).
Proof.
  induction l as [|x l IH]; simpl; [by intros s Hs|].
  apply (undoes_bind _ _ _ (λ _, underway (Some h) v)); [apply undoes_inert, inert_file_op|]. done.
Qed.
Lemma undoes_prepare h v sp :
  undoes (underway (Some h) v) (prepare_guest cfg patience id h sp) (λ _, underway (Some h) v).
Proof.
  unfold prepare_guest. apply (undoes_bind _ _ _ (λ _, underway (Some h) v)).
  { apply undoes_inert, inert_bind; [apply inert_file_op|]. intros f. destruct f; auto with node. }
  intros []. apply (undoes_bind _ _ _ (λ _, underway (Some h) v)); [apply undoes_secrets|]. intros [].
  destruct (SandboxSpec.init_command sp) as [|a argv]; [by intros s Hs|].
  apply undoes_inert, inert_bind; [apply inert_exec|]. intros r. destruct (_ =? _); auto with node.
Qed.

(** The sandbox is announced: its row, its entries and its machine are there. *)
Definition announced (sb : Sandbox.t) (s : Node) : Prop :=
  Sandbox.id sb = id ∧ Sandbox.spec sb = spec ∧ Sandbox.status sb = SandboxStatus.Running ∧
  sandboxes s = <[id := sb]> (sandboxes s0) ∧
  live (n_vm s) = {[id]} ∪ live (n_vm s0) ∧
  ∃ c, abs (n_sto s) = <[id := c]> (abs (n_sto s0)) ∧ Sandbox.spec c = spec ∧
    Sandbox.status c = SandboxStatus.Running ∧ Sandbox.terminal_message c = None ∧
    Sandbox.node_id c = Some (cfg_node_id cfg) ∧ Sandbox.vmm_meta c = Sandbox.vmm_meta sb ∧
    Sandbox.expires_at c = timestamp_millis <$> Sandbox.expires_at sb.

(** What [greet] answers, from a sandbox that is booting. *)
Lemma hello_running sb t :
  Sandbox.status sb = SandboxStatus.Starting →
  (∃ sb', Sandbox.transition sb SandboxEvent.AgentHello t = Ok sb' ∧ Sandbox.id sb' = Sandbox.id sb ∧
    Sandbox.spec sb' = Sandbox.spec sb ∧ Sandbox.status sb' = SandboxStatus.Running ∧
    Sandbox.vmm_meta sb' = Sandbox.vmm_meta sb) ∨
  Sandbox.transition sb SandboxEvent.AgentHello t = Panic.
Proof.
  intros Hst. unfold Sandbox.transition. rewrite Hst. simpl. unfold mbind, res_bind. simpl.
  destruct (SandboxSpec.ttl_secs (Sandbox.spec sb)); [destruct (dt_add_seconds _ _)|];
    first [by right|left; by eexists].
Qed.

Definition row_running (s : Node) : Prop :=
  ∃ c, abs (n_sto s) = <[id := c]> (abs (n_sto s0)) ∧ Sandbox.status c = SandboxStatus.Running ∧
    Sandbox.terminal_message c = None.

Lemma undoes_running h v :
  undoes (underway h v) (step cfg id h (store_status id SandboxStatus.Running None))
    (λ _ s, underway h v s ∧ row_running s).
Proof.
  apply (undoes_step h v); intros s a Hs He;
    destruct (underway_status SandboxStatus.Running None h v s Hs) as [(H1 & H2 & c & _ & Hc)|([? H1] & H3 & _)];
    try done; [|by rewrite He in H1]. split; [done|]. eexists. by split.
Qed.

Lemma undoes_expiry h v e :
  (∀ t, e = Some t → in_range t) →
  undoes (λ s, underway h v s ∧ row_running s) (step cfg id h (store_expiry id e))
    (λ _ s, underway h v s ∧ ∃ c, abs (n_sto s) = <[id := c]> (abs (n_sto s0)) ∧
       Sandbox.status c = SandboxStatus.Running ∧ Sandbox.terminal_message c = None ∧
       Sandbox.expires_at c = timestamp_millis <$> e).
Proof.
  intros He.
  assert (∀ s, underway h v s → written (set_expiry (timestamp_millis <$> e)) h v v s
    (store_expiry id e s)) as Hm.
  { intros s Hs. apply (underway_write (update_sandbox_expiry id e (wall (n_reads s)))
      (set_expiry (timestamp_millis <$> e)) h v v (now s).1); [| |done|done|].
    - intros x Hx. by apply expiry_law; [|apply wall_in_range|].
    - intros SU x Hx. by apply expiry_up.
    - by apply (inert_underway now). }
  apply (undoes_step h v); intros s a [Hs (c & Hc & H1 & H2)] Ho;
    destruct (Hm s Hs) as [(H3 & H4 & c' & Hc' & Ha)|([? H3] & H4 & _)]; try done;
    [|by rewrite Ho in H3]. split; [done|].
  assert (c' = c) as ->.
  { rewrite Hc in Hc'. apply (f_equal (λ m, m !! id)) in Hc'. rewrite !lookup_insert_eq in Hc'. congruence. }
  by eexists.
Qed.

Lemma undoes_greet h sb :
  Sandbox.status sb = SandboxStatus.Starting → Sandbox.expires_at sb = None →
  undoes (underway (Some h) (Some (meta_of h))) (greet cfg patience id spec h sb)
    (λ sb' s, underway (Some h) (Some (meta_of h)) s ∧
       Sandbox.id sb' = Sandbox.id sb ∧ Sandbox.spec sb' = Sandbox.spec sb ∧
       Sandbox.status sb' = SandboxStatus.Running ∧ Sandbox.vmm_meta sb' = Sandbox.vmm_meta sb ∧
       ∃ c, abs (n_sto s) = <[id := c]> (abs (n_sto s0)) ∧
         Sandbox.status c = SandboxStatus.Running ∧ Sandbox.terminal_message c = None ∧
         Sandbox.expires_at c = timestamp_millis <$> Sandbox.expires_at sb').
Proof.
  intros Hst He. unfold greet. set (U := underway (Some h) (Some (meta_of h))).
  apply (undoes_bind _ _ _ (λ _, U)); [apply undoes_when, undoes_prepare|]. intros [].
  apply (undoes_bind _ _ _ (λ t s, U s ∧ in_range t)).
  { intros s Hs. split; [by apply (inert_underway now)|apply wall_in_range]. }
  intros t. destruct (hello_running sb t Hst) as [(sb' & Htr & Hid & Hsp & Hrun & Hmeta)|Hp].
  2: { intros s _. unfold mbind, stres_bind. by rewrite Hp. }
  apply (undoes_bind _ _ _ (λ b s, b = sb' ∧ U s ∧ in_range t)).
  { intros s Hs. by rewrite Htr. }
  intros b s (-> & Hs & Ht). revert s Hs.
  apply (undoes_bind _ _ _ (λ _ s, U s ∧ row_running s)); [apply undoes_running|]. intros [].
  eapply undoes_bind; [apply undoes_expiry; by eapply hello_in_range|]. intros [] s [Hs Hc]. simpl.
  by split_and!.
Qed.

Lemma underway_insert h v sb r s :
  underway h v s → underway h v (insert_reservation id r (insert_sandbox id sb s)).
Proof.
  intros [H1 H2 H3 H4 H5]. destruct (inserted id r (insert_sandbox id sb s)) as (E1 & E2 & E3 & E4).
  split; rewrite ?E1, ?E2, ?E3, ?E4; simpl; try done.
  - by rewrite delete_insert_eq.
  - by rewrite delete_insert_eq.
Qed.

Lemma undoes_announce r x :
  booted id spec x →
  undoes (underway (Some x.1) (Some (meta_of x.1))) (announce cfg patience id spec r x) announced.
Proof.
  intros (Hid & Hsp & Hst & Hn & He & Hm) s Hs. destruct x as [h sb]. simpl in *.
  unfold mbind at 1, stres_bind at 1, modify at 1. unfold mbind at 1, stres_bind at 1, modify at 1.
  apply (underway_insert _ _ (set_status SandboxStatus.Running sb) r) in Hs.
  set (s1 := insert_reservation _ _ _) in *. clearbody s1. revert s1 Hs.
  eapply undoes_bind; [by apply undoes_greet|]. intros sb' s1 (Hu & Hid' & Hsp' & Hst' & Hm' & c & Hc & Hr).
  destruct Hu as [_ Hsb _ (c' & Hc' & _ & Hspc & Hnc & Hmc) [_ Hl]].
  assert (c' = c) as ->.
  { rewrite Hc in Hc'. apply (f_equal (λ m, m !! id)) in Hc'. rewrite !lookup_insert_eq in Hc'. congruence. }
  destruct Hr as (Hr1 & Hr2 & Hr3). unfold mbind, stres_bind, modify. simpl.
  split_and!; [congruence|congruence|done| |done|].
  - simpl. by rewrite <-insert_delete_eq, Hsb.
  - exists c. simpl. rewrite (Hmc _ eq_refl). split_and!; try done. congruence.
Qed.
End free_id.


(** The row is made. *)
Lemma enter_outcome s :
  rows_typed s → Resources.well_typed (SandboxSpec.resources spec) →
  n_sto s = n_sto s0 → sandboxes s = sandboxes s0 → reservations s = reservations s0 →
  n_vm s = n_vm s0 → sandboxes s0 !! id = None → reservations s0 !! id = None →
  match enter cfg id spec s with
  | (s', Ok sb) => unbooted s' ∧ abs (n_sto s0) !! id = None
  | (s', Err _) => abs (n_sto s') = abs (n_sto s0) ∧ sandboxes s' = sandboxes s0 ∧
      reservations s' = reservations s0 ∧ live (n_vm s') = live (n_vm s0)
  | _ => True
  end.
Proof.
  intros [Hwf _] Hsp E1 E2 E3 E4 Hf1 Hf2. unfold enter.
  unfold mbind at 1, stres_bind at 1. simpl. unfold mbind at 1, stres_bind at 1. simpl.
  unfold mbind at 1, stres_bind at 1. simpl. unfold mbind, stres_bind, store_call. simpl.
  match goal with |- context [create_sandbox ?b (n_sto s)] =>
    pose proof (create_law b (n_sto s) Hwf) as Hl; set (sb := b) in * end.
  destruct (create_sandbox sb (n_sto s)) as [x r]. destruct Hl as [Hwf' Hl].
  { repeat split; try apply wall_in_range; done. }
  change (Sandbox.id sb) with id in Hl. rewrite E1 in Hl.
  destruct Hl as [[Hflt Ha]|Hl].
  { destruct r as [|e|]; [done| |done]. simpl. by rewrite Ha, E2, E3, E4. }
  destruct (abs (n_sto s0) !! id) as [c|] eqn:Hc.
  - destruct Hl as [Ha [msg ->]]. simpl. by rewrite Ha, E2, E3, E4.
  - destruct Hl as [Ha ->]. simpl. split; [|done]. split; simpl; [|by rewrite E4].
    split; simpl; rewrite ?E2, ?E3, ?E4; try done; try (by apply delete_id).
    exists (content sb). by rewrite Ha.
Qed.

(** Nothing is left of a creation that failed with [e], but possibly its row. *)
Definition rolled_back (e : ClouisleError.t) (s : Node) : Prop :=
  sandboxes s = sandboxes s0 ∧ reservations s = reservations s0 ∧
  (∀ d, ResourcePool.remaining d (n_pool s) = ResourcePool.remaining d (n_pool s0)) ∧
  stopped_by s ∧
  (abs (n_sto s) = abs (n_sto s0) ∨
   abs (n_sto s0) !! id = None ∧
   ∃ c, abs (n_sto s) = <[id := c]> (abs (n_sto s0)) ∧ says e c).

Lemma remaining_same s :
  good [] s0 → good [] s → reservations s = reservations s0 →
  ∀ d, ResourcePool.remaining d (n_pool s) = ResourcePool.remaining d (n_pool s0).
Proof.
  intros [H0 _] [H1 _] Hr d. pose proof (sound_sum _ _ H0 d) as E0. pose proof (sound_sum _ _ H1 d) as E1.
  rewrite Hr in E1. lia.
Qed.

Lemma nothing_started s : live (n_vm s) = live (n_vm s0) → stopped_by s.
Proof. intros Hl. split; [set_solver|by rewrite Hl]. Qed.

Lemma launch_outcome r s1 :
  good [r] s1 → Resources.well_typed (SandboxSpec.resources spec) →
  n_sto s1 = n_sto s0 → sandboxes s1 = sandboxes s0 → reservations s1 = reservations s0 →
  n_vm s1 = n_vm s0 → sandboxes s0 !! id = None → reservations s0 !! id = None →
  match (sb ← enter cfg id spec; boot cfg id sb) s1 with
  | (s', Ok x) => underway (Some x.1) (Some (meta_of x.1)) s' ∧ abs (n_sto s0) !! id = None
  | (s', Err (Failed e)) => (undone e s' ∧ abs (n_sto s0) !! id = None) ∨
      (abs (n_sto s') = abs (n_sto s0) ∧ sandboxes s' = sandboxes s0 ∧
       reservations s' = reservations s0 ∧ live (n_vm s') = live (n_vm s0))
  | _ => True
  end.
Proof.
  intros [Ha _] Hsp F1 E1 E2 F2 Hf1 Hf2.
  pose proof (enter_outcome s1 (sound_rows _ _ Ha) Hsp F1 E1 E2 F2 Hf1 Hf2) as Hen.
  pose proof (steady_enter id spec Hsp s1 (sound_rows _ _ Ha)) as (_ & _ & Hent).
  unfold mbind, stres_bind. destruct (enter cfg id spec s1) as [s2 [sb|[e|]|]]; try done; [|by right].
  destruct Hen as [Hub Hn]. destruct (Hent sb eq_refl) as (_ & Hsb & _).
  pose proof (undoes_boot Hf1 Hf2 sb Hsb s2 Hub) as Hb.
  destruct (boot cfg id sb s2) as [s3 [x|[e|]|]]; try done; [by destruct Hb|by left].
Qed.

Lemma reserved_free : good [] s0 → sandboxes s0 !! id = None → reservations s0 !! id = None.
Proof.
  intros [_ Ha] Hf. apply (f_equal (λ m, m !! id)) in Ha. rewrite !lookup_fmap, Hf in Ha.
  by destruct (reservations s0 !! id).
Qed.

Lemma create_outcome :
  good [] s0 → Resources.well_typed (SandboxSpec.resources spec) → sandboxes s0 !! id = None →
  match create_sandbox_with_id cfg patience id spec s0 with
  | (s', Ok sb) => announced sb s'
  | (s', Err (Failed e)) => rolled_back e s'
  | _ => True
  end.
Proof.
  intros Hg Hsp Hf1.
  pose proof (reserved_free Hg Hf1) as Hf2.
  pose proof (keeps_create id spec Hsp s0 Hg) as [Hg' _].
  unfold create_sandbox_with_id in *.
  assert (∀ e, rolled_back e s0) as Hsame.
  { intros e. split_and!; [done|done|done|by apply nothing_started|by left]. }
  destruct (is_empty id); [apply Hsame|].
  destruct (SandboxSpec.validate spec) as [u|errs|]; [|apply Hsame|done].
  pose proof (good_admit spec [] s0 Hsp Hg) as Ha.
  pose proof (sound_admit spec [] s0 Hsp (proj1 Hg)) as Hsa.
  assert (∀ y, (admit_spec spec s0).1 = y → n_sto y = n_sto s0 ∧ n_vm y = n_vm s0) as Hfr.
  { intros y <-. unfold admit_spec. by destruct (ResourcePool.admit_ (n_pool s0) spec). }
  destruct (admit_spec spec s0) as [s1 [r|[e|]|]] eqn:Hadm; destruct (Hfr _ eq_refl) as [F1 F2];
    simpl in F1, F2; [rewrite (bind_ok _ _ _ _ _ Hadm) in Hg' |- *
                     |rewrite (bind_err _ _ _ _ _ Hadm) in Hg' |- *
                     |by rewrite (bind_err _ _ _ _ _ Hadm)
                     |unfold mbind, stres_bind; by rewrite Hadm].
  2: { destruct Hsa as (_ & E1 & E2). split_and!; [done|done| |apply nothing_started; by rewrite F2|left; by rewrite F1].
       by apply remaining_same. }
  destruct Ha as [Ha Hr]. destruct Hsa as (_ & _ & E1 & E2).
  assert (∀ e s', undone e s' → good [] s' → abs (n_sto s0) !! id = None → rolled_back e s') as Hrb.
  { intros e s' (U1 & U2 & U3 & U4) Hs' Hn. split_and!; [done|done|by apply remaining_same|done|].
    right. by split. }
  pose proof (careful_launch [r] id spec Hsp s1 Ha) as [_ Hboot].
  pose proof (launch_outcome r s1 Ha Hsp F1 E1 E2 F2 Hf1 Hf2) as Hla.
  set (launch := (sb ← enter cfg id spec; boot cfg id sb)) in *.
  clearbody launch. destruct (launch s1) as [s2 [x|[e|]|]] eqn:Hl.
  - assert (holding r launch s1 = (s2, Ok x)) as Hh by (unfold holding; by rewrite Hl).
    rewrite (bind_ok _ _ _ _ _ Hh) in Hg' |- *. destruct Hla as [Hu Hn].
    destruct (Hboot x eq_refl) as [Hbx _].
    pose proof (undoes_announce Hf1 Hf2 r x Hbx s2 Hu) as Han.
    destruct (announce cfg patience id spec r x s2) as [s3 [sb|[e|]|]]; try done. by apply Hrb.
  - assert (holding r launch s1 = (drop_reservation (Some r) s2, Err (Failed e))) as Hh
      by (unfold holding; by rewrite Hl).
    rewrite (bind_err _ _ _ _ _ Hh) in Hg' |- *.
    destruct Hla as [[Hu Hn]|(U1 & U2 & U3 & U4)]; [by apply Hrb|].
    split_and!; [done|done|by apply remaining_same|by apply nothing_started|by left].
  - assert (holding r launch s1 = (s2, Err Waiting)) as Hh by (unfold holding; by rewrite Hl).
    by rewrite (bind_err _ _ _ _ _ Hh).
  - unfold mbind, stres_bind, holding. by rewrite Hl.
Qed.
End outcome.

(** C6: Creating a sandbox on a node, under an id the node does not hold, is all or
    nothing.  When the call answers a sandbox, it is running, its entry is the only one
    added to the node's tables, its machine is the only one added to those that exist, and
    its row in the store says that it runs on this node on that machine, with its deadline.
    When it answers an error, from whichever of its steps and even if the store or the
    machine fails again during the roll-back, the tables and the free capacity are as
    before, the only machine that can be left over is the new one, and the store either was
    never written or holds one new row, for this sandbox.  That row carries the error's
    message if the store is up ([StoreUp]), and no machine is left over if a forced stop
    cannot fail ([StopTotal]).  A call that panics or never returns is outside of the
    statement. *)
Theorem node_create_is_all_or_nothing {VO : VmmOk V} s0 id spec :
  good [] s0 → Resources.well_typed (SandboxSpec.resources spec) → sandboxes s0 !! id = None →
  match create_sandbox_with_id cfg patience id spec s0 with
  | (s', Ok sb) => announced s0 id spec sb s'
  | (s', Err (Failed e)) => rolled_back s0 id e s'
  | _ => True
  end.
Proof. apply create_outcome. Qed.

(** ** Recovery *)

(** What a backend that can find its machines finds. *)
Class DiscoveryOk : Prop := {
  discover_exact w w' hs : discover w = (w', inr hs) →
    live w' = live w ∧ ∀ i, i ∈ live w ↔ i ∈ VmHandle.id <$> hs;
  discover_live w : live (discover w).1 = live w }.

(** A deletion that finds no row stops the machine and then keeps the sandbox and its
    reservation, for good: every later attempt ends the same way. *)
Lemma deletion_without_row {VO : VmmOk V} {SX : StopTotal V} {SU : StoreUp ST} s id sb :
  store_wf (n_sto s) → sandboxes s !! id = Some sb → abs (n_sto s) !! id = None →
  ∃ s' msg, delete_sandbox_here cfg id s = (s', Err (Failed (ClouisleError.not_found msg))) ∧
    tables s' = tables s ∧ store_wf (n_sto s') ∧ abs (n_sto s') = abs (n_sto s).
Proof.
  intros Hwf Hsb Hrow. unfold delete_sandbox_here, local, mbind, stres_bind. rewrite Hsb.
  unfold vmm_call. pose proof (force_stop_ok (handle_of id sb) (n_vm s)) as Hf.
  destruct (stop _ _ (n_vm s)) as [w r]. simpl in Hf. subst r. unfold store_call. simpl.
  pose proof (delete_answers id (n_sto s) Hwf) as Hl. destruct (delete_sandbox id (n_sto s)) as [x r].
  destruct Hl as [Hwf' Hl]. rewrite Hrow in Hl. destruct Hl as [Ha [msg ->]]. simpl. eauto 10.
Qed.

Section recovery.
Context {VO : VmmOk V} {SX : StopTotal V} {DO : DiscoveryOk}.

(** Machines stay as they are, and so does every row but those of [F]. *)
Definition spared (F : string → Prop) (s s' : Node) : Prop :=
  store_wf (n_sto s) →
  store_wf (n_sto s') ∧ live (n_vm s') = live (n_vm s) ∧
  ∀ id, ¬ F id → abs (n_sto s') !! id = abs (n_sto s) !! id.
Definition spares {A} (F : string → Prop) (m : nd A) : Prop := ∀ s, spared F s (m s).1.

Lemma spared_trans F s1 s2 s3 : spared F s1 s2 → spared F s2 s3 → spared F s1 s3.
Proof.
  intros H1 H2 Hwf. destruct (H1 Hwf) as (W1 & L1 & A1). destruct (H2 W1) as (W2 & L2 & A2).
  split_and!; [done|congruence|]. intros id Hid. by rewrite A2, A1.
Qed.
Lemma spares_bind {A B} F (m : nd A) (k : A → nd B) :
  spares F m → (∀ a, spares F (k a)) → spares F (m ≫= k).
Proof.
  intros Hm Hk s. unfold mbind, stres_bind. specialize (Hm s).
  destruct (m s) as [s1 [a|e|]]; simpl in *; [|done..]. eapply spared_trans; [exact Hm|apply Hk].
Qed.
Lemma spares_inert {A} F (m : nd A) : inert m → spares F m.
Proof. intros Hm s Hwf. destruct (Hm s) as (-> & _ & _ & ->). done. Qed.
Lemma spares_quiet {A} F (m : nd A) : spares F m → spares F (quiet m).
Proof. intros Hm s. specialize (Hm s). unfold quiet. by destruct (m s) as [s1 [a|[e|]|]]. Qed.
Lemma spares_unwrap {A} F (a : A) (m : nd A) : spares F m → spares F (unwrap_or a m).
Proof. intros Hm s. specialize (Hm s). unfold unwrap_or. by destruct (m s) as [s1 [b|[e|]|]]. Qed.
Lemma spares_when F b (m : nd ()) : spares F m → spares F (when b m).
Proof. intros Hm. by destruct b. Qed.
Lemma spares_tables F f :
  (∀ s, n_sto (f s) = n_sto s ∧ n_vm (f s) = n_vm s) → spares F (modify f).
Proof. intros Hf s Hwf. simpl. destruct (Hf s) as [-> ->]. done. Qed.
Lemma spares_status (F : string → Prop) id st m : F id → spares F (store_status id st m).
Proof.
  intros HF s Hwf. unfold store_status, mbind, stres_bind, store_call. simpl.
  pose proof (status_message_law id st m (wall (n_reads s)) (n_sto s) Hwf (wall_in_range _)) as Hl.
  destruct (update_sandbox_status_message id st m _ (n_sto s)) as [x r]. destruct Hl as [Hwf' Hu].
  simpl. split_and!; [done|done|]. intros id' Hid.
  destruct Hu as [[_ ->]|Hu]; [done|]. unfold updated in Hu. destruct (abs (n_sto s) !! id); destruct Hu as [-> _]; [|done].
  rewrite lookup_insert_ne; [done|]. by intros <-.
Qed.

Lemma remove_elsewhere id s :
  n_sto (remove_reservation id s) = n_sto s ∧ n_vm (remove_reservation id s) = n_vm s.
Proof. unfold remove_reservation. by destruct (reservations s !! id). Qed.

Lemma spares_adopt F sb r : F (Sandbox.id sb) → spares F (adopt sb r).
Proof.
  intros HF. unfold adopt. apply spares_bind.
  { apply spares_tables. intros s. by destruct (inserted (Sandbox.id sb) r s) as (_ & _ & ? & ?). }
  intros []. apply spares_bind; [by apply spares_tables|]. intros []. apply spares_bind.
  { destruct (_ && _); [|by apply spares_inert]. intros s.
    assert (inert (ping_guest (Sandbox.id sb))) as Hi.
    { apply inert_bind; [apply inert_file_op|]. intros f. by destruct f. }
    pose proof (spares_inert F _ Hi s) as Hs. by destruct (ping_guest _ s) as [s1 [u|[e|]|]]. }
  intros [e|].
  - apply spares_bind; [by apply spares_quiet, spares_status|]. intros [].
    apply spares_bind; [by apply spares_tables|]. intros [].
    apply spares_bind; [apply spares_tables, remove_elsewhere|]. intros []. by apply spares_inert.
  - apply spares_bind; [by apply spares_when, spares_quiet, spares_status|]. intros [].
    by apply spares_inert.
Qed.

Lemma spares_recover_one F sb : F (Sandbox.id sb) → spares F (recover_one sb).
Proof.
  intros HF. unfold recover_one. apply spares_bind.
  { apply spares_unwrap, spares_inert, inert_vmm. intros w. apply probe_live. }
  intros []; simpl.
  - apply spares_bind; [by apply spares_inert|]. intros [] s; [done|].
    assert (spared F s (admit_spec (Sandbox.spec sb) s).1) as Ha.
    { intros Hwf. unfold admit_spec. by destruct (ResourcePool.admit_ _ _). }
    destruct (admit_spec (Sandbox.spec sb) s) as [s1 [r|[e|]|]]; simpl in *; [|done..].
    eapply spared_trans; [exact Ha|by apply spares_adopt].
  - apply spares_bind; [by apply spares_quiet, spares_status|]. intros [].
    apply spares_bind; [apply spares_tables, remove_elsewhere|]. intros [].
    apply spares_bind; [by apply spares_tables|]. intros []. by apply spares_inert.
Qed.

Lemma spares_recover F l : Forall (λ sb, F (Sandbox.id sb)) l → spares F (recover l).
Proof.
  induction 1 as [|sb l Hsb _ IH]; simpl; [by apply spares_inert|].
  apply spares_bind; [by apply spares_recover_one|]. intros n.
  apply spares_bind; [apply IH|]. intros m. by apply spares_inert.
Qed.

Lemma stop_orphans_live ids hs s :
  ∃ w, stop_orphans ids hs s = (set_vm w s, Ok ()) ∧
    ∀ i, i ∈ live w ↔ i ∈ live (n_vm s) ∧ (i ∈ VmHandle.id <$> hs → i ∈ ids).
Proof.
  revert s. induction hs as [|h hs IH]; intros s; simpl.
  { exists (n_vm s). split; [by destruct s|]. intros i. split; [|by intros [? _]]. intros Hi.
    split; [done|]. by intros ?%elem_of_nil. }
  case_bool_decide as Hk.
  - destruct (IH s) as (w & Hs & Hl). exists w. split; [done|]. intros i. rewrite Hl.
    setoid_rewrite elem_of_cons. naive_solver.
  - unfold mbind, stres_bind, quiet, vmm_call. pose proof (force_stop_ok h (n_vm s)) as Hf.
    destruct (stop h StopMode.Force (n_vm s)) as [w r] eqn:Hst. simpl in Hf. subst r.
    apply stop_live in Hst. destruct (IH (set_vm w s)) as (w2 & Hs & Hl). exists w2.
    split; [done|]. intros i. rewrite Hl. simpl. rewrite Hst, elem_of_difference, elem_of_singleton.
    setoid_rewrite elem_of_cons. naive_solver.
Qed.

(** Which runtimes the rows account for, and which rows are the node's own. *)
Definition accounted (m : abstract) (i : string) : Prop :=
  ∃ id c, m !! id = Some c ∧ known cfg c = true ∧ runtime_id c = i.
Definition own (m : abstract) (id : string) : Prop :=
  ∃ c, m !! id = Some c ∧ is_mine cfg c = true ∧ SandboxStatus.is_active (Sandbox.status c) = true.

Lemma listed_rows (m : abstract) l :
  content <$> l ≡ₚ List.filter (Store.with_status None) (map_to_list m).*2 →
  ∀ c, c ∈ content <$> l ↔ ∃ id, m !! id = Some c.
Proof.
  intros Hp c. rewrite Hp.
  assert (List.filter (Store.with_status None) (map_to_list m).*2 = (map_to_list m).*2) as ->
    by (by apply forallb_filter_id, forallb_forall).
  rewrite list_elem_of_fmap. split.
  - intros ([id c'] & -> & Hin). apply elem_of_map_to_list in Hin. by exists id.
  - intros [id Hin]. exists (id, c). split; [done|]. by apply elem_of_map_to_list.
Qed.

Lemma known_runtimes (m : abstract) l i :
  content <$> l ≡ₚ List.filter (Store.with_status None) (map_to_list m).*2 →
  i ∈ runtime_id <$> List.filter (known cfg) l ↔ accounted m i.
Proof.
  intros Hp. pose proof (listed_rows m l Hp) as Hl. rewrite list_elem_of_fmap. unfold accounted. split.
  - intros (sb & -> & Hin). apply list_elem_of_In, filter_In in Hin as [Hin%list_elem_of_In Hk].
    destruct (proj1 (Hl (content sb))) as [id Hid]; [by apply list_elem_of_fmap_2|].
    by exists id, (content sb).
  - intros (id & c & Hid & Hk & <-). assert (c ∈ content <$> l) as Hin by (apply Hl; by exists id).
    apply list_elem_of_fmap in Hin as (sb & -> & Hin). exists sb. split; [done|].
    apply list_elem_of_In, filter_In. split; [by apply list_elem_of_In|done].
Qed.

(** A round, up to the sandboxes of this node. *)
Definition mine (l : list Sandbox.t) : list Sandbox.t :=
  List.filter (λ sb, is_mine cfg sb && SandboxStatus.is_active (Sandbox.status sb)) l.
(** The rows the round works with: all of them, or none when the store faults. *)
Definition rows_of (s : Node) : abstract :=
  match (list_sandboxes None (wall (n_reads s)) (n_sto s)).2 with Ok _ => abs (n_sto s) | _ => ∅ end.
Lemma round_rows s :
  store_wf (n_sto s) →
  ∃ x l, unwrap_or [] (store_call (list_sandboxes None (wall (n_reads s)))) (now s).1
      = (set_sto x (now s).1, Ok l) ∧
    store_wf x ∧ abs x = abs (n_sto s) ∧
    content <$> l ≡ₚ List.filter (Store.with_status None) (map_to_list (rows_of s)).*2.
Proof.
  intros Hwf. unfold unwrap_or, store_call, rows_of. simpl.
  pose proof (list_law None (wall (n_reads s)) (n_sto s) Hwf) as Hl.
  destruct (list_sandboxes None _ (n_sto s)) as [x r]. destruct Hl as (Hwf' & Ha & Hl). exists x.
  destruct Hl as [Hflt|(l & -> & _ & Hp)]; [|by exists l].
  exists []. destruct r as [|e|]; [done| |done]. simpl. by rewrite map_to_list_empty.
Qed.
Lemma reconcile_steps s hs w :
  store_wf (n_sto s) → discover (n_vm s) = (w, inr hs) →
  ∃ l s2, reconcile_from_store cfg s = recover (mine l) s2 ∧
    content <$> l ≡ₚ List.filter (Store.with_status None) (map_to_list (rows_of s)).*2 ∧
    store_wf (n_sto s2) ∧ abs (n_sto s2) = abs (n_sto s) ∧
    ∀ i, i ∈ live (n_vm s2) ↔ i ∈ live (n_vm s) ∧ accounted (rows_of s) i.
Proof.
  intros Hwf Hd. destruct (round_rows s Hwf) as (x & l & Hx & Hwf' & Ha & Hp).
  unfold reconcile_from_store.
  unfold mbind at 1, stres_bind at 1. simpl. simpl in Hx. unfold mbind at 1, stres_bind at 1. rewrite Hx.
  unfold mbind at 1, stres_bind at 1, unwrap_or at 1, vmm_call. simpl. rewrite Hd. simpl.
  apply discover_exact in Hd as [Hlive Hids].
  set (s1 := set_vm w _). set (ids := runtime_id <$> List.filter (known cfg) l).
  destruct (stop_orphans_live ids hs s1) as (w2 & Hs & Hl). unfold mbind at 1, stres_bind at 1.
  rewrite Hs. exists l, (set_vm w2 s1). split_and!; [done|done|done|done|].
  intros i. simpl. rewrite Hl. unfold s1. simpl. rewrite Hlive.
  unfold ids. rewrite (known_runtimes _ l i Hp), <-Hids. naive_solver.
Qed.

(** A store that cannot be read stops every machine: the round takes the error for an empty
    list of rows, and everything it discovers for an orphan. *)
Lemma unread_store_stops_everything s hs w :
  store_wf (n_sto s) → discover (n_vm s) = (w, inr hs) →
  is_ok (list_sandboxes None (wall (n_reads s)) (n_sto s)).2 = false →
  live (n_vm (reconcile_from_store cfg s).1) = ∅.
Proof.
  intros Hwf Hd Hf. destruct (reconcile_steps s hs w Hwf Hd) as (l & s2 & Heq & Hp & Hwf2 & Ha & Hl).
  assert (rows_of s = ∅) as Hr by (unfold rows_of; by destruct (list_sandboxes _ _ _).2).
  rewrite Hr in *. rewrite map_to_list_empty in Hp. apply Permutation_nil_r in Hp.
  apply fmap_nil_inv in Hp as ->. rewrite Heq. simpl. apply set_eq. intros i.
  rewrite Hl, elem_of_empty. split; [|done]. intros (_ & ? & c & Hc & _). by rewrite lookup_empty in Hc.
Qed.

End recovery.

End laws.

(** ** A node in memory *)

Module NodeDemo.
(** The guest's answers are written beforehand, newest last. *)
#[local] Instance script : Sockets := {|
  net := list Frame.t; sock := ();
  tcp_connect _ _ n := (n, Some (inr ()));
  resolve _ n := (n, inl "no names"%string);
  sock_write _ _ n := (n, Ok ());
  sock_read _ n := match n with
                   | [] => ([], Err (CodecError.Io "closed"%string))
                   | f :: n' => (n', Ok f)
                   end;
  clock_ms _ := 0; sleep_ms _ n := n;
  fresh_uuid n := (n, "exec-1"%string);
  frame_text _ := "frame"%string |}.
#[local] Instance env : NodeEnv := {| wall _ := 0; errors_text _ := "errors"%string |}.
#[local] Instance env_ok : NodeEnvOk env.
Proof. split. intros n. vm_compute. split; discriminate. Qed.
#[local] Existing Instance counter_semaphore.
#[local] Existing Instance ToyDigest.digest.
#[local] Existing Instance chrono_exact.
#[local] Existing Instance key_order.
#[local] Existing Instance NetDemo.os.
#[local] Existing Instance InMemoryStore.impl.
#[local] Instance machines : Vmm := MemoryVmm.vmm false false.
#[local] Instance found : Discovery machines :=
  {| discover w := (w, inr (MemoryVmm.handle <$> elements (MemoryVmm.machines w))) |}.

Definition config : NodeAgentConfig :=
  node_config "node-1" "host-1" 4 4096 102400 true "6.1" "1.10" ∅ false 3.
Definition hello : Frame.t := Frame.Hello "0.1.0".
Definition spec : SandboxSpec.t := SandboxSpec.default.

(** The guest of the first sandbox answers, the second one hangs up. *)
Definition fresh : Node :=
  new_node config (MemoryVmm.mk ∅ ∅) InMemoryStore.new (manager_new, []) [hello; Frame.Pong; hello].
Definition calls : list node_call := [NCreate "sb-1" spec; NCreate "sb-2" spec].

Lemma typed_calls : Forall call_typed calls.
Proof. repeat constructor; vm_compute; done. Qed.

Lemma found_ok : DiscoveryOk (DV := found).
Proof.
  split; [|done]. intros w w' hs [= <- <-]. split; [done|]. intros i. simpl.
  rewrite <-list_fmap_compose. rewrite list_elem_of_fmap. split.
  - intros Hi. exists i. split; [done|]. by apply elem_of_elements.
  - intros (j & -> & Hj). by apply elem_of_elements.
Qed.

Lemma fresh_wf : store_wf (n_sto fresh).
Proof. intros i x Hx. by vm_compute in Hx. Qed.
Lemma fresh_rows : map_Forall (λ _, typed) (abs (n_sto fresh)).
Proof. intros i x Hx. by vm_compute in Hx. Qed.

Lemma node_accounts_are_exact_witness :
  let s := run_calls config 5 calls fresh in
  let free d := ResourcePool.remaining d (n_pool s) in
  let limit := ResourcePool.limit (capacity config) MAX_SANDBOXES in
  demand <$> sandboxes s = Reservation.resources <$> reservations s ∧
  (∀ d, 0 <= free d ∧ free d + sum_map (weigh d) (reservations s) = limit d) ∧
  allocated_vcpu (heartbeat config s) = limit ResourcePool.Vcpu - free ResourcePool.Vcpu ∧
  allocated_memory_mb (heartbeat config s) = limit ResourcePool.Mem - free ResourcePool.Mem.
Proof.
  apply (node_accounts_are_exact config 5 calls); [vm_compute; split; discriminate|
    exact fresh_wf|exact fresh_rows|exact typed_calls].
Defined.

Lemma node_create_is_all_or_nothing_witness :
  is_ok (create_sandbox_with_id config 5 "sb-1" spec fresh).2 = true ∧
  match create_sandbox_with_id config 5 "sb-1" spec fresh with
  | (s', Ok sb) => announced config fresh "sb-1" spec sb s'
  | (s', Err (Failed e)) => rolled_back fresh "sb-1" e s'
  | _ => True
  end.
Proof.
  split; [vm_compute; reflexivity|].
  apply (node_create_is_all_or_nothing config 5 fresh "sb-1" spec).
  - apply new_node_good; [vm_compute; split; discriminate|exact fresh_wf|exact fresh_rows].
  - apply (bool_decide_unpack _). vm_compute. exact I.
  - reflexivity.
Defined.

(** After a restart: a row of this node whose machine runs, a row of another node,
    and a machine that no row names. *)
Definition row (id node : string) : Sandbox.t :=
  Sandbox.mk id spec SandboxStatus.Running 0 0 None None (meta_of (MemoryVmm.handle id)) None (Some node).
Lemma row_in_range id node : times_in_range (row id node).
Proof. split_and!; [vm_compute; split; discriminate..|done|done]. Qed.
Definition restarted : Node :=
  new_node config (MemoryVmm.mk {["sb-1"%string; "stray"%string]} ∅)
    (InMemoryStore.mk {["sb-1"%string := row "sb-1" "node-1"; "sb-9"%string := row "sb-9" "node-2"]} ∅ ∅)
    (manager_new, []) [hello; Frame.Pong].

Example restarted_outcome :
  elements (MemoryVmm.machines (n_vm (reconcile_from_store config restarted).1)) = ["sb-1"%string] ∧
  dom (sandboxes (reconcile_from_store config restarted).1) = {["sb-1"%string]}.
Proof. vm_compute. split; reflexivity. Qed.

(** A round of recovery that runs between two steps of a creation, after the row is
    written and before the machine exists, marks the new sandbox as failed. *)
Definition half_created : Node := (enter config "sb-1" spec fresh).1.
Example recovery_fails_a_creation :
  Sandbox.status <$> abs (n_sto half_created) !! "sb-1"%string = Some SandboxStatus.Starting ∧
  Sandbox.status <$> abs (n_sto (reconcile_from_store config half_created).1) !! "sb-1"%string
  = Some SandboxStatus.Error.
Proof. vm_compute. split; reflexivity. Qed.
End NodeDemo.
