(* ===== verification/NodeService.v ===== *)
(** * The gRPC service of a node, and its client
    ([crates/clouisled/src/{server,reconciler}.rs], [crates/clouisle-api/src/node_client.rs])

    [NodeServiceImpl] answers the control plane with the operations of a [NodeAgent];
    [GrpcNodeVmm], [ScheduledNodeVmm] and [GrpcAgentConnection] are the control
    plane's side.  The messages are those of [node.proto]; the transport between the
    two is the class [Grpc].  [Reconciler] compares rows with a set of ids that are
    said to run. *)

From S2P Require Import Prelude Core SandboxModel Admission Placement Vmm Proto Digest Json Dns Net Store.
From S2P Require Import Guest GuestAgent FrameClient NodeAgent NodeLaws.

(** ** Messages *)

Module Code.
Inductive t : Set := NotFound | InvalidArgument | ResourceExhausted | FailedPrecondition | Internal.
End Code.
Record Status : Set := status { code : Code.t; status_message : string }.

Record SandboxHandle : Set := sandbox_handle {
  h_sandbox_id : string; h_backend : string; h_pid : Z; h_api_socket : string; h_vsock_socket : string }.

Record ExecRequest : Type := exec_request {
  x_sandbox_id : string; x_argv : list string; x_env : gmap string string; x_cwd : string;
  x_timeout_ms : Z }.
Record ProcessStartMsg : Type := process_start_msg {
  ps_sandbox_id : string; ps_frame_id : string; ps_argv : list string; ps_env : gmap string string;
  ps_cwd : string; ps_timeout_ms : Z; ps_stdin : bool; ps_pty : option (Z * Z) }.

(** [ExecStream.msg]; the [oneof] may be unset. *)
Inductive ExecMsg : Type :=
| MExecReq (r : ExecRequest)
| MStdout (sandbox_id : string) (data : Bytes) (frame_id : string)
| MStderr (sandbox_id : string) (data : Bytes) (frame_id : string)
| MExit (sandbox_id : string) (exit_code : Z) (frame_id : string)
| MProcessStart (r : ProcessStartMsg)
| MProcessStarted (frame_id : string) (pid : Z)
| MProcessInput (frame_id : string) (data : Bytes)
| MProcessEof (frame_id : string)
| MProcessSignal (frame_id : string) (signal : Z)
| MProcessResize (frame_id : string) (cols rows : Z)
| MProcessOk (frame_id : string)
| MUnset.

Inductive FileOp : Type :=
| FWrite (path : string) (content : Bytes) (mode : Z) | FRead (path : string) | FList (path : string)
| FUnset.
Inductive FileResult : Type := RWriteOk (ok : bool) | RContent (b : Bytes) | REntries (l : list DirEntry.t) | RUnset.

(** ** [server.rs] *)

Definition to_status (e : ClouisleError.t) : Status :=
  status match ClouisleError.kind e with
         | ErrorKind.NotFound => Code.NotFound
         | ErrorKind.Validation => Code.InvalidArgument
         | ErrorKind.ResourceExhausted => Code.ResourceExhausted
         | ErrorKind.InvalidState => Code.FailedPrecondition
         | _ => Code.Internal
         end (ClouisleError.message e).

Definition register (node_id : string) : string := if is_empty node_id then "auto" else node_id.

(** [heartbeat]: the first report, or the error of the stream, is waited for; the one
    command that is sent back is empty. *)
Definition heartbeat_rpc {A} (first : string + option A) : Status + list (option ()) :=
  match first with inl e => inl (status Code.Internal e) | inr _ => inr [None] end.

(** [as u8] of an [i32]. *)
Definition as_u8 (z : Z) : Z := z mod 256.

(** [serde_json::from_str] on a spec. *)
Class SpecJson : Type := {
  spec_to_json : SandboxSpec.t → string + string;
  spec_of_json : string → string + SandboxSpec.t }.

Section server.
Context {SM : Semaphore} {ST : Store} {V : Vmm} {DV : Discovery V} {OS : Os} {H : Sha256}
  {C : Chrono} {HO : HashOrder} {K : Sockets} {NE : NodeEnv} {J : SpecJson} (cfg : NodeAgentConfig)
  (patience : nat).

(** What a call of the service comes to: an answer, a status, no answer, or a connection
    that is cut because the handler panicked. *)
Inductive reply (A : Type) : Type := Answer (a : A) | Refused (e : Status) | Unanswered | Cut.
#[global] Arguments Answer {A} a.
#[global] Arguments Refused {A} e.
#[global] Arguments Unanswered {A}.
#[global] Arguments Cut {A}.

Definition serve {A B} (m : stres Node halt A) (f : A → B) (s : Node) : Node * reply B :=
  match m s with
  | (s', Ok a) => (s', Answer (f a))
  | (s', Err (Failed e)) => (s', Refused (to_status e))
  | (s', Err Waiting) => (s', Unanswered)
  | (s', Panic) => (s', Cut)
  end.

Definition create_sandbox_rpc (sandbox_id spec_json : string) (s : Node) : Node * reply SandboxHandle :=
  if is_empty sandbox_id then (s, Refused (status Code.InvalidArgument "sandbox_id is required"))
  else match spec_of_json spec_json with
       | inl e => (s, Refused (status Code.InvalidArgument ("bad spec_json: " +:+ e)))
       | inr spec =>
         serve (create_sandbox_with_id cfg patience sandbox_id spec) (λ sb,
           let m := Sandbox.vmm_meta sb in
           sandbox_handle (Sandbox.id sb) (VmmMeta.backend m) (default 0 (VmmMeta.pid m))
             (default "" (VmmMeta.api_socket m)) (default "" (VmmMeta.vsock_socket m))) s
       end.

(** [DeleteResult]: the error of a deletion that failed. *)
Definition delete_sandbox_rpc (sandbox_id : string) (s : Node) : Node * reply (option string) :=
  match delete_sandbox_here cfg sandbox_id s with
  | (s', Ok _) => (s', Answer None)
  | (s', Err (Failed e)) => (s', Answer (Some (ClouisleError.message e)))
  | (s', Err Waiting) => (s', Unanswered)
  | (s', Panic) => (s', Cut)
  end.

Definition file_frame (op : FileOp) : option Frame.t :=
  match op with
  | FWrite path content mode => Some (Frame.WriteFile path mode content)
  | FRead path => Some (Frame.ReadFile path 0 u64_max)
  | FList path => Some (Frame.ListDir path)
  | FUnset => None
  end.
Definition file_result (f : Frame.t) : option FileResult :=
  match f with
  | Frame.WriteFileResult _ => Some (RWriteOk true)
  | Frame.ReadFileResult _ content => Some (RContent content)
  | Frame.ListDirResult entries => Some (REntries entries)
  | _ => None
  end.
Definition file_op_rpc (sandbox_id : string) (op : FileOp) (s : Node) : Node * reply FileResult :=
  match file_frame op with
  | None => (s, Refused (status Code.InvalidArgument "file operation is required"))
  | Some frame =>
    match serve (file_op sandbox_id frame) file_result s with
    | (s', Answer (Some r)) => (s', Answer r)
    | (s', Answer None) => (s', Refused (status Code.Internal "unexpected guest file response"))
    | (s', Refused e) => (s', Refused e)
    | (s', Unanswered) => (s', Unanswered)
    | (s', Cut) => (s', Cut)
    end
  end.

(** *** [exec]

    The handler reads the messages of the request stream and puts its own answers in
    a channel of 32 places.  The other end of the channel is given to the caller with
    the answer of the handler, so nothing is taken out before the handler is done.
    Pumps that forward the output of started processes put messages in the same
    channel: before the handler's [i]-th send, [noise i] of them. *)
Definition EXEC_CHANNEL : nat := 32.

Definition control_response (frame_id : string) (r : res halt ()) : res () (Status + ExecMsg) :=
  match r with
  | Ok _ => Ok (inr (MProcessOk frame_id))
  | Err (Failed e) => Ok (inl (to_status e))
  | Err Waiting => Err ()
  | Panic => Panic
  end.

Definition opt_cwd (cwd : string) : option string := if is_empty cwd then None else Some cwd.

(** What a message of the request stream asks of the handler. *)
Inductive asked : Type :=
| AskExec (r : ExecRequest)            (* the end of the loop *)
| AskStart (r : ProcessStartMsg)
| AskControl (frame_id : string) (op : ProcessControlOp)
| AskNothing
| AskRefused (e : Status).

Definition ask_of (m : ExecMsg) : asked :=
  match m with
  | MExecReq r => AskExec r
  | MProcessStart r => AskStart r
  | MProcessInput fid data => AskControl fid (OpStdin data)
  | MProcessEof fid => AskControl fid OpStdinEof
  | MProcessSignal fid signal =>
    match ProcessSignal.try_from (as_u8 signal) with
    | Some s => AskControl fid (OpSignal s)
    | None => AskRefused (status Code.InvalidArgument "unsupported signal")
    end
  | MProcessResize fid cols rows => AskControl fid (OpResize (as_u16 cols) (as_u16 rows))
  | _ => AskNothing
  end.

(** The state of the loop: the sandbox of the session, whether a process was started,
    the connections of started processes (for their pumps), what was sent, and how
    many sends of the handler there were. *)
Record session : Type := Session {
  se_sandbox : string;
  se_started : bool;
  se_pumps : list (string * sock);
  se_sent : list (Status + ExecMsg) }.

(** How the handler ends: with a stream, with a status, not at all (a full channel that
    nobody empties, a guest that does not answer, a request stream that stays open), or
    in a panic, which cuts the connection. *)
Inductive exec_end : Type :=
| Streams (se : session) (legacy : option ExecRequest)
| Rejects (e : Status)
| Hangs
| Cuts.

Definition send (noise : nat → nat) (se : session) (m : Status + ExecMsg) : res () session :=
  let before := length (se_sent se) in
  if (before + noise before <? EXEC_CHANNEL)%nat
  then Ok (Session (se_sandbox se) (se_started se) (se_pumps se) (se_sent se ++ [m]))
  else Err ().

Definition handle_message (noise : nat → nat) (se : session) (a : asked) (s : Node)
  : Node * res () session :=
  match a with
  | AskControl fid op =>
    let '(s', r) := process_control (se_sandbox se) fid op s in
    (s', m ← control_response fid r; send noise se m)
  | AskRefused e => (s, send noise se (inl e))
  | AskStart r =>
    let '(s', out) := process_start (ps_sandbox_id r) (ps_frame_id r) (ps_argv r) (ps_env r)
      (opt_cwd (ps_cwd r)) (ps_timeout_ms r) (ps_stdin r)
      ((λ '(c, w), PtyConfig.mk (as_u16 c) (as_u16 w)) <$> ps_pty r) s in
    let se1 := Session (ps_sandbox_id r) (se_started se) (se_pumps se) (se_sent se) in
    (s', match out with
         | Ok (pid, k) =>
           se2 ← send noise se1 (inr (MProcessStarted (ps_frame_id r) pid));
           Ok (Session (se_sandbox se2) true (se_pumps se2 ++ [(ps_frame_id r, k)]) (se_sent se2))
         | Err (Failed e) =>
           se2 ← send noise se1 (inl (to_status e));
           Ok (Session (se_sandbox se2) true (se_pumps se2) (se_sent se2))
         | Err Waiting => Err ()
         | Panic => Panic
         end)
  | AskExec _ | AskNothing => (s, Ok se)
  end.

(** The messages that have come, and how the request stream goes on after them:
    closed, broken, or still open. *)
Inductive stream_end : Set := Closed | Broke (e : string) | StillOpen.

Fixpoint exec_rpc_loop (noise : nat → nat) (msgs : list ExecMsg) (rest : stream_end) (se : session)
    (s : Node) : Node * exec_end :=
  match msgs with
  | [] =>
    (s, match rest with
        | Closed => Streams se None
        | Broke e => Rejects (status Code.Internal e)
        | StillOpen => Hangs
        end)
  | m :: msgs' =>
    match ask_of m with
    | AskExec r =>
      (s, Streams (Session (x_sandbox_id r) (se_started se) (se_pumps se) (se_sent se)) (Some r))
    | a =>
      match handle_message noise se a s with
      | (s', Ok se') => exec_rpc_loop noise msgs' rest se' s'
      | (s', Err _) => (s', Hangs)
      | (s', Panic) => (s', Cuts)
      end
    end
  end.

(** After the loop: without a started process there must be a command to run, whose
    output is forwarded by a task. *)
Definition exec_rpc (noise : nat → nat) (msgs : list ExecMsg) (rest : stream_end) (s : Node)
  : Node * exec_end :=
  match exec_rpc_loop noise msgs rest (Session "" false [] []) s with
  | (s', Streams se None) =>
    (s', if se_started se then Streams se None
         else Rejects (status Code.InvalidArgument "no exec request in stream"))
  | (s', Streams se (Some r)) => (s', Streams se (if se_started se then None else Some r))
  | x => x
  end.

(** The messages the task of a command sends: its output, then the status of a
    failure. *)
Definition event_msg (sandbox_id frame_id : string) (e : NodeExecEvent) : ExecMsg :=
  match e with
  | NodeStdout b => MStdout sandbox_id b frame_id
  | NodeStderr b => MStderr sandbox_id b frame_id
  | NodeExit c => MExit sandbox_id c frame_id
  end.

(** What the task of a command puts in the channel; [None] when it never ends.  A panic
    drops the sender, which ends the stream. *)
Definition exec_task (r : ExecRequest) (sandbox_id : string) (s : Node)
  : Node * option (list (Status + ExecMsg)) :=
  let '(s', (events, how)) := exec_command_stream patience (x_sandbox_id r) (x_argv r) (x_env r)
    (opt_cwd (x_cwd r)) (x_timeout_ms r) (λ _, true) s in
  let out := inr ∘ event_msg sandbox_id "" <$> events in
  (s', match how with
       | Ok _ => Some out
       | Err (Failed e) => Some (out ++ [inl (to_status e)])
       | Err Waiting => None
       | Panic => Some out
       end).

End server.

(** ** [reconciler.rs] *)

Record DriftReport : Set := drift_report {
  dr_node_id : string;
  marked_error : list string;
  orphans_killed : Z;
  status_corrected : list string }.

Section reconciler.
Context {ST : Store} {NE : NodeEnv} (node_id : string) (running : gset string).

(** A row that is the node's and active is set right: [None] when it is. *)
Definition drift (sb : Sandbox.t) : option SandboxStatus.t :=
  if negb (bool_decide (Sandbox.node_id sb = Some node_id)) then None
  else if negb (SandboxStatus.is_active (Sandbox.status sb)) then None
  else if bool_decide (Sandbox.id sb ∈ running) then
    if bool_decide (Sandbox.status sb = SandboxStatus.Running) then None else Some SandboxStatus.Running
  else Some SandboxStatus.Error.

Fixpoint set_right (l : list Sandbox.t) (reads : nat) (st : store) (r : DriftReport)
  : store * DriftReport :=
  match l with
  | [] => (st, r)
  | sb :: l' =>
    match drift sb with
    | None => set_right l' reads st r
    | Some fixed =>
      let st' := (update_sandbox_status (Sandbox.id sb) fixed (wall reads) st).1 in
      set_right l' (S reads) st'
        (if bool_decide (fixed = SandboxStatus.Running)
         then drift_report (dr_node_id r) (marked_error r) (orphans_killed r)
                (status_corrected r ++ [Sandbox.id sb])
         else drift_report (dr_node_id r) (marked_error r ++ [Sandbox.id sb]) (orphans_killed r)
                (status_corrected r))
    end
  end.

(** [kill_orphan] only writes to the log. *)
Definition reconcile (reads : nat) (st : store) : store * DriftReport :=
  let '(st1, r) := list_sandboxes None (wall reads) st in
  let all := match r with Ok l => l | _ => [] end in
  let '(st2, report) := set_right all (S reads) st1 (drift_report node_id [] 0 []) in
  (st2, drift_report (dr_node_id report) (marked_error report)
          (Z.of_nat (size (running ∖ list_to_set (Sandbox.id <$> all)))) (status_corrected report)).
End reconciler.

(** ** [node_client.rs] *)

Definition normalize_grpc_endpoint (endpoint : string) : string :=
  let e := trim endpoint in
  if is_empty e then ""
  else if starts_with "http://" e || starts_with "https://" e then e
  else "http://" +:+ e.

(** The status the transport gives a call whose connection is cut. *)
Class CutCall : Type := { cut_status : Status }.

(** The transport: a connection, and the calls of the service; [None] when the answer
    never comes.  The answer of [exec] is a stream of messages that may end with a
    status. *)
Class Grpc : Type := {
  gw : Type;
  g_connect : string → gw → gw * (string + ());
  g_create : string → string → string → gw → gw * option (Status + SandboxHandle);
  g_delete : string → string → gw → gw * option (Status + option string);
  g_file : string → string → FileOp → gw → gw * option (Status + FileResult);
  g_exec : string → list ExecMsg → gw → gw * option (Status + list (Status + ExecMsg));
  (** The time that reading the answer of the last [exec] to its end took. *)
  g_elapsed_ms : gw → Z;
  (** [Display] of a status. *)
  status_text : Status → string }.

Section client.
Context {G : Grpc} {J : SpecJson} (endpoint : string).

(** A call that connects first; [None] when there is no answer. *)
Definition remote (A : Type) : Type := gw → gw * option (outcome A).
Definition calling {A B} (connecting : string → ClouisleError.t)
    (failing : string) (rpc : gw → gw * option (Status + A)) (k : A → outcome B) : remote B := λ w,
  match g_connect endpoint w with
  | (w1, inl e) => (w1, Some (inl (connecting e)))
  | (w1, inr _) =>
    match rpc w1 with
    | (w2, None) => (w2, None)
    | (w2, Some (inl st)) => (w2, Some (inl (vmm_error (failing +:+ ": " +:+ status_text st))))
    | (w2, Some (inr a)) => (w2, Some (k a))
    end
  end.

Definition connect_node (e : string) : ClouisleError.t := vmm_error ("connect node: " +:+ e).
Definition connect_clouisled (e : string) : ClouisleError.t :=
  vmm_error ("connect clouisled " +:+ endpoint +:+ ": " +:+ e).

(** [GrpcNodeVmm]. *)
Definition handle_from (h : SandboxHandle) : VmHandle.t :=
  VmHandle.mk (h_sandbox_id h) (h_backend h) None
    (if h_pid h =? 0 then None else Some (h_pid h))
    (if is_empty (h_api_socket h) then None else Some (h_api_socket h))
    (if is_empty (h_vsock_socket h) then None else Some (h_vsock_socket h)) None None.

Definition remote_create (id : string) (spec : SandboxSpec.t) : remote VmHandle.t :=
  match spec_to_json spec with
  | inl e => λ w, (w, Some (inl (ClouisleError.validation e)))
  | inr json =>
    calling connect_clouisled "create sandbox on clouisled" (g_create endpoint id json) (λ h,
      if String.eqb (h_sandbox_id h) id then inr (handle_from h)
      else inl (vmm_error ("clouisled returned sandbox id " +:+ h_sandbox_id h +:+ " for requested " +:+ id)))
  end.
Definition remote_stop (h : VmHandle.t) : remote () :=
  calling connect_clouisled "delete sandbox on clouisled" (g_delete endpoint (VmHandle.id h)) (λ r,
    match r with None => inr () | Some e => inl (vmm_error e) end).
Definition remote_probe : remote bool := λ w,
  match g_connect endpoint w with
  | (w1, inl _) => (w1, Some (inr false))
  | (w1, inr _) => (w1, Some (inr true))
  end.

(** What the node protocol does not offer; the sandbox was started with its creation. *)
Definition remote_image_cache_hit (spec : SandboxSpec.t) : outcome bool := inr false.
Definition remote_start (h : VmHandle.t) : outcome () := inr ().
Definition remote_pause (h : VmHandle.t) : outcome () :=
  inl (ClouisleError.invalid_state "remote pause is not exposed by the node protocol").
Definition remote_resume (h : VmHandle.t) : outcome () :=
  inl (ClouisleError.invalid_state "remote resume is not exposed by the node protocol").
Definition remote_snapshot (h : VmHandle.t) (kind : SnapshotKind.t) (out : SnapshotPaths.t) : outcome () :=
  inl (ClouisleError.invalid_state "remote snapshots are not exposed by the node protocol").
Definition remote_restore (id : string) (spec : SandboxSpec.t) (from : SnapshotPaths.t) : outcome VmHandle.t :=
  inl (ClouisleError.invalid_state "remote snapshot restore is not exposed by the node protocol").
Definition remote_stats (h : VmHandle.t) : outcome VmStats.t :=
  inl (ClouisleError.invalid_state "remote VMM statistics are not exposed by the node protocol").

(** [GrpcAgentConnection]. *)
Definition request_of (sandbox_id : string) (argv : list string) (env : gmap string string)
    (cwd : option string) (timeout_ms : Z) : ExecMsg :=
  MExecReq (exec_request sandbox_id argv env (default "" cwd) timeout_ms).

(** The loop over the answer of [exec]. *)
Fixpoint exec_answer (items : list (Status + ExecMsg)) (r : Bytes * Bytes)
  : outcome (Z * Bytes * Bytes) :=
  match items with
  | [] => inl (ClouisleError.io "node exec stream ended before exit")
  | inl st :: _ => inl (vmm_error ("read node exec: " +:+ status_text st))
  | inr m :: items' =>
    match m with
    | MStdout _ data _ => exec_answer items' (r.1 ++ data, r.2)
    | MStderr _ data _ => exec_answer items' (r.1, r.2 ++ data)
    | MExit _ code _ => inr (code, r.1, r.2)
    | _ => inl (ClouisleError.invalid_state "unexpected node exec response")
    end
  end.
Definition remote_exec (sandbox_id : string) (argv : list string) (env : gmap string string)
    (cwd : option string) (timeout_ms : Z) : remote ExecutionResult.t := λ w,
  let '(w', r) := calling connect_node "node exec"
    (g_exec endpoint [request_of sandbox_id argv env cwd timeout_ms]) (λ items, exec_answer items ([], [])) w in
  (w', (λ o, match o with
             | inl e => inl e
             | inr (code, out, err) =>
               inr (ExecutionResult.mk code out err (g_elapsed_ms w'))
             end) <$> r).

(** The same, event by event; [there] says whether the receiver is still there when so
    many have been sent. *)
Fixpoint exec_stream_answer (there : nat → bool) (items : list (Status + ExecMsg))
    (sent : list ExecStreamEvent) : list ExecStreamEvent * outcome () :=
  match items with
  | [] => (sent, inl (ClouisleError.io "node exec stream ended before exit"))
  | inl st :: _ => (sent, inl (vmm_error ("read node exec: " +:+ status_text st)))
  | inr m :: items' =>
    match m with
    | MStdout _ data _ =>
      if there (length sent) then exec_stream_answer there items' (sent ++ [EvStdout data])
      else (sent, inr ())
    | MStderr _ data _ =>
      if there (length sent) then exec_stream_answer there items' (sent ++ [EvStderr data])
      else (sent, inr ())
    | MExit _ code _ => (if there (length sent) then sent ++ [EvExit code] else sent, inr ())
    | _ => (sent, inl (ClouisleError.invalid_state "unexpected node exec response"))
    end
  end.

Definition remote_exec_stream (there : nat → bool) (sandbox_id : string) (argv : list string)
    (env : gmap string string) (cwd : option string) (timeout_ms : Z)
  : gw → gw * (list ExecStreamEvent * option (outcome ())) := λ w,
  match g_connect endpoint w with
  | (w1, inl e) => (w1, ([], Some (inl (connect_node e))))
  | (w1, inr _) =>
    match g_exec endpoint [request_of sandbox_id argv env cwd timeout_ms] w1 with
    | (w2, None) => (w2, ([], None))
    | (w2, Some (inl st)) => (w2, ([], Some (inl (vmm_error ("node exec: " +:+ status_text st)))))
    | (w2, Some (inr items)) =>
      let '(events, o) := exec_stream_answer there items [] in (w2, (events, Some o))
    end
  end.

Definition remote_write_file (sandbox_id path : string) (content : Bytes) (mode : Z) : remote () :=
  calling connect_node "node write file" (g_file endpoint sandbox_id (FWrite path content mode)) (λ r,
    match r with
    | RWriteOk true => inr ()
    | _ => inl (ClouisleError.invalid_state "unexpected node write response")
    end).
Definition remote_read_file (sandbox_id path : string) : remote Bytes :=
  calling connect_node "node read file" (g_file endpoint sandbox_id (FRead path)) (λ r,
    match r with
    | RContent b => inr b
    | _ => inl (ClouisleError.invalid_state "unexpected node read response")
    end).
Definition remote_list_dir (sandbox_id path : string) : remote (list DirEntry.t) :=
  calling connect_node "node list directory" (g_file endpoint sandbox_id (FList path)) (λ r,
    match r with
    | REntries l => inr l
    | _ => inl (ClouisleError.invalid_state "unexpected node list response")
    end).
Definition remote_ping : remote () := λ w,
  match g_connect endpoint w with
  | (w1, inl e) => (w1, Some (inl (connect_node e)))
  | (w1, inr _) => (w1, Some (inr ()))
  end.

(** Limits are not sent to a remote node. *)
Definition remote_apply_limits (pids_max : option Z) : outcome () := inr ().

(** An interactive process: the session that [start_process] leaves. *)
Record GrpcActiveProcess : Type := active_process {
  ap_frame_id : string; ap_rest : option (list (Status + ExecMsg)) }.

(** The search for the acknowledgement in the answer; other messages are skipped. *)
Fixpoint find_ack (frame_id : string) (items : list (Status + ExecMsg)) : outcome (list (Status + ExecMsg)) :=
  match items with
  | [] => inl (ClouisleError.io "node process start stream ended before ack")
  | inl st :: _ => inl (vmm_error ("read node process start: " +:+ status_text st))
  | inr (MProcessStarted fid _) :: items' =>
    if String.eqb fid frame_id then inr items' else find_ack frame_id items'
  | inr _ :: items' => find_ack frame_id items'
  end.

(** [exec_open] is the answer to [exec] while the request stream stays open. *)
Definition remote_start_process (exec_open : list ExecMsg → gw → gw * option (Status + list (Status + ExecMsg)))
    (frame_id sandbox_id : string) (argv : list string) (env : gmap string string)
    (cwd : option string) (timeout_ms : Z) (stdin : bool) (pty : option PtyConfig.t)
  : remote GrpcActiveProcess :=
  match argv with
  | [] => λ w, (w, Some (inl (ClouisleError.validation "argv empty")))
  | _ =>
    calling connect_node "node process start"
      (exec_open [MProcessStart (process_start_msg sandbox_id frame_id argv env (default "" cwd)
                    timeout_ms stdin ((λ p, (PtyConfig.cols p, PtyConfig.rows p)) <$> pty))])
      (λ items, match find_ack frame_id items with
                | inl e => inl e
                | inr rest => inr (active_process frame_id (Some rest))
                end)
  end.

(** The events of the process, from what is left of the answer. *)
Fixpoint process_events (there : nat → bool) (id : string) (items : list (Status + ExecMsg))
    (sent : list ExecStreamEvent) : list ExecStreamEvent * outcome () :=
  match items with
  | [] => (sent, inl (ClouisleError.io "node process stream ended before exit"))
  | inl st :: _ => (sent, inl (vmm_error ("read node process output: " +:+ status_text st)))
  | inr m :: items' =>
    match m with
    | MStdout _ data fid =>
      if String.eqb fid id then
        if there (length sent) then process_events there id items' (sent ++ [EvStdout data]) else (sent, inr ())
      else process_events there id items' sent
    | MStderr _ data fid =>
      if String.eqb fid id then
        if there (length sent) then process_events there id items' (sent ++ [EvStderr data]) else (sent, inr ())
      else process_events there id items' sent
    | MExit _ code fid =>
      if String.eqb fid id then (if there (length sent) then sent ++ [EvExit code] else sent, inr ())
      else process_events there id items' sent
    | _ => process_events there id items' sent
    end
  end.

Definition session_of (session : option GrpcActiveProcess) (process_id : string)
  : outcome GrpcActiveProcess :=
  match session with
  | None => inl (ClouisleError.not_found ("process " +:+ process_id))
  | Some a =>
    if String.eqb (ap_frame_id a) process_id then inr a
    else inl (ClouisleError.not_found ("process " +:+ process_id))
  end.

(** The stream of the session is taken once. *)
Definition remote_stream_events (there : nat → bool) (session : option GrpcActiveProcess)
    (process_id : string) : option GrpcActiveProcess * (list ExecStreamEvent * outcome ()) :=
  match session_of session process_id with
  | inl e => (session, ([], inl e))
  | inr a =>
    match ap_rest a with
    | None => (session, ([], inl (ClouisleError.invalid_state "process stream already consumed")))
    | Some items => (Some (active_process (ap_frame_id a) None), process_events there process_id items [])
    end
  end.

(** The message that [send_stdin], [close_stdin], [send_signal] and [resize_pty]
    queue. *)
Definition control_msg (process_id : string) (op : ProcessControlOp) : ExecMsg :=
  match op with
  | OpStdin b => MProcessInput process_id b
  | OpStdinEof => MProcessEof process_id
  | OpSignal s => MProcessSignal process_id (ProcessSignal.as_i32 s)
  | OpResize c r => MProcessResize process_id c r
  end.
Definition control_label (op : ProcessControlOp) : string :=
  match op with
  | OpStdin _ => "queue node stdin" | OpStdinEof => "queue node stdin eof"
  | OpSignal _ => "queue node signal" | OpResize _ _ => "queue node resize"
  end.
(** [open] says whether the transport still takes messages. *)
Definition remote_control (open : bool) (session : option GrpcActiveProcess) (process_id : string)
    (op : ProcessControlOp) : outcome ExecMsg :=
  match session_of session process_id with
  | inl e => inl e
  | inr _ =>
    if open then inr (control_msg process_id op)
    else inl (ClouisleError.io (control_label op +:+ ": channel closed"))
  end.

End client.

(** [ScheduledNodeVmm::node_for]. *)
Section scheduled.
Context {ST : Store}.

Definition allocation_of (n : RegisteredNode.t) : NodeAllocation.t :=
  NodeAllocation.mk (NodeInfo.node_id (RegisteredNode.info n)) (RegisteredNode.allocated_vcpu n)
    (RegisteredNode.allocated_memory_mb n) (RegisteredNode.running_sandboxes n).

Definition choose_node (nodes : list RegisteredNode.t) (spec : SandboxSpec.t)
  : result RegisteredNode.t :=
  match place (RegisteredNode.info <$> nodes) (allocation_of <$> nodes) spec LeastLoaded with
  | None => Err (ClouisleError.resource_exhausted "no ready node can satisfy sandbox resources")
  | Some selected =>
    match List.find (λ n, String.eqb (NodeInfo.node_id (RegisteredNode.info n))
                            (NodeInfo.node_id selected)) nodes with
    | None => Err (ClouisleError.invalid_state "selected node missing from registry")
    | Some n => Ok n
    end
  end.
Definition node_for (spec : SandboxSpec.t) (now_ms : Z) (st : store)
  : store * result RegisteredNode.t :=
  let '(st', r) := list_ready_nodes (now_ms - 15000) st in
  (st', nodes ← map_err StoreError.into r; choose_node nodes spec).

Context {G : Grpc} {J : SpecJson}.

(** [ScheduledNodeVmm]: the endpoint travels in the backend of the handle. *)
Definition scheduled_create (id : string) (spec : SandboxSpec.t) (now_ms : Z) (sw : store * gw)
  : store * gw * option (outcome VmHandle.t) :=
  match node_for spec now_ms sw.1 with
  | (st, Ok node) =>
    let endpoint := normalize_grpc_endpoint (RegisteredNode.endpoint node) in
    let '(w, r) := remote_create (normalize_grpc_endpoint endpoint) id spec sw.2 in
    (st, w, (λ o, match o with
                  | inl e => inl e
                  | inr h => inr (VmHandle.mk (VmHandle.id h) ("grpc:" +:+ endpoint)
                      (Some (NodeInfo.node_id (RegisteredNode.info node))) (VmHandle.pid h)
                      (VmHandle.api_socket h) (VmHandle.vsock_socket h) (VmHandle.vsock_cid h)
                      (VmHandle.subnet h))
                  end) <$> r)
  | (st, Err e) => (st, sw.2, Some (inl e))
  | (st, Panic) => (st, sw.2, None)
  end.
Definition scheduled_stop (h : VmHandle.t) : remote () :=
  match strip_prefix "grpc:" (VmHandle.backend h) with
  | None => λ w, (w, Some (inl (ClouisleError.invalid_state "missing persisted node endpoint")))
  | Some endpoint => remote_stop (normalize_grpc_endpoint endpoint) h
  end.
Definition scheduled_probe (h : VmHandle.t) : remote bool :=
  match strip_prefix "grpc:" (VmHandle.backend h) with
  | None => λ w, (w, Some (inr false))
  | Some endpoint => remote_probe (normalize_grpc_endpoint endpoint)
  end.

Definition scheduled_pause (h : VmHandle.t) : outcome () :=
  inl (ClouisleError.invalid_state "remote pause unavailable").
Definition scheduled_resume (h : VmHandle.t) : outcome () :=
  inl (ClouisleError.invalid_state "remote resume unavailable").
Definition scheduled_snapshot (h : VmHandle.t) (kind : SnapshotKind.t) (out : SnapshotPaths.t) : outcome () :=
  inl (ClouisleError.invalid_state "remote snapshot unavailable").
Definition scheduled_restore (id : string) (spec : SandboxSpec.t) (from : SnapshotPaths.t) : outcome VmHandle.t :=
  inl (ClouisleError.invalid_state "remote restore unavailable").
Definition scheduled_stats (h : VmHandle.t) : outcome VmStats.t :=
  inl (ClouisleError.invalid_state "remote statistics unavailable").

(** [GrpcAgentConnector::connect_and_hello]: the endpoint the connection uses. *)
Definition grpc_connect_and_hello (fallback : string) (h : VmHandle.t) : remote string :=
  let endpoint := match strip_prefix "grpc:" (VmHandle.backend h) with
                  | Some e => normalize_grpc_endpoint e
                  | None => fallback
                  end in
  if is_empty endpoint
  then λ w, (w, Some (inl (ClouisleError.invalid_state "missing node endpoint")))
  else λ w, match g_connect endpoint w with
            | (w1, inl e) => (w1, Some (inl (connect_node e)))
            | (w1, inr _) => (w1, Some (inr endpoint))
            end.
End scheduled.

(** ** Commands across the two sides *)

Definition is_output (e : NodeExecEvent) : bool := match e with NodeExit _ => false | _ => true end.

Section across.
Context {SM : Semaphore} {ST : Store} {V : Vmm} {DV : Discovery V} {OS : Os} {H : Sha256}
  {C : Chrono} {HO : HashOrder} {K : Sockets} {NE : NodeEnv} {J : SpecJson} {G : Grpc} {CC : CutCall}
  (cfg : NodeAgentConfig) (patience : nat).

(** A stream that ends well ends with the exit, and has no other. *)
Lemma exec_events_shape fuel s id acc n :
  forallb is_output acc = true →
  let '(_, (events, how)) := exec_events fuel s id (λ _, true) acc n in
  match how with
  | Ok _ => ∃ outs c, events = outs ++ [NodeExit c] ∧ forallb is_output outs = true
  | _ => forallb is_output events = true
  end.
Proof.
  revert acc n. induction fuel as [|fuel IH]; intros acc n Ha; simpl; [done|].
  destruct (Client.get s _ n) as [n1 [f|e|]]; [|done..].
  assert (∀ e, is_output e = true → forallb is_output (acc ++ [e]) = true) as Hsnoc.
  { intros e He. rewrite forallb_app. simpl. by rewrite Ha, He. }
  destruct (exec_frame id f) as [e|e|]; [|done..].
  destruct e as [b|b|c]; [by apply IH, Hsnoc..|]. eauto.
Qed.

(** The two streams. *)
Fixpoint stdout_of (l : list NodeExecEvent) : Bytes :=
  match l with [] => [] | NodeStdout b :: l' => b ++ stdout_of l' | _ :: l' => stdout_of l' end.
Fixpoint stderr_of (l : list NodeExecEvent) : Bytes :=
  match l with [] => [] | NodeStderr b :: l' => b ++ stderr_of l' | _ :: l' => stderr_of l' end.

Lemma output_of_exit outs c o x k :
  forallb is_output outs = true →
  output_of (outs ++ [NodeExit c]) (o, x, k) = (o ++ stdout_of outs, x ++ stderr_of outs, c).
Proof.
  revert o x k. induction outs as [|e outs IH]; intros o x k; simpl; [by rewrite !app_nil_r|].
  intros [He Ho]%andb_true_iff. destruct e; [| |done]; rewrite IH by done; by rewrite ?app_assoc.
Qed.

(** What a client makes of the output that comes before the end. *)
Lemma exec_answer_outputs sid outs rest o x :
  forallb is_output outs = true →
  exec_answer ((inr ∘ event_msg sid "" <$> outs) ++ rest) (o, x)
  = exec_answer rest (o ++ stdout_of outs, x ++ stderr_of outs).
Proof.
  revert o x. induction outs as [|e outs IH]; intros o x; simpl; [by rewrite !app_nil_r|].
  intros [He Ho]%andb_true_iff. destruct e; [| |done]; simpl; rewrite IH by done; by rewrite ?app_assoc.
Qed.

(** The node's answer to a request for a command. *)
Definition node_exec (r : ExecRequest) (s : Node) : Node * option (Status + list (Status + ExecMsg)) :=
  match exec_rpc (λ _, 0%nat) [MExecReq r] Closed s with
  | (s1, Streams se (Some r')) =>
    let '(s2, items) := exec_task patience r' (se_sandbox se) s1 in
    (s2, (λ l, inr (se_sent se ++ l)) <$> items)
  | (s1, Streams se None) => (s1, Some (inr (se_sent se)))
  | (s1, Rejects e) => (s1, Some (inl e))
  | (s1, Hangs) => (s1, None)
  | (s1, Cuts) => (s1, Some (inl cut_status))
  end.

Lemma node_exec_stream id argv env cwd t s :
  node_exec (exec_request id argv env cwd t) s
  = let '(s', (events, how)) :=
      exec_command_stream patience id argv env (opt_cwd cwd) t (λ _, true) s in
    let out := inr ∘ event_msg id "" <$> events in
    (s', match how with
         | Ok _ => Some (inr out)
         | Err (Failed e) => Some (inr (out ++ [inl (to_status e)]))
         | Err Waiting => None
         | Panic => Some (inr out)
         end).
Proof.
  unfold node_exec, exec_rpc, exec_task. simpl.
  by destruct (exec_command_stream _ _ _ _ _ _ _ _) as [s' [events [u|[e|]|]]].
Qed.

Lemma exec_stream_shape id argv env cwd t s :
  let '(_, (events, how)) := exec_command_stream patience id argv env cwd t (λ _, true) s in
  match how with
  | Ok _ => ∃ outs c, events = outs ++ [NodeExit c] ∧ forallb is_output outs = true
  | _ => forallb is_output events = true
  end.
Proof.
  unfold exec_command_stream. destruct (open_exec id argv env cwd t s) as [s1 [[k eid]|e|]]; [|done..].
  pose proof (exec_events_shape patience k eid [] (n_wire s1) eq_refl) as Hs.
  by destruct (exec_events _ _ _ _ _ _) as [n [events how]].
Qed.

(** C20: A command that the control plane runs on a remote node gives what the node's
    guest gives.  With a transport that brings the request to the node and the answer
    back, [GrpcAgentConnection::exec] answers exactly the exit code and the two
    output streams that the node read from the guest, in order and complete; an error
    of the node, at any point of the command, becomes an error with the node's
    message; a panic of the node's task ends the stream and becomes an error too; and the
    call waits exactly when the node waits for its guest. *)
Theorem remote_exec_is_node_exec endpoint id argv env cwd t s w w1 w2 :
  cwd ≠ Some ""%string →
  g_connect endpoint w = (w1, inr ()) →
  g_exec endpoint [request_of id argv env cwd t] w1
    = (w2, (node_exec (exec_request id argv env (default "" cwd) t) s).2) →
  let '(_, (events, how)) := exec_command_stream patience id argv env cwd t (λ _, true) s in
  remote_exec endpoint id argv env cwd t w
  = (w2, match how with
         | Ok _ =>
           let '(out, err, code) := output_of events ([], [], 0) in
           Some (inr (ExecutionResult.mk code out err (g_elapsed_ms w2)))
         | Err (Failed e) => Some (inl (vmm_error ("read node exec: " +:+ status_text (to_status e))))
         | Err Waiting => None
         | Panic => Some (inl (ClouisleError.io "node exec stream ended before exit"))
         end).
Proof.
  intros Hcwd Hc He. pose proof (exec_stream_shape id argv env cwd t s) as Hs.
  rewrite node_exec_stream in He.
  assert (opt_cwd (default "" cwd) = cwd) as Ho.
  { unfold opt_cwd, is_empty. destruct cwd as [c|]; [|done]. simpl.
    destruct (String.eqb_spec c ""); [congruence|done]. }
  rewrite Ho in He. unfold remote_exec, calling. rewrite Hc, He.
  destruct (exec_command_stream _ _ _ _ _ _ _ _) as [s' [events [u|[e|]|]]]; simpl; [| |done|].
  - destruct Hs as (outs & c & -> & Hout). rewrite fmap_app, exec_answer_outputs by done.
    by rewrite output_of_exit by done.
  - by rewrite exec_answer_outputs by done.
  - pose proof (exec_answer_outputs id events [] [] [] Hs) as Ha. rewrite app_nil_r in Ha. by rewrite Ha.
Qed.

(** A session of interactive processes gets no answer while its request stream is
    open: the handler returns its answer only when the stream has ended, unless it
    panics. *)
Lemma open_session_is_unanswered noise msgs s :
  Forall (λ m, match m with MExecReq _ => False | _ => True end) msgs →
  (exec_rpc noise msgs StillOpen s).2 = Hangs ∨ (exec_rpc noise msgs StillOpen s).2 = Cuts.
Proof.
  intros Hm. unfold exec_rpc.
  enough (∀ se s, (exec_rpc_loop noise msgs StillOpen se s).2 = Hangs ∨
    (exec_rpc_loop noise msgs StillOpen se s).2 = Cuts) as Hl.
  { specialize (Hl (Session "" false [] []) s). destruct (exec_rpc_loop _ _ _ _ _) as [s' []];
      destruct Hl; try done; simpl; auto. }
  clear s. induction Hm as [|m msgs Hm _ IH]; intros se s; cbn [exec_rpc_loop]; [by left|].
  destruct (ask_of m) eqn:Ha; try (by destruct m; simpl in Ha; repeat case_match);
    destruct (handle_message _ _ _ s) as [s' [se'|[]|]]; simpl; auto.
Qed.

(** So the control plane never learns that a process it starts on a remote node has
    started. *)
Definition answer_open (msgs : list ExecMsg) (s : Node) : option (Status + list (Status + ExecMsg)) :=
  match (exec_rpc (λ _, 0%nat) msgs StillOpen s).2 with
  | Streams se _ => Some (inr (se_sent se))
  | Rejects e => Some (inl e)
  | Hangs => None
  | Cuts => Some (inl cut_status)
  end.
Lemma remote_process_never_starts endpoint exec_open fid id argv env cwd t stdin pty s w w1 :
  argv ≠ [] → g_connect endpoint w = (w1, inr ()) →
  (∀ msgs, (exec_open msgs w1).2 = answer_open msgs s) →
  ∀ p, (remote_start_process endpoint exec_open fid id argv env cwd t stdin pty w).2 ≠ Some (inr p).
Proof.
  intros Hargv Hc Ho p. unfold remote_start_process. destruct argv as [|a argv]; [done|].
  unfold calling. rewrite Hc.
  match goal with |- context [exec_open ?m w1] => specialize (Ho m); unfold answer_open in Ho;
    destruct (open_session_is_unanswered (λ _, 0%nat) m s) as [Hh|Hh]; [by constructor| |];
    rewrite Hh in Ho; destruct (exec_open m w1) end; simpl in Ho; by subst.
Qed.

(** A session whose controls are more than the channel has places for hangs even when
    its request stream ends. *)
Lemma acks_fill_the_channel noise fid rest n se s :
  (EXEC_CHANNEL < length (se_sent se) + n)%nat →
  let x := (exec_rpc_loop noise (replicate n (MProcessEof fid)) rest se s).2 in
  x = Hangs ∨ x = Cuts ∨ (n = 0)%nat.
Proof.
  revert se s. induction n as [|n IH]; intros se s Hn; [by right; right|]. simpl.
  destruct (process_control (se_sandbox se) fid OpStdinEof s) as [s' r].
  destruct (control_response fid r) as [m| |]; simpl; [|by left|by right; left].
  unfold send. destruct (Nat.ltb_spec (length (se_sent se) + noise (length (se_sent se))) EXEC_CHANNEL);
    [|by left]. destruct (IH (Session (se_sandbox se) (se_started se) (se_pumps se) (se_sent se ++ [m])) s')
    as [Hh|[Hh| ->]]; [simpl; rewrite length_app; simpl; lia|by left|by right; left|].
  exfalso. lia.
Qed.

(** An answer of the service as it travels. *)
Definition carried {A} (r : reply A) : option (Status + A) :=
  match r with
  | Answer a => Some (inr a)
  | Refused e => Some (inl e)
  | Unanswered => None
  | Cut => Some (inl cut_status)
  end.

(** A missing file of a remote sandbox: the control plane's connection to a guest
    answers NotFound, the one through a node an error of the machine monitor. *)
Lemma remote_missing_file endpoint id path message code s s1 w w1 w2 :
  file_op id (Frame.ReadFile path 0 u64_max) s
    = (s1, Err (Failed (vmm_error ("guest file operation: " +:+ message)))) →
  g_connect endpoint w = (w1, inr ()) →
  g_file endpoint id (FRead path) w1
    = (w2, carried (file_op_rpc id (FRead path) s).2) →
  code = Code.Internal →
  remote_read_file endpoint id path w
  = (w2, Some (inl (vmm_error ("node read file: "
      +:+ status_text (status code ("guest file operation: " +:+ message)))))).
Proof.
  intros Hf Hc Hg ->. unfold remote_read_file, calling. rewrite Hc, Hg. unfold file_op_rpc, serve. simpl.
  by rewrite Hf.
Qed.
End across.

(** ** Creation across the two sides *)

Section creation.
Context {SM : Semaphore} {SMO : SemaphoreOk SM} {ST : Store} {STO : StoreOk ST} {V : Vmm} {VO : VmmOk V}
  {DV : Discovery V} {OS : Os} {H : Sha256} {C : Chrono} {CO : ChronoOk C} {HO : HashOrder}
  {K : Sockets} {NE : NodeEnv} {NEO : NodeEnvOk NE} {J : SpecJson} {G : Grpc} {CC : CutCall}
  (cfg : NodeAgentConfig) (patience : nat).

(** C7: The control plane is told the truth about a creation on a remote node.  With a
    transport that brings the request to the node and the answer back, a specification that
    survives its JSON form and an id the node does not hold yet, [GrpcNodeVmm::create]
    answers a handle with the requested id only when the node has announced the sandbox,
    with its row, its tables and its machine; it answers an error, with the message of the
    node, when the creation failed, and then the node is rolled back as [rolled_back] says:
    its tables and its free capacity are as before, no machine is left over if a forced stop
    cannot fail, and the only new row, if any, carries that message if the store is up; it
    answers an error of the transport when the handler panicked, after which nothing is
    said of the node; and it waits exactly when the node does. *)
Theorem remote_create_tells_the_truth endpoint id spec json s w w1 w2 :
  good cfg [] s → Resources.well_typed (SandboxSpec.resources spec) → sandboxes s !! id = None →
  id ≠ ""%string → spec_to_json spec = inr json → spec_of_json json = inr spec →
  g_connect endpoint w = (w1, inr ()) →
  g_create endpoint id json w1 = (w2, carried (create_sandbox_rpc cfg patience id json s).2) →
  let s' := (create_sandbox_rpc cfg patience id json s).1 in
  let how := (create_sandbox_with_id cfg patience id spec s).2 in
  let told st := vmm_error ("create sandbox on clouisled: " +:+ status_text st) in
  match remote_create endpoint id spec w with
  | (_, Some (inr h)) => VmHandle.id h = id ∧ ∃ sb, how = Ok sb ∧ announced cfg s id spec sb s'
  | (_, Some (inl e)) =>
    (∃ e', how = Err (Failed e') ∧ rolled_back s id e' s' ∧ e = told (to_status e')) ∨
    how = Panic ∧ e = told cut_status
  | (_, None) => how = Err Waiting
  end.
Proof.
  intros Hg Ht Hf Hid Hj1 Hj2 Hc Hr s' how told. pose proof (create_outcome cfg patience s id spec Hg Ht Hf) as Ho.
  unfold how. clear how. unfold remote_create, calling, s', create_sandbox_rpc, serve in *. rewrite Hj1, Hc, Hr, Hj2.
  unfold is_empty. destruct (String.eqb_spec id ""); [done|].
  destruct (create_sandbox_with_id cfg patience id spec s) as [s1 [sb|[e|]|]]; simpl; [| |done|by right].
  - destruct Ho as [Hi Ho]. rewrite Hi, String.eqb_refl. simpl. split; [done|]. exists sb. by split_and!.
  - left. by exists e.
Qed.
End creation.

(** ** Choosing a node *)

(** By its last heartbeat, the node can take the sandbox. *)
Definition can_take (spec : SandboxSpec.t) (n : RegisteredNode.t) : Prop :=
  NodeInfo.kvm_available (RegisteredNode.info n) = true ∧
  SandboxSpec.node_selector spec ⊆ NodeInfo.labels (RegisteredNode.info n) ∧
  Resources.vcpu (SandboxSpec.resources spec)
  ≤ saturating_sub (NodeInfo.total_vcpu (RegisteredNode.info n)) (RegisteredNode.allocated_vcpu n) ∧
  Resources.memory_mb (SandboxSpec.resources spec)
  ≤ saturating_sub (NodeInfo.total_memory_mb (RegisteredNode.info n)) (RegisteredNode.allocated_memory_mb n).

Abbreviation name_of := (λ n, NodeInfo.node_id (RegisteredNode.info n)).

Lemma find_named nodes n :
  NoDup (name_of <$> nodes) → n ∈ nodes →
  List.find (λ m, String.eqb (name_of m) (name_of n)) nodes = Some n.
Proof.
  intros Hnd Hn. induction nodes as [|m nodes IH]; [by apply elem_of_nil in Hn|]. simpl.
  csimpl in Hnd. apply NoDup_cons in Hnd as [Hm Hnd].
  destruct (String.eqb_spec (name_of m) (name_of n)) as [Heq|Hne].
  - apply elem_of_cons in Hn as [->|Hn]; [done|]. exfalso. apply Hm. rewrite Heq.
    apply list_elem_of_fmap. by exists n.
  - apply elem_of_cons in Hn as [->|Hn]; [done|]. by apply IH.
Qed.

Lemma own_allocation nodes n :
  NoDup (name_of <$> nodes) → n ∈ nodes →
  find_allocation (allocation_of <$> nodes) (RegisteredNode.info n) = Some (allocation_of n).
Proof.
  intros Hnd Hn. pose proof (find_named nodes n Hnd Hn) as Hf. revert Hf. clear.
  unfold find_allocation. induction nodes as [|m nodes IH]; csimpl; [done|].
  change (NodeAllocation.node_id (allocation_of m)) with (name_of m).
  destruct (String.eqb (name_of m) (name_of n)); [by intros [= ->]|apply IH].
Qed.

Lemma can_take_eligible nodes spec n :
  NoDup (name_of <$> nodes) → n ∈ nodes →
  can_take spec n ↔ eligible (allocation_of <$> nodes) spec (RegisteredNode.info n).
Proof.
  intros Hnd Hn. pose proof (own_allocation nodes n Hnd Hn) as Ha. split.
  - intros (H1 & H2 & H3). split; [done|done|]. intros a. rewrite Ha. by intros [= <-].
  - intros [H1 H2 H3]. split; [done|]. split; [done|]. exact (H3 _ Ha).
Qed.

(** C34: The scheduler sends a sandbox to a node that can take it.  Among ready nodes
    with distinct names, the one chosen offers KVM, matches the sandbox's selector
    and, by its last heartbeat, has the processors and the memory free; and an error
    is answered, saying that resources are exhausted, exactly when no ready node is
    like that. *)
Theorem scheduled_node_can_take_it nodes spec :
  NoDup (name_of <$> nodes) →
  match choose_node nodes spec with
  | Ok n => n ∈ nodes ∧ can_take spec n
  | Err e => ClouisleError.kind e = ErrorKind.ResourceExhausted ∧
      ∀ n, n ∈ nodes → ¬ can_take spec n
  | Panic => False
  end.
Proof.
  intros Hnd. unfold choose_node. destruct (place _ _ spec LeastLoaded) as [i|] eqn:Hp.
  - apply place_filtered, elem_of_filter_nodes in Hp as [Hi He].
    apply list_elem_of_fmap in Hi as (n & -> & Hn). rewrite find_named by done.
    split; [done|]. by eapply can_take_eligible.
  - split; [done|]. apply place_nil in Hp. intros n Hn Hc.
    assert (RegisteredNode.info n ∈ filter_nodes (RegisteredNode.info <$> nodes)
      (allocation_of <$> nodes) spec) as Hin.
    { apply elem_of_filter_nodes. split; [by apply list_elem_of_fmap_2|]. by apply can_take_eligible. }
    rewrite Hp in Hin. by apply elem_of_nil in Hin.
Qed.

(** ** A round of reconciliation *)

Section converge.
Context {ST : Store} {SO : StoreOk ST} {SU : StoreUp ST} {NE : NodeEnv} {NO : NodeEnvOk NE}
  (node_id : string) (running : gset string).
Abbreviation strays := (drift node_id running).

(** What a row should be. *)
Definition settle (c : Sandbox.t) : Sandbox.t :=
  match strays c with Some st => set_status st c | None => c end.
Definition strayed (to : SandboxStatus.t) (c : Sandbox.t) : bool := bool_decide (strays c = Some to).

Lemma settled c : strays (settle c) = None.
Proof.
  unfold settle. destruct (strays c) as [st|] eqn:Hd; [|done].
  revert Hd. unfold drift. simpl. repeat case_match; try done; intros [= <-]; simpl in *; try done.
  all: by repeat case_bool_decide.
Qed.
Lemma drift_cases c st : strays c = Some st → st = SandboxStatus.Running ∨ st = SandboxStatus.Error.
Proof. unfold drift. repeat case_match; intros [= <-]; auto. Qed.
Lemma strayed_content to sb : strayed to (content sb) = strayed to sb.
Proof. done. Qed.

Lemma strayed_eq to sb d : strays sb = d → strayed to sb = bool_decide (d = Some to).
Proof. by intros <-. Qed.
Lemma settle_eq sb d :
  strays sb = d → settle (content sb) = match d with Some st => set_status st (content sb) | None => content sb end.
Proof. by intros <-. Qed.

Lemma set_right_report l reads st r :
  let r' := (set_right node_id running l reads st r).2 in
  dr_node_id r' = dr_node_id r ∧
  marked_error r' = marked_error r ++ (Sandbox.id <$> List.filter (strayed SandboxStatus.Error) l) ∧
  status_corrected r' = status_corrected r ++ (Sandbox.id <$> List.filter (strayed SandboxStatus.Running) l).
Proof.
  revert reads st r. induction l as [|sb l IH]; intros reads st r; simpl; [by rewrite !app_nil_r|].
  destruct (strays sb) as [to|] eqn:Hd; rewrite !(strayed_eq _ _ _ Hd); [|apply IH].
  destruct (drift_cases sb to Hd) as [-> | ->]; simpl;
    match goal with |- context [set_right _ _ l ?n ?s ?x] => destruct (IH n s x) as (-> & -> & ->) end;
    simpl; by rewrite <-?app_assoc.
Qed.

Lemma set_right_cons sb l reads st r :
  store_wf st → abs st !! Sandbox.id sb = Some (content sb) →
  ∃ reads' st' r', set_right node_id running (sb :: l) reads st r = set_right node_id running l reads' st' r' ∧
    store_wf st' ∧ abs st' = <[Sandbox.id sb := settle (content sb)]> (abs st).
Proof.
  intros Hwf Hrow. simpl. destruct (strays sb) as [to|] eqn:Hd; rewrite (settle_eq _ _ Hd).
  - pose proof (status_answers (Sandbox.id sb) to (wall reads) st Hwf (wall_in_range reads)) as Hlaw.
    destruct (update_sandbox_status _ _ _ _) as [st1 u]. destruct Hlaw as [Hwf1 Hu].
    unfold updated in Hu. rewrite Hrow in Hu. destruct Hu as [Ha _]. by do 3 eexists.
  - do 3 eexists. split; [done|]. split; [done|]. by rewrite insert_id.
Qed.

(** The rows of the list are settled, one after the other, and no other. *)
Lemma set_right_rows l reads st r :
  store_wf st → NoDup (Sandbox.id <$> l) →
  Forall (λ sb, abs st !! Sandbox.id sb = Some (content sb)) l →
  let st' := (set_right node_id running l reads st r).1 in
  store_wf st' ∧
  ∀ i, abs st' !! i = if decide (i ∈ Sandbox.id <$> l) then settle <$> abs st !! i else abs st !! i.
Proof.
  revert reads st r. induction l as [|sb l IH]; intros reads st r Hwf Hnd Hrows.
  { split; [done|]. intros i. by rewrite decide_False by (by intros ?%elem_of_nil). }
  csimpl in Hnd. apply NoDup_cons in Hnd as [Hsb Hnd]. apply Forall_cons in Hrows as [Hrow Hrows].
  destruct (set_right_cons sb l reads st r Hwf Hrow) as (n & st1 & x & -> & Hwf1 & Ha).
  destruct (IH n st1 x Hwf1 Hnd) as [Hw Hi].
  { rewrite Forall_forall in Hrows |- *. intros sb' Hin. rewrite Ha, lookup_insert_ne; [by apply Hrows|].
    intros Heq. apply Hsb. rewrite Heq. by apply list_elem_of_fmap_2. }
  split; [exact Hw|]. intros i. rewrite Hi, Ha. destruct (decide (i = Sandbox.id sb)) as [->|Hne].
  - rewrite decide_False by done. rewrite decide_True by (by left). by rewrite lookup_insert_eq, Hrow.
  - rewrite lookup_insert_ne by done. csimpl.
    destruct (decide (i ∈ Sandbox.id <$> l)); [rewrite decide_True by (by right)|rewrite decide_False by
      (by rewrite elem_of_cons; intros [?|?])]; done.
Qed.

(** A listing of rows that are stored under their own ids. *)
Lemma listed_once (m : abstract) l :
  map_Forall (λ id c, Sandbox.id c = id) m →
  content <$> l ≡ₚ List.filter (Store.with_status None) (map_to_list m).*2 →
  NoDup (Sandbox.id <$> l) ∧ (∀ i, i ∈ Sandbox.id <$> l ↔ i ∈ dom m) ∧
  Forall (λ sb, m !! Sandbox.id sb = Some (content sb)) l.
Proof.
  intros Hkey Hp.
  assert (Sandbox.id <$> l = Sandbox.id <$> (content <$> l)) as Hid by (by rewrite <-list_fmap_compose).
  assert (Sandbox.id <$> (map_to_list m).*2 = (map_to_list m).*1) as Hfst.
  { rewrite <-list_fmap_compose. apply list_fmap_ext. intros j [i c] Hin%list_elem_of_lookup_2.
    apply elem_of_map_to_list in Hin. exact (Hkey _ _ Hin). }
  assert (Sandbox.id <$> l ≡ₚ (map_to_list m).*1) as Hl.
  { rewrite Hid, Hp, <-Hfst. f_equiv. by rewrite forallb_filter_id by (by apply forallb_forall). }
  split_and!.
  - rewrite Hl. apply NoDup_fst_map_to_list.
  - intros i. rewrite Hl, elem_of_dom. rewrite list_elem_of_fmap. split.
    + intros ([j c] & -> & Hin%elem_of_map_to_list). by exists c.
    + intros [c Hc]. exists (i, c). split; [done|]. by apply elem_of_map_to_list.
  - apply Forall_forall. intros sb Hin.
    destruct (proj1 (listed_rows m l Hp (content sb))) as [i Hi]; [by apply list_elem_of_fmap_2|].
    pose proof (Hkey _ _ Hi) as Hk. simpl in Hk. by rewrite Hk.
Qed.

Lemma reconcile_round reads st :
  store_wf st → map_Forall (λ id c, Sandbox.id c = id) (abs st) →
  let '(st', r) := reconcile node_id running reads st in
  ∃ l, content <$> l ≡ₚ (map_to_list (abs st)).*2 ∧
  store_wf st' ∧ abs st' = settle <$> abs st ∧
  r = drift_report node_id (Sandbox.id <$> List.filter (strayed SandboxStatus.Error) l)
        (Z.of_nat (size (running ∖ dom (abs st))))
        (Sandbox.id <$> List.filter (strayed SandboxStatus.Running) l).
Proof.
  intros Hwf Hkey. unfold reconcile. pose proof (list_answers None (wall reads) st Hwf) as Hlaw.
  destruct (list_sandboxes None (wall reads) st) as [st1 x].
  destruct Hlaw as (Hwf1 & Ha & l & -> & _ & Hp).
  destruct (listed_once (abs st) l Hkey Hp) as (Hnd & Hdom & Hrows).
  pose proof (set_right_rows l (S reads) st1 (drift_report node_id [] 0 []) Hwf1 Hnd) as Hset.
  pose proof (set_right_report l (S reads) st1 (drift_report node_id [] 0 [])) as Hrep.
  destruct (set_right _ _ l _ _ _) as [st2 rep]. simpl in Hset, Hrep.
  destruct Hset as [Hwf2 Hi]; [by rewrite Ha|]. destruct Hrep as (-> & -> & ->).
  exists l. split_and!; [by rewrite Hp, forallb_filter_id by (by apply forallb_forall)|done| |].
  - apply map_eq. intros i. rewrite Hi, Ha, lookup_fmap.
    destruct (decide (i ∈ Sandbox.id <$> l)) as [|Hn]; [done|]. rewrite Hdom in Hn.
    by rewrite (not_elem_of_dom_1 _ _ Hn).
  - f_equal. do 2 f_equal. apply leibniz_equiv. intros i. rewrite !elem_of_difference, elem_of_list_to_set. by rewrite Hdom.
Qed.

Lemma settle_changes c : settle c ≠ c ↔ is_Some (strays c).
Proof.
  unfold settle. destruct (strays c) as [to|] eqn:Hd; [|by split; [|intros [??]]].
  split; [by eexists|]. intros _ Heq%(f_equal Sandbox.status). simpl in Heq. subst to. revert Hd.
  unfold drift. repeat case_match; try done; intros [= Hs]; by rewrite <-Hs in *.
Qed.

Lemma strayed_some c : strayed SandboxStatus.Error c || strayed SandboxStatus.Running c = true ↔ is_Some (strays c).
Proof.
  unfold strayed. rewrite orb_true_iff, !bool_decide_eq_true. split; [by intros [Hd|Hd]; rewrite Hd|].
  intros [to Hd]. rewrite Hd. destruct (drift_cases c to Hd) as [-> | ->]; auto.
Qed.

(** The rows a report names are those that a round changes. *)
Lemma report_names (m : abstract) l i :
  map_Forall (λ id c, Sandbox.id c = id) m → content <$> l ≡ₚ (map_to_list m).*2 →
  i ∈ (Sandbox.id <$> List.filter (strayed SandboxStatus.Error) l)
      ++ (Sandbox.id <$> List.filter (strayed SandboxStatus.Running) l)
  ↔ (settle <$> m) !! i ≠ m !! i.
Proof.
  intros Hkey Hp. rewrite lookup_fmap.
  assert (∀ to, i ∈ Sandbox.id <$> List.filter (strayed to) l ↔
    ∃ c, m !! i = Some c ∧ strayed to c = true) as Hto.
  { intros to. rewrite list_elem_of_fmap. split.
    - intros (sb & -> & Hin). apply list_elem_of_In, filter_In in Hin as [Hin%list_elem_of_In Hs].
      apply (list_elem_of_fmap_2 content) in Hin. rewrite Hp in Hin.
      apply list_elem_of_fmap in Hin as ([j c] & Hc & Hj%elem_of_map_to_list). simpl in Hc. subst c.
      pose proof (Hkey _ _ Hj) as Hk. simpl in Hk. subst j. by exists (content sb).
    - intros (c & Hc & Hs). assert (c ∈ content <$> l) as Hin.
      { rewrite Hp. apply list_elem_of_fmap. exists (i, c). split; [done|]. by apply elem_of_map_to_list. }
      apply list_elem_of_fmap in Hin as (sb & -> & Hin). exists sb.
      split; [by rewrite <-(Hkey _ _ Hc)|]. by apply list_elem_of_In, filter_In; split; [apply list_elem_of_In|]. }
  rewrite elem_of_app, !Hto. destruct (m !! i) as [c|]; [|split; [by intros [(?&?&?)|(?&?&?)]|done]].
  simpl. rewrite (inj_iff Some), settle_changes, <-strayed_some, orb_true_iff. naive_solver.
Qed.

Lemma settle_twice (m : abstract) : settle <$> (settle <$> m) = settle <$> m.
Proof.
  rewrite <-map_fmap_compose. apply map_fmap_ext. intros i c _. simpl. unfold settle at 1. by rewrite settled.
Qed.

(** A round of the reconciler settles every row, and a second one finds nothing to
    do.  After a round, each active row of this node is running if the node runs its
    sandbox and failed if it does not, and every other row is as it was; the report
    names exactly the rows that were changed, and counts the running sandboxes that
    have no row.  The report of the next round names no row. *)
Theorem reconcile_converges reads reads2 st :
  store_wf st → map_Forall (λ id c, Sandbox.id c = id) (abs st) →
  let '(st1, r1) := reconcile node_id running reads st in
  let '(st2, r2) := reconcile node_id running reads2 st1 in
  abs st1 = settle <$> abs st ∧ abs st2 = abs st1 ∧
  (∀ i, i ∈ marked_error r1 ++ status_corrected r1 ↔ abs st1 !! i ≠ abs st !! i) ∧
  marked_error r2 = [] ∧ status_corrected r2 = [] ∧
  orphans_killed r1 = Z.of_nat (size (running ∖ dom (abs st))).
Proof.
  intros Hwf Hkey. pose proof (reconcile_round reads st Hwf Hkey) as H1.
  destruct (reconcile node_id running reads st) as [st1 r1].
  destruct H1 as (l & Hp & Hwf1 & Ha & ->).
  assert (map_Forall (λ id c, Sandbox.id c = id) (abs st1)) as Hkey1.
  { rewrite Ha. intros i c Hc. apply lookup_fmap_Some in Hc as (c0 & <- & Hc0).
    rewrite <-(Hkey _ _ Hc0). unfold settle. by case_match. }
  pose proof (reconcile_round reads2 st1 Hwf1 Hkey1) as H2.
  destruct (reconcile node_id running reads2 st1) as [st2 r2].
  destruct H2 as (l2 & Hp2 & _ & Ha2 & ->). rewrite Ha, settle_twice in Ha2. simpl.
  assert (∀ i, i ∉ (Sandbox.id <$> List.filter (strayed SandboxStatus.Error) l2)
      ++ (Sandbox.id <$> List.filter (strayed SandboxStatus.Running) l2)) as Hnone.
  { intros i. rewrite (report_names (abs st1) l2 i Hkey1 Hp2), Ha, settle_twice. by intros Hne. }
  apply elem_of_nil_inv, app_eq_nil in Hnone as [He Hr].
  split_and!; [done|by rewrite Ha|intros i; by rewrite Ha, <-report_names|done..].
Qed.
End converge.

(** ** A node and its control plane in memory *)

Module ServiceDemo.
#[local] Existing Instances NodeDemo.script NodeDemo.env NodeDemo.env_ok counter_semaphore ToyDigest.digest
  chrono_exact key_order NetDemo.os InMemoryStore.impl NodeDemo.machines NodeDemo.found.
#[local] Instance json : SpecJson :=
  {| spec_to_json _ := inr "{}"%string; spec_of_json _ := inr NodeDemo.spec |}.

#[local] Instance cut : CutCall := {| cut_status := status Code.Internal "connection reset"%string |}.

(** The wire is the node itself. *)
#[local] Instance wire : Grpc := {|
  gw := Node;
  g_connect _ s := (s, inr ());
  g_create _ id j s := let '(s', r) := create_sandbox_rpc NodeDemo.config 5 id j s in (s', carried r);
  g_delete _ id s := let '(s', r) := delete_sandbox_rpc NodeDemo.config id s in (s', carried r);
  g_file _ id op s := let '(s', r) := file_op_rpc id op s in (s', carried r);
  g_exec _ msgs s := match msgs with [MExecReq r] => node_exec 5 r s | _ => (s, None) end;
  g_elapsed_ms _ := 0;
  status_text := status_message |}.

Lemma remote_create_tells_the_truth_witness :
  let s := NodeDemo.fresh in
  let s' := (create_sandbox_rpc NodeDemo.config 5 "sb-1" "{}" s).1 in
  (∃ h, (remote_create "http://n" "sb-1" NodeDemo.spec s).2 = Some (inr h)) ∧
  let how := (create_sandbox_with_id NodeDemo.config 5 "sb-1" NodeDemo.spec s).2 in
  let told st := vmm_error ("create sandbox on clouisled: " +:+ status_text st) in
  match remote_create "http://n" "sb-1" NodeDemo.spec s with
  | (_, Some (inr h)) => VmHandle.id h = "sb-1"%string ∧
      ∃ sb, how = Ok sb ∧ announced NodeDemo.config s "sb-1" NodeDemo.spec sb s'
  | (_, Some (inl e)) =>
    (∃ e', how = Err (Failed e') ∧ rolled_back s "sb-1" e' s' ∧ e = told (to_status e')) ∨
    how = Panic ∧ e = told cut_status
  | (_, None) => how = Err Waiting
  end.
Proof.
  split; [eexists; vm_compute; reflexivity|].
  apply (remote_create_tells_the_truth (G := wire) NodeDemo.config 5 "http://n" "sb-1" NodeDemo.spec "{}" NodeDemo.fresh
    NodeDemo.fresh NodeDemo.fresh (create_sandbox_rpc NodeDemo.config 5 "sb-1" "{}" NodeDemo.fresh).1).
  - apply new_node_good; [vm_compute; split; discriminate|exact NodeDemo.fresh_wf|exact NodeDemo.fresh_rows].
  - apply (bool_decide_unpack _). vm_compute. exact I.
  - reflexivity.
  - discriminate.
  - reflexivity.
  - reflexivity.
  - reflexivity.
  - simpl. by destruct (create_sandbox_rpc _ _ _ _ _).
Defined.

(** A node with a running sandbox whose guest runs a command. *)
Definition talk : list Frame.t :=
  [NodeDemo.hello; Frame.Stdout "exec-1" (String.list_byte_of_string "hi"); Frame.Exited "exec-1" 7].
Definition busy : Node :=
  let s := (create_sandbox_with_id NodeDemo.config 5 "sb-1" NodeDemo.spec NodeDemo.fresh).1 in
  set_wire talk s.

Lemma remote_exec_is_node_exec_witness :
  let r := exec_request "sb-1" ["ls"%string] ∅ "" 1000 in
  let s' := (node_exec 5 r busy).1 in
  (∃ x, (remote_exec "http://n" "sb-1" ["ls"%string] ∅ None 1000 busy).2 = Some (inr x)
    ∧ ExecutionResult.exit_code x = 7) ∧
  let '(_, (events, how)) := exec_command_stream 5 "sb-1" ["ls"%string] ∅ None 1000 (λ _, true) busy in
  remote_exec "http://n" "sb-1" ["ls"%string] ∅ None 1000 busy
  = (s', match how with
         | Ok _ =>
           let '(out, err, code) := output_of events ([], [], 0) in
           Some (inr (ExecutionResult.mk code out err (g_elapsed_ms s')))
         | Err (Failed e) => Some (inl (vmm_error ("read node exec: " +:+ status_text (to_status e))))
         | Err Waiting => None
         | Panic => Some (inl (ClouisleError.io "node exec stream ended before exit"))
         end).
Proof.
  split; [eexists; split; vm_compute; reflexivity|].
  apply (remote_exec_is_node_exec (G := wire) 5 "http://n" "sb-1" ["ls"%string] ∅ None 1000 busy busy busy).
  - discriminate.
  - reflexivity.
  - simpl. by destruct (node_exec _ _ _).
Defined.

Definition registered (name : string) (used : Z) : RegisteredNode.t :=
  RegisteredNode.mk (NodeInfo.mk name "host" 8 16384 1000 true "6.1" "1.10" ∅) "10.0.0.1:7000"
    NodeStatus.Ready 0 used 0 0 [].
Lemma scheduled_node_can_take_it_witness :
  let nodes := [registered "a" 8; registered "b" 2] in
  match choose_node nodes NodeDemo.spec with
  | Ok n => n ∈ nodes ∧ can_take NodeDemo.spec n
  | Err e => ClouisleError.kind e = ErrorKind.ResourceExhausted ∧
      ∀ n, n ∈ nodes → ¬ can_take NodeDemo.spec n
  | Panic => False
  end.
Proof.
  apply (scheduled_node_can_take_it [registered "a" 8; registered "b" 2] NodeDemo.spec).
  apply (bool_decide_unpack _). vm_compute. exact I.
Defined.

Definition rows : store := InMemoryStore.mk
  {["sb-1"%string := NodeDemo.row "sb-1" "node-1"; "sb-2"%string := NodeDemo.row "sb-2" "node-1";
    "sb-9"%string := NodeDemo.row "sb-9" "node-2"]} ∅ ∅.
Lemma reconcile_converges_witness :
  let running : gset string := {["sb-1"%string; "stray"%string]} in
  marked_error (reconcile "node-1" running 0 rows).2 = ["sb-2"%string] ∧
  let '(st1, r1) := reconcile "node-1" running 0 rows in
  let '(st2, r2) := reconcile "node-1" running 9 st1 in
  abs st1 = settle "node-1" running <$> abs rows ∧ abs st2 = abs st1 ∧
  (∀ i, i ∈ marked_error r1 ++ status_corrected r1 ↔ abs st1 !! i ≠ abs rows !! i) ∧
  marked_error r2 = [] ∧ status_corrected r2 = [] ∧
  orphans_killed r1 = Z.of_nat (size (running ∖ dom (abs rows))).
Proof.
  split; [vm_compute; reflexivity|].
  apply (reconcile_converges (ST := InMemoryStore.impl) (NO := NodeDemo.env_ok) "node-1" {["sb-1"%string; "stray"%string]} 0 9 rows).
  - repeat (apply map_Forall_insert_2; [apply NodeDemo.row_in_range|]).
    apply map_Forall_empty.
  - apply (bool_decide_unpack _). vm_compute. exact I.
Defined.
End ServiceDemo.
